(** * gota_study: the element, series and dataframe engine

    A shallow embedding of the Go packages [series] and [dataframe] of the
    repository, followed by the properties of the specification that were
    checked against it.

    Conventions of the embedding
    - a Go [int] is a [Z]; the places where the source can leave the 64-bit
      range are written out ([wrap64]);
    - a Go [float64] is a [spec_float] of the Standard Library at precision 53
      and maximal exponent 1024, with the IEEE operations of [SpecFloat];
    - a Go [string] is a [string] of bytes;
    - a Go [error] is an [option string] holding the message ([None] is [nil]);
    - a run-time panic (index out of range, nil dereference, failed type
      assertion, explicit [panic]) is the [Panic] case of [result];
    - a method with a pointer receiver returns the updated receiver. *)

From Stdlib Require Import ZArith List String Ascii Bool Lia Permutation Sorted.
From Stdlib Require Import Floats.SpecFloat.
From stdpp Require Import base option list gmap strings pretty.

Open Scope string_scope.
Open Scope list_scope.
Open Scope Z_scope.

(** ** Panics *)

Inductive result (A : Type) : Type :=
| Ok (a : A)
| Panic (msg : string).
Arguments Ok {A} a.
Arguments Panic {A} msg.

#[global] Instance result_ret : MRet result := fun A a => Ok a.
#[global] Instance result_bind : MBind result := fun A B f m =>
  match m with
  | Ok a => f a
  | Panic msg => Panic msg
  end.

Definition is_Ok {A} (r : result A) : bool :=
  match r with Ok _ => true | Panic _ => false end.

(** [for _, x := range l] with a body that may panic and threads a state. *)
Fixpoint foldM {A S} (body : S -> A -> result S) (l : list A) (s : S) : result S :=
  match l with
  | [] => Ok s
  | x :: l' => s' ← body s x; foldM body l' s'
  end.

(** A loop that builds a slice, one element per iteration. *)
Fixpoint mapM {A B} (f : A -> result B) (l : list A) : result (list B) :=
  match l with
  | [] => Ok []
  | x :: l' => y ← f x; ys ← mapM f l'; Ok (y :: ys)
  end.

(** [l[i]] for a Go [int] index. *)
Definition index {A} (l : list A) (i : Z) : result A :=
  if i <? 0 then Panic "index out of range"
  else match l !! Z.to_nat i with
       | Some x => Ok x
       | None => Panic "index out of range"
       end.

(** [len(l)] as a Go [int]. *)
Definition len {A} (l : list A) : Z := Z.of_nat (length l).

(** The indexes [lo, lo+1, ..., hi-1] of [for i := lo; i < hi; i++]. *)
Definition range (lo hi : Z) : list Z := seqZ lo (hi - lo).

(** ** Errors *)

Definition error : Type := option string.
Definition fmt_Errorf (msg : string) : error := Some msg.

(** [%v] of an error inside a message. *)
Definition error_text (e : error) : string :=
  match e with
  | Some m => m
  | None => "<nil>"
  end.

(** ** Machine integers and floats *)

Definition minInt64 : Z := - 2 ^ 63.
Definition maxInt64 : Z := 2 ^ 63 - 1.

Definition wrap64 (z : Z) : Z := (z + 2 ^ 63) mod 2 ^ 64 - 2 ^ 63.

Definition float64 : Type := spec_float.
Definition prec : Z := 53.
Definition emax : Z := 1024.

Definition f64_add : float64 -> float64 -> float64 := SFadd prec emax.
Definition f64_sub : float64 -> float64 -> float64 := SFsub prec emax.
Definition f64_mul : float64 -> float64 -> float64 := SFmul prec emax.
Definition f64_div : float64 -> float64 -> float64 := SFdiv prec emax.
Definition f64_sqrt : float64 -> float64 := SFsqrt prec emax.

(** The Go comparison operators on [float64]. *)
Definition f64_eq (x y : float64) : bool := SFeqb x y.
Definition f64_ne (x y : float64) : bool := negb (SFeqb x y).
Definition f64_lt (x y : float64) : bool := SFltb x y.
Definition f64_le (x y : float64) : bool := SFleb x y.
Definition f64_gt (x y : float64) : bool := SFltb y x.
Definition f64_ge (x y : float64) : bool := SFleb y x.

(** [float64(i)] for an [int]: round to nearest, ties to even. *)
Definition f64_of_int (i : Z) : float64 := binary_normalize prec emax i 0 false.

(** [int(f)] for a [float64]: truncation toward zero.  Outside the range of
    [int] the Go specification leaves the result to the implementation; the
    value written here is the one of amd64. *)
Definition int_of_f64 (f : float64) : Z :=
  match f with
  | S754_zero _ => 0
  | S754_finite s m e =>
      let a := if 0 <=? e then Z.pos m * 2 ^ e else Z.pos m / 2 ^ (- e) in
      let v := if s then - a else a in
      if (minInt64 <=? v) && (v <=? maxInt64) then v else minInt64
  | _ => minInt64
  end.

Definition math_NaN : float64 := S754_nan.

Definition math_IsNaN (f : float64) : bool :=
  match f with
  | S754_nan => true
  | _ => false
  end.

Definition math_IsInf (f : float64) (sign : Z) : bool :=
  match f with
  | S754_infinity s => (0 <=? sign) && negb s || (sign <=? 0) && s
  | _ => false
  end.

(** ** Package strconv, strings and fmt: the functions the source calls *)

Definition dquote : string := String (ascii_of_nat 34) EmptyString.

(** The text of a [*strconv.NumError]; the quoting of [s] is exact for the
    strings that need no escape. *)
Definition strconv_NumError (fn s msg : string) : error :=
  Some ("strconv." +:+ fn +:+ ": parsing " +:+ dquote +:+ s +:+ dquote +:+ ": " +:+ msg).

Definition is_digit (c : ascii) : bool :=
  (48 <=? Z.of_N (N_of_ascii c)) && (Z.of_N (N_of_ascii c) <=? 57).

Fixpoint digits_value (s : string) (acc : Z) : option Z :=
  match s with
  | EmptyString => Some acc
  | String c r =>
      if is_digit c then digits_value r (10 * acc + (Z.of_N (N_of_ascii c) - 48))
      else None
  end.

(** [strconv.Atoi]: an optional sign and decimal digits; a syntax error gives
    0, a value out of range the nearest bound, both with an error. *)
Definition strconv_Atoi (s : string) : Z * error :=
  let '(neg, body) :=
    match s with
    | String "-" r => (true, r)
    | String "+" r => (false, r)
    | _ => (false, s)
    end in
  match body with
  | EmptyString => (0, strconv_NumError "Atoi" s "invalid syntax")
  | _ =>
      match digits_value body 0 with
      | None => (0, strconv_NumError "Atoi" s "invalid syntax")
      | Some n =>
          let v := if neg then - n else n in
          if v <? minInt64 then (minInt64, strconv_NumError "Atoi" s "value out of range")
          else if maxInt64 <? v then (maxInt64, strconv_NumError "Atoi" s "value out of range")
          else (v, None)
      end
  end.

(** [strconv.Itoa], also [%d] and [fmt.Sprint] of an [int]. *)
Definition strconv_Itoa (i : Z) : string := pretty i.

Definition lower_ascii (c : ascii) : ascii :=
  let n := N_of_ascii c in
  if ((65 <=? n) && (n <=? 90))%N then ascii_of_N (n + 32) else c.

(** [strings.ToLower], on the ASCII letters.  The source only compares the
    result with the ASCII words [true], [t], [1], [false], [f] and [0], and no
    letter outside ASCII lowers to a letter of those words. *)
Fixpoint strings_ToLower (s : string) : string :=
  match s with
  | EmptyString => EmptyString
  | String c r => String (lower_ascii c) (strings_ToLower r)
  end.

(** [strings.Join]. *)
Fixpoint strings_Join (l : list string) (sep : string) : string :=
  match l with
  | [] => EmptyString
  | [s] => s
  | s :: r => s +:+ sep +:+ strings_Join r sep
  end.

(** ** Library functions taken as parameters

    [strconv.ParseFloat(s, 64)], the fixed-point rendering of a float
    ([strconv.FormatFloat(f, 'f', 6, 64)], which is also what [%f] prints),
    the rendering of a float by [fmt.Sprint] and gonum's
    [stat.Quantile(p, stat.Empirical, x, nil)] live outside the repository;
    the development is parametric in them. *)

Class Extern : Type := {
  strconv_ParseFloat : string -> float64 * error;
  strconv_FormatFloat : float64 -> string;
  fmt_Sprint_float64 : float64 -> string;
  stat_Quantile : float64 -> list float64 -> result float64
}.

(** ** Package sort *)

(** [sort.Stable]: the elements in ascending order of [less], elements that
    tie keeping their original order.  Written as the insertion sort that Go
    runs on short blocks; whenever [less] is a strict weak order every stable
    sort returns this same list. *)
Fixpoint stable_insert {A} (less : A -> A -> bool) (x : A) (l : list A) : list A :=
  match l with
  | [] => [x]
  | y :: l' => if less y x then y :: stable_insert less x l' else x :: y :: l'
  end.

Fixpoint sort_Stable {A} (less : A -> A -> bool) (l : list A) : list A :=
  match l with
  | [] => []
  | x :: l' => stable_insert less x (sort_Stable less l')
  end.

(** [sort.Reverse]: the order with the arguments of [Less] exchanged. *)
Definition sort_Reverse {A} (less : A -> A -> bool) : A -> A -> bool :=
  fun x y => less y x.

(** [sort.Strings]. *)
Definition sort_Strings (l : list string) : list string := sort_Stable String.ltb l.

(** ** Package gonum/stat, with nil weights *)

Definition floats_Sum (x : list float64) : float64 :=
  fold_left f64_add x (S754_zero false).

Definition stat_Mean (x : list float64) : float64 :=
  f64_div (floats_Sum x) (f64_of_int (len x)).

(** The corrected two-pass variance of gonum, divided by [n - 1]. *)
Definition stat_Variance (x : list float64) : float64 :=
  let mean := stat_Mean x in
  let '(ss, compensation) :=
    fold_left (fun '(ss, c) v =>
                 let d := f64_sub v mean in
                 (f64_add ss (f64_mul d d), f64_add c d))
              x (S754_zero false, S754_zero false) in
  let n := f64_of_int (len x) in
  let unnormalised := f64_sub ss (f64_div (f64_mul compensation compensation) n) in
  f64_div unnormalised (f64_sub n (f64_of_int 1)).

Definition stat_StdDev (x : list float64) : float64 := f64_sqrt (stat_Variance x).

(** ** Package series: the data model *)

Module series.

(** [type Type string] with its four constants; [unknown] is any other
    string, the zero value included. *)
Inductive Type_ : Type := String | Int | Float | Bool | unknown.

End series.

(** [type Comparator string]; [comparator_unknown s] is any other string [s]. *)
Inductive Comparator : Type :=
| Eq_ | Neq | Greater | GreaterEq | Less | LessEq | In_ | CompFunc
| comparator_unknown (s : string).

Record stringElement : Type := mk_stringElement { string_e : string; string_nan : bool }.
Record intElement : Type := mk_intElement { int_e : Z; int_nan : bool }.
Record floatElement : Type := mk_floatElement { float_e : float64; float_nan : bool }.
Record boolElement : Type := mk_boolElement { bool_e : bool; bool_nan : bool }.

(** A value of the interface [Element]: one of the four element structs. *)
Inductive Element : Type :=
| E_string (e : stringElement)
| E_int (e : intElement)
| E_float (e : floatElement)
| E_bool (e : boolElement).

(** A value of the interface [Elements]: one of the four slice types, or nil. *)
Inductive Elements : Type :=
| nilElements
| stringElements (l : list stringElement)
| intElements (l : list intElement)
| floatElements (l : list floatElement)
| boolElements (l : list boolElement).

Record Series : Type := mk_Series {
  Name : string;
  elements : Elements;
  t : series.Type_;
  Err : error
}.

(** The Go values that reach an [interface{}] parameter of the package. *)
#[warnings="-register-all"]
Inductive value : Type :=
| v_nil
| v_string (s : string)
| v_int (i : Z)
| v_float64 (f : float64)
| v_bool (b : bool)
| v_Element (e : Element)
| v_strings (l : list string)
| v_ints (l : list Z)
| v_float64s (l : list float64)
| v_bools (l : list bool)
| v_Series (s : Series)
| v_slice (l : list value)          (* a slice of any other element type *)
| v_compFunc (f : Element -> bool)  (* a func(el Element) bool *)
| v_other.                          (* a value of any other type *)

(** ** The element structs *)

Section Elements.
Context {ext : Extern}.

(** *** stringElement *)

Definition stringElement_IsNA (e : stringElement) : bool := string_nan e.

Definition stringElement_String (e : stringElement) : string :=
  if stringElement_IsNA e then "NaN" else string_e e.

Definition stringElement_Int (e : stringElement) : Z * error :=
  if stringElement_IsNA e then (0, fmt_Errorf "can't convert NaN to int")
  else strconv_Atoi (string_e e).

Definition stringElement_Float (e : stringElement) : float64 :=
  if stringElement_IsNA e then math_NaN
  else match strconv_ParseFloat (string_e e) with
       | (f, None) => f
       | (_, Some _) => math_NaN
       end.

Definition stringElement_Bool (e : stringElement) : bool * error :=
  if stringElement_IsNA e then (false, fmt_Errorf "can't convert NaN to bool")
  else
    let l := strings_ToLower (string_e e) in
    if String.eqb l "true" || String.eqb l "t" || String.eqb l "1" then (true, None)
    else if String.eqb l "false" || String.eqb l "f" || String.eqb l "0" then (false, None)
    else (false, fmt_Errorf ("can't convert String " +:+ dquote +:+ string_e e +:+ dquote +:+ " to bool")).

Definition stringElement_Val (e : stringElement) : value :=
  if stringElement_IsNA e then v_nil else v_string (string_e e).

Definition stringElement_Copy (e : stringElement) : stringElement :=
  if stringElement_IsNA e then mk_stringElement EmptyString true
  else mk_stringElement (string_e e) false.

(** *** intElement *)

Definition intElement_IsNA (e : intElement) : bool := int_nan e.

Definition intElement_String (e : intElement) : string :=
  if intElement_IsNA e then "NaN" else strconv_Itoa (int_e e).

Definition intElement_Int (e : intElement) : Z * error :=
  if intElement_IsNA e then (0, fmt_Errorf "can't convert NaN to int")
  else (int_e e, None).

Definition intElement_Float (e : intElement) : float64 :=
  if intElement_IsNA e then math_NaN else f64_of_int (int_e e).

Definition intElement_Bool (e : intElement) : bool * error :=
  if intElement_IsNA e then (false, fmt_Errorf "can't convert NaN to bool")
  else if int_e e =? 1 then (true, None)
  else if int_e e =? 0 then (false, None)
  else (false, fmt_Errorf ("can't convert Int " +:+ dquote +:+ strconv_Itoa (int_e e) +:+ dquote +:+ " to bool")).

Definition intElement_Val (e : intElement) : value :=
  if intElement_IsNA e then v_nil else v_int (int_e e).

Definition intElement_Copy (e : intElement) : intElement :=
  if intElement_IsNA e then mk_intElement 0 true
  else mk_intElement (int_e e) false.

(** *** floatElement *)

Definition floatElement_IsNA (e : floatElement) : bool :=
  if float_nan e || math_IsNaN (float_e e) then true else false.

Definition floatElement_String (e : floatElement) : string :=
  if floatElement_IsNA e then "NaN" else strconv_FormatFloat (float_e e).

Definition floatElement_Int (e : floatElement) : Z * error :=
  if floatElement_IsNA e then (0, fmt_Errorf "无法将 NaN 转换为整数")
  else
    let f := float_e e in
    if math_IsInf f 1 || math_IsInf f (-1) then (0, fmt_Errorf "无法将 Inf 转换为整数")
    else if math_IsNaN f then (0, fmt_Errorf "无法将 NaN 转换为整数")
    else (int_of_f64 f, None).

Definition floatElement_Float (e : floatElement) : float64 :=
  if floatElement_IsNA e then math_NaN else float_e e.

(** The text of [%v] of the float in the last message is left out. *)
Definition floatElement_Bool (e : floatElement) : bool * error :=
  if floatElement_IsNA e then (false, fmt_Errorf "无法将 NaN 转换为布尔值")
  else if f64_eq (float_e e) (f64_of_int 1) then (true, None)
  else if f64_eq (float_e e) (f64_of_int 0) then (false, None)
  else (false, fmt_Errorf "无法将浮点数转换为布尔值").

Definition floatElement_Val (e : floatElement) : value :=
  if floatElement_IsNA e then v_nil else v_float64 (float_e e).

Definition floatElement_Copy (e : floatElement) : floatElement :=
  if floatElement_IsNA e then mk_floatElement (S754_zero false) true
  else mk_floatElement (float_e e) false.

(** *** boolElement *)

Definition boolElement_IsNA (e : boolElement) : bool := bool_nan e.

Definition boolElement_String (e : boolElement) : string :=
  if boolElement_IsNA e then "NaN"
  else if bool_e e then "true" else "false".

Definition boolElement_Int (e : boolElement) : Z * error :=
  if boolElement_IsNA e then (0, fmt_Errorf "can't convert NaN to int")
  else if bool_e e then (1, None) else (0, None).

Definition boolElement_Float (e : boolElement) : float64 :=
  if boolElement_IsNA e then math_NaN
  else if bool_e e then f64_of_int 1 else S754_zero false.

Definition boolElement_Bool (e : boolElement) : bool * error :=
  if boolElement_IsNA e then (false, fmt_Errorf "can't convert NaN to bool")
  else (bool_e e, None).

Definition boolElement_Val (e : boolElement) : value :=
  if boolElement_IsNA e then v_nil else v_bool (bool_e e).

Definition boolElement_Copy (e : boolElement) : boolElement :=
  if boolElement_IsNA e then mk_boolElement false true
  else mk_boolElement (bool_e e) false.

(** *** The interface [Element]: dynamic dispatch *)

Definition Element_IsNA (e : Element) : bool :=
  match e with
  | E_string x => stringElement_IsNA x
  | E_int x => intElement_IsNA x
  | E_float x => floatElement_IsNA x
  | E_bool x => boolElement_IsNA x
  end.

Definition Element_Type (e : Element) : series.Type_ :=
  match e with
  | E_string _ => series.String
  | E_int _ => series.Int
  | E_float _ => series.Float
  | E_bool _ => series.Bool
  end.

Definition Element_String (e : Element) : string :=
  match e with
  | E_string x => stringElement_String x
  | E_int x => intElement_String x
  | E_float x => floatElement_String x
  | E_bool x => boolElement_String x
  end.

Definition Element_Int (e : Element) : Z * error :=
  match e with
  | E_string x => stringElement_Int x
  | E_int x => intElement_Int x
  | E_float x => floatElement_Int x
  | E_bool x => boolElement_Int x
  end.

Definition Element_Float (e : Element) : float64 :=
  match e with
  | E_string x => stringElement_Float x
  | E_int x => intElement_Float x
  | E_float x => floatElement_Float x
  | E_bool x => boolElement_Float x
  end.

Definition Element_Bool (e : Element) : bool * error :=
  match e with
  | E_string x => stringElement_Bool x
  | E_int x => intElement_Bool x
  | E_float x => floatElement_Bool x
  | E_bool x => boolElement_Bool x
  end.

Definition Element_Val (e : Element) : value :=
  match e with
  | E_string x => stringElement_Val x
  | E_int x => intElement_Val x
  | E_float x => floatElement_Val x
  | E_bool x => boolElement_Val x
  end.

Definition Element_Copy (e : Element) : Element :=
  match e with
  | E_string x => E_string (stringElement_Copy x)
  | E_int x => E_int (intElement_Copy x)
  | E_float x => E_float (floatElement_Copy x)
  | E_bool x => E_bool (boolElement_Copy x)
  end.

(** *** Set: the receiver is updated in place; the result is its new state *)

Definition stringElement_Set (e : stringElement) (v : value) : stringElement :=
  match v with
  | v_string val => mk_stringElement val (String.eqb val "NaN")
  | v_int val => mk_stringElement (strconv_Itoa val) false
  | v_float64 val => mk_stringElement (strconv_FormatFloat val) false
  | v_bool b => mk_stringElement (if b then "true" else "false") false
  | v_Element val => mk_stringElement (Element_String val) false
  | _ => mk_stringElement (string_e e) true
  end.

Definition intElement_Set (e : intElement) (v : value) : intElement :=
  match v with
  | v_string val =>
      if String.eqb val "NaN" then mk_intElement (int_e e) true
      else match strconv_Atoi val with
           | (i, None) => mk_intElement i false
           | (_, Some _) => mk_intElement (int_e e) true
           end
  | v_int val => mk_intElement val false
  | v_float64 f =>
      if math_IsNaN f || math_IsInf f 0 || math_IsInf f 1 then mk_intElement (int_e e) true
      else mk_intElement (int_of_f64 f) false
  | v_bool b => mk_intElement (if b then 1 else 0) false
  | v_Element val =>
      match Element_Int val with
      | (i, None) => mk_intElement i false
      | (_, Some _) => mk_intElement (int_e e) true
      end
  | _ => mk_intElement (int_e e) true
  end.

Definition floatElement_Set (e : floatElement) (v : value) : floatElement :=
  match v with
  | v_string val =>
      if String.eqb val "NaN" then mk_floatElement (float_e e) true
      else match strconv_ParseFloat val with
           | (f, None) => mk_floatElement f false
           | (_, Some _) => mk_floatElement (float_e e) true
           end
  | v_int val => mk_floatElement (f64_of_int val) false
  | v_float64 val => mk_floatElement val false
  | v_bool b => mk_floatElement (if b then f64_of_int 1 else S754_zero false) false
  | v_Element val => mk_floatElement (Element_Float val) false
  | _ => mk_floatElement (float_e e) true
  end.

Definition boolElement_Set (e : boolElement) (v : value) : boolElement :=
  match v with
  | v_string val =>
      if String.eqb val "NaN" then mk_boolElement (bool_e e) true
      else
        let l := strings_ToLower val in
        if String.eqb l "true" || String.eqb l "t" || String.eqb l "1" then mk_boolElement true false
        else if String.eqb l "false" || String.eqb l "f" || String.eqb l "0" then mk_boolElement false false
        else mk_boolElement (bool_e e) true
  | v_int val =>
      if val =? 1 then mk_boolElement true false
      else if val =? 0 then mk_boolElement false false
      else mk_boolElement (bool_e e) true
  | v_float64 val =>
      if f64_eq val (f64_of_int 1) then mk_boolElement true false
      else if f64_eq val (f64_of_int 0) then mk_boolElement false false
      else mk_boolElement (bool_e e) true
  | v_bool b => mk_boolElement b false
  | v_Element val =>
      match Element_Bool val with
      | (b, None) => mk_boolElement b false
      | (_, Some _) => mk_boolElement (bool_e e) true
      end
  | _ => mk_boolElement (bool_e e) true
  end.


(** *** The six comparisons *)

Definition stringElement_cmp (op : string -> string -> bool)
    (e : stringElement) (elem : Element) : bool :=
  if stringElement_IsNA e || Element_IsNA elem then false
  else op (string_e e) (Element_String elem).

Definition stringElement_Eq := stringElement_cmp String.eqb.
Definition stringElement_Neq := stringElement_cmp (fun a b => negb (String.eqb a b)).
Definition stringElement_Less := stringElement_cmp String.ltb.
Definition stringElement_LessEq := stringElement_cmp String.leb.
Definition stringElement_Greater := stringElement_cmp (fun a b => String.ltb b a).
Definition stringElement_GreaterEq := stringElement_cmp (fun a b => String.leb b a).

Definition intElement_cmp (op : Z -> Z -> bool) (e : intElement) (elem : Element) : bool :=
  match Element_Int elem with
  | (i, err) =>
      if bool_decide (err <> None) || intElement_IsNA e then false
      else op (int_e e) i
  end.

Definition intElement_Eq := intElement_cmp Z.eqb.
Definition intElement_Neq := intElement_cmp (fun a b => negb (Z.eqb a b)).
Definition intElement_Less := intElement_cmp Z.ltb.
Definition intElement_LessEq := intElement_cmp Z.leb.
Definition intElement_Greater := intElement_cmp Z.gtb.
Definition intElement_GreaterEq := intElement_cmp Z.geb.

Definition floatElement_cmp (op : float64 -> float64 -> bool)
    (e : floatElement) (elem : Element) : bool :=
  let f := Element_Float elem in
  if floatElement_IsNA e || math_IsNaN f then false
  else op (float_e e) f.

Definition floatElement_Eq := floatElement_cmp f64_eq.
Definition floatElement_Neq := floatElement_cmp f64_ne.
Definition floatElement_Less := floatElement_cmp f64_lt.
Definition floatElement_LessEq := floatElement_cmp f64_le.
Definition floatElement_Greater := floatElement_cmp f64_gt.
Definition floatElement_GreaterEq := floatElement_cmp f64_ge.

Definition boolElement_cmp (op : bool -> bool -> bool) (e : boolElement) (elem : Element) : bool :=
  match Element_Bool elem with
  | (b, err) =>
      if bool_decide (err <> None) || boolElement_IsNA e then false
      else op (bool_e e) b
  end.

Definition boolElement_Eq := boolElement_cmp Bool.eqb.
Definition boolElement_Neq := boolElement_cmp (fun a b => negb (Bool.eqb a b)).
Definition boolElement_Less := boolElement_cmp (fun a b => negb a && b).
Definition boolElement_LessEq := boolElement_cmp (fun a b => negb a || b).
Definition boolElement_Greater := boolElement_cmp (fun a b => a && negb b).
Definition boolElement_GreaterEq := boolElement_cmp (fun a b => a || negb b).

Definition Element_Eq (a b : Element) : bool :=
  match a with
  | E_string x => stringElement_Eq x b
  | E_int x => intElement_Eq x b
  | E_float x => floatElement_Eq x b
  | E_bool x => boolElement_Eq x b
  end.

Definition Element_Neq (a b : Element) : bool :=
  match a with
  | E_string x => stringElement_Neq x b
  | E_int x => intElement_Neq x b
  | E_float x => floatElement_Neq x b
  | E_bool x => boolElement_Neq x b
  end.

Definition Element_Less (a b : Element) : bool :=
  match a with
  | E_string x => stringElement_Less x b
  | E_int x => intElement_Less x b
  | E_float x => floatElement_Less x b
  | E_bool x => boolElement_Less x b
  end.

Definition Element_LessEq (a b : Element) : bool :=
  match a with
  | E_string x => stringElement_LessEq x b
  | E_int x => intElement_LessEq x b
  | E_float x => floatElement_LessEq x b
  | E_bool x => boolElement_LessEq x b
  end.

Definition Element_Greater (a b : Element) : bool :=
  match a with
  | E_string x => stringElement_Greater x b
  | E_int x => intElement_Greater x b
  | E_float x => floatElement_Greater x b
  | E_bool x => boolElement_Greater x b
  end.

Definition Element_GreaterEq (a b : Element) : bool :=
  match a with
  | E_string x => stringElement_GreaterEq x b
  | E_int x => intElement_GreaterEq x b
  | E_float x => floatElement_GreaterEq x b
  | E_bool x => boolElement_GreaterEq x b
  end.

End Elements.

(** ** Package series: the Series *)

#[global] Instance result_fmap : FMap result := fun A B f m =>
  match m with
  | Ok a => Ok (f a)
  | Panic msg => Panic msg
  end.

Definition zero_stringElement : stringElement := mk_stringElement EmptyString false.
Definition zero_intElement : intElement := mk_intElement 0 false.
Definition zero_floatElement : floatElement := mk_floatElement (S754_zero false) false.
Definition zero_boolElement : boolElement := mk_boolElement false false.

Definition set_elements (s : Series) (els : Elements) : Series :=
  mk_Series (Name s) els (t s) (Err s).
Definition set_Err (s : Series) (e : error) : Series :=
  mk_Series (Name s) (elements s) (t s) e.
Definition set_Name (s : Series) (n : string) : Series :=
  mk_Series n (elements s) (t s) (Err s).

Section Series.
Context {ext : Extern}.

(** [Len] and [Elem] of the interface [Elements]; a call on the nil interface
    panics. *)
Definition Elements_Len (e : Elements) : result Z :=
  match e with
  | nilElements => Panic "nil pointer dereference"
  | stringElements l => Ok (len l)
  | intElements l => Ok (len l)
  | floatElements l => Ok (len l)
  | boolElements l => Ok (len l)
  end.

Definition Elements_Elem (e : Elements) (i : Z) : result Element :=
  match e with
  | nilElements => Panic "nil pointer dereference"
  | stringElements l => E_string <$> index l i
  | intElements l => E_int <$> index l i
  | floatElements l => E_float <$> index l i
  | boolElements l => E_bool <$> index l i
  end.

(** The elements [Elem(0)], ..., [Elem(Len()-1)] in order. *)
Definition Elements_list (e : Elements) : list Element :=
  match e with
  | nilElements => []
  | stringElements l => map E_string l
  | intElements l => map E_int l
  | floatElements l => map E_float l
  | boolElements l => map E_bool l
  end.

(** [e.Elem(i).Set(v)]: the element at [i] is overwritten in place. *)
Definition Elements_Set (e : Elements) (i : Z) (v : value) : result Elements :=
  match e with
  | nilElements => Panic "nil pointer dereference"
  | stringElements l => x ← index l i; Ok (stringElements (<[Z.to_nat i := stringElement_Set x v]> l))
  | intElements l => x ← index l i; Ok (intElements (<[Z.to_nat i := intElement_Set x v]> l))
  | floatElements l => x ← index l i; Ok (floatElements (<[Z.to_nat i := floatElement_Set x v]> l))
  | boolElements l => x ← index l i; Ok (boolElements (<[Z.to_nat i := boolElement_Set x v]> l))
  end.

Definition Series_Len (s : Series) : result Z := Elements_Len (elements s).
Definition Series_Elem (s : Series) (i : Z) : result Element := Elements_Elem (elements s) i.
Definition Series_Val (s : Series) (i : Z) : result value := Element_Val <$> Series_Elem s i.
Definition Series_Type (s : Series) : series.Type_ := t s.
Definition Series_Error (s : Series) : error := Err s.

(** [preAlloc(n)] followed by [ret.elements.Elem(i).Set(vals[i])] for every
    [i]: each element starts from the zero value of its struct. *)
Definition New_elements (t : series.Type_) (vals : list value) : result Elements :=
  match t with
  | series.String => Ok (stringElements (map (stringElement_Set zero_stringElement) vals))
  | series.Int => Ok (intElements (map (intElement_Set zero_intElement) vals))
  | series.Float => Ok (floatElements (map (floatElement_Set zero_floatElement) vals))
  | series.Bool => Ok (boolElements (map (boolElement_Set zero_boolElement) vals))
  | series.unknown => Panic "unknown type"
  end.

(** [New]: the generic constructor. *)
Definition series_New (values : value) (t : series.Type_) (name : string) : result Series :=
  els ← match values with
        | v_nil => New_elements t [v_nil]
        | v_strings v => New_elements t (map v_string v)
        | v_float64s v => New_elements t (map v_float64 v)
        | v_ints v => New_elements t (map v_int v)
        | v_bools v => New_elements t (map v_bool v)
        | v_Series v =>
            _ ← Elements_Len (elements v);
            New_elements t (map v_Element (Elements_list (elements v)))
        | v_slice v => New_elements t v
        | _ => New_elements t [values]
        end;
  Ok (mk_Series name els t None).

Definition Strings (values : value) : result Series := series_New values series.String EmptyString.
Definition Ints (values : value) : result Series := series_New values series.Int EmptyString.
Definition Floats (values : value) : result Series := series_New values series.Float EmptyString.
Definition Bools (values : value) : result Series := series_New values series.Bool EmptyString.

Definition Series_Empty (s : Series) : result Series :=
  series_New (v_ints []) (t s) (Name s).

(** [Append] has a pointer receiver: the result is the receiver afterwards. *)
Definition Series_Append (s : Series) (values : value) : result Series :=
  match Err s with
  | Some _ => Ok s
  | None =>
      news ← series_New values (t s) (Name s);
      match t s, elements s, elements news with
      | series.String, stringElements a, stringElements b =>
          Ok (set_elements s (stringElements (a ++ b)))
      | series.Int, intElements a, intElements b =>
          Ok (set_elements s (intElements (a ++ b)))
      | series.Float, floatElements a, floatElements b =>
          Ok (set_elements s (floatElements (a ++ b)))
      | series.Bool, boolElements a, boolElements b =>
          Ok (set_elements s (boolElements (a ++ b)))
      | series.unknown, _, _ => Ok s
      | _, _, _ => Panic "interface conversion"
      end
  end.

Definition Series_Copy (s : Series) : result Series :=
  match t s with
  | series.String =>
      _ ← Series_Len s;
      match elements s with
      | stringElements l => Ok (mk_Series (Name s) (stringElements l) (t s) (Err s))
      | _ => Panic "interface conversion"
      end
  | series.Float =>
      _ ← Series_Len s;
      match elements s with
      | floatElements l => Ok (mk_Series (Name s) (floatElements l) (t s) (Err s))
      | _ => Panic "interface conversion"
      end
  | series.Bool =>
      _ ← Series_Len s;
      match elements s with
      | boolElements l => Ok (mk_Series (Name s) (boolElements l) (t s) (Err s))
      | _ => Panic "interface conversion"
      end
  | series.Int =>
      _ ← Series_Len s;
      match elements s with
      | intElements l => Ok (mk_Series (Name s) (intElements l) (t s) (Err s))
      | _ => Panic "interface conversion"
      end
  | series.unknown => Ok (mk_Series (Name s) nilElements (t s) (Err s))
  end.

Definition Series_Concat (s x : Series) : result Series :=
  match Err s with
  | Some _ => Ok s
  | None =>
      match Err x with
      | Some err => Ok (set_Err s (fmt_Errorf ("concat error: argument has errors: " +:+ err)))
      | None => y ← Series_Copy s; Series_Append y (v_Series x)
      end
  end.

Definition Series_HasNaN (s : Series) : result bool :=
  _ ← Series_Len s;
  Ok (existsb Element_IsNA (Elements_list (elements s))).

Definition Series_IsNaN (s : Series) : result (list bool) :=
  _ ← Series_Len s;
  Ok (map Element_IsNA (Elements_list (elements s))).

Definition Series_Records (s : Series) : result (list string) :=
  _ ← Series_Len s;
  Ok (map Element_String (Elements_list (elements s))).

Definition Series_Float (s : Series) : result (list float64) :=
  _ ← Series_Len s;
  Ok (map Element_Float (Elements_list (elements s))).

(** The conversion loops of [Int] and [Bool] stop at the first error. *)
Fixpoint convert_all {A} (conv : Element -> A * error) (l : list Element) : list A * error :=
  match l with
  | [] => ([], None)
  | e :: l' =>
      match conv e with
      | (_, Some err) => ([], Some err)
      | (val, None) =>
          match convert_all conv l' with
          | (_, Some err) => ([], Some err)
          | (vals, None) => (val :: vals, None)
          end
      end
  end.

Definition Series_Int (s : Series) : result (list Z * error) :=
  _ ← Series_Len s;
  Ok (convert_all Element_Int (Elements_list (elements s))).

Definition Series_Bool (s : Series) : result (list bool * error) :=
  _ ← Series_Len s;
  Ok (convert_all Element_Bool (Elements_list (elements s))).

(** The positions of the [true] entries of a mask, counted from [i]. *)
Fixpoint true_positions (bools : list bool) (i : Z) : list Z :=
  match bools with
  | [] => []
  | b :: r => if b then i :: true_positions r (i + 1) else true_positions r (i + 1)
  end.

Definition parseIndexes_bools (l : Z) (bools : list bool) : list Z * error :=
  if negb (len bools =? l) then ([], fmt_Errorf "索引错误: 索引维度不匹配")
  else (true_positions bools 0, None).

(** [parseIndexes]: no bounds check is made. *)
Definition parseIndexes (l : Z) (indexes : value) : result (list Z * error) :=
  match indexes with
  | v_ints idxs => Ok (idxs, None)
  | v_int idxs => Ok ([idxs], None)
  | v_bools bools => Ok (parseIndexes_bools l bools)
  | v_Series s =>
      match Err s with
      | Some err => Ok ([], fmt_Errorf ("索引错误: 新值存在错误: " +:+ err))
      | None =>
          hasNaN ← Series_HasNaN s;
          if (hasNaN : bool) then Ok ([], fmt_Errorf "索引错误: 索引包含 NaN")
          else match t s with
               | series.Int => Series_Int s
               | series.Bool =>
                   r ← Series_Bool s;
                   match r with
                   | (_, Some err) => Ok ([], fmt_Errorf ("索引错误: " +:+ err))
                   | (bools, None) => Ok (parseIndexes_bools l bools)
                   end
               | _ => Ok ([], fmt_Errorf "索引错误: 未知索引模式")
               end
      end
  | _ => Ok ([], fmt_Errorf "索引错误: 未知索引模式")
  end.

(** [Subset]: the type assertion on [s.elements] is made once per index. *)
Definition Series_Subset (s : Series) (indexes : value) : result Series :=
  match Err s with
  | Some _ => Ok s
  | None =>
      l ← Series_Len s;
      r ← parseIndexes l indexes;
      match r with
      | (_, Some err) => Ok (set_Err s (Some err))
      | (idx, None) =>
          els ← match t s with
                | series.String =>
                    stringElements <$>
                      mapM (fun i => match elements s with
                                     | stringElements l => index l i
                                     | _ => Panic "interface conversion"
                                     end) idx
                | series.Int =>
                    intElements <$>
                      mapM (fun i => match elements s with
                                     | intElements l => index l i
                                     | _ => Panic "interface conversion"
                                     end) idx
                | series.Float =>
                    floatElements <$>
                      mapM (fun i => match elements s with
                                     | floatElements l => index l i
                                     | _ => Panic "interface conversion"
                                     end) idx
                | series.Bool =>
                    boolElements <$>
                      mapM (fun i => match elements s with
                                     | boolElements l => index l i
                                     | _ => Panic "interface conversion"
                                     end) idx
                | series.unknown => Panic "unknown series type"
                end;
          Ok (mk_Series (Name s) els (t s) None)
      end
  end.

(** The loop of [Set].  [s] is the receiver with the current content of its
    backing array, [k] the position in [idx]. *)
Fixpoint Series_Set_loop (s newValue : Series) (idx : list Z) (k : Z) : result Series :=
  match idx with
  | [] => Ok s
  | i :: idx' =>
      n ← Series_Len s;
      if (i <? 0) || (n <=? i) then Ok (set_Err s (fmt_Errorf "set error: 索引超出范围"))
      else
        e ← Series_Elem newValue k;
        els ← Elements_Set (elements s) i (v_Element e);
        Series_Set_loop (set_elements s els) newValue idx' (k + 1)
  end.

(** [Set].  The receiver is passed by value but its [elements] is a slice that
    shares its backing array with the caller's Series: every element written
    here is written in the caller's Series too.  The [elements] of the result
    is the content of that shared array when [Set] returns; [newValue] is
    taken not to share it. *)
Definition Series_Set (s : Series) (indexes : value) (newValue : Series) : result Series :=
  match Err s with
  | Some _ => Ok s
  | None =>
      match Err newValue with
      | Some err => Ok (set_Err s (fmt_Errorf ("set error: 参数存在错误: " +:+ err)))
      | None =>
          l ← Series_Len s;
          r ← parseIndexes l indexes;
          match r with
          | (_, Some err) => Ok (set_Err s (Some err))
          | (idx, None) =>
              n ← Series_Len newValue;
              if negb (len idx =? n) then Ok (set_Err s (fmt_Errorf "set error: 维度不匹配"))
              else Series_Set_loop s newValue idx 0
          end
      end
  end.

(** The caller's Series after [s.Set(...)] returned [r]: its own name, type
    and error, and the shared backing array as [Set] left it. *)
Definition Series_after_Set (s r : Series) : Series := set_elements s (elements r).

Definition Comparator_text (c : Comparator) : string :=
  match c with
  | Eq_ => "=="
  | Neq => "!="
  | Greater => ">"
  | GreaterEq => ">="
  | Less => "<"
  | LessEq => "<="
  | In_ => "in"
  | CompFunc => "func"
  | comparator_unknown s => s
  end.

(** The closure [compareElements] of [Compare]. *)
Definition compareElements (a b : Element) (c : Comparator) : bool * error :=
  match c with
  | Eq_ => (Element_Eq a b, None)
  | Neq => (Element_Neq a b, None)
  | Greater => (Element_Greater a b, None)
  | GreaterEq => (Element_GreaterEq a b, None)
  | Less => (Element_Less a b, None)
  | LessEq => (Element_LessEq a b, None)
  | _ => (false, fmt_Errorf ("未知比较器: " +:+ Comparator_text c))
  end.

(** A comparison loop of [Compare]: it stops at the first error. *)
Fixpoint compare_loop (c : Comparator) (pairs : list (Element * Element)) : list bool * error :=
  match pairs with
  | [] => ([], None)
  | (a, b) :: r =>
      match compareElements a b c with
      | (_, Some err) => ([], Some err)
      | (x, None) =>
          match compare_loop c r with
          | (_, Some err) => ([], Some err)
          | (xs, None) => (x :: xs, None)
          end
      end
  end.

(** The exit [s = s.Empty(); s.Err = err; return s]. *)
Definition Compare_fail (s : Series) (err : string) : result Series :=
  e ← Series_Empty s; Ok (set_Err e (Some err)).

Definition Series_Compare (s : Series) (comparator : Comparator) (comparando : value)
    : result Series :=
  match Err s with
  | Some _ => Ok s
  | None =>
      n ← Series_Len s;
      let els := Elements_list (elements s) in
      match comparator with
      | CompFunc =>
          match comparando with
          | v_compFunc f => Bools (v_bools (map f els))
          | _ => Panic "comparando 不是一个 func(el Element) bool 类型的比较函数"
          end
      | _ =>
          comp ← series_New comparando (t s) EmptyString;
          let cels := Elements_list (elements comp) in
          match comparator with
          | In_ => Bools (v_bools (map (fun e => existsb (Element_Eq e) cels) els))
          | _ =>
              match cels with
              | [m] =>
                  match compare_loop comparator (map (fun e => (e, m)) els) with
                  | (_, Some err) => Compare_fail s err
                  | (bools, None) => Bools (v_bools bools)
                  end
              | _ =>
                  if negb (n =? len cels) then Compare_fail s "无法比较: 长度不匹配"
                  else match compare_loop comparator (zip els cels) with
                       | (_, Some err) => Compare_fail s err
                       | (bools, None) => Bools (v_bools bools)
                       end
              end
          end
      end
  end.

(** [indexedElement]: an index with its element. *)
Record indexedElement : Type := mk_indexedElement { ie_index : Z; ie_element : Element }.

(** [indexedElements.Less], on the elements themselves. *)
Definition indexedElements_Less (a b : indexedElement) : bool :=
  Element_Less (ie_element a) (ie_element b).

(** The first loop of [Order]: the non-missing elements with their indexes,
    and the indexes of the missing ones, both in order of appearance. *)
Fixpoint Order_split (l : list Element) (i : Z) : list indexedElement * list Z :=
  match l with
  | [] => ([], [])
  | e :: l' =>
      let '(ie, nasIdx) := Order_split l' (i + 1) in
      if Element_IsNA e then (ie, i :: nasIdx)
      else (mk_indexedElement i e :: ie, nasIdx)
  end.

Definition Series_Order (s : Series) (reverse : bool) : result (list Z) :=
  _ ← Series_Len s;
  let '(ie, nasIdx) := Order_split (Elements_list (elements s)) 0 in
  let srt := if reverse then sort_Reverse indexedElements_Less else indexedElements_Less in
  Ok (map ie_index (sort_Stable srt ie) ++ nasIdx).

Definition is_String (t : series.Type_) : bool :=
  match t with series.String => true | _ => false end.
Definition is_Bool (t : series.Type_) : bool :=
  match t with series.Bool => true | _ => false end.

Definition Series_StdDev (s : Series) : result float64 :=
  x ← Series_Float s; Ok (stat_StdDev x).

Definition Series_Mean (s : Series) : result float64 :=
  x ← Series_Float s; Ok (stat_Mean x).

Definition f64_half : float64 := binary_normalize prec emax 1 (-1) false.

Definition Series_Median (s : Series) : result float64 :=
  n ← Elements_Len (elements s);
  if (n =? 0) || is_String (Series_Type s) || is_Bool (Series_Type s) then Ok math_NaN
  else
    ix ← Series_Order s false;
    newElem ← mapM (Series_Elem s) ix;
    if negb (Z.rem (len newElem) 2 =? 0) then
      e ← index newElem (Z.quot (len newElem) 2);
      Ok (Element_Float e)
    else
      a ← index newElem (Z.quot (len newElem) 2 - 1);
      b ← index newElem (Z.quot (len newElem) 2);
      Ok (f64_mul (f64_add (Element_Float a) (Element_Float b)) f64_half).

Definition Series_Quantile (s : Series) (p : float64) : result float64 :=
  if is_String (Series_Type s) then Ok math_NaN
  else
    n ← Series_Len s;
    if n =? 0 then Ok math_NaN
    else
      ix ← Series_Order s false;
      sub ← Series_Subset s (v_ints ix);
      ordered ← Series_Float sub;
      stat_Quantile p ordered.

Definition Series_Sum (s : Series) : result float64 :=
  n ← Elements_Len (elements s);
  if (n =? 0) || is_String (Series_Type s) || is_Bool (Series_Type s) then Ok math_NaN
  else
    sFloat ← Series_Float s;
    match sFloat with
    | [] => Panic "index out of range"
    | x :: r => Ok (fold_left f64_add r x)
    end.

(** *** Rolling windows *)

Record RollingWindow : Type := mk_RollingWindow { window : Z; rw_series : Series }.

Definition Series_Rolling (s : Series) (window : Z) : RollingWindow :=
  mk_RollingWindow window s.

Definition RollingWindow_getBlocks (r : RollingWindow) : result (list Series) :=
  n ← Series_Len (rw_series r);
  mapM (fun i =>
          if i <? window r then Series_Empty (rw_series r)
          else Series_Subset (rw_series r) (v_ints (range (wrap64 (i - window r)) i)))
       (range 1 (n + 1)).

Definition RollingWindow_Mean (r : RollingWindow) : result Series :=
  s ← series_New (v_float64s []) series.Float "Mean";
  blocks ← RollingWindow_getBlocks r;
  foldM (fun s block => m ← Series_Mean block; Series_Append s (v_float64 m)) blocks s.

Definition RollingWindow_StdDev (r : RollingWindow) : result Series :=
  s ← series_New (v_float64s []) series.Float "StdDev";
  blocks ← RollingWindow_getBlocks r;
  foldM (fun s block => m ← Series_StdDev block; Series_Append s (v_float64 m)) blocks s.

End Series.

(** ** Package dataframe *)

Record DataFrame : Type := mk_DataFrame {
  columns : list Series;
  ncols : Z;
  nrows : Z;
  df_Err : error
}.

(** [DataFrame{Err: err}]. *)
Definition DataFrame_err (err : string) : DataFrame := mk_DataFrame [] 0 0 (Some err).

Definition newline : string := String (ascii_of_nat 10) EmptyString.

(** [%q] of a string, exact for the strings that need no escape. *)
Definition quote (s : string) : string := dquote +:+ s +:+ dquote.

Fixpoint findInStringSlice_from (str : string) (s : list string) (i : Z) : Z :=
  match s with
  | [] => -1
  | e :: s' => if String.eqb e str then i else findInStringSlice_from str s' (i + 1)
  end.

(** [findInStringSlice]: the first position of [str] in [s], or -1. *)
Definition findInStringSlice (str : string) (s : list string) : Z :=
  findInStringSlice_from str s 0.

Definition inIntSlice (i : Z) (is_ : list Z) : bool := existsb (Z.eqb i) is_.

(** *** fixColnames *)

(** The first loop: the positions of the empty names, and for every other
    name the positions that hold it, in increasing order. *)
Fixpoint fixColnames_scan (colnames : list string) (i : nat)
    (dupnamesidx : gmap string (list nat)) (missingnames : list nat)
    : gmap string (list nat) * list nat :=
  match colnames with
  | [] => (dupnamesidx, missingnames)
  | a :: rest =>
      if String.eqb a EmptyString
      then fixColnames_scan rest (S i) dupnamesidx (missingnames ++ [i])
      else fixColnames_scan rest (S i)
             (<[a := default [] (dupnamesidx !! a) ++ [i]]> dupnamesidx) missingnames
  end.

(** The loop [for findInStringSlice(proposedName, colnames) != -1 { counter++ }]:
    the first counter from [counter] on whose name is not in [colnames].  The
    loop is run for at most [fuel] tests; [None] stands for a loop that is
    still running after them. *)
Fixpoint free_counter (fuel : nat) (name : Z -> string) (colnames : list string)
    (counter : Z) : option Z :=
  match fuel with
  | O => None
  | S fuel' =>
      if findInStringSlice (name counter) colnames =? -1 then Some counter
      else free_counter fuel' name colnames (counter + 1)
  end.

(** The renaming of the positions [idx], one after the other, with the names
    [name counter]; the state is the slice and the counter. *)
Fixpoint fixColnames_assign (name : Z -> string) (idx : list nat)
    (colnames : list string) (counter : Z) : option (list string * Z) :=
  match idx with
  | [] => Some (colnames, counter)
  | i :: idx' =>
      match free_counter (S (length colnames)) name colnames counter with
      | None => None
      | Some c => fixColnames_assign name idx' (<[i := name c]> colnames) (c + 1)
      end
  end.

Definition missing_name (counter : Z) : string := "X" +:+ strconv_Itoa counter.

Definition dup_name (name : string) (counter : Z) : string :=
  name +:+ "_" +:+ strconv_Itoa counter.

(** The last loop, over the sorted keys of the map. *)
Fixpoint fixColnames_dups (dupnamesidx : gmap string (list nat)) (keys : list string)
    (colnames : list string) : option (list string) :=
  match keys with
  | [] => Some colnames
  | name :: keys' =>
      let idx := default [] (dupnamesidx !! name) in
      let name' := if String.eqb name EmptyString then "X" else name in
      match fixColnames_assign (dup_name name') idx colnames 0 with
      | None => None
      | Some (colnames', _) => fixColnames_dups dupnamesidx keys' colnames'
      end
  end.

(** [fixColnames]: the slice is modified in place; the result is its final
    content. *)
Definition fixColnames (colnames : list string) : option (list string) :=
  let '(scanned, missingnames) := fixColnames_scan colnames 0 ∅ [] in
  let dupnamesidx := filter (fun kv => (2 <= length (snd kv))%nat) scanned in
  match fixColnames_assign missing_name missingnames colnames 0 with
  | None => None
  | Some (colnames1, _) =>
      let keys := sort_Strings (map fst (map_to_list dupnamesidx)) in
      fixColnames_dups dupnamesidx keys colnames1
  end.

Section DataFrame.
Context {ext : Extern}.

(** [Names]: a slice of [ncols] names filled from the columns. *)
Definition DataFrame_Names (df : DataFrame) : result (list string) :=
  if ncols df <? 0 then Panic "makeslice: len out of range"
  else if ncols df <? len (columns df) then Panic "index out of range"
  else Ok (map Name (columns df)
           ++ replicate (Z.to_nat (ncols df) - length (columns df)) EmptyString).

Definition DataFrame_Nrow (df : DataFrame) : Z := nrows df.
Definition DataFrame_Ncol (df : DataFrame) : Z := ncols df.

(** The loop of [checkColumnsDimensions], from column [i] on. *)
Fixpoint checkColumnsDimensions_loop (se : list Series) (i : Z) (nrows : Z)
    : result (Z * error) :=
  match se with
  | [] => Ok (nrows, None)
  | s :: se' =>
      match Err s with
      | Some e =>
          Ok (nrows, fmt_Errorf ("error on series " +:+ strconv_Itoa i +:+ ": " +:+ e))
      | None =>
          nrows' ← (if nrows =? -1 then Series_Len s else Ok nrows);
          l ← Series_Len s;
          if negb (nrows' =? l) then Ok (nrows', fmt_Errorf "arguments have different dimensions")
          else checkColumnsDimensions_loop se' (i + 1) nrows'
      end
  end.

(** [checkColumnsDimensions]: the result is [(nrows, ncols, err)]. *)
Definition checkColumnsDimensions (se : list Series) : result (Z * Z * error) :=
  if len se =? 0 then Ok (-1, 0, fmt_Errorf "no Series given")
  else
    r ← checkColumnsDimensions_loop se 0 (-1);
    Ok (fst r, len se, snd r).

(** [df.columns[i].Name = colname] for every [i, colname]. *)
Fixpoint set_names (cols : list Series) (colnames : list string) : result (list Series) :=
  match colnames, cols with
  | [], _ => Ok cols
  | n :: colnames', c :: cols' => cs ← set_names cols' colnames'; Ok (set_Name c n :: cs)
  | _ :: _, [] => Panic "index out of range"
  end.

(** The tail shared by the constructors: the names are fixed and written
    back.  The search loops of [fixColnames] always finish (this is proved
    below), so the [None] case is never taken. *)
Definition fix_names (df : DataFrame) : result DataFrame :=
  colnames ← DataFrame_Names df;
  match fixColnames colnames with
  | None => Panic "fixColnames: the search for a free name did not finish"
  | Some colnames' =>
      cols ← set_names (columns df) colnames';
      Ok (mk_DataFrame cols (ncols df) (nrows df) (df_Err df))
  end.

(** [New]. *)
Definition dataframe_New (se : list Series) : result DataFrame :=
  if len se =? 0 then Ok (DataFrame_err "empty DataFrame")
  else
    columns ← mapM Series_Copy se;
    r ← checkColumnsDimensions columns;
    match r with
    | (_, _, Some err) => Ok (DataFrame_err err)
    | (nrows, ncols, None) => fix_names (mk_DataFrame columns ncols nrows None)
    end.

(** [SetNames]: the column names are written through the slice [df.columns],
    whose backing array the receiver shares with the caller's DataFrame.
    The result is the caller's DataFrame afterwards and the error returned. *)
Definition DataFrame_SetNames (df : DataFrame) (colnames : list string)
    : result (DataFrame * error) :=
  match df_Err df with
  | Some e => Ok (df, Some e)
  | None =>
      if negb (len colnames =? ncols df) then Ok (df, fmt_Errorf "设置列名: 维度不匹配")
      else
        cols ← set_names (columns df) colnames;
        Ok (mk_DataFrame cols (ncols df) (nrows df) (df_Err df), None)
  end.

Definition DataFrame_colIndex (df : DataFrame) (s : string) : result Z :=
  names ← DataFrame_Names df;
  Ok (findInStringSlice s names).

Definition DataFrame_Elem (df : DataFrame) (r c : Z) : result Element :=
  col ← index (columns df) c; Series_Elem col r.

End DataFrame.

(** *** Joins *)

Section Joins.
Context {ext : Extern}.

(** The key loop the four keyed joins start with: the positions of every key
    in both frames and the messages for the keys that are absent. *)
Definition join_keys (df b : DataFrame) (keys : list string)
    : result (list Z * list Z * list string) :=
  foldM (fun '(iKeysA, iKeysB, errorArr) key =>
           i ← DataFrame_colIndex df key;
           let errorArr :=
             if i <? 0 then errorArr ++ ["在左侧 DataFrame 中找不到键 " +:+ quote key]
             else errorArr in
           j ← DataFrame_colIndex b key;
           let errorArr :=
             if j <? 0 then errorArr ++ ["在右侧 DataFrame 中找不到键 " +:+ quote key]
             else errorArr in
           Ok (iKeysA ++ [i], iKeysB ++ [j], errorArr))
        keys ([], [], []).

(** The positions of [0 .. ncols-1] that are not keys. *)
Definition not_keys (ncols : Z) (iKeys : list Z) : list Z :=
  List.filter (fun i => negb (inIntSlice i iKeys)) (range 0 ncols).

(** [cols[i].Empty()] for every [i] of [is_]. *)
Definition empty_columns (cols : list Series) (is_ : list Z) : result (list Series) :=
  mapM (fun i => c ← index cols i; Series_Empty c) is_.

(** [newCols] as the keyed joins set it up: the left key columns, the left
    columns that are not keys, the right columns that are not keys, all
    empty. *)
Definition join_newCols (df b : DataFrame) (iKeysA iKeysB : list Z) : result (list Series) :=
  k ← empty_columns (columns df) iKeysA;
  a ← empty_columns (columns df) (not_keys (ncols df) iKeysA);
  c ← empty_columns (columns b) (not_keys (ncols b) iKeysB);
  Ok (k ++ a ++ c).

(** The key test of left row [i] against right row [j]. *)
Definition join_match (aCols bCols : list Series) (iKeysA iKeysB : list Z) (i j : Z)
    : result bool :=
  foldM (fun (m : bool) '(ka, kb) =>
           ca ← index aCols ka;
           aElem ← Series_Elem ca i;
           cb ← index bCols kb;
           bElem ← Series_Elem cb j;
           Ok (m && Element_Eq aElem bElem))
        (zip iKeysA iKeysB) true.

(** [cols[k].Elem(r)] for every [k] of [ks]. *)
Definition row_elems (cols : list Series) (ks : list Z) (r : Z) : result (list value) :=
  mapM (fun k => c ← index cols k; e ← Series_Elem c r; Ok (v_Element e)) ks.

(** [newCols[ii].Append(v)] for [ii = 0, 1, ...] and the values in order. *)
Fixpoint append_row (newCols : list Series) (vals : list value) : result (list Series) :=
  match vals, newCols with
  | [], _ => Ok newCols
  | v :: vals', c :: cols' =>
      c' ← Series_Append c v;
      cs ← append_row cols' vals';
      Ok (c' :: cs)
  | _ :: _, [] => Panic "index out of range"
  end.

(** The row a match of left row [i] with right row [j] appends. *)
Definition matched_row (df b : DataFrame) (iKeysA iKeysB : list Z) (i j : Z)
    : result (list value) :=
  k ← row_elems (columns df) iKeysA i;
  a ← row_elems (columns df) (not_keys (ncols df) iKeysA) i;
  c ← row_elems (columns b) (not_keys (ncols b) iKeysB) j;
  Ok (k ++ a ++ c).

(** The row an unmatched left row [i] appends: nil for the right columns. *)
Definition left_padded_row (df b : DataFrame) (iKeysA iKeysB : list Z) (i : Z)
    : result (list value) :=
  k ← row_elems (columns df) iKeysA i;
  a ← row_elems (columns df) (not_keys (ncols df) iKeysA) i;
  Ok (k ++ a ++ map (fun _ => v_nil) (not_keys (ncols b) iKeysB)).

(** The row an unmatched right row [j] appends: the right keys, nil for the
    left columns. *)
Definition right_padded_row (df b : DataFrame) (iKeysA iKeysB : list Z) (j : Z)
    : result (list value) :=
  k ← row_elems (columns b) iKeysB j;
  c ← row_elems (columns b) (not_keys (ncols b) iKeysB) j;
  Ok (k ++ map (fun _ => v_nil) (not_keys (ncols df) iKeysA) ++ c).

(** The inner loop over the right rows for left row [i]: every match appends
    a row; the flag tells whether there was one. *)
Definition match_right_rows (df b : DataFrame) (iKeysA iKeysB : list Z) (i : Z)
    (newCols : list Series) : result (list Series * bool) :=
  foldM (fun '(newCols, matched) j =>
           m ← join_match (columns df) (columns b) iKeysA iKeysB i j;
           if (m : bool) then
             row ← matched_row df b iKeysA iKeysB i j;
             newCols' ← append_row newCols row;
             Ok (newCols', true)
           else Ok (newCols, matched))
        (range 0 (nrows b)) (newCols, false).

(** The body of the loop of [LeftJoin] (and of the first loop of [OuterJoin])
    for left row [i]. *)
Definition LeftJoin_row (df b : DataFrame) (iKeysA iKeysB : list Z)
    (newCols : list Series) (i : Z) : result (list Series) :=
  r ← match_right_rows df b iKeysA iKeysB i newCols;
  let '(newCols', matched) := r in
  if (matched : bool) then Ok newCols'
  else
    row ← left_padded_row df b iKeysA iKeysB i;
    append_row newCols' row.

(** Whether right row [j] matches some left row. *)
Definition right_row_matched (df b : DataFrame) (iKeysA iKeysB : list Z) (j : Z)
    : result bool :=
  foldM (fun (matched : bool) i =>
           m ← join_match (columns df) (columns b) iKeysA iKeysB i j;
           Ok (if (m : bool) then true else matched))
        (range 0 (nrows df)) false.

(** The prologue of the keyed joins; [inl] is the frame returned early. *)
Definition join_setup (df b : DataFrame) (keys : list string)
    : result (DataFrame + (list Z * list Z * list Series)) :=
  if len keys =? 0 then Ok (inl (DataFrame_err "未指定连接键"))
  else
    r ← join_keys df b keys;
    let '(iKeysA, iKeysB, errorArr) := r in
    if negb (len errorArr =? 0) then Ok (inl (DataFrame_err (strings_Join errorArr newline)))
    else
      newCols ← join_newCols df b iKeysA iKeysB;
      Ok (inr (iKeysA, iKeysB, newCols)).

Definition DataFrame_InnerJoin (df b : DataFrame) (keys : list string) : result DataFrame :=
  r ← join_setup df b keys;
  match r with
  | inl e => Ok e
  | inr (iKeysA, iKeysB, newCols) =>
      newCols ← foldM (fun newCols i =>
                         fst <$> match_right_rows df b iKeysA iKeysB i newCols)
                      (range 0 (nrows df)) newCols;
      dataframe_New newCols
  end.

Definition DataFrame_LeftJoin (df b : DataFrame) (keys : list string) : result DataFrame :=
  r ← join_setup df b keys;
  match r with
  | inl e => Ok e
  | inr (iKeysA, iKeysB, newCols) =>
      newCols ← foldM (LeftJoin_row df b iKeysA iKeysB) (range 0 (nrows df)) newCols;
      dataframe_New newCols
  end.

(** [RightJoin] first collects the matches, right row by right row, then
    appends the matched rows and after them the unmatched right rows. *)
Definition DataFrame_RightJoin (df b : DataFrame) (keys : list string) : result DataFrame :=
  r ← join_setup df b keys;
  match r with
  | inl e => Ok e
  | inr (iKeysA, iKeysB, newCols) =>
      found ← foldM (fun '(yesmatched, nonmatched) j =>
                       ms ← foldM (fun ms i =>
                                     m ← join_match (columns df) (columns b) iKeysA iKeysB i j;
                                     Ok (if (m : bool) then ms ++ [(i, j)] else ms))
                                  (range 0 (nrows df)) [];
                       Ok (yesmatched ++ ms,
                           match ms with [] => nonmatched ++ [j] | _ => nonmatched end))
                    (range 0 (nrows b)) ([], []);
      let '(yesmatched, nonmatched) := found in
      newCols ← foldM (fun newCols '(i, j) =>
                         row ← matched_row df b iKeysA iKeysB i j;
                         append_row newCols row)
                      yesmatched newCols;
      newCols ← foldM (fun newCols j =>
                         row ← right_padded_row df b iKeysA iKeysB j;
                         append_row newCols row)
                      nonmatched newCols;
      dataframe_New newCols
  end.

Definition DataFrame_OuterJoin (df b : DataFrame) (keys : list string) : result DataFrame :=
  r ← join_setup df b keys;
  match r with
  | inl e => Ok e
  | inr (iKeysA, iKeysB, newCols) =>
      newCols ← foldM (LeftJoin_row df b iKeysA iKeysB) (range 0 (nrows df)) newCols;
      newCols ← foldM (fun newCols j =>
                         matched ← right_row_matched df b iKeysA iKeysB j;
                         if (matched : bool) then Ok newCols
                         else
                           row ← right_padded_row df b iKeysA iKeysB j;
                           append_row newCols row)
                      (range 0 (nrows b)) newCols;
      dataframe_New newCols
  end.

(** [CrossJoin]: no test of [df.Err] or [b.Err] is made. *)
Definition DataFrame_CrossJoin (df b : DataFrame) : result DataFrame :=
  a ← empty_columns (columns df) (range 0 (ncols df));
  c ← empty_columns (columns b) (range 0 (ncols b));
  newCols ← foldM (fun newCols i =>
                     foldM (fun newCols j =>
                              ra ← row_elems (columns df) (range 0 (ncols df)) i;
                              rb ← row_elems (columns b) (range 0 (ncols b)) j;
                              append_row newCols (ra ++ rb))
                           (range 0 (nrows b)) newCols)
                  (range 0 (nrows df)) (a ++ c);
  dataframe_New newCols.

End Joins.

(** ** An instance of the library parameters

    Used to run the model on concrete inputs.  [ParseFloat_intlit] agrees with
    [strconv.ParseFloat] on the strings made of an optional sign and decimal
    digits and rejects every other string; [FormatFloat_f6] prints six
    decimals, rounding half to even; [Sprint_float64_small] agrees with
    [fmt.Sprint] on the integral floats below a million and prints the other
    floats in fixed point; [Quantile_empirical] follows gonum's empirical
    estimator. *)

Definition ParseFloat_intlit (s : string) : float64 * error :=
  let '(neg, body) :=
    match s with
    | String "-" r => (true, r)
    | String "+" r => (false, r)
    | _ => (false, s)
    end in
  match body with
  | EmptyString => (S754_zero false, strconv_NumError "ParseFloat" s "invalid syntax")
  | _ =>
      match digits_value body 0 with
      | None => (S754_zero false, strconv_NumError "ParseFloat" s "invalid syntax")
      | Some n =>
          let f := binary_normalize prec emax (if neg then - n else n) 0 neg in
          if math_IsInf f 0 then (f, strconv_NumError "ParseFloat" s "value out of range")
          else (f, None)
      end
  end.

Definition pad6 (n : Z) : string :=
  let s := pretty n in
  String.concat EmptyString (replicate (6 - String.length s) "0") +:+ s.

Definition FormatFloat_f6 (f : float64) : string :=
  match f with
  | S754_nan => "NaN"
  | S754_infinity s => if s then "-Inf" else "+Inf"
  | S754_zero s => (if s then "-" else EmptyString) +:+ "0.000000"
  | S754_finite s m e =>
      let scaled :=
        if 0 <=? e then Z.pos m * 2 ^ e * 10 ^ 6
        else
          let d := 2 ^ (- e) in
          let n := Z.pos m * 10 ^ 6 in
          let q := n / d in
          let r := n mod d in
          if 2 * r <? d then q
          else if d <? 2 * r then q + 1
          else if Z.even q then q else q + 1 in
      (if s then "-" else EmptyString)
        +:+ pretty (scaled / 10 ^ 6) +:+ "." +:+ pad6 (scaled mod 10 ^ 6)
  end.

Fixpoint floats_sorted (x : list float64) : bool :=
  match x with
  | a :: (b :: _) as r => negb (f64_lt b a) && floats_sorted r
  | _ => true
  end.

Fixpoint empirical_loop (fidx cumsum : float64) (x : list float64) : result float64 :=
  match x with
  | [] => Panic "impossible"
  | v :: r =>
      let cumsum := f64_add cumsum (f64_of_int 1) in
      if f64_ge cumsum fidx then Ok v else empirical_loop fidx cumsum r
  end.

Definition Quantile_empirical (p : float64) (x : list float64) : result float64 :=
  if negb (f64_ge p (S754_zero false) && f64_le p (f64_of_int 1))
  then Panic "stat: percentile out of bounds"
  else if len x =? 0 then Panic "stat: zero length slice"
  else if existsb math_IsNaN x then Ok math_NaN
  else if negb (floats_sorted x) then Panic "x data are not sorted"
  else empirical_loop (f64_mul p (f64_of_int (len x))) (S754_zero false) x.

Definition Sprint_float64_small (f : float64) : string :=
  match f with
  | S754_zero s => if s then "-0" else "0"
  | S754_finite s m e =>
      if (0 <=? e) && (Z.pos m * 2 ^ e <? 1000000)
      then (if s then "-" else EmptyString) +:+ pretty (Z.pos m * 2 ^ e)
      else FormatFloat_f6 f
  | _ => FormatFloat_f6 f
  end.

Definition extern_instance : Extern := {|
  strconv_ParseFloat := ParseFloat_intlit;
  strconv_FormatFloat := FormatFloat_f6;
  fmt_Sprint_float64 := Sprint_float64_small;
  stat_Quantile := Quantile_empirical
|}.


(** *** Loading records and maps, and GroupBy *)

(** The fields of [loadOptions] that the loaders of records read (the others
    configure the CSV reader). *)
Record loadOptions : Type := mk_loadOptions {
  defaultType : series.Type_;
  detectTypes : bool;
  hasHeader : bool;
  names : option (list string);           (* [None] is the nil slice *)
  nanValues : list string;
  types : gmap string series.Type_
}.

Definition LoadOption : Type := loadOptions -> loadOptions.

Definition WithTypes (coltypes : gmap string series.Type_) : LoadOption :=
  fun c => mk_loadOptions (defaultType c) (detectTypes c) (hasHeader c) (names c)
             (nanValues c) coltypes.

Record Groups : Type := mk_Groups {
  groups : option (gmap string DataFrame);   (* [None] is the nil map *)
  g_colnames : list string;
  aggregation : DataFrame;
  g_Err : error
}.

(** [&Groups{Err: err}]. *)
Definition Groups_err (err : string) : Groups :=
  mk_Groups None [] (mk_DataFrame [] 0 0 None) (Some err).

Section GroupBy.
Context {ext : Extern}.

(** [fmt.Sprint] of a value returned by [Val]. *)
Definition fmt_Sprint (v : value) : string :=
  match v with
  | v_string s => s
  | v_int i => strconv_Itoa i
  | v_float64 f => fmt_Sprint_float64 f
  | v_bool b => if b then "true" else "false"
  | _ => "<nil>"
  end.

Definition findType (arr : list string) : series.Type_ * error :=
  let '(hasFloats, hasInts, hasBools, hasStrings) :=
    fold_left
      (fun '(hasFloats, hasInts, hasBools, hasStrings) str =>
         if String.eqb str EmptyString || String.eqb str "NaN"
         then (hasFloats, hasInts, hasBools, hasStrings)
         else match strconv_Atoi str with
              | (_, None) => (hasFloats, true, hasBools, hasStrings)
              | _ =>
                  match strconv_ParseFloat str with
                  | (_, None) => (true, hasInts, hasBools, hasStrings)
                  | _ =>
                      if String.eqb str "true" || String.eqb str "false"
                      then (hasFloats, hasInts, true, hasStrings)
                      else (hasFloats, hasInts, hasBools, true)
                  end
              end)
      arr (false, false, false, false) in
  if (hasStrings : bool) then (series.String, None)
  else if (hasBools : bool) then (series.Bool, None)
  else if (hasFloats : bool) then (series.Float, None)
  else if (hasInts : bool) then (series.Int, None)
  else (series.String, fmt_Errorf "无法检测到类型").

Definition default_loadOptions : loadOptions :=
  mk_loadOptions series.String true true None ["NA"; "NaN"; "<nil>"] ∅.

Definition LoadRecords (records : list (list string)) (options : list LoadOption)
    : result DataFrame :=
  let cfg := fold_left (fun c (o : LoadOption) => o c) options default_loadOptions in
  match records with
  | [] => Ok (DataFrame_err "load records: 空 DataFrame")
  | r0 :: rest =>
      if hasHeader cfg && (len records <=? 1) then Ok (DataFrame_err "load records: 空 DataFrame")
      else
        let early :=
          match names cfg with
          | Some ns =>
              if negb (len ns =? len r0) then
                Some (if len r0 <? len ns then DataFrame_err "load records: 列名过多"
                      else DataFrame_err "load records: 列名不足")
              else None
          | None => None
          end in
        match early with
        | Some e => Ok e
        | None =>
            let headers := if hasHeader cfg then r0 else replicate (length r0) EmptyString in
            let records := if hasHeader cfg then rest else records in
            let headers := match names cfg with Some ns => ns | None => headers end in
            columns ←
              mapM (fun '(i, colname) =>
                      rawcol ← mapM (fun rec =>
                                       x ← index rec i;
                                       Ok (if findInStringSlice x (nanValues cfg) =? -1
                                           then x else "NaN"))
                                    records;
                      let t :=
                        match types cfg !! colname with
                        | Some t => t
                        | None =>
                            if detectTypes cfg then
                              match findType rawcol with
                              | (l, None) => l
                              | _ => defaultType cfg
                              end
                            else defaultType cfg
                        end in
                      series_New (v_strings rawcol) t colname)
                   (zip (seqZ 0 (len headers)) headers);
            r ← checkColumnsDimensions columns;
            match r with
            | (_, _, Some err) => Ok (DataFrame_err err)
            | (nrows, ncols, None) => fix_names (mk_DataFrame columns ncols nrows None)
            end
        end
  end.

(** [LoadMaps]: the column names are the keys of all the maps, sorted. *)
Definition LoadMaps (maps : list (gmap string value)) (options : list LoadOption)
    : result DataFrame :=
  if len maps =? 0 then Ok (DataFrame_err "load maps: 空数组")
  else
    let colnames :=
      sort_Strings (stdpp.base.elements
                      (fold_left (fun (acc : gset string) m => acc ∪ dom m) maps ∅)) in
    let records :=
      colnames ::
      map (fun m : gmap string value =>
             map (fun colname =>
                    match m !! colname with
                    | Some val => fmt_Sprint val
                    | None => EmptyString
                    end)
                 colnames)
          maps in
    LoadRecords records options.

(** [Maps]: one map from column name to value per row. *)
Definition DataFrame_Maps (df : DataFrame) : result (list (gmap string value)) :=
  if nrows df <? 0 then Panic "makeslice: len out of range"
  else
    colnames ← DataFrame_Names df;
    mapM (fun i =>
            foldM (fun (m : gmap string value) '(k, v) =>
                     c ← index (columns df) k;
                     val ← Series_Val c i;
                     Ok (<[v := val]> m))
                  (zip (seqZ 0 (len colnames)) colnames) ∅)
         (range 0 (nrows df)).

(** What [fmt.Sprintf] prints for a key value under the verb that [GroupBy]
    picks for its type ([%s] for a string or a bool, [%d] for an int, [%f]
    for a float); [None] when the type is none of these. *)
Definition GroupBy_key_piece (v : option value) : option string :=
  match v with
  | Some (v_string s) => Some s
  | Some (v_bool b) => Some ("%!s(bool=" +:+ (if b then "true" else "false") +:+ ")")
  | Some (v_int i) => Some (strconv_Itoa i)
  | Some (v_float64 f) => Some (strconv_FormatFloat f)
  | _ => None
  end.

Fixpoint GroupBy_key (s : gmap string value) (colnames : list string) (i : Z) (key : string)
    : option string :=
  match colnames with
  | [] => Some key
  | c :: rest =>
      match GroupBy_key_piece (s !! c) with
      | None => None
      | Some p =>
          GroupBy_key s rest (i + 1) (if i =? 0 then key +:+ p else key +:+ "_" +:+ p)
      end
  end.

(** The grouping loop; [None] when a key value has an unsupported type. *)
Fixpoint GroupBy_rows (maps : list (gmap string value)) (colnames : list string)
    (groupSeries : gmap string (list (gmap string value)))
    : option (gmap string (list (gmap string value))) :=
  match maps with
  | [] => Some groupSeries
  | s :: rest =>
      match GroupBy_key s colnames 0 EmptyString with
      | None => None
      | Some key =>
          GroupBy_rows rest colnames
            (<[key := default [] (groupSeries !! key) ++ [s]]> groupSeries)
      end
  end.

(** The first loop: the first name of [colnames] that is not a column. *)
Fixpoint GroupBy_check (df : DataFrame) (colnames : list string) : result (option string) :=
  match colnames with
  | [] => Ok None
  | c :: rest =>
      names ← DataFrame_Names df;
      if findInStringSlice c names =? -1 then Ok (Some c) else GroupBy_check df rest
  end.

(** [GroupBy]: the result is a pointer, [None] is nil.  No test of [df.Err]
    is made. *)
Definition DataFrame_GroupBy (df : DataFrame) (colnames : list string)
    : result (option Groups) :=
  if len colnames <=? 0 then Ok None
  else
    absent ← GroupBy_check df colnames;
    match absent with
    | Some c => Ok (Some (Groups_err ("GroupBy: 无法找到列名：" +:+ c)))
    | None =>
        maps ← DataFrame_Maps df;
        match GroupBy_rows maps colnames ∅ with
        | None => Ok (Some (Groups_err "GroupBy: 未找到类型"))
        | Some groupSeries =>
            let colTypes :=
              fold_left (fun (m : gmap string series.Type_) c => <[Name c := Series_Type c]> m)
                        (columns df) ∅ in
            loaded ← mapM (fun '(k, cMaps) =>
                             g ← LoadMaps cMaps [WithTypes colTypes]; Ok (k, g))
                          (map_to_list groupSeries);
            Ok (Some (mk_Groups (Some (list_to_map loaded)) colnames
                                (mk_DataFrame [] 0 0 None) None))
        end
    end.

End GroupBy.

(** ** Package series: extremes, slices and maps *)

Section MoreSeries.
Context {ext : Extern}.

(** The loop shared by [Max], [MaxStr], [Min] and [MinStr]: the element kept
    so far, first [Elem(0)], is replaced by every later element that [better]
    puts before it. *)
Definition extreme_loop (better : Element -> Element -> bool) (s : Series) : result Element :=
  first ← Elements_Elem (elements s) 0;
  n ← Elements_Len (elements s);
  foldM (fun best i =>
           elem ← Elements_Elem (elements s) i;
           Ok (if better elem best then elem else best))
        (range 1 n) first.

Definition Series_Max (s : Series) : result float64 :=
  n ← Elements_Len (elements s);
  if (n =? 0) || is_String (Series_Type s) then Ok math_NaN
  else max ← extreme_loop Element_Greater s; Ok (Element_Float max).

Definition Series_MaxStr (s : Series) : result string :=
  n ← Elements_Len (elements s);
  if (n =? 0) || negb (is_String (Series_Type s)) then Ok EmptyString
  else max ← extreme_loop Element_Greater s; Ok (Element_String max).

Definition Series_Min (s : Series) : result float64 :=
  n ← Elements_Len (elements s);
  if (n =? 0) || is_String (Series_Type s) then Ok math_NaN
  else min ← extreme_loop Element_Less s; Ok (Element_Float min).

Definition Series_MinStr (s : Series) : result string :=
  n ← Elements_Len (elements s);
  if (n =? 0) || negb (is_String (Series_Type s)) then Ok EmptyString
  else min ← extreme_loop Element_Less s; Ok (Element_String min).

(** [Slice]: the length of the Series is read only when [j > k || j < 0] is
    false. *)
Definition Series_Slice (s : Series) (j k : Z) : result Series :=
  match Err s with
  | Some _ => Ok s
  | None =>
      out ← (if (k <? j) || (j <? 0) then Ok true
             else n ← Series_Len s; Ok (n <=? k));
      if (out : bool) then
        empty ← Series_Empty s;
        Ok (set_Err empty (fmt_Errorf "slice index out of bounds"))
      else Series_Subset s (v_ints (range j k))
  end.

(** [Map].  The function [f] is taken to be pure; [None] is the nil
    [Element] it may return.  The mapped values reach [New] as a slice of
    interfaces. *)
Definition Series_Map (s : Series) (f : Element -> option Element) : result Series :=
  _ ← Series_Len s;
  let mappedValues :=
    map (fun e => match f e with
                  | Some x => v_Element x
                  | None => v_nil
                  end)
        (Elements_list (elements s)) in
  series_New (v_slice mappedValues) (Series_Type s) (Name s).

End MoreSeries.

(** ** Package dataframe: copies, subsets, selections, bindings, filters *)

(** The zero value of [series.Series]. *)
Definition zero_Series : Series := mk_Series EmptyString nilElements series.unknown None.

(** [parseType]. *)
Definition parseType (s : string) : series.Type_ * error :=
  if String.eqb s "float" || String.eqb s "float64" || String.eqb s "float32"
  then (series.Float, None)
  else if String.eqb s "int" || String.eqb s "int64" || String.eqb s "int32"
          || String.eqb s "int16" || String.eqb s "int8"
  then (series.Int, None)
  else if String.eqb s "string" then (series.String, None)
  else if String.eqb s "bool" then (series.Bool, None)
  else (series.unknown, fmt_Errorf ("类型 (" +:+ s +:+ ") 不受支持")).

(** [transposeRecords]: the result has as many rows as the first row of [x]
    has fields. *)
Definition transposeRecords (x : list (list string)) : result (list (list string)) :=
  match x with
  | [] => Ok x
  | x0 :: _ => mapM (fun i => mapM (fun row => index row i) x) (range 0 (len x0))
  end.

(** The loop of [parseSelectIndexes] over a slice of names. *)
Fixpoint select_names (xs colnames : list string) : list Z * error :=
  match xs with
  | [] => ([], None)
  | s :: xs' =>
      let i := findInStringSlice s colnames in
      if i <? 0 then ([], fmt_Errorf ("无法选择列：找不到列名 " +:+ quote s))
      else match select_names xs' colnames with
           | (_, Some err) => ([], Some err)
           | (idx, None) => (i :: idx, None)
           end
  end.

(** [type F struct]: a filter. *)
Record F : Type := mk_F {
  Colidx : Z;
  Colname : string;
  F_Comparator : Comparator;
  Comparando : value
}.

(** [type Aggregation int] with its constants [Or] (0) and [And] (1). *)
Inductive Aggregation : Type := Or | And | Aggregation_other (n : Z).

(** [type Order struct]. *)
Record Order : Type := mk_Order { Order_Colname : string; Reverse : bool }.

Definition Sort (colname : string) : Order := mk_Order colname false.
Definition RevSort (colname : string) : Order := mk_Order colname true.

Section MoreDataFrame.
Context {ext : Extern}.

(** [Copy]. *)
Definition DataFrame_Copy (df : DataFrame) : result DataFrame :=
  copy ← dataframe_New (columns df);
  Ok (match df_Err df with
      | Some e => mk_DataFrame (columns copy) (ncols copy) (nrows copy) (Some e)
      | None => copy
      end).

(** [Types]: a slice of [ncols] types filled from the columns. *)
Definition DataFrame_Types (df : DataFrame) : result (list series.Type_) :=
  if ncols df <? 0 then Panic "makeslice: len out of range"
  else if ncols df <? len (columns df) then Panic "index out of range"
  else Ok (map Series_Type (columns df)
           ++ replicate (Z.to_nat (ncols df) - length (columns df)) series.unknown).

Definition DataFrame_Dims (df : DataFrame) : Z * Z := (DataFrame_Nrow df, DataFrame_Ncol df).

(** [Col]. *)
Definition DataFrame_Col (df : DataFrame) (colname : string) : result Series :=
  match df_Err df with
  | Some e => Ok (mk_Series EmptyString nilElements series.unknown (Some e))
  | None =>
      names ← DataFrame_Names df;
      let idx := findInStringSlice colname names in
      if idx <? 0
      then Ok (mk_Series EmptyString nilElements series.unknown (fmt_Errorf "未知列名"))
      else c ← index (columns df) idx; Series_Copy c
  end.

(** [columns := make([]series.Series, n)] followed by [columns[i] = f(s)]
    for the columns [s] in turn: when there are more columns than [n] the
    assignment at position [n] panics, after [f] was called there. *)
Definition fill_columns (n : Z) (cols : list Series) (f : Series -> result Series)
    : result (list Series) :=
  if n <? 0 then Panic "makeslice: len out of range"
  else if n <? len cols then
    _ ← mapM f (take (S (Z.to_nat n)) cols);
    Panic "index out of range"
  else
    filled ← mapM f cols;
    Ok (filled ++ replicate (Z.to_nat n - length cols) zero_Series).

(** [Subset]: the same rows of every column, under the names they have. *)
Definition DataFrame_Subset (df : DataFrame) (indexes : value) : result DataFrame :=
  match df_Err df with
  | Some _ => Ok df
  | None =>
      columns ← fill_columns (ncols df) (columns df) (fun c => Series_Subset c indexes);
      r ← checkColumnsDimensions columns;
      match r with
      | (_, _, Some err) => Ok (DataFrame_err err)
      | (nrows, ncols, None) => Ok (mk_DataFrame columns ncols nrows None)
      end
  end.

(** [parseSelectIndexes]. *)
Definition parseSelectIndexes (l : Z) (indexes : value) (colnames : list string)
    : result (list Z * error) :=
  let of_bools (bools : list bool) : list Z * error :=
    if negb (len bools =? l) then ([], fmt_Errorf "索引错误：索引维度不匹配")
    else (true_positions bools 0, None) in
  match indexes with
  | v_ints idx => Ok (idx, None)
  | v_int i => Ok ([i], None)
  | v_bools bools => Ok (of_bools bools)
  | v_string s =>
      let i := findInStringSlice s colnames in
      if i <? 0 then Ok ([], fmt_Errorf ("无法选择列：找不到列名 " +:+ quote s))
      else Ok ([i], None)
  | v_strings xs => Ok (select_names xs colnames)
  | v_Series s =>
      match Err s with
      | Some err => Ok ([], fmt_Errorf ("索引错误：新值存在错误：" +:+ err))
      | None =>
          hasNaN ← Series_HasNaN s;
          if (hasNaN : bool) then Ok ([], fmt_Errorf "索引错误：索引包含 NaN")
          else match Series_Type s with
               | series.Int => Series_Int s
               | series.Bool =>
                   r ← Series_Bool s;
                   match r with
                   | (_, Some err) => Ok ([], fmt_Errorf ("索引错误：" +:+ err))
                   | (bools, None) => Ok (of_bools bools)
                   end
               | series.String =>
                   xs ← Series_Records s;
                   Ok (select_names xs colnames)
               | _ => Ok ([], fmt_Errorf "索引错误：未知的索引模式")
               end
      end
  | _ => Ok ([], fmt_Errorf "索引错误：未知的索引模式")
  end.

(** The loop of [Select]: a copy of the column at every index; [None] when
    an index is out of range. *)
Fixpoint Select_loop (df : DataFrame) (idx : list Z) : result (option (list Series)) :=
  match idx with
  | [] => Ok (Some [])
  | i :: idx' =>
      if (i <? 0) || (ncols df <=? i) then Ok None
      else
        c ← index (columns df) i;
        c' ← Series_Copy c;
        r ← Select_loop df idx';
        Ok (option_map (cons c') r)
  end.

(** The tail shared by [Select], [Drop], [Mutate] and the loaders: the
    dimensions are checked and the names fixed. *)
Definition checked_frame (columns : list Series) : result DataFrame :=
  r ← checkColumnsDimensions columns;
  match r with
  | (_, _, Some err) => Ok (DataFrame_err err)
  | (nrows, ncols, None) => fix_names (mk_DataFrame columns ncols nrows None)
  end.

(** [Select]. *)
Definition DataFrame_Select (df : DataFrame) (indexes : value) : result DataFrame :=
  match df_Err df with
  | Some _ => Ok df
  | None =>
      names ← DataFrame_Names df;
      r ← parseSelectIndexes (ncols df) indexes names;
      match r with
      | (_, Some err) => Ok (DataFrame_err ("can't select columns: " +:+ err))
      | (idx, None) =>
          sel ← Select_loop df idx;
          match sel with
          | None => Ok (DataFrame_err "can't select columns: index out of range")
          | Some columns => checked_frame columns
          end
      end
  end.

(** [Drop]: the columns whose position is not among the indexes. *)
Definition DataFrame_Drop (df : DataFrame) (indexes : value) : result DataFrame :=
  match df_Err df with
  | Some _ => Ok df
  | None =>
      names ← DataFrame_Names df;
      r ← parseSelectIndexes (ncols df) indexes names;
      match r with
      | (_, Some err) => Ok (DataFrame_err ("无法选择列：" +:+ err))
      | (idx, None) =>
          columns ←
            mapM (fun '(k, col) => Series_Copy col)
                 (List.filter (fun '(k, col) => negb (inIntSlice k idx))
                              (zip (seqZ 0 (len (columns df))) (columns df)));
          checked_frame columns
      end
  end.

(** [Rename]: the position is found in the receiver, the name is written in
    the copy. *)
Definition DataFrame_Rename (df : DataFrame) (newname oldname : string) : result DataFrame :=
  match df_Err df with
  | Some _ => Ok df
  | None =>
      colnames ← DataFrame_Names df;
      let idx := findInStringSlice oldname colnames in
      if idx =? -1 then Ok (DataFrame_err "rename: 无法找到列名")
      else
        copy ← DataFrame_Copy df;
        c ← index (columns copy) idx;
        Ok (mk_DataFrame (<[Z.to_nat idx := set_Name c newname]> (columns copy))
                         (ncols copy) (nrows copy) (df_Err copy))
  end.

(** [CBind]. *)
Definition DataFrame_CBind (df dfb : DataFrame) : result DataFrame :=
  match df_Err df with
  | Some _ => Ok df
  | None =>
      match df_Err dfb with
      | Some _ => Ok dfb
      | None => dataframe_New (columns df ++ columns dfb)
      end
  end.

(** The loop of [RBind] over the names of the receiver, from position [k]:
    the expanded columns, or the message of the error that ends it. *)
Fixpoint RBind_loop (df dfb : DataFrame) (names : list string) (k : Z)
    : result (list Series + string) :=
  match names with
  | [] => Ok (inl [])
  | v :: names' =>
      namesb ← DataFrame_Names dfb;
      let idx := findInStringSlice v namesb in
      if idx =? -1 then Ok (inr "rbind: 列名不兼容")
      else
        originalSeries ← index (columns df) k;
        addedSeries ← index (columns dfb) idx;
        newSeries ← Series_Concat originalSeries addedSeries;
        match Err newSeries with
        | Some err => Ok (inr ("rbind: " +:+ err))
        | None =>
            r ← RBind_loop df dfb names' (k + 1);
            Ok (match r with
                | inl l => inl (newSeries :: l)
                | inr e => inr e
                end)
        end
  end.

(** [RBind]. *)
Definition DataFrame_RBind (df dfb : DataFrame) : result DataFrame :=
  match df_Err df with
  | Some _ => Ok df
  | None =>
      match df_Err dfb with
      | Some _ => Ok dfb
      | None =>
          names ← DataFrame_Names df;
          r ← RBind_loop df dfb names 0;
          match r with
          | inr err => Ok (DataFrame_err err)
          | inl expandedSeries => dataframe_New expandedSeries
          end
      end
  end.

(** [Mutate]. *)
Definition DataFrame_Mutate (df : DataFrame) (s : Series) : result DataFrame :=
  match df_Err df with
  | Some _ => Ok df
  | None =>
      n ← Series_Len s;
      if negb (n =? nrows df) then Ok (DataFrame_err "mutate: 维度不匹配")
      else
        df' ← DataFrame_Copy df;
        names ← DataFrame_Names df';
        let idx := findInStringSlice (Name s) names in
        columns ←
          (if negb (idx =? -1) then
             _ ← index (columns df') idx;
             Ok (<[Z.to_nat idx := s]> (columns df'))
           else Ok (columns df' ++ [s]));
        checked_frame columns
  end.

(** [Capply]; [f] is taken to be pure. *)
Definition DataFrame_Capply (df : DataFrame) (f : Series -> Series) : result DataFrame :=
  match df_Err df with
  | Some _ => Ok df
  | None =>
      columns ← fill_columns (ncols df) (columns df)
                  (fun s => Ok (set_Name (f s) (Name s)));
      dataframe_New columns
  end.

(** The first loop of [FilterAggregation]: the comparison of every filter,
    or the message of the error that ends it. *)
Fixpoint Filter_compare (df : DataFrame) (filters : list F) : result (list Series + string) :=
  match filters with
  | [] => Ok (inl [])
  | f :: filters' =>
      found ←
        (if String.eqb (Colname f) EmptyString then Ok (Some (Colidx f))
         else
           names ← DataFrame_Names df;
           let idx := findInStringSlice (Colname f) names in
           Ok (if idx <? 0 then None else Some idx));
      match found with
      | None => Ok (inr "filter: 无法找到列名")
      | Some idx =>
          c ← index (columns df) idx;
          res ← Series_Compare c (F_Comparator f) (Comparando f);
          match Err res with
          | Some err => Ok (inr ("filter: " +:+ err))
          | None =>
              r ← Filter_compare df filters';
              Ok (match r with
                  | inl l => inl (res :: l)
                  | inr e => inr e
                  end)
          end
      end
  end.

(** [res[j] = res[j] || nextRes[j]] (or [&&]) for every [j]: [nextRes[j]] is
    read only when the first operand does not decide. *)
Definition Filter_combine (agg : Aggregation) (res nextRes : list bool) : result (list bool) :=
  mapM (fun '(j, a) =>
          match agg with
          | Or => if (a : bool) then Ok true else index nextRes j
          | And => if (a : bool) then index nextRes j else Ok false
          | Aggregation_other _ => Panic "panic: Aggregation"
          end)
       (zip (seqZ 0 (len res)) res).

(** The second loop of [FilterAggregation]: the rows kept, or the message of
    the error that ends it. *)
Fixpoint Filter_fold (agg : Aggregation) (res : list bool) (compResults : list Series)
    : result (list bool + string) :=
  match compResults with
  | [] => Ok (inl res)
  | c :: rest =>
      r ← Series_Bool c;
      match r with
      | (_, Some err) => Ok (inr ("filter: " +:+ err))
      | (nextRes, None) =>
          res' ← Filter_combine agg res nextRes;
          Filter_fold agg res' rest
      end
  end.

(** [FilterAggregation]. *)
Definition DataFrame_FilterAggregation (df : DataFrame) (agg : Aggregation) (filters : list F)
    : result DataFrame :=
  match df_Err df with
  | Some _ => Ok df
  | None =>
      r ← Filter_compare df filters;
      match r with
      | inr err => Ok (DataFrame_err err)
      | inl [] => DataFrame_Copy df
      | inl (c0 :: rest) =>
          r0 ← Series_Bool c0;
          match r0 with
          | (_, Some err) => Ok (DataFrame_err ("filter: " +:+ err))
          | (res, None) =>
              kept ← Filter_fold agg res rest;
              match kept with
              | inr err => Ok (DataFrame_err err)
              | inl res' => DataFrame_Subset df (v_bools res')
              end
          end
      end
  end.

(** [Filter]. *)
Definition DataFrame_Filter (df : DataFrame) (filters : list F) : result DataFrame :=
  DataFrame_FilterAggregation df Or filters.

(** The loop of [Arrange] that checks the names: the first one that is not a
    column. *)
Fixpoint Arrange_check (df : DataFrame) (order : list Order) : result (option string) :=
  match order with
  | [] => Ok None
  | o :: order' =>
      i ← DataFrame_colIndex df (Order_Colname o);
      if i =? -1 then Ok (Some (Order_Colname o)) else Arrange_check df order'
  end.

(** [Arrange]: the orders are applied from the last to the first; the state
    of the loop is [origIdx] and [suborder]. *)
Definition DataFrame_Arrange (df : DataFrame) (order : list Order) : result DataFrame :=
  match df_Err df with
  | Some _ => Ok df
  | None =>
      if len order =? 0 then Ok (DataFrame_err "rename: 无参数")
      else
        absent ← Arrange_check df order;
        match absent with
        | Some colname => Ok (DataFrame_err ("colname " +:+ colname +:+ " 不存在"))
        | None =>
            if nrows df <? 0 then Panic "makeslice: len out of range"
            else
              let origIdx := range 0 (nrows df) in
              st ← foldM (fun '(origIdx, suborder) o =>
                            idx ← DataFrame_colIndex df (Order_Colname o);
                            c ← index (columns df) idx;
                            nextSeries ← Series_Subset c (v_ints suborder);
                            suborder' ← Series_Order nextSeries (Reverse o);
                            newOrigIdx ← mapM (index origIdx) suborder';
                            Ok (newOrigIdx, suborder'))
                         (rev order) (origIdx, origIdx);
              DataFrame_Subset df (v_ints (fst st))
        end
  end.

(** [Records]: the names, then one record per row. *)
Definition DataFrame_Records (df : DataFrame) : result (list (list string)) :=
  names ← DataFrame_Names df;
  if (ncols df =? 0) || (nrows df =? 0) then Ok [names]
  else
    tRecords ← mapM Series_Records (columns df);
    rows ← transposeRecords tRecords;
    Ok (names :: rows).

(** [LoadMatrix]; the matrix is given by its dimensions and its entries. *)
Definition LoadMatrix (dims : Z * Z) (At : Z -> Z -> float64) : result DataFrame :=
  let '(nrows, ncols) := dims in
  if ncols <? 0 then Panic "makeslice: len out of range"
  else
    columns ←
      mapM (fun i =>
              if nrows <? 0 then Panic "makeslice: len out of range"
              else Floats (v_float64s (map (fun j => At j i) (range 0 nrows))))
           (range 0 ncols);
    checked_frame columns.

End MoreDataFrame.

(** * Vocabulary of the statements *)

(** A Column as the constructors of the package build it: it carries no error
    and its elements are of its declared type. *)
Definition Series_wf (s : Series) : Prop :=
  Err s = None /\
  match t s, elements s with
  | series.String, stringElements _ => True
  | series.Int, intElements _ => True
  | series.Float, floatElements _ => True
  | series.Bool, boolElements _ => True
  | _, _ => False
  end.

(** The values a join appends to a column: an element of a source column, or
    nil as padding. *)
Definition row_value (v : value) : Prop :=
  v = v_nil \/ exists e, v = v_Element e.

(** The two frames of the join scenario: {id:[1,2], v:[a,b]} and
    {id:[2,3], w:[x,y]}. *)
Definition scenario_left : list Series :=
  [mk_Series "id" (intElements [mk_intElement 1 false; mk_intElement 2 false]) series.Int None;
   mk_Series "v" (stringElements [mk_stringElement "a" false; mk_stringElement "b" false])
     series.String None].

Definition scenario_right : list Series :=
  [mk_Series "id" (intElements [mk_intElement 2 false; mk_intElement 3 false]) series.Int None;
   mk_Series "w" (stringElements [mk_stringElement "x" false; mk_stringElement "y" false])
     series.String None].

(** The positions of the name [a] in a list of names, counted from [i]. *)
Fixpoint positions (a : string) (l : list string) (i : nat) : list nat :=
  match l with
  | [] => []
  | x :: r => if String.eqb x a then i :: positions a r (S i) else positions a r (S i)
  end.

(** The name at position [i] of [cur] occurs at no other position. *)
Definition fresh_at (cur : list string) (i : nat) : Prop :=
  forall j x, j <> i -> cur !! j = Some x -> cur !! i <> Some x.

(** The name synthesized for the old name [n] with the counter [k]. *)
Definition synth_name (n : string) (k : Z) : string :=
  if String.eqb n EmptyString then missing_name k else dup_name n k.

(** [new] is [old] after the fix-up of the names: as many names, all
    different; a name that is not empty and occurs once is unchanged; an
    empty name has become X followed by a number, and a name that occurs more
    than once has got an underscore and a number at each of its positions;
    among the positions of one old name the numbers grow from left to
    right. *)
Definition fixed_names (old new : list string) : Prop :=
  length new = length old /\
  NoDup new /\
  (forall i n, old !! i = Some n -> n <> EmptyString ->
     (forall j, j <> i -> old !! j <> Some n) -> new !! i = Some n) /\
  (forall i n, old !! i = Some n ->
     n = EmptyString \/ (exists j, j <> i /\ old !! j = Some n) ->
     exists k, 0 <= k /\ new !! i = Some (synth_name n k)) /\
  (forall i j n ki kj, (i < j)%nat ->
     old !! i = Some n -> old !! j = Some n ->
     new !! i = Some (synth_name n ki) -> new !! j = Some (synth_name n kj) ->
     ki < kj).

(** Two elements tie under [Less]: neither is less than the other. *)
Definition tie `{Extern} (a b : Element) : Prop :=
  Element_Less a b = false /\ Element_Less b a = false.

(** The indexes [ix] list the elements of [L] so that elements of one rank
    keep their original order: of two elements that are both missing, or
    both non-missing and tie under [Less], the one of the smaller index comes
    first. *)
Definition ties_in_original_order `{Extern} (L : list Element) (ix : list Z) : Prop :=
  StronglySorted
    (fun i j => forall ei ej,
       L !! Z.to_nat i = Some ei -> L !! Z.to_nat j = Some ej ->
       Element_IsNA ei = Element_IsNA ej -> tie ei ej -> i < j)
    ix.

(** A non-missing element of the kind [ty]. *)
Definition present (ty : series.Type_) (e : Element) : Prop :=
  Element_Type e = ty /\ Element_IsNA e = false.

(** A Column whose elements are of its declared type, whether or not it
    carries an error. *)
Definition Series_typed (s : Series) : Prop :=
  match t s, elements s with
  | series.String, stringElements _ => True
  | series.Int, intElements _ => True
  | series.Float, floatElements _ => True
  | series.Bool, boolElements _ => True
  | _, _ => False
  end.

(** The six comparators that [Compare] applies element by element. *)
Definition elementwise (c : Comparator) : Prop :=
  c = Eq_ \/ c = Neq \/ c = Greater \/ c = GreaterEq \/ c = Less \/ c = LessEq.

(** The texts of the eight comparators of the package. *)
Definition comparator_texts : list string :=
  ["=="; "!="; ">"; ">="; "<"; "<="; "in"; "func"].

(** A Table as the constructors build it: it carries no error, [ncols] is the
    number of its columns, of which there is at least one, and every column
    is well formed and has [nrows] elements. *)
Definition DataFrame_wf (df : DataFrame) : Prop :=
  df_Err df = None /\
  ncols df = len (columns df) /\
  columns df <> [] /\
  Forall (fun c => Series_wf c /\ len (Elements_list (elements c)) = nrows df)
         (columns df).

(** The element in row [r] of column [c], when there is one. *)
Definition cell (df : DataFrame) (r c : nat) : option Element :=
  match columns df !! c with
  | Some col => Elements_list (elements col) !! r
  | None => None
  end.

(** The columns [cols] under the names [names], position by position. *)
Definition renamed (cols : list Series) (names : list string) : list Series :=
  zip_with set_Name cols names.

(** What a text of a raw column is taken for when the type of the column is
    detected: nothing (the empty text and NaN), a whole number, another
    number, a truth value, or any other text. *)
Inductive text_kind : Type :=
  | blank_text | int_text | float_text | bool_text | other_text.

Definition text_kind_eqb (a b : text_kind) : bool :=
  match a, b with
  | blank_text, blank_text | int_text, int_text | float_text, float_text
  | bool_text, bool_text | other_text, other_text => true
  | _, _ => false
  end.

Definition kind_of `{Extern} (str : string) : text_kind :=
  if String.eqb str EmptyString || String.eqb str "NaN" then blank_text
  else match strconv_Atoi str with
       | (_, None) => int_text
       | _ => match strconv_ParseFloat str with
              | (_, None) => float_text
              | _ => if String.eqb str "true" || String.eqb str "false"
                     then bool_text else other_text
              end
       end.

(** Some text of [arr] is of the kind [k]. *)
Definition has_kind `{Extern} (k : text_kind) (arr : list string) : bool :=
  existsb (fun str => text_kind_eqb (kind_of str) k) arr.

(** How a field of a record is read with the default options: a text among
    the values that stand for a missing one is read as NaN. *)
Definition read_text (x : string) : string :=
  if bool_decide (x ∈ nanValues default_loadOptions) then "NaN" else x.

(** The texts of the field [c] of the records [rows], as they are read. *)
Definition read_column (rows : list (list string)) (c : nat) : list string :=
  map (fun row => read_text (default EmptyString (row !! c))) rows.

(** The texts of the elements of a column, in order. *)
Definition col_texts `{Extern} (c : Series) : list string :=
  map Element_String (Elements_list (elements c)).

(** The pairs of rows of a cross join of [na] by [nb] rows, in the order of
    the two loops. *)
Definition cross_pairs (na nb : nat) : list (nat * nat) :=
  flat_map (fun i => map (pair i) (seq 0 nb)) (seq 0 na).

(** The text that a source column gives to a pair of rows: that of its row
    [i] when it is a column of the left Table, of its row [j] otherwise. *)
Definition pair_text `{Extern} (src : Series * bool) (p : nat * nat) : string :=
  match Elements_list (elements (fst src)) !! (if snd src then fst p else snd p) with
  | Some e => Element_String e
  | None => EmptyString
  end.

(** The columns [cols] of a cross join after the pairs [ps], against their
    source columns. *)
Definition cross_columns `{Extern} (srcs : list (Series * bool)) (ps : list (nat * nat))
    (cols : list Series) : Prop :=
  Forall2 (fun src c =>
             Series_wf c /\ t c = t (fst src) /\ Name c = Name (fst src) /\
             col_texts c = map (pair_text src) ps)
          srcs cols.

(** The source columns of a cross join: those of the left Table, then those
    of the right one. *)
Definition cross_sources (df b : DataFrame) : list (Series * bool) :=
  map (fun c => (c, true)) (columns df) ++ map (fun c => (c, false)) (columns b).

(** ** The keyed joins *)

(** The positions of the keys among the names of a Table: for each key the
    first column of that name. *)
Definition key_positions (names keys : list string) : list Z :=
  map (fun k => findInStringSlice k names) keys.

(** Row [i] of [df] and row [j] of [b] match: in every pair of key columns
    the two elements are [Eq]. *)
Definition key_match `{Extern} (df b : DataFrame) (iKeysA iKeysB : list Z) (i j : nat)
    : bool :=
  forallb (fun '(ka, kb) =>
             match cell df i (Z.to_nat ka), cell b j (Z.to_nat kb) with
             | Some x, Some y => Element_Eq x y
             | _, _ => false
             end)
          (zip iKeysA iKeysB).

(** The rows that the left row [i] gives to a left join with [nb] right
    rows. *)
Definition left_row_block (m : nat -> nat -> bool) (nb : nat) (i : nat)
    : list (nat * option nat) :=
  match List.filter (m i) (seq 0 nb) with
  | [] => [(i, None)]
  | js => map (fun j => (i, Some j)) js
  end.

(** The rows of a left join of [na] left rows with [nb] right rows, in
    order: for each left row [i] in turn, one row [(i, Some j)] for every
    right row [j] that matches it, in order, and the single row [(i, None)]
    when none does. *)
Definition left_join_rows (m : nat -> nat -> bool) (na nb : nat) : list (nat * option nat) :=
  flat_map (left_row_block m nb) (seq 0 na).

(** The element that a source column gives to the row [(i, oj)] of a join: a
    column of the left Table its element of row [i]; a column of the right
    Table its element of row [j] when [oj] is [Some j], and none when the row
    is padded. *)
Definition join_cell (src : Series * bool) (p : nat * option nat) : option Element :=
  if snd src then Elements_list (elements (fst src)) !! fst p
  else match snd p with
       | Some j => Elements_list (elements (fst src)) !! j
       | None => None
       end.

(** The element [e'] of the result stands for [oe]: it prints like the
    source element, or it is missing when there is none. *)
Definition stands_for `{Extern} (oe : option Element) (e' : Element) : Prop :=
  match oe with
  | Some e => Element_String e' = Element_String e
  | None => Element_IsNA e' = true
  end.

(** The columns [cols] of a join after the rows [ps], against their source
    columns. *)
Definition join_columns `{Extern} (srcs : list (Series * bool)) (ps : list (nat * option nat))
    (cols : list Series) : Prop :=
  Forall2 (fun src c =>
             Series_wf c /\ t c = t (fst src) /\ Name c = Name (fst src) /\
             Forall2 (fun p e' => stands_for (join_cell src p) e')
                     ps (Elements_list (elements c)))
          srcs cols.

(** The value [v] appended for the source [src] in the row [p]: nil where the
    source gives no element, the element it gives otherwise. *)
Definition join_value (src : Series * bool) (p : nat * option nat) (v : value) : Prop :=
  (v = v_nil /\ join_cell src p = None) \/
  (exists e, v = v_Element e /\ join_cell src p = Some e /\ Element_Type e = t (fst src)).

(** The columns [cs] at the positions [ks] of [cols]. *)
Definition columns_at (cols : list Series) (ks : list Z) (cs : list Series) : Prop :=
  Forall2 (fun k c => 0 <= k /\ cols !! Z.to_nat k = Some c) ks cs.

(** The source columns of a keyed join: the left key columns, the other left
    columns, the right columns that are not keys. *)
Definition join_sources (csK csA csB : list Series) : list (Series * bool) :=
  map (fun c => (c, true)) (csK ++ csA) ++ map (fun c => (c, false)) csB.

(** * Sample values of the closed instances *)

Definition sample_ints : Series :=
  mk_Series "n"
    (intElements [mk_intElement 2 false; mk_intElement 1 false; mk_intElement 3 false])
    series.Int None.

Definition sample_texts : Series :=
  mk_Series "s" (stringElements [mk_stringElement "b" false; mk_stringElement "a" false])
    series.String None.

Definition sample_missing_first : Series :=
  mk_Series "n" (intElements [mk_intElement 0 true; mk_intElement 1 false]) series.Int None.

Definition sample_unnamed : list Series :=
  [mk_Series EmptyString (intElements [mk_intElement 1 false]) series.Int None;
   mk_Series EmptyString (stringElements [mk_stringElement "a" false]) series.String None].

Definition sample_left : DataFrame := mk_DataFrame scenario_left 2 2 None.
Definition sample_right : DataFrame := mk_DataFrame scenario_right 2 2 None.
Definition sample_failed : DataFrame := DataFrame_err "failed".

(** The first column of [sample_left]. *)
Definition sample_id : Series :=
  mk_Series "id" (intElements [mk_intElement 1 false; mk_intElement 2 false]) series.Int None.
(** * Properties *)

(** ** Missing elements under conversion *)

Section ElementFacts.
Context {ext : Extern}.

Lemma Element_Int_missing (e : Element) :
  Element_IsNA e = true -> snd (Element_Int e) <> None.
Proof.
  destruct e as [x|x|x|x]; simpl; intros H.
  - unfold stringElement_Int. now rewrite H.
  - unfold intElement_Int. now rewrite H.
  - unfold floatElement_Int. now rewrite H.
  - unfold boolElement_Int. now rewrite H.
Qed.

Lemma Element_Bool_missing (e : Element) :
  Element_IsNA e = true -> snd (Element_Bool e) <> None.
Proof.
  destruct e as [x|x|x|x]; simpl; intros H.
  - unfold stringElement_Bool. now rewrite H.
  - unfold intElement_Bool. now rewrite H.
  - unfold floatElement_Bool. now rewrite H.
  - unfold boolElement_Bool. now rewrite H.
Qed.

Lemma Element_Float_missing (e : Element) :
  Element_IsNA e = true -> math_IsNaN (Element_Float e) = true.
Proof.
  destruct e as [x|x|x|x]; simpl; intros H.
  - unfold stringElement_Float. now rewrite H.
  - unfold intElement_Float. now rewrite H.
  - unfold floatElement_Float. now rewrite H.
  - unfold boolElement_Float. now rewrite H.
Qed.

Lemma stringElement_cmp_missing op x b :
  stringElement_IsNA x = true \/ Element_IsNA b = true -> stringElement_cmp op x b = false.
Proof.
  unfold stringElement_cmp. intros [H|H]; rewrite H; [reflexivity|].
  now rewrite orb_true_r.
Qed.

Lemma intElement_cmp_missing op x b :
  intElement_IsNA x = true \/ Element_IsNA b = true -> intElement_cmp op x b = false.
Proof.
  unfold intElement_cmp. intros H. destruct (Element_Int b) as [i err] eqn:E.
  destruct H as [H|H].
  - rewrite H. now rewrite orb_true_r.
  - apply Element_Int_missing in H. rewrite E in H. simpl in H.
    rewrite bool_decide_eq_true_2 by assumption. reflexivity.
Qed.

Lemma floatElement_cmp_missing op x b :
  floatElement_IsNA x = true \/ Element_IsNA b = true -> floatElement_cmp op x b = false.
Proof.
  unfold floatElement_cmp. intros [H|H].
  - now rewrite H.
  - rewrite (Element_Float_missing _ H). now rewrite orb_true_r.
Qed.

Lemma boolElement_cmp_missing op x b :
  boolElement_IsNA x = true \/ Element_IsNA b = true -> boolElement_cmp op x b = false.
Proof.
  unfold boolElement_cmp. intros H. destruct (Element_Bool b) as [i err] eqn:E.
  destruct H as [H|H].
  - rewrite H. now rewrite orb_true_r.
  - apply Element_Bool_missing in H. rewrite E in H. simpl in H.
    rewrite bool_decide_eq_true_2 by assumption. reflexivity.
Qed.

Lemma Element_Less_missing (a b : Element) :
  Element_IsNA a = true \/ Element_IsNA b = true -> Element_Less a b = false.
Proof.
  intros H. destruct a as [x|x|x|x]; simpl in H |- *.
  - now apply stringElement_cmp_missing.
  - now apply intElement_cmp_missing.
  - now apply floatElement_cmp_missing.
  - now apply boolElement_cmp_missing.
Qed.

(** C2. Whenever at least one of two elements is missing, each of the six
    comparisons [Eq], [Neq], [Less], [LessEq], [Greater], [GreaterEq] of the
    first against the second is false, whatever the kinds of the two (the
    second is read through the conversion to the kind of the first). *)
Theorem comparisons_with_missing_are_false (a b : Element) :
  Element_IsNA a = true \/ Element_IsNA b = true ->
  Element_Eq a b = false /\ Element_Neq a b = false /\
  Element_Less a b = false /\ Element_LessEq a b = false /\
  Element_Greater a b = false /\ Element_GreaterEq a b = false.
Proof.
  intros H. destruct a as [x|x|x|x]; simpl in H |- *.
  - repeat split; now apply stringElement_cmp_missing.
  - repeat split; now apply intElement_cmp_missing.
  - repeat split; now apply floatElement_cmp_missing.
  - repeat split; now apply boolElement_cmp_missing.
Qed.

(** C4, as the code has it. An element that is not tagged missing is reported
    non-missing by [IsNA] whatever its payload when its kind is integer,
    boolean or text (so 0, false and the text NaN are ordinary values); a
    real element that is not tagged is reported missing exactly when its
    payload is NaN. *)
Theorem IsNA_of_untagged_elements :
  (forall i : Z, Element_IsNA (E_int (mk_intElement i false)) = false) /\
  (forall b : bool, Element_IsNA (E_bool (mk_boolElement b false)) = false) /\
  (forall s : string, Element_IsNA (E_string (mk_stringElement s false)) = false) /\
  (forall f : float64, Element_IsNA (E_float (mk_floatElement f false)) = math_IsNaN f).
Proof.
  repeat split; intros; simpl; try reflexivity.
  unfold floatElement_IsNA. simpl. now destruct (math_IsNaN f).
Qed.

End ElementFacts.

(** ** Series: errors, reductions, windows *)

Section SeriesFacts.
Context {ext : Extern}.

(** A Column that carries an error goes through [Subset], [Compare],
    [Append], [Concat] and [Set] unchanged. *)
Lemma Series_Subset_sticky (s : Series) (indexes : value) (e : string) :
  Err s = Some e -> Series_Subset s indexes = Ok s.
Proof. intros H. unfold Series_Subset. now rewrite H. Qed.

Lemma Series_Compare_sticky (s : Series) (c : Comparator) (v : value) (e : string) :
  Err s = Some e -> Series_Compare s c v = Ok s.
Proof. intros H. unfold Series_Compare. now rewrite H. Qed.

Lemma Series_Append_sticky (s : Series) (v : value) (e : string) :
  Err s = Some e -> Series_Append s v = Ok s.
Proof. intros H. unfold Series_Append. now rewrite H. Qed.

Lemma Series_Concat_sticky (s x : Series) (e : string) :
  Err s = Some e -> Series_Concat s x = Ok s.
Proof. intros H. unfold Series_Concat. now rewrite H. Qed.

Lemma Series_Set_sticky (s x : Series) (indexes : value) (e : string) :
  Err s = Some e -> Series_Set s indexes x = Ok s.
Proof. intros H. unfold Series_Set. now rewrite H. Qed.

(** What the reductions return on a text Column and on an empty Column:
    [Sum], [Median] and [Quantile] test for both and return NaN. *)
Lemma Series_Sum_text_or_empty (s : Series) (n : Z) :
  Series_Len s = Ok n -> t s = series.String \/ n = 0 -> Series_Sum s = Ok math_NaN.
Proof.
  unfold Series_Sum, Series_Len, Series_Type. intros -> H. simpl.
  destruct H as [-> | ->]; simpl; [now rewrite orb_true_r | reflexivity].
Qed.

Lemma Series_Median_text_or_empty (s : Series) (n : Z) :
  Series_Len s = Ok n -> t s = series.String \/ n = 0 -> Series_Median s = Ok math_NaN.
Proof.
  unfold Series_Median, Series_Len, Series_Type. intros -> H. simpl.
  destruct H as [-> | ->]; simpl; [now rewrite orb_true_r | reflexivity].
Qed.

Lemma Series_Quantile_text_or_empty (s : Series) (p : float64) :
  t s = series.String \/ Series_Len s = Ok 0 -> Series_Quantile s p = Ok math_NaN.
Proof.
  unfold Series_Quantile, Series_Type. intros [-> | H]; [reflexivity|].
  rewrite H. simpl. now destruct (is_String (t s)).
Qed.

Lemma Elements_list_length (e : Elements) (n : Z) :
  Elements_Len e = Ok n -> len (Elements_list e) = n.
Proof.
  destruct e; simpl; intros H; try discriminate; injection H as <-;
    unfold len; now rewrite length_map.
Qed.

Lemma Series_Float_empty (s : Series) : Series_Len s = Ok 0 -> Series_Float s = Ok [].
Proof.
  unfold Series_Float. intros H. rewrite H. simpl.
  apply Elements_list_length in H. unfold len in H.
  destruct (Elements_list (elements s)); [reflexivity | simpl in H; lia].
Qed.

(** [Mean] and [StdDev] make no test; on an empty Column the division by the
    length gives NaN. *)
Lemma Series_Mean_empty (s : Series) : Series_Len s = Ok 0 -> Series_Mean s = Ok math_NaN.
Proof. intros H. unfold Series_Mean. now rewrite (Series_Float_empty _ H). Qed.

Lemma Series_StdDev_empty (s : Series) : Series_Len s = Ok 0 -> Series_StdDev s = Ok math_NaN.
Proof. intros H. unfold Series_StdDev. now rewrite (Series_Float_empty _ H). Qed.

(** C3, at the input where the code departs from it. On the text Column
    ["1", "2"], whose strings parse as numbers, [Mean] returns 1.5 and
    [StdDev] a number too, not NaN: unlike [Sum], [Median] and [Quantile],
    the two make no test of the kind of the Column. *)
Theorem Mean_StdDev_of_numeric_text :
  strconv_ParseFloat "1" = (f64_of_int 1, None) ->
  strconv_ParseFloat "2" = (f64_of_int 2, None) ->
  exists s m sd,
    Strings (v_strings ["1"; "2"]) = Ok s /\ t s = series.String /\
    Series_Mean s = Ok m /\ m = f64_div (f64_of_int 3) (f64_of_int 2) /\
    math_IsNaN m = false /\
    Series_StdDev s = Ok sd /\ math_IsNaN sd = false.
Proof.
  intros H1 H2. eexists. eexists. eexists.
  split; [vm_compute; reflexivity|].
  split; [reflexivity|].
  unfold Series_Mean, Series_StdDev, Series_Float. simpl.
  unfold stringElement_Float. simpl. rewrite H1, H2.
  split; [reflexivity|].
  split; [vm_compute; reflexivity|].
  split; [vm_compute; reflexivity|].
  split; [reflexivity | vm_compute; reflexivity].
Qed.

(** C8. [Rolling(2).Mean()] over the integer Column [1, 2, 3, 4] is the real
    Column named Mean whose first element is missing (its payload is the NaN
    mean of the empty leading block) and whose other elements are 1.5, 2.5
    and 3.5. *)
Theorem Rolling_2_Mean_of_1_2_3_4 :
  exists s r,
    Ints (v_ints [1; 2; 3; 4]) = Ok s /\
    RollingWindow_Mean (Series_Rolling s 2) = Ok r /\
    Name r = "Mean" /\ t r = series.Float /\ Err r = None /\
    Series_IsNaN r = Ok [true; false; false; false] /\
    Series_Float r = Ok [math_NaN;
                         f64_div (f64_of_int 3) (f64_of_int 2);
                         f64_div (f64_of_int 5) (f64_of_int 2);
                         f64_div (f64_of_int 7) (f64_of_int 2)].
Proof.
  eexists. eexists.
  split; [vm_compute; reflexivity|].
  split; [vm_compute; reflexivity|].
  repeat split; vm_compute; reflexivity.
Qed.

(** C9. [Set] is not atomic on error: on the Column [1, 2, 3] with the index
    list [0, 5] and the new Column [9, 9] (as long as the index list) it
    overwrites the element at index 0 and then returns the out-of-range
    error, so the caller's Column has changed although an error is
    reported. *)
Theorem Set_overwrites_before_error :
  exists s newValue idx r,
    Ints (v_ints [1; 2; 3]) = Ok s /\ Ints (v_ints [9; 9]) = Ok newValue /\
    idx = [0; 5] /\ Series_Len newValue = Ok (len idx) /\
    Series_Set s (v_ints idx) newValue = Ok r /\
    Err r = fmt_Errorf "set error: 索引超出范围" /\
    Series_Elem s 0 = Ok (E_int (mk_intElement 1 false)) /\
    Series_Elem (Series_after_Set s r) 0 = Ok (E_int (mk_intElement 9 false)) /\
    elements (Series_after_Set s r) <> elements s.
Proof.
  eexists. eexists. eexists. eexists.
  split; [vm_compute; reflexivity|].
  split; [vm_compute; reflexivity|].
  split; [reflexivity|].
  split; [vm_compute; reflexivity|].
  split; [vm_compute; reflexivity|].
  split; [vm_compute; reflexivity|].
  split; [vm_compute; reflexivity|].
  split; [vm_compute; reflexivity|].
  vm_compute. discriminate.
Qed.

End SeriesFacts.

(** ** Joins *)

Section JoinFacts.
Context {ext : Extern}.

Lemma Series_Append_row_value (s : Series) (v : value) :
  Series_wf s -> row_value v ->
  exists s', Series_Append s v = Ok s' /\ Series_wf s'.
Proof.
  intros [He Hw] Hv. destruct s as [name els ty err]. simpl in He, Hw. subst err.
  unfold Series_Append, Series_wf. simpl.
  destruct Hv as [-> | [e ->]];
    destruct ty, els; try contradiction; simpl;
    eexists; (split; [reflexivity|]); simpl; (split; [reflexivity | exact I]).
Qed.

Lemma mapM_Ok_length {A B} (f : A -> result B) (l : list A) (r : list B) :
  mapM f l = Ok r -> length r = length l.
Proof.
  revert r. induction l as [|x l IH]; simpl; intros r H.
  - now injection H as <-.
  - destruct (f x) as [y|]; simpl in H; [|discriminate].
    destruct (mapM f l) as [ys|]; simpl in H; [|discriminate].
    injection H as <-. simpl. f_equal. now apply IH.
Qed.

Lemma row_elems_row_values (cols : list Series) (ks : list Z) (r : Z) (vs : list value) :
  row_elems cols ks r = Ok vs -> Forall row_value vs /\ length vs = length ks.
Proof.
  unfold row_elems. intros H. split; [|now apply mapM_Ok_length in H].
  revert vs H. induction ks as [|k ks IH]; simpl; intros vs H.
  - injection H as <-. constructor.
  - destruct (index cols k) as [c|]; simpl in H; [|discriminate].
    destruct (Series_Elem c r) as [e|]; simpl in H; [|discriminate].
    destruct (mapM _ ks) as [ys|] eqn:E; simpl in H; [|discriminate].
    injection H as <-. constructor; [right; now exists e | now apply IH].
Qed.

Lemma match_right_rows_unmatched (df b : DataFrame) (iKeysA iKeysB : list Z) (i : Z)
    (newCols : list Series) :
  (forall j, 0 <= j < nrows b ->
     join_match (columns df) (columns b) iKeysA iKeysB i j = Ok false) ->
  match_right_rows df b iKeysA iKeysB i newCols = Ok (newCols, false).
Proof.
  intros H. unfold match_right_rows.
  assert (Hin : forall j, j ∈ range 0 (nrows b) ->
            join_match (columns df) (columns b) iKeysA iKeysB i j = Ok false).
  { intros j Hj. apply H. unfold range in Hj. apply elem_of_seqZ in Hj. lia. }
  clear H. induction (range 0 (nrows b)) as [|j l IH]; [reflexivity|].
  simpl. rewrite Hin by (left). simpl. apply IH.
  intros j' Hj'. apply Hin. now right.
Qed.

Lemma map_const_replicate {A B} (v : B) (l : list A) :
  map (fun _ => v) l = replicate (length l) v.
Proof. induction l as [|x l IH]; simpl; [reflexivity | now rewrite IH]. Qed.

(** The body of [LeftJoin] on a left row that matches no right row appends
    exactly the padded row. *)
Lemma LeftJoin_row_unmatched (df b : DataFrame) (iKeysA iKeysB : list Z)
    (newCols : list Series) (i : Z) :
  (forall j, 0 <= j < nrows b ->
     join_match (columns df) (columns b) iKeysA iKeysB i j = Ok false) ->
  LeftJoin_row df b iKeysA iKeysB newCols i =
    (row ← left_padded_row df b iKeysA iKeysB i; append_row newCols row).
Proof.
  intros H. unfold LeftJoin_row. now rewrite match_right_rows_unmatched.
Qed.

(** The columns [newCols] are well formed and of the expected number when
    the loop of a keyed join starts, and every turn of the loop of [LeftJoin]
    keeps them so. *)
Lemma Series_Empty_wf (c e : Series) : Series_Empty c = Ok e -> Series_wf e.
Proof.
  unfold Series_Empty, series_New. destruct (t c); simpl; intros H;
    try discriminate; injection H as <-; split; simpl; auto.
Qed.

Lemma empty_columns_wf (cols : list Series) (is_ : list Z) (r : list Series) :
  empty_columns cols is_ = Ok r -> Forall Series_wf r /\ length r = length is_.
Proof.
  unfold empty_columns. revert r. induction is_ as [|i is_ IH]; simpl; intros r H.
  - injection H as <-. split; [constructor | reflexivity].
  - destruct (index cols i) as [c|]; simpl in H; [|discriminate].
    destruct (Series_Empty c) as [e|] eqn:Ee; simpl in H; [|discriminate].
    destruct (mapM _ is_) as [es|] eqn:Em; simpl in H; [|discriminate].
    injection H as <-. destruct (IH es eq_refl) as [Hw Hl].
    split; [constructor; [now apply (Series_Empty_wf c) | assumption] | simpl; now rewrite Hl].
Qed.

Lemma join_newCols_wf (df b : DataFrame) (iKeysA iKeysB : list Z) (cols : list Series) :
  join_newCols df b iKeysA iKeysB = Ok cols ->
  Forall Series_wf cols /\
  length cols = (length iKeysA + length (not_keys (ncols df) iKeysA)
                 + length (not_keys (ncols b) iKeysB))%nat.
Proof.
  unfold join_newCols. intros H.
  destruct (empty_columns (columns df) iKeysA) as [k|] eqn:Ek; simpl in H; [|discriminate].
  destruct (empty_columns (columns df) (not_keys (ncols df) iKeysA)) as [a|] eqn:Ea;
    simpl in H; [|discriminate].
  destruct (empty_columns (columns b) (not_keys (ncols b) iKeysB)) as [c|] eqn:Ec;
    simpl in H; [|discriminate].
  injection H as <-.
  apply empty_columns_wf in Ek, Ea, Ec.
  destruct Ek as [Hk Lk], Ea as [Ha La], Ec as [Hc Lc].
  split; [repeat (apply Forall_app; split); assumption|].
  rewrite !length_app. lia.
Qed.

Lemma append_row_preserves (cols : list Series) (row : list value) (cols' : list Series) :
  Forall Series_wf cols -> Forall row_value row -> append_row cols row = Ok cols' ->
  Forall Series_wf cols' /\ length cols' = length cols.
Proof.
  revert cols cols'. induction row as [|v row IH]; intros cols cols' Hc Hr H.
  - assert (cols' = cols) as -> by (destruct cols; simpl in H; congruence).
    split; [assumption | reflexivity].
  - destruct cols as [|c cols]; simpl in H; [discriminate|].
    inversion Hc as [|? ? Hc1 Hc2]; subst. inversion Hr as [|? ? Hr1 Hr2]; subst.
    destruct (Series_Append_row_value c v Hc1 Hr1) as (c' & Ha & Hw).
    rewrite Ha in H. simpl in H.
    destruct (append_row cols row) as [cs|] eqn:E; simpl in H; [|discriminate].
    injection H as <-. destruct (IH cols cs Hc2 Hr2 E) as [Hw' Hl].
    split; [now constructor | simpl; now rewrite Hl].
Qed.

Lemma LeftJoin_row_preserves (df b : DataFrame) (iKeysA iKeysB : list Z)
    (newCols newCols' : list Series) (i : Z) :
  Forall Series_wf newCols ->
  LeftJoin_row df b iKeysA iKeysB newCols i = Ok newCols' ->
  Forall Series_wf newCols' /\ length newCols' = length newCols.
Proof.
  intros Hwf. unfold LeftJoin_row, match_right_rows.
  assert (Hfold : forall l cols m r,
            Forall Series_wf cols ->
            foldM (fun '(newCols, matched) j =>
                     m ← join_match (columns df) (columns b) iKeysA iKeysB i j;
                     if (m : bool) then
                       row ← matched_row df b iKeysA iKeysB i j;
                       newCols' ← append_row newCols row;
                       Ok (newCols', true)
                     else Ok (newCols, matched)) l (cols, m) = Ok r ->
            Forall Series_wf (fst r) /\ length (fst r) = length cols).
  { induction l as [|j l IH]; intros cols m r Hc H; simpl in H.
    - injection H as <-. split; [assumption | reflexivity].
    - destruct (join_match _ _ _ _ i j) as [[|]|]; simpl in H; [| |discriminate].
      + destruct (matched_row df b iKeysA iKeysB i j) as [row|] eqn:Er; simpl in H;
          [|discriminate].
        destruct (append_row cols row) as [cols1|] eqn:Ea; simpl in H; [|discriminate].
        assert (Hrow : Forall row_value row).
        { unfold matched_row in Er.
          destruct (row_elems (columns df) iKeysA i) as [k|] eqn:E1; simpl in Er;
            [|discriminate].
          destruct (row_elems (columns df) (not_keys (ncols df) iKeysA) i) as [a|] eqn:E2;
            simpl in Er; [|discriminate].
          destruct (row_elems (columns b) (not_keys (ncols b) iKeysB) j) as [c|] eqn:E3;
            simpl in Er; [|discriminate].
          injection Er as <-.
          apply row_elems_row_values in E1, E2, E3.
          repeat (apply Forall_app; split); tauto. }
        destruct (append_row_preserves _ _ _ Hc Hrow Ea) as [Hw1 Hl1].
        destruct (IH _ _ _ Hw1 H) as [Hw2 Hl2]. split; [assumption | congruence].
      + now apply (IH _ _ _ Hc H). }
  intros H.
  destruct (foldM _ (range 0 (nrows b)) (newCols, false)) as [[cols1 m]|] eqn:Ef;
    simpl in H; [|discriminate].
  destruct (Hfold _ _ _ _ Hwf Ef) as [Hw1 Hl1]. simpl in Hw1, Hl1.
  destruct m.
  - injection H as <-. split; assumption.
  - destruct (left_padded_row df b iKeysA iKeysB i) as [row|] eqn:Er; simpl in H;
      [|discriminate].
    assert (Hrow : Forall row_value row).
    { unfold left_padded_row in Er.
      destruct (row_elems (columns df) iKeysA i) as [k|] eqn:E1; simpl in Er;
        [|discriminate].
      destruct (row_elems (columns df) (not_keys (ncols df) iKeysA) i) as [a|] eqn:E2;
        simpl in Er; [|discriminate].
      injection Er as <-.
      apply row_elems_row_values in E1, E2.
      repeat (apply Forall_app; split); try tauto.
      apply Forall_forall. intros v Hv. apply list_elem_of_In, in_map_iff in Hv.
      destruct Hv as (x & <- & _). now left. }
    destruct (append_row_preserves _ _ _ Hw1 Hrow H) as [Hw2 Hl2].
    split; [assumption | congruence].
Qed.

End JoinFacts.

(** ** Errors and names of a Table *)

Section DataFrameFacts.
Context {ext : Extern}.

(** C1, at the inputs where the code departs from it. [CrossJoin] and
    [GroupBy] make no test of the error a Table carries.  With [e] the
    Table that [LoadRecords] returns for no records (it carries the error
    of the empty load and has no column) and [b] the valid Table
    {id:[2,3], w:[x,y]}: [e.CrossJoin(b)] and [b.CrossJoin(e)] are Tables
    without any error, [e.CrossJoin(e)] carries another error (that of the
    empty constructor), [e.GroupBy(id)] carries another error (column not
    found) and [e.GroupBy()] is nil.  (The methods of a Column, [Subset],
    [Compare], [Append], [Concat], [Set], do return the Column with its
    error, see the lemmas on sticky errors above.) *)
Theorem CrossJoin_GroupBy_do_not_propagate_errors :
  exists e b r1 r2 r3 g,
    LoadRecords [] [] = Ok e /\ df_Err e = Some "load records: 空 DataFrame" /\
    dataframe_New scenario_right = Ok b /\ df_Err b = None /\
    DataFrame_CrossJoin e b = Ok r1 /\ df_Err r1 = None /\
    DataFrame_CrossJoin b e = Ok r2 /\ df_Err r2 = None /\
    DataFrame_CrossJoin e e = Ok r3 /\ df_Err r3 = Some "empty DataFrame" /\
    DataFrame_GroupBy e ["id"] = Ok (Some g) /\
    g_Err g = Some "GroupBy: 无法找到列名：id" /\
    DataFrame_GroupBy e [] = Ok None.
Proof.
  do 6 eexists.
  split; [reflexivity|].
  split; [reflexivity|].
  split; [vm_compute; reflexivity|].
  split; [reflexivity|].
  split; [vm_compute; reflexivity|].
  split; [reflexivity|].
  split; [vm_compute; reflexivity|].
  split; [reflexivity|].
  split; [vm_compute; reflexivity|].
  split; [reflexivity|].
  split; [vm_compute; reflexivity|].
  split; reflexivity.
Qed.

Lemma set_names_all (cols : list Series) (colnames : list string) (cols' : list Series) :
  length colnames = length cols -> set_names cols colnames = Ok cols' ->
  map Name cols' = colnames.
Proof.
  revert cols cols'. induction colnames as [|n colnames IH]; intros [|c cols] cols' Hl H;
    simpl in Hl; try discriminate; simpl in H.
  - now injection H as <-.
  - destruct (set_names cols colnames) as [cs|] eqn:E; simpl in H; [|discriminate].
    injection H as <-. simpl. f_equal. apply (IH cols); [lia | assumption].
Qed.

(** C10. [SetNames] writes the names it is given as they are, with no pass of
    [fixColnames]: on a Table whose [ncols] is the number of its columns, a
    call that succeeds leaves exactly the given names.  So on the Table
    {id, v}, whose names are unique, [SetNames(x, x)] succeeds and leaves the
    names x, x, which are not: uniqueness of the column names is not kept by
    every operation. *)
Theorem SetNames_keeps_duplicates :
  (forall (df df' : DataFrame) (colnames : list string),
     len (columns df) = ncols df ->
     DataFrame_SetNames df colnames = Ok (df', None) ->
     map Name (columns df') = colnames) /\
  (exists df df',
     dataframe_New scenario_left = Ok df /\
     NoDup (map Name (columns df)) /\
     DataFrame_SetNames df ["x"; "x"] = Ok (df', None) /\
     map Name (columns df') = ["x"; "x"] /\
     ~ NoDup (map Name (columns df'))).
Proof.
  split.
  - intros df df' colnames Hn H. unfold DataFrame_SetNames in H.
    destruct (df_Err df); [discriminate|].
    destruct (len colnames =? ncols df) eqn:El; simpl in H; [|discriminate].
    destruct (set_names (columns df) colnames) as [cs|] eqn:E; simpl in H; [|discriminate].
    injection H as <-. simpl. apply (set_names_all (columns df)); [|assumption].
    apply Z.eqb_eq in El. unfold len in *. lia.
  - do 2 eexists.
    split; [vm_compute; reflexivity|].
    split; [apply (bool_decide_unpack _); vm_compute; exact I|].
    split; [vm_compute; reflexivity|].
    split; [reflexivity|].
    simpl. intros H. apply NoDup_cons in H. destruct H as [Hx _]. apply Hx. left.
Qed.

End DataFrameFacts.

(** ** The fix-up of the column names *)

Section NameFacts.

Lemma findInStringSlice_from_spec (str : string) (s : list string) (i : Z) :
  0 <= i ->
  (findInStringSlice_from str s i = -1 /\ str ∉ s) \/
  (i <= findInStringSlice_from str s i /\ str ∈ s).
Proof.
  revert i. induction s as [|e s IH]; intros i Hi; simpl.
  - left. split; [reflexivity | apply not_elem_of_nil].
  - destruct (String.eqb e str) eqn:E.
    + apply String.eqb_eq in E. subst. right. split; [lia | left].
    + apply String.eqb_neq in E.
      destruct (IH (i + 1)) as [[H1 H2] | [H1 H2]]; [lia | |].
      * left. split; [assumption|]. intros Hin. apply elem_of_cons in Hin.
        destruct Hin as [-> | Hin]; [now apply E | now apply H2].
      * right. split; [lia | now right].
Qed.

Lemma findInStringSlice_absent (str : string) (s : list string) :
  findInStringSlice str s = -1 <-> str ∉ s.
Proof.
  unfold findInStringSlice.
  destruct (findInStringSlice_from_spec str s 0) as [[H1 H2] | [H1 H2]]; [lia | |].
  - split; intros _; assumption.
  - split; [intros H; lia | intros H; contradiction].
Qed.

Lemma free_counter_spec (name : Z -> string) (cols : list string) (fuel : nat) (c k : Z) :
  free_counter fuel name cols c = Some k -> c <= k /\ name k ∉ cols.
Proof.
  revert c. induction fuel as [|fuel IH]; intros c; simpl; [discriminate|].
  destruct (findInStringSlice (name c) cols =? -1) eqn:E.
  - intros H. injection H as <-. split; [lia|].
    apply findInStringSlice_absent. now apply Z.eqb_eq.
  - intros H. apply IH in H. split; [lia | tauto].
Qed.

Lemma free_counter_None (name : Z -> string) (cols : list string) (fuel : nat) (c : Z) :
  free_counter fuel name cols c = None ->
  forall j, j ∈ seqZ c (Z.of_nat fuel) -> name j ∈ cols.
Proof.
  revert c. induction fuel as [|fuel IH]; intros c H j Hj.
  - apply elem_of_seqZ in Hj. lia.
  - simpl in H. destruct (findInStringSlice (name c) cols =? -1) eqn:E; [discriminate|].
    apply elem_of_seqZ in Hj.
    destruct (decide (j = c)) as [-> | Hne].
    + apply Z.eqb_neq in E.
      destruct (decide (name c ∈ cols)) as [Hin | Hout]; [assumption|].
      apply findInStringSlice_absent in Hout. contradiction.
    + apply (IH (c + 1)); [assumption|]. apply elem_of_seqZ. lia.
Qed.

(** The search for a free name finishes within [length cols + 1] tests when
    different counters give different names. *)
Lemma free_counter_total (name : Z -> string) (cols : list string) (c : Z) :
  Inj (=) (=) name ->
  exists k, free_counter (S (length cols)) name cols c = Some k.
Proof.
  intros Hinj.
  destruct (free_counter (S (length cols)) name cols c) as [k|] eqn:E; [now exists k|].
  exfalso.
  pose proof (free_counter_None _ _ _ _ E) as Hall.
  assert (Hnd : NoDup (name <$> seqZ c (Z.of_nat (S (length cols))))).
  { apply NoDup_fmap_2; [assumption | apply NoDup_seqZ]. }
  assert (Hsub : (name <$> seqZ c (Z.of_nat (S (length cols)))) ⊆+ cols).
  { apply NoDup_submseteq; [assumption|].
    intros x Hx. apply list_elem_of_fmap in Hx. destruct Hx as (j & -> & Hj).
    now apply Hall. }
  apply submseteq_length in Hsub.
  rewrite length_fmap, length_seqZ in Hsub. lia.
Qed.

Lemma append_inj_r (s a b : string) : s +:+ a = s +:+ b -> a = b.
Proof.
  induction s as [|ch s IH]; simpl; intros H; [assumption|].
  injection H as H. now apply IH.
Qed.

Lemma missing_name_inj : Inj (=) (=) missing_name.
Proof.
  intros a b H. unfold missing_name, strconv_Itoa in H.
  apply append_inj_r in H. now apply (inj pretty) in H.
Qed.

Lemma dup_name_inj (n : string) : Inj (=) (=) (dup_name n).
Proof.
  intros a b H. unfold dup_name, strconv_Itoa in H.
  apply append_inj_r in H. apply append_inj_r in H. now apply (inj pretty) in H.
Qed.

(** One renaming with a name that is not in the list. *)
Lemma fresh_at_insert (cur : list string) (i : nat) (p : string) :
  p ∉ cur -> (i < length cur)%nat -> fresh_at (<[i := p]> cur) i.
Proof.
  intros Hp Hi j x Hj Hx. rewrite list_lookup_insert_eq by assumption.
  rewrite list_lookup_insert_ne in Hx by (intros ->; now apply Hj).
  intros Heq. injection Heq as ->. apply Hp. eapply list_elem_of_lookup_2. eassumption.
Qed.

Lemma fresh_at_insert_other (cur : list string) (i i' : nat) (p : string) :
  p ∉ cur -> (i < length cur)%nat -> fresh_at cur i' -> fresh_at (<[i := p]> cur) i'.
Proof.
  intros Hp Hi Hf. destruct (decide (i' = i)) as [-> | Hne].
  - now apply fresh_at_insert.
  - intros j x Hj Hx. rewrite list_lookup_insert_ne by (intros ->; now apply Hne).
    destruct (decide (j = i)) as [-> | Hji].
    + rewrite list_lookup_insert_eq in Hx by assumption. injection Hx as <-.
      intros Heq. apply Hp. eapply list_elem_of_lookup_2. eassumption.
    + rewrite list_lookup_insert_ne in Hx by (intros ->; now apply Hji).
      apply (Hf j x); assumption.
Qed.

(** The renaming of a group of positions: it finishes; the positions of the
    group get names of the group, each different from every other name of
    the list; the other positions keep their names, and those that were
    different from every other name stay so. *)
Lemma fixColnames_assign_spec (name : Z -> string) (idx : list nat)
    (cur : list string) (c : Z) :
  Inj (=) (=) name ->
  (forall i, i ∈ idx -> (i < length cur)%nat) ->
  exists cur' c',
    fixColnames_assign name idx cur c = Some (cur', c') /\
    length cur' = length cur /\
    (forall j, j ∉ idx -> cur' !! j = cur !! j) /\
    (forall i, i ∈ idx -> exists k, c <= k /\ cur' !! i = Some (name k)) /\
    (forall i, i ∈ idx -> fresh_at cur' i) /\
    (forall i, fresh_at cur i -> fresh_at cur' i).
Proof.
  intros Hinj. revert cur c. induction idx as [|i idx IH]; intros cur c Hlt.
  - exists cur, c. simpl. repeat split; try reflexivity; try tauto.
    + intros i Hi. apply elem_of_nil in Hi. contradiction.
    + intros i Hi. apply elem_of_nil in Hi. contradiction.
  - cbn [fixColnames_assign]. destruct (free_counter_total name cur c Hinj) as [k Hk].
    rewrite Hk. destruct (free_counter_spec _ _ _ _ _ Hk) as [Hck Hfree].
    assert (Hi : (i < length cur)%nat) by (apply Hlt; left).
    destruct (IH (<[i := name k]> cur) (k + 1)) as (cur' & c' & He & Hl & Hu & Hs & Hf & Hp).
    { intros i' Hi'. rewrite length_insert. apply Hlt. now right. }
    exists cur', c'. split; [assumption|]. rewrite length_insert in Hl.
    split; [assumption|]. split; [|split; [|split]].
    + intros j Hj. rewrite Hu by (intros Hin; apply Hj; now right).
      apply list_lookup_insert_ne. intros ->. apply Hj. left.
    + intros i' Hi'. destruct (decide (i' ∈ idx)) as [Hin | Hout].
      * destruct (Hs i' Hin) as (k' & Hk' & Hn). exists k'. split; [lia | assumption].
      * apply elem_of_cons in Hi'. destruct Hi' as [-> | Hi']; [|contradiction].
        exists k. split; [assumption|]. rewrite Hu by assumption.
        now apply list_lookup_insert_eq.
    + intros i' Hi'. destruct (decide (i' ∈ idx)) as [Hin | Hout]; [now apply Hf|].
      apply elem_of_cons in Hi'. destruct Hi' as [-> | Hi']; [|contradiction].
      apply Hp. now apply fresh_at_insert.
    + intros i' Hi'. apply Hp. now apply fresh_at_insert_other.
Qed.

Lemma elem_of_positions (a : string) (l : list string) (i p : nat) :
  p ∈ positions a l i <-> exists j, p = (i + j)%nat /\ l !! j = Some a.
Proof.
  revert i. induction l as [|x l IH]; intros i; simpl.
  - split; [intros H; apply elem_of_nil in H; contradiction|].
    intros (j & _ & H). discriminate.
  - destruct (String.eqb x a) eqn:E.
    + apply String.eqb_eq in E. subst x. rewrite elem_of_cons, IH. split.
      * intros [-> | (j & -> & Hj)]; [exists 0%nat | exists (S j)];
          (split; [lia | assumption || reflexivity]).
      * intros ([|j] & -> & Hj); [left; lia | right; exists j; split; [lia | assumption]].
    + apply String.eqb_neq in E. rewrite IH. split.
      * intros (j & -> & Hj). exists (S j). split; [lia | assumption].
      * intros ([|j] & -> & Hj); [simpl in Hj; congruence|].
        exists j. split; [lia | assumption].
Qed.

Lemma two_elems_length {A} (l : list A) (x y : A) :
  x ∈ l -> y ∈ l -> x <> y -> (2 <= length l)%nat.
Proof.
  intros Hx Hy Hne. destruct l as [|a [|b l]]; simpl; [| |lia].
  - apply elem_of_nil in Hx. contradiction.
  - apply list_elem_of_singleton in Hx, Hy. congruence.
Qed.

(** What the first loop of [fixColnames] collects. *)
Lemma fixColnames_scan_spec (l : list string) (i : nat)
    (m : gmap string (list nat)) (ms : list nat) :
  snd (fixColnames_scan l i m ms) = ms ++ positions EmptyString l i /\
  (forall a, a <> EmptyString ->
     default [] (fst (fixColnames_scan l i m ms) !! a)
     = default [] (m !! a) ++ positions a l i) /\
  (m !! EmptyString = None -> fst (fixColnames_scan l i m ms) !! EmptyString = None).
Proof.
  revert i m ms. induction l as [|x l IH]; intros i m ms; simpl.
  - split; [now rewrite app_nil_r|]. split; [|tauto].
    intros a _. now rewrite app_nil_r.
  - destruct (String.eqb x EmptyString) eqn:E.
    + apply String.eqb_eq in E. subst x.
      destruct (IH (S i) m (ms ++ [i])) as (H1 & H2 & H3).
      split; [rewrite H1, <- app_assoc; reflexivity|]. split; [|assumption].
      intros a Ha. rewrite H2 by assumption.
      destruct (String.eqb EmptyString a) eqn:Ea; [|reflexivity].
      apply String.eqb_eq in Ea. congruence.
    + apply String.eqb_neq in E.
      destruct (IH (S i) (<[x := default [] (m !! x) ++ [i]]> m) ms) as (H1 & H2 & H3).
      split; [|split].
      * rewrite H1. destruct (String.eqb x EmptyString) eqn:Ex; [|reflexivity].
        apply String.eqb_eq in Ex. contradiction.
      * intros a Ha. rewrite H2 by assumption.
        destruct (String.eqb x a) eqn:Ea.
        -- apply String.eqb_eq in Ea. subst a. rewrite lookup_insert_eq. simpl.
           now rewrite <- app_assoc.
        -- apply String.eqb_neq in Ea. now rewrite lookup_insert_ne.
      * intros Hm. apply H3. rewrite lookup_insert_ne; assumption.
Qed.

(** The last loop of [fixColnames]. *)
Lemma fixColnames_dups_spec (m : gmap string (list nat)) (keys : list string)
    (cur : list string) :
  (forall a i, a ∈ keys -> i ∈ default [] (m !! a) -> (i < length cur)%nat) ->
  exists cur',
    fixColnames_dups m keys cur = Some cur' /\
    length cur' = length cur /\
    (forall j, (forall a, a ∈ keys -> j ∉ default [] (m !! a)) -> cur' !! j = cur !! j) /\
    (forall a i, a ∈ keys -> i ∈ default [] (m !! a) ->
       exists a' k, a' ∈ keys /\ i ∈ default [] (m !! a') /\ 0 <= k /\
         cur' !! i = Some (dup_name (if String.eqb a' EmptyString then "X" else a') k)) /\
    (forall a i, a ∈ keys -> i ∈ default [] (m !! a) -> fresh_at cur' i) /\
    (forall i, fresh_at cur i -> fresh_at cur' i).
Proof.
  revert cur. induction keys as [|a keys IH]; intros cur Hlt.
  - exists cur. simpl. repeat split; try tauto.
    + intros a i Ha. apply elem_of_nil in Ha. contradiction.
    + intros a i Ha. apply elem_of_nil in Ha. contradiction.
  - cbn [fixColnames_dups].
    set (name' := if String.eqb a EmptyString then "X" else a).
    destruct (fixColnames_assign_spec (dup_name name') (default [] (m !! a)) cur 0)
      as (cur1 & c1 & He & Hl & Hu & Hs & Hf & Hp).
    { apply dup_name_inj. }
    { intros i Hi. apply (Hlt a); [left | assumption]. }
    rewrite He.
    destruct (IH cur1) as (cur' & He' & Hl' & Hu' & Hs' & Hf' & Hp').
    { intros b i Hb Hi. rewrite Hl. apply (Hlt b); [now right | assumption]. }
    exists cur'. split; [assumption|]. split; [congruence|].
    assert (Hcase : forall i, (exists b, b ∈ keys /\ i ∈ default [] (m !! b)) \/
                              (forall b, b ∈ keys -> i ∉ default [] (m !! b))).
    { intros i.
      destruct (decide (Exists (fun b => i ∈ default [] (m !! b)) keys)) as [Hex | Hno].
      - left. apply Exists_exists in Hex. destruct Hex as (b & Hb & Hi). now exists b.
      - right. intros b Hb Hi. apply Hno. apply Exists_exists. now exists b. }
    split; [|split; [|split; [|]]].
    + intros j Hj. rewrite Hu' by (intros b Hb; apply Hj; now right).
      apply Hu. apply Hj. left.
    + intros b i Hb Hi. destruct (Hcase i) as [(b' & Hb' & Hi') | Hno].
      * destruct (Hs' b' i Hb' Hi') as (a' & k & Ha' & Hia' & Hk & Hn).
        exists a', k. repeat split; try assumption. now right.
      * apply elem_of_cons in Hb. destruct Hb as [-> | Hb]; [|now apply Hno in Hi].
        destruct (Hs i Hi) as (k & Hk & Hn).
        exists a, k. repeat split; try assumption; [left|].
        rewrite Hu' by assumption. exact Hn.
    + intros b i Hb Hi. destruct (Hcase i) as [(b' & Hb' & Hi') | Hno].
      * now apply (Hf' b').
      * apply elem_of_cons in Hb. destruct Hb as [-> | Hb]; [|now apply Hno in Hi].
        apply Hp'. now apply Hf.
    + intros i Hi. apply Hp'. now apply Hp.
Qed.

Lemma stable_insert_Permutation {A} (less : A -> A -> bool) (x : A) (l : list A) :
  stable_insert less x l ≡ₚ x :: l.
Proof.
  induction l as [|y l IH]; simpl; [reflexivity|].
  destruct (less y x); [|reflexivity].
  rewrite IH. apply Permutation_swap.
Qed.

Lemma sort_Stable_Permutation {A} (less : A -> A -> bool) (l : list A) :
  sort_Stable less l ≡ₚ l.
Proof.
  induction l as [|x l IH]; simpl; [reflexivity|].
  rewrite stable_insert_Permutation. now rewrite IH.
Qed.

Lemma positions_lt (a : string) (l : list string) (i : nat) :
  i ∈ positions a l 0 -> (i < length l)%nat.
Proof.
  intros H. apply elem_of_positions in H. destruct H as (j & -> & Hj).
  simpl. eapply lookup_lt_Some. eassumption.
Qed.

Lemma positions_lookup (a : string) (l : list string) (i : nat) :
  i ∈ positions a l 0 <-> l !! i = Some a.
Proof.
  rewrite elem_of_positions. split.
  - intros (j & -> & Hj). exact Hj.
  - intros H. exists i. split; [reflexivity | assumption].
Qed.

Lemma NoDup_positions (a : string) (l : list string) (i : nat) : NoDup (positions a l i).
Proof.
  revert i. induction l as [|x l IH]; intros i; simpl; [constructor|].
  destruct (String.eqb x a); [|apply IH].
  constructor; [|apply IH].
  intros H. apply elem_of_positions in H. destruct H as (j & Hj & _). lia.
Qed.

Lemma NoDup_other_elem (l : list nat) (x : nat) :
  NoDup l -> (2 <= length l)%nat -> exists y, y ∈ l /\ y <> x.
Proof.
  intros Hnd Hlen. destruct l as [|a [|b l]]; simpl in Hlen; try lia.
  apply NoDup_cons in Hnd. destruct Hnd as [Hab _].
  destruct (decide (x = a)) as [-> | Hne].
  - exists b. split; [right; left|]. intros ->. apply Hab. left.
  - exists a. split; [left | congruence].
Qed.

Lemma Forall2_impl_elem {A B} (R R' : A -> B -> Prop) (l : list A) (k : list B) :
  Forall2 R l k -> (forall x y, x ∈ l -> R x y -> R' x y) -> Forall2 R' l k.
Proof.
  induction 1 as [|x y l k Hxy _ IH]; intros H; constructor.
  - apply H; [left | assumption].
  - apply IH. intros x' y' Hx'. apply H. now right.
Qed.

(** The counters of a group grow along the group. *)
Lemma fixColnames_assign_counters (name : Z -> string) (idx : list nat)
    (cur cur' : list string) (c c' : Z) :
  Inj (=) (=) name ->
  (forall i, i ∈ idx -> (i < length cur)%nat) ->
  NoDup idx ->
  fixColnames_assign name idx cur c = Some (cur', c') ->
  exists ks,
    Forall2 (fun i k => cur' !! i = Some (name k)) idx ks /\
    StronglySorted Z.lt ks /\ Forall (Z.le c) ks.
Proof.
  intros Hinj. revert cur c. induction idx as [|i idx IH]; intros cur c Hlt Hnd H.
  - exists []. repeat split; constructor.
  - cbn [fixColnames_assign] in H.
    destruct (free_counter (S (length cur)) name cur c) as [k|] eqn:Ek; [|discriminate].
    destruct (free_counter_spec _ _ _ _ _ Ek) as [Hck _].
    apply NoDup_cons in Hnd. destruct Hnd as [Hi Hnd].
    assert (Hlt' : forall i', i' ∈ idx -> (i' < length (<[i := name k]> cur))%nat).
    { intros i' Hi'. rewrite length_insert. apply Hlt. now right. }
    destruct (IH _ _ Hlt' Hnd H) as (ks & H2 & Hs & Hge).
    destruct (fixColnames_assign_spec name idx (<[i := name k]> cur) (k + 1) Hinj Hlt')
      as (cur2 & c2 & He & _ & Hu & _).
    rewrite H in He. injection He as <- <-.
    exists (k :: ks). split; [|split].
    + constructor; [|assumption]. rewrite Hu by assumption.
      apply list_lookup_insert_eq. apply Hlt. left.
    + constructor; [assumption|].
      eapply Forall_impl; [exact Hge|]. intros x Hx. simpl in Hx. lia.
    + constructor; [assumption|].
      eapply Forall_impl; [exact Hge|]. intros x Hx. simpl in Hx. lia.
Qed.

Lemma fixColnames_dups_counters (m : gmap string (list nat)) (keys : list string)
    (cur cur' : list string) :
  (forall a i, a ∈ keys -> i ∈ default [] (m !! a) -> (i < length cur)%nat) ->
  NoDup keys ->
  (forall a, a ∈ keys -> NoDup (default [] (m !! a))) ->
  (forall a b i, a ∈ keys -> b ∈ keys -> a <> b ->
     i ∈ default [] (m !! a) -> i ∉ default [] (m !! b)) ->
  fixColnames_dups m keys cur = Some cur' ->
  forall a, a ∈ keys ->
    exists ks,
      Forall2 (fun i k => cur' !! i =
                 Some (dup_name (if String.eqb a EmptyString then "X" else a) k))
              (default [] (m !! a)) ks /\
      StronglySorted Z.lt ks /\ Forall (Z.le 0) ks.
Proof.
  revert cur. induction keys as [|a keys IH]; intros cur Hlt Hnk Hni Hdis H b Hb.
  - apply elem_of_nil in Hb. contradiction.
  - cbn [fixColnames_dups] in H.
    set (name' := if String.eqb a EmptyString then "X" else a) in *.
    destruct (fixColnames_assign (dup_name name') (default [] (m !! a)) cur 0)
      as [[cur1 c1]|] eqn:E1; [|discriminate].
    apply NoDup_cons in Hnk. destruct Hnk as [Ha Hnk].
    assert (Hlta : forall i, i ∈ default [] (m !! a) -> (i < length cur)%nat).
    { intros i Hi. apply (Hlt a); [left | assumption]. }
    destruct (fixColnames_assign_spec (dup_name name') (default [] (m !! a)) cur 0
                (dup_name_inj name') Hlta) as (cur1' & c1' & He & Hl1 & _).
    rewrite E1 in He. injection He as <- <-.
    assert (Hlt1 : forall b i, b ∈ keys -> i ∈ default [] (m !! b) ->
              (i < length cur1)%nat).
    { intros b' i Hb' Hi. rewrite Hl1. apply (Hlt b'); [now right | assumption]. }
    apply elem_of_cons in Hb. destruct Hb as [-> | Hb].
    + destruct (fixColnames_assign_counters _ _ _ _ _ _ (dup_name_inj name') Hlta
                  (Hni a ltac:(left)) E1) as (ks & H2 & Hs & Hge).
      destruct (fixColnames_dups_spec m keys cur1 Hlt1) as (cur2 & He2 & _ & Hu2 & _).
      rewrite H in He2. injection He2 as <-.
      exists ks. split; [|split; assumption].
      eapply Forall2_impl_elem; [exact H2|].
      intros i k Hi Hik. cbv beta in Hik |- *. unfold name' in Hik.
      rewrite <- Hik. apply Hu2. intros b Hb.
      apply (Hdis a b i); [left | now right | | assumption].
      intros ->. contradiction.
    + apply (IH cur1); try assumption.
      * intros b' Hb'. apply Hni. now right.
      * intros a' b' i Ha' Hb'. apply Hdis; now right.
Qed.

Lemma StronglySorted_positions (a : string) (l : list string) (i : nat) :
  StronglySorted lt (positions a l i) /\ Forall (le i) (positions a l i).
Proof.
  revert i. induction l as [|x l IH]; intros i; simpl.
  - split; constructor.
  - destruct (IH (S i)) as [Hs Hf].
    assert (Hf' : Forall (le i) (positions a l (S i))).
    { eapply Forall_impl; [exact Hf|]. intros y Hy. simpl in Hy. lia. }
    destruct (String.eqb x a).
    + split; [constructor; [assumption|] | constructor; [lia | assumption]].
      eapply Forall_impl; [exact Hf|]. intros y Hy. simpl in Hy. lia.
    + split; assumption.
Qed.

(** Along two sorted lists in relation position by position, a later key
    has a larger counter. *)
Lemma Forall2_sorted_monotone (R : nat -> Z -> Prop) (idx : list nat) (ks : list Z)
    (i j : nat) :
  Forall2 R idx ks -> StronglySorted lt idx -> StronglySorted Z.lt ks ->
  i ∈ idx -> j ∈ idx -> (i < j)%nat ->
  exists ki kj, R i ki /\ R j kj /\ ki < kj.
Proof.
  intros H. induction H as [|x k idx ks Hxk H2 IH]; intros Hs1 Hs2 Hi Hj Hij.
  - apply elem_of_nil in Hi. contradiction.
  - apply StronglySorted_inv in Hs1. destruct Hs1 as [Hs1 Hx].
    apply StronglySorted_inv in Hs2. destruct Hs2 as [Hs2 Hk].
    rewrite Forall_forall in Hx.
    apply elem_of_cons in Hi. apply elem_of_cons in Hj.
    destruct Hi as [-> | Hi].
    + destruct Hj as [-> | Hj]; [lia|].
      apply list_elem_of_lookup in Hj. destruct Hj as [p Hp].
      destruct (Forall2_lookup_l _ _ _ _ _ H2 Hp) as (kj & Hkj & HR).
      exists k, kj. split; [assumption|]. split; [assumption|].
      rewrite Forall_forall in Hk. apply Hk. eapply list_elem_of_lookup_2. eassumption.
    + destruct Hj as [-> | Hj].
      * apply Hx in Hi. lia.
      * now apply IH.
Qed.

Lemma synth_name_inj (n : string) : Inj (=) (=) (synth_name n).
Proof.
  unfold synth_name. destruct (String.eqb n EmptyString).
  - apply missing_name_inj.
  - apply dup_name_inj.
Qed.

(** [fixColnames] finishes on every list of names, and its result is the
    fix-up of the list. *)
Lemma fixColnames_fixed (colnames : list string) :
  exists out, fixColnames colnames = Some out /\ fixed_names colnames out.
Proof.
  unfold fixColnames.
  pose proof (fixColnames_scan_spec colnames 0 ∅ []) as (H1 & H2 & H3).
  destruct (fixColnames_scan colnames 0 ∅ []) as [scanned missingnames].
  simpl in H1, H2, H3. specialize (H3 (lookup_empty _)).
  subst missingnames.
  assert (Hidx0 : forall a, a <> EmptyString ->
            default [] (scanned !! a) = positions a colnames 0).
  { intros a Ha. rewrite H2 by assumption. now rewrite lookup_empty. }
  clear H2.
  destruct (fixColnames_assign_spec missing_name (positions EmptyString colnames 0) colnames 0)
    as (cur1 & c1 & He1 & Hl1 & Hu1 & Hs1 & Hf1 & Hp1).
  { apply missing_name_inj. }
  { intros i Hi. now apply positions_lt in Hi. }
  rewrite He1.
  set (dup := filter (fun kv : string * list nat => (2 <= length (snd kv))%nat) scanned).
  set (keys := sort_Strings (map fst (map_to_list dup))).
  assert (Hkeys : forall a, a ∈ keys <->
            a <> EmptyString /\ (2 <= length (positions a colnames 0))%nat).
  { intros a. unfold keys, sort_Strings. rewrite sort_Stable_Permutation.
    change (map fst (map_to_list dup)) with (fst <$> map_to_list dup).
    rewrite list_elem_of_fmap. split.
    - intros ([a' v] & -> & Hin). simpl.
      apply elem_of_map_to_list in Hin. unfold dup in Hin.
      apply map_lookup_filter_Some in Hin. destruct Hin as [Hs Hlen]. simpl in Hlen.
      assert (Ha : a' <> EmptyString) by (intros ->; congruence).
      split; [assumption|]. rewrite <- Hidx0 by assumption. now rewrite Hs.
    - intros [Ha Hlen]. rewrite <- Hidx0 in Hlen by assumption.
      destruct (scanned !! a) as [v|] eqn:Es; [|simpl in Hlen; lia].
      exists (a, v). split; [reflexivity|].
      apply elem_of_map_to_list. unfold dup. apply map_lookup_filter_Some.
      split; assumption. }
  assert (Hidx : forall a, a ∈ keys -> default [] (dup !! a) = positions a colnames 0).
  { intros a Ha. apply Hkeys in Ha. destruct Ha as [Ha Hlen].
    rewrite <- Hidx0 in Hlen |- * by assumption.
    destruct (scanned !! a) as [v|] eqn:Es; [|simpl in Hlen; lia].
    assert (Hd : dup !! a = Some v).
    { unfold dup. apply map_lookup_filter_Some. split; assumption. }
    now rewrite Hd. }
  destruct (fixColnames_dups_spec dup keys cur1) as (out & He & Hl & Hu & Hs & Hf & Hp).
  { intros a i Ha Hi. rewrite (Hidx a Ha) in Hi. rewrite Hl1. now apply positions_lt in Hi. }
  exists out. split; [assumption|].
  (* a position that is renamed in neither phase keeps its name *)
  assert (Hkeep : forall i n, colnames !! i = Some n -> n <> EmptyString ->
            (forall j, j <> i -> colnames !! j <> Some n) -> out !! i = Some n).
  { intros i n Hi Hn Huniq.
    rewrite Hu, Hu1; [assumption | |].
    - intros Hin. apply positions_lookup in Hin. congruence.
    - intros a Ha Hin. rewrite (Hidx a Ha) in Hin.
      pose proof Hin as Hin'. apply positions_lookup in Hin'.
      assert (a = n) by congruence. subst a.
      apply Hkeys in Ha. destruct Ha as [_ Hlen].
      destruct (NoDup_other_elem _ i (NoDup_positions n colnames 0) Hlen) as (j & Hj & Hji).
      apply positions_lookup in Hj. now apply (Huniq j). }
  assert (Hdup : forall i n, colnames !! i = Some n -> n <> EmptyString ->
            (exists j, j <> i /\ colnames !! j = Some n) ->
            n ∈ keys /\ i ∈ default [] (dup !! n)).
  { intros i n Hi Hn (j & Hji & Hj).
    assert (Hk : n ∈ keys).
    { apply Hkeys. split; [assumption|].
      apply (two_elems_length _ i j); [now apply positions_lookup .. | congruence]. }
    split; [assumption|]. rewrite (Hidx n Hk). now apply positions_lookup. }
  assert (Hmiss : forall i, colnames !! i = Some EmptyString ->
            forall a, a ∈ keys -> i ∉ default [] (dup !! a)).
  { intros i Hi a Ha Hin. rewrite (Hidx a Ha) in Hin. apply positions_lookup in Hin.
    apply Hkeys in Ha. destruct Ha as [Ha _]. congruence. }
  split; [congruence|]. split; [|split; [exact Hkeep|split]].
  - apply NoDup_alt. intros i j x Hi Hj.
    destruct (decide (i = j)) as [|Hne]; [assumption|]. exfalso.
    assert (Hfresh : forall i j x, i <> j -> out !! i = Some x -> out !! j = Some x ->
              ~ fresh_at out i).
    { intros i' j' x' Hne' Hi' Hj' Hfr. apply (Hfr j' x'); [congruence | assumption..]. }
    assert (Hin : forall i x, out !! i = Some x -> exists n, colnames !! i = Some n).
    { intros i' x' Hi'. apply lookup_lt_Some in Hi'.
      destruct (colnames !! i') as [n|] eqn:E; [now exists n|].
      apply lookup_ge_None in E. lia. }
    assert (Hdone : forall i n, colnames !! i = Some n ->
              fresh_at out i \/ (n <> EmptyString /\ forall j, j <> i -> colnames !! j <> Some n)).
    { intros i' n Hi'.
      destruct (decide (n = EmptyString)) as [-> | Hn].
      - left. apply Hp. apply Hf1. now apply positions_lookup.
      - destruct (decide (Exists (fun j => j <> i' /\ colnames !! j = Some n)
                                 (seq 0 (length colnames)))) as [Hex | Hno].
        + left. apply Exists_exists in Hex. destruct Hex as (j' & _ & Hj').
          destruct (Hdup i' n Hi' Hn) as [Hk Hii]; [now exists j'|].
          now apply (Hf n).
        + right. split; [assumption|]. intros j' Hj' Hc. apply Hno.
          apply Exists_exists. exists j'. split; [|split; assumption].
          apply elem_of_seq. apply lookup_lt_Some in Hc. lia. }
    destruct (Hin i x Hi) as (ni & Hni). destruct (Hin j x Hj) as (nj & Hnj).
    destruct (Hdone i ni Hni) as [Hfi | [Hni1 Hni2]];
      [now apply (Hfresh i j x)|].
    destruct (Hdone j nj Hnj) as [Hfj | [Hnj1 Hnj2]];
      [apply (Hfresh j i x); [congruence | assumption..]|].
    rewrite (Hkeep i ni) in Hi by assumption.
    rewrite (Hkeep j nj) in Hj by assumption.
    apply (Hni2 j); [congruence|]. congruence.
  - intros i n Hi Hor.
    destruct (decide (n = EmptyString)) as [-> | Hn].
    + assert (Hin : i ∈ positions EmptyString colnames 0)
        by now apply positions_lookup.
      destruct (Hs1 i Hin) as (k & Hk & Hn). exists k. split; [assumption|].
      rewrite Hu; [assumption|]. now apply Hmiss.
    + destruct Hor as [-> | Hex]; [contradiction|].
      destruct (Hdup i n Hi Hn Hex) as [Hk Hii].
      destruct (Hs n i Hk Hii) as (a' & k & Ha' & Hia' & Hk0 & Hname).
      rewrite (Hidx a' Ha') in Hia'. apply positions_lookup in Hia'.
      assert (a' = n) by congruence. subst a'.
      exists k. split; [assumption|]. rewrite Hname. unfold synth_name.
      destruct (String.eqb n EmptyString) eqn:E; [|reflexivity].
      apply String.eqb_eq in E. contradiction.
  - intros i j n ki kj Hij Hi Hj Hni Hnj.
    assert (Hpi : i ∈ positions n colnames 0) by now apply positions_lookup.
    assert (Hpj : j ∈ positions n colnames 0) by now apply positions_lookup.
    destruct (decide (n = EmptyString)) as [-> | Hn].
    + destruct (fixColnames_assign_counters missing_name _ _ _ _ _
                  missing_name_inj (fun i Hi => positions_lt _ _ _ Hi)
                  (NoDup_positions _ _ _) He1) as (ks & H2 & Hsk & _).
      destruct (Forall2_sorted_monotone _ _ _ i j H2
                  (proj1 (StronglySorted_positions _ _ _)) Hsk Hpi Hpj Hij)
        as (ki' & kj' & Ri & Rj & Hlt).
      rewrite Hu in Hni, Hnj by (now apply Hmiss).
      rewrite Ri in Hni. rewrite Rj in Hnj.
      apply (inj Some) in Hni, Hnj.
      change (missing_name ki') with (synth_name EmptyString ki') in Hni.
      change (missing_name kj') with (synth_name EmptyString kj') in Hnj.
      apply (synth_name_inj EmptyString) in Hni, Hnj. lia.
    + destruct (Hdup i n Hi Hn) as [Hk _]; [exists j; split; [lia | assumption]|].
      destruct (fixColnames_dups_counters dup keys cur1 out) with (a := n)
        as (ks & H2 & Hsk & _); try assumption.
      * intros a q Ha Hq. rewrite (Hidx a Ha) in Hq. rewrite Hl1.
        now apply positions_lt in Hq.
      * unfold keys, sort_Strings. rewrite sort_Stable_Permutation.
        apply NoDup_fst_map_to_list.
      * intros a Ha. rewrite (Hidx a Ha). apply NoDup_positions.
      * intros a b q Ha Hb Hab Hq Hq'.
        rewrite (Hidx a Ha) in Hq. rewrite (Hidx b Hb) in Hq'.
        apply positions_lookup in Hq, Hq'. congruence.
      * rewrite (Hidx n Hk) in H2.
        destruct (Forall2_sorted_monotone _ _ _ i j H2
                    (proj1 (StronglySorted_positions _ _ _)) Hsk Hpi Hpj Hij)
          as (ki' & kj' & Ri & Rj & Hlt).
        rewrite Ri in Hni. rewrite Rj in Hnj.
        apply (inj Some) in Hni, Hnj.
        unfold synth_name in Hni, Hnj.
        destruct (String.eqb n EmptyString) eqn:E;
          [apply String.eqb_eq in E; contradiction|].
        apply (dup_name_inj n) in Hni, Hnj. lia.
Qed.




Lemma DataFrame_Names_columns (cols : list Series) (nrows : Z) (e : error) :
  DataFrame_Names (mk_DataFrame cols (len cols) nrows e) = Ok (map Name cols).
Proof.
  unfold DataFrame_Names, len. simpl.
  destruct (Z.of_nat (length cols) <? 0) eqn:E1; [apply Z.ltb_lt in E1; lia|].
  rewrite Z.ltb_irrefl. rewrite Nat2Z.id, Nat.sub_diag. simpl. now rewrite app_nil_r.
Qed.



End NameFacts.

(** ** Stable sorting *)

Section StableSort.
Context {A : Type} (less : A -> A -> bool) (P : A -> Prop).
Hypothesis less_asym : forall a b, P a -> P b -> less a b = true -> less b a = false.
Hypothesis less_negtrans : forall a b c, P a -> P b -> P c ->
  less a b = false -> less b c = false -> less a c = false.

Lemma less_irrefl (a : A) : P a -> less a a = false.
Proof.
  intros Ha. destruct (less a a) eqn:E; [|reflexivity].
  rewrite <- E at 1. now apply less_asym.
Qed.

Lemma stable_insert_Forall (Q : A -> Prop) (x : A) (l : list A) :
  Q x -> Forall Q l -> Forall Q (stable_insert less x l).
Proof.
  intros Hx Hl. rewrite stable_insert_Permutation. now constructor.
Qed.

Lemma stable_insert_sorted (x : A) (l : list A) :
  P x -> Forall P l ->
  StronglySorted (fun a b => less b a = false) l ->
  StronglySorted (fun a b => less b a = false) (stable_insert less x l).
Proof.
  intros Hx Hl Hs. induction Hs as [|y l Hs IH Hy]; simpl.
  - constructor; constructor.
  - inversion Hl as [|? ? Py Pl]; subst.
    destruct (less y x) eqn:E.
    + constructor; [now apply IH|].
      apply stable_insert_Forall; [now apply less_asym | assumption].
    + constructor; [now constructor|].
      constructor; [assumption|].
      rewrite Forall_forall in Hy, Pl |- *. intros z Hz.
      apply (less_negtrans z y x); auto.
Qed.

(** [sort.Stable] sorts: no element is less than an earlier one. *)
Lemma sort_Stable_sorted (l : list A) :
  Forall P l -> StronglySorted (fun a b => less b a = false) (sort_Stable less l).
Proof.
  induction l as [|x l IH]; intros Hl; simpl; [constructor|].
  inversion Hl; subst. apply stable_insert_sorted; [assumption | | now apply IH].
  rewrite sort_Stable_Permutation. assumption.
Qed.

(** [sort.Stable] is stable: two elements of which the later is not less
    than the earlier, and that tie, are in the order [Q] in which the list
    had them. *)
Lemma stable_insert_stable (Q : A -> A -> Prop) (x : A) (l : list A) :
  P x -> Forall P l -> Forall (Q x) l ->
  StronglySorted (fun a b => less b a = false /\ (less a b = false -> Q a b)) l ->
  StronglySorted (fun a b => less b a = false /\ (less a b = false -> Q a b))
                 (stable_insert less x l).
Proof.
  intros Hx Hl Hq Hs. induction Hs as [|y l Hs IH Hy]; simpl.
  - constructor; constructor.
  - inversion Hl as [|? ? Py Pl]; subst. inversion Hq as [|? ? Qy Ql]; subst.
    destruct (less y x) eqn:E.
    + constructor; [now apply IH|].
      apply stable_insert_Forall; [|assumption].
      split; [now apply less_asym | intros E'; congruence].
    + constructor; [now constructor|].
      constructor; [split; [assumption | intros _; assumption]|].
      rewrite Forall_forall in Hy, Pl, Ql |- *. intros z Hz.
      split; [|intros _; now apply Ql].
      apply (less_negtrans z y x); auto. now apply Hy.
Qed.

Lemma sort_Stable_stable (Q : A -> A -> Prop) (l : list A) :
  Forall P l -> StronglySorted Q l ->
  StronglySorted (fun a b => less b a = false /\ (less a b = false -> Q a b))
                 (sort_Stable less l).
Proof.
  induction l as [|x l IH]; intros Hl Hq; simpl; [constructor|].
  inversion Hl; subst. inversion Hq; subst.
  apply stable_insert_stable; [assumption | | | now apply IH];
    rewrite sort_Stable_Permutation; assumption.
Qed.

Lemma filter_length_Permutation (p : A -> bool) (l1 l2 : list A) :
  l1 ≡ₚ l2 -> length (List.filter p l1) = length (List.filter p l2).
Proof.
  induction 1 as [|x l1 l2 _ IH|x y l|l1 l2 l3 _ IH1 _ IH2]; simpl.
  - reflexivity.
  - destruct (p x); simpl; now rewrite IH.
  - destruct (p x), (p y); reflexivity.
  - now rewrite IH1.
Qed.

Lemma filter_length_mono (p q : A -> bool) (l : list A) :
  (forall y, y ∈ l -> p y = true -> q y = true) ->
  (length (List.filter p l) <= length (List.filter q l))%nat.
Proof.
  induction l as [|x l IH]; intros H; simpl; [lia|].
  assert (IH' : (length (List.filter p l) <= length (List.filter q l))%nat).
  { apply IH. intros y Hy. apply H. now right. }
  destruct (p x) eqn:Ep.
  - rewrite (H x) by (assumption || left). simpl. lia.
  - destruct (q x); simpl; lia.
Qed.

Lemma filter_none (p : A -> bool) (l : list A) :
  Forall (fun y => p y = false) l -> List.filter p l = [].
Proof.
  induction 1 as [|x l Hx _ IH]; simpl; [reflexivity|]. now rewrite Hx.
Qed.

(** In a list sorted downwards, the elements above the one at position [i]
    are among the first [i], and the first [i + 1] are not below it. *)
Lemma sorted_down_above (l : list A) (i : nat) (a : A) :
  Forall P l -> StronglySorted (fun a b => less a b = false) l ->
  l !! i = Some a -> (length (List.filter (less a) l) <= i)%nat.
Proof.
  intros Hl Hs. revert i. induction Hs as [|x l Hs IH Hx]; intros i Hi; [discriminate|].
  inversion Hl as [|? ? Px Pl]; subst.
  destruct i as [|i]; simpl in Hi |- *.
  - injection Hi as ->. rewrite less_irrefl by assumption.
    rewrite filter_none by assumption. simpl. lia.
  - specialize (IH Pl i Hi). destruct (less a x); simpl; lia.
Qed.

Lemma sorted_down_not_below (l : list A) (i : nat) (a : A) :
  Forall P l -> StronglySorted (fun a b => less a b = false) l ->
  l !! i = Some a -> (i < length (List.filter (fun y => negb (less y a)) l))%nat.
Proof.
  intros Hl Hs. revert i. induction Hs as [|x l Hs IH Hx]; intros i Hi; [discriminate|].
  inversion Hl as [|? ? Px Pl]; subst.
  destruct i as [|i]; simpl in Hi |- *.
  - injection Hi as ->. rewrite less_irrefl by assumption. simpl. lia.
  - specialize (IH Pl i Hi).
    assert (Hxa : less x a = false).
    { rewrite Forall_forall in Hx. apply Hx. eapply list_elem_of_lookup_2. eassumption. }
    rewrite Hxa. simpl. lia.
Qed.

(** Two lists sorted downwards that are permutations of each other agree
    position by position up to ties. *)
Lemma sorted_down_Permutation_ties (l1 l2 : list A) :
  Forall P l1 -> l1 ≡ₚ l2 ->
  StronglySorted (fun a b => less a b = false) l1 ->
  StronglySorted (fun a b => less a b = false) l2 ->
  Forall2 (fun a b => less a b = false /\ less b a = false) l1 l2.
Proof.
  intros Hl1 Hp Hs1 Hs2.
  assert (Hl2 : Forall P l2) by now rewrite <- Hp.
  apply Forall2_same_length_lookup. split; [now apply Permutation_length|].
  intros i a b Ha Hb.
  assert (Pa : P a).
  { rewrite Forall_forall in Hl1. apply Hl1. eapply list_elem_of_lookup_2. eassumption. }
  assert (Pb : P b).
  { rewrite Forall_forall in Hl2. apply Hl2. eapply list_elem_of_lookup_2. eassumption. }
  split.
  - destruct (less a b) eqn:E; [exfalso|reflexivity].
    pose proof (sorted_down_above l1 i a Hl1 Hs1 Ha) as H1.
    pose proof (sorted_down_not_below l2 i b Hl2 Hs2 Hb) as H2.
    rewrite (filter_length_Permutation _ _ _ Hp) in H1.
    assert (H3 : (length (List.filter (fun y => negb (less y b)) l2)
                  <= length (List.filter (less a) l2))%nat).
    { apply filter_length_mono. intros y Hy Hyb.
      apply negb_true_iff in Hyb.
      destruct (less a y) eqn:Eay; [reflexivity|].
      rewrite Forall_forall in Hl2.
      rewrite (less_negtrans a y b) in E; auto. }
    lia.
  - destruct (less b a) eqn:E; [exfalso|reflexivity].
    pose proof (sorted_down_above l2 i b Hl2 Hs2 Hb) as H1.
    pose proof (sorted_down_not_below l1 i a Hl1 Hs1 Ha) as H2.
    rewrite <- (filter_length_Permutation _ _ _ Hp) in H1.
    assert (H3 : (length (List.filter (fun y => negb (less y a)) l1)
                  <= length (List.filter (less b) l1))%nat).
    { apply filter_length_mono. intros y Hy Hya.
      apply negb_true_iff in Hya.
      destruct (less b y) eqn:Eby; [reflexivity|].
      rewrite Forall_forall in Hl1.
      rewrite (less_negtrans b y a) in E; auto. }
    lia.
Qed.

End StableSort.

(** ** The order [Less] on the non-missing elements of one kind *)

Section LessFacts.
Context {ext : Extern}.

Lemma Ascii_compare_refl (c : ascii) : Ascii.compare c c = Eq.
Proof. unfold Ascii.compare. apply N.compare_refl. Qed.

Lemma String_compare_refl (a : string) : String.compare a a = Eq.
Proof. induction a as [|c a IH]; simpl; [reflexivity|]. now rewrite Ascii_compare_refl. Qed.

Lemma String_compare_lt_trans (a b c : string) :
  String.compare a b = Lt -> String.compare b c = Lt -> String.compare a c = Lt.
Proof.
  revert b c. induction a as [|c1 a IH]; intros [|c2 b] [|c3 c]; simpl;
    try discriminate; try reflexivity.
  destruct (Ascii.compare c1 c2) eqn:E12; destruct (Ascii.compare c2 c3) eqn:E23;
    try discriminate; intros H1 H2.
  - apply Ascii.compare_eq_iff in E12, E23. subst. rewrite Ascii_compare_refl.
    now apply (IH b).
  - apply Ascii.compare_eq_iff in E12. subst. now rewrite E23.
  - apply Ascii.compare_eq_iff in E23. subst. now rewrite E12.
  - unfold Ascii.compare in *. rewrite N.compare_lt_iff in E12, E23.
    assert (H : (N_of_ascii c1 ?= N_of_ascii c3)%N = Lt) by (apply N.compare_lt_iff; lia).
    now rewrite H.
Qed.

Lemma String_ltb_asym (a b : string) : String.ltb a b = true -> String.ltb b a = false.
Proof.
  unfold String.ltb. rewrite (String.compare_antisym b a).
  destruct (String.compare a b); simpl; congruence.
Qed.

Lemma String_ltb_negtrans (a b c : string) :
  String.ltb a b = false -> String.ltb b c = false -> String.ltb a c = false.
Proof.
  unfold String.ltb. intros Hab Hbc.
  destruct (String.compare a c) eqn:Eac; try reflexivity. exfalso.
  destruct (String.compare a b) eqn:Eab; [| discriminate |].
  - apply String.compare_eq_iff in Eab. subst. rewrite Eac in Hbc. discriminate.
  - assert (Hba : String.compare b a = Lt).
    { rewrite String.compare_antisym, Eab. reflexivity. }
    rewrite (String_compare_lt_trans b a c Hba Eac) in Hbc. discriminate.
Qed.

Lemma String_ltb_tie (a b : string) :
  String.ltb a b = false -> String.ltb b a = false -> a = b.
Proof.
  unfold String.ltb. rewrite (String.compare_antisym b a).
  destruct (String.compare a b) eqn:E; simpl; try discriminate.
  intros _ _. now apply String.compare_eq_iff.
Qed.

(** The comparison of floats that are not NaN. *)
Ltac SF_cases :=
  repeat match goal with
         | b : bool |- _ => destruct b
         end;
  simpl in *; try discriminate; try reflexivity;
  repeat match goal with
         | H : context [Z.compare ?a ?b] |- _ => destruct (Z.compare_spec a b)
         | |- context [Z.compare ?a ?b] => destruct (Z.compare_spec a b)
         end;
  simpl in *; try discriminate; try reflexivity; try lia;
  change (Pos.compare_cont Eq) with Pos.compare in *;
  repeat match goal with
         | H : context [Pos.compare ?a ?b] |- _ => destruct (Pos.compare_spec a b)
         | |- context [Pos.compare ?a ?b] => destruct (Pos.compare_spec a b)
         end;
  simpl in *; subst; try discriminate; try reflexivity; try lia.

Lemma SFcompare_antisym (x y : float64) (c : comparison) :
  SFcompare x y = Some c -> SFcompare y x = Some (CompOpp c).
Proof.
  destruct x as [sx|sx| |sx mx ex], y as [sy|sy| |sy my ey]; simpl;
    intros H; try discriminate; injection H as <-; SF_cases.
Qed.

Lemma SFcompare_lt_trans (x y z : float64) :
  SFcompare x y = Some Lt -> SFcompare y z = Some Lt -> SFcompare x z = Some Lt.
Proof.
  destruct x as [sx|sx| |sx mx ex], y as [sy|sy| |sy my ey], z as [sz|sz| |sz mz ez];
    simpl; intros H1 H2; try discriminate; injection H1 as H1; injection H2 as H2;
    f_equal; SF_cases.
Qed.

Lemma SFcompare_eq_l (x y z : float64) :
  SFcompare x y = Some Eq -> SFcompare x z = SFcompare y z.
Proof.
  destruct x as [sx|sx| |sx mx ex], y as [sy|sy| |sy my ey], z as [sz|sz| |sz mz ez];
    simpl; intros H1; try discriminate; try reflexivity; injection H1 as H1;
    try (f_equal); SF_cases.
Qed.

Lemma SFcompare_not_nan (x y : float64) :
  math_IsNaN x = false -> math_IsNaN y = false -> exists c, SFcompare x y = Some c.
Proof.
  destruct x as [sx|sx| |sx mx ex], y as [sy|sy| |sy my ey]; simpl;
    intros H1 H2; try discriminate; eexists; reflexivity.
Qed.

Lemma f64_lt_asym (x y : float64) : f64_lt x y = true -> f64_lt y x = false.
Proof.
  unfold f64_lt, SFltb. destruct (SFcompare x y) as [[| |]|] eqn:E; try discriminate.
  intros _. now rewrite (SFcompare_antisym _ _ _ E).
Qed.

Lemma f64_lt_negtrans (x y z : float64) :
  math_IsNaN x = false -> math_IsNaN y = false -> math_IsNaN z = false ->
  f64_lt x y = false -> f64_lt y z = false -> f64_lt x z = false.
Proof.
  intros Hx Hy Hz. unfold f64_lt, SFltb.
  destruct (SFcompare_not_nan x y Hx Hy) as [cxy Exy].
  destruct (SFcompare_not_nan y z Hy Hz) as [cyz Eyz].
  rewrite Exy, Eyz. intros Hxy Hyz.
  destruct (SFcompare x z) as [[| |]|] eqn:Exz; try reflexivity. exfalso.
  destruct cxy; [| discriminate |].
  - rewrite (SFcompare_eq_l _ _ z Exy), Eyz in Exz. injection Exz as ->. discriminate.
  - pose proof (SFcompare_antisym _ _ _ Exy) as Eyx. simpl in Eyx.
    rewrite (SFcompare_lt_trans y x z Eyx Exz) in Eyz. injection Eyz as <-. discriminate.
Qed.

End LessFacts.

(** ** Order and Subset *)

Section OrderFacts.
Context {ext : Extern}.

Lemma Element_Less_missing_l (a b : Element) : Element_IsNA a = true -> Element_Less a b = false.
Proof. intros H. apply Element_Less_missing. now left. Qed.

Lemma Element_Less_missing_r (a b : Element) : Element_IsNA b = true -> Element_Less a b = false.
Proof. intros H. apply Element_Less_missing. now right. Qed.

Lemma floatElement_IsNA_false (x : floatElement) :
  floatElement_IsNA x = false -> float_nan x = false /\ math_IsNaN (float_e x) = false.
Proof.
  unfold floatElement_IsNA. destruct (float_nan x), (math_IsNaN (float_e x)); simpl;
    intros H; try discriminate; split; reflexivity.
Qed.

(** On the non-missing elements of one kind, [Less] is the order of the
    payloads. *)
Lemma Element_Less_present (ty : series.Type_) (a b : Element) :
  present ty a -> present ty b ->
  Element_Less a b =
    match a, b with
    | E_string x, E_string y => String.ltb (string_e x) (string_e y)
    | E_int x, E_int y => Z.ltb (int_e x) (int_e y)
    | E_float x, E_float y => f64_lt (float_e x) (float_e y)
    | E_bool x, E_bool y => negb (bool_e x) && bool_e y
    | _, _ => false
    end.
Proof.
  intros [Ta Na] [Tb Nb].
  destruct a as [x|x|x|x], b as [y|y|y|y]; simpl in *; try congruence.
  - unfold stringElement_Less, stringElement_cmp.
    cbn [Element_IsNA Element_String]. unfold stringElement_String.
    now rewrite Na, Nb.
  - unfold intElement_Less, intElement_cmp.
    cbn [Element_Int]. unfold intElement_Int.
    rewrite Na, Nb. reflexivity.
  - unfold floatElement_Less, floatElement_cmp.
    cbn [Element_Float]. unfold floatElement_Float.
    rewrite Na, Nb. apply floatElement_IsNA_false in Nb. destruct Nb as [_ Nb].
    now rewrite Nb.
  - unfold boolElement_Less, boolElement_cmp.
    cbn [Element_Bool]. unfold boolElement_Bool.
    rewrite Na, Nb. reflexivity.
Qed.

Lemma Element_Less_asym (ty : series.Type_) (a b : Element) :
  present ty a -> present ty b -> Element_Less a b = true -> Element_Less b a = false.
Proof.
  intros Pa Pb. rewrite (Element_Less_present ty a b), (Element_Less_present ty b a)
    by assumption.
  destruct a as [x|x|x|x], b as [y|y|y|y]; try discriminate; try reflexivity.
  - apply String_ltb_asym.
  - intros H. apply Z.ltb_lt in H. apply Z.ltb_ge. lia.
  - apply f64_lt_asym.
  - destruct (bool_e x), (bool_e y); simpl; congruence.
Qed.

Lemma Element_Less_negtrans (ty : series.Type_) (a b c : Element) :
  present ty a -> present ty b -> present ty c ->
  Element_Less a b = false -> Element_Less b c = false -> Element_Less a c = false.
Proof.
  intros Pa Pb Pc.
  rewrite (Element_Less_present ty a b), (Element_Less_present ty b c),
    (Element_Less_present ty a c) by assumption.
  destruct Pa as [Ta Na], Pb as [Tb Nb], Pc as [Tc Nc].
  destruct a as [x|x|x|x], b as [y|y|y|y], c as [z|z|z|z]; simpl in *;
    try congruence; try reflexivity.
  - apply String_ltb_negtrans.
  - intros H1 H2. apply Z.ltb_ge in H1, H2. apply Z.ltb_ge. lia.
  - apply floatElement_IsNA_false in Na, Nb, Nc.
    apply f64_lt_negtrans; tauto.
  - destruct (bool_e x), (bool_e y), (bool_e z); simpl; congruence.
Qed.

(** Outside the real kind, two non-missing elements tie only when they are
    the same element. *)
Lemma tie_eq (ty : series.Type_) (a b : Element) :
  ty <> series.Float -> present ty a -> present ty b -> tie a b -> a = b.
Proof.
  intros Hty Pa Pb [H1 H2].
  rewrite (Element_Less_present ty a b) in H1 by assumption.
  rewrite (Element_Less_present ty b a) in H2 by assumption.
  destruct Pa as [Ta Na], Pb as [Tb Nb].
  destruct a as [[xe xn]|[xe xn]|x|[xe xn]], b as [[ye yn]|[ye yn]|y|[ye yn]];
    simpl in *; try congruence; subst.
  - f_equal. f_equal. now apply String_ltb_tie.
  - f_equal. f_equal. apply Z.ltb_ge in H1, H2. lia.
  - f_equal. f_equal. destruct xe, ye; simpl in *; congruence.
Qed.

(** Generic facts on sorted lists. *)
Lemma StronglySorted_app_intro {A} (R : A -> A -> Prop) (l1 l2 : list A) :
  StronglySorted R l1 -> StronglySorted R l2 ->
  (forall a b, a ∈ l1 -> b ∈ l2 -> R a b) ->
  StronglySorted R (l1 ++ l2).
Proof.
  intros H1 H2 H. induction H1 as [|x l1 H1 IH Hx]; simpl; [assumption|].
  constructor.
  - apply IH. intros a b Ha Hb. apply H; [now right | assumption].
  - apply Forall_app. split; [assumption|].
    apply Forall_forall. intros b Hb. apply H; [left | assumption].
Qed.

Lemma StronglySorted_rev {A} (R : A -> A -> Prop) (l : list A) :
  StronglySorted R l -> StronglySorted (fun a b => R b a) (rev l).
Proof.
  induction 1 as [|x l Hs IH Hx]; simpl; [constructor|].
  apply StronglySorted_app_intro; [assumption | repeat constructor |].
  intros a b Ha Hb. apply list_elem_of_singleton in Hb. subst b.
  rewrite Forall_forall in Hx. apply Hx.
  apply list_elem_of_In. apply in_rev. now apply list_elem_of_In.
Qed.

Lemma stable_insert_map {A B} (g : A -> B) (f : B -> B -> bool) (x : A) (l : list A) :
  map g (stable_insert (fun a b => f (g a) (g b)) x l) = stable_insert f (g x) (map g l).
Proof.
  induction l as [|y l IH]; simpl; [reflexivity|].
  destruct (f (g y) (g x)); simpl; [now rewrite IH | reflexivity].
Qed.

Lemma sort_Stable_map {A B} (g : A -> B) (f : B -> B -> bool) (l : list A) :
  map g (sort_Stable (fun a b => f (g a) (g b)) l) = sort_Stable f (map g l).
Proof.
  induction l as [|x l IH]; simpl; [reflexivity|].
  now rewrite stable_insert_map, IH.
Qed.

(** The first loop of [Order]: the non-missing elements and the missing ones,
    each with its position, in order of appearance. *)
Lemma Order_split_spec (L : list Element) (i0 : Z) :
  map ie_element (fst (Order_split L i0))
    = List.filter (fun e => negb (Element_IsNA e)) L /\
  Forall (fun x => i0 <= ie_index x /\
                   L !! Z.to_nat (ie_index x - i0) = Some (ie_element x))
         (fst (Order_split L i0)) /\
  Forall2 (fun i e => i0 <= i /\ L !! Z.to_nat (i - i0) = Some e)
          (snd (Order_split L i0)) (List.filter Element_IsNA L).
Proof.
  revert i0. induction L as [|e L IH]; intros i0; simpl.
  - repeat split; constructor.
  - destruct (IH (i0 + 1)) as (H1 & H2 & H3).
    destruct (Order_split L (i0 + 1)) as [ie nas]. simpl in H1, H2, H3.
    assert (Hshift : forall i x, i0 + 1 <= i -> L !! Z.to_nat (i - (i0 + 1)) = Some x ->
              i0 <= i /\ (e :: L) !! Z.to_nat (i - i0) = Some x).
    { intros i x Hi Hx. split; [lia|].
      replace (Z.to_nat (i - i0)) with (S (Z.to_nat (i - (i0 + 1)))) by lia.
      exact Hx. }
    destruct (Element_IsNA e) eqn:E; simpl.
    + split; [assumption|]. split.
      * eapply Forall_impl; [exact H2|]. intros x [Hx1 Hx2]. now apply Hshift.
      * constructor.
        -- split; [lia|]. now rewrite Z.sub_diag.
        -- eapply Forall2_impl; [exact H3|]. intros i x [Hx1 Hx2]. now apply Hshift.
    + split; [now rewrite H1|]. split.
      * constructor.
        -- simpl. split; [lia|]. now rewrite Z.sub_diag.
        -- eapply Forall_impl; [exact H2|]. intros x [Hx1 Hx2]. now apply Hshift.
      * eapply Forall2_impl; [exact H3|]. intros i x [Hx1 Hx2]. now apply Hshift.
Qed.

Lemma mapM_index_lookup {B} (f : B -> Element) (l : list B) (idx : list Z)
    (es : list Element) :
  Forall2 (fun i e => 0 <= i /\ map f l !! Z.to_nat i = Some e) idx es ->
  exists xs, mapM (fun i => index l i) idx = Ok xs /\ map f xs = es.
Proof.
  induction 1 as [|i e idx es [Hi He] _ (xs & Hx & Hm)].
  - now exists [].
  - change (map f l) with (f <$> l) in He. rewrite list_lookup_fmap in He.
    destruct (l !! Z.to_nat i) as [x|] eqn:El; simpl in He; [|discriminate].
    injection He as <-.
    assert (Hix : index l i = Ok x).
    { unfold index. destruct (i <? 0) eqn:E; [apply Z.ltb_lt in E; lia|].
      now rewrite El. }
    cbn [mapM]. rewrite Hix. cbn. rewrite Hx. cbn.
    exists (x :: xs). split; [reflexivity|]. simpl. now rewrite Hm.
Qed.

(** [Subset] with a list of valid indexes returns the elements at these
    indexes, in the order of the list. *)
Lemma Series_Subset_ints (c : Series) (idx : list Z) (es : list Element) :
  Series_wf c ->
  Forall2 (fun i e => 0 <= i /\ Elements_list (elements c) !! Z.to_nat i = Some e) idx es ->
  exists r,
    Series_Subset c (v_ints idx) = Ok r /\ Elements_list (elements r) = es /\
    Name r = Name c /\ t r = t c /\ Err r = None.
Proof.
  intros [He Hw] H. destruct c as [name els ty err]. simpl in *. subst err.
  unfold Series_Subset, Series_Len.
  destruct ty, els; try contradiction; cbn -[index mapM] in H |- *;
    destruct (mapM_index_lookup _ _ _ _ H) as (xs & Hx & Hm);
    rewrite Hx; cbn; eexists; (split; [reflexivity|]); cbn; auto.
Qed.

Lemma Forall_map_map_Forall2 {A B C} (R : B -> C -> Prop) (f : A -> B) (g : A -> C)
    (l : list A) :
  Forall (fun x => R (f x) (g x)) l -> Forall2 R (map f l) (map g l).
Proof. induction 1; simpl; constructor; assumption. Qed.

Lemma Elements_list_present (c : Series) :
  Series_wf c ->
  Forall (fun e => Element_Type e = t c) (Elements_list (elements c)).
Proof.
  intros [_ Hw]. destruct c as [name els ty err]. simpl in *.
  destruct ty, els; try contradiction; simpl;
    apply Forall_forall; intros e He; apply list_elem_of_In, in_map_iff in He;
    destruct He as (x & <- & _); reflexivity.
Qed.

Lemma filter_present (ty : series.Type_) (L : list Element) :
  Forall (fun e => Element_Type e = ty) L ->
  Forall (present ty) (List.filter (fun e => negb (Element_IsNA e)) L).
Proof.
  induction 1 as [|e L He _ IH]; simpl; [constructor|].
  destruct (Element_IsNA e) eqn:E; simpl; [assumption|].
  constructor; [now split | assumption].
Qed.

Lemma filter_missing (L : list Element) :
  Forall (fun e => Element_IsNA e = true) (List.filter Element_IsNA L).
Proof.
  induction L as [|e L IH]; simpl; [constructor|].
  destruct (Element_IsNA e) eqn:E; [constructor|]; assumption.
Qed.

Lemma missing_sorted (l : list Element) :
  Forall (fun e => Element_IsNA e = true) l ->
  StronglySorted (fun a b => Element_Less b a = false) l.
Proof.
  induction 1 as [|e l He _ IH]; constructor; [assumption|].
  apply Forall_forall. intros b _. now apply Element_Less_missing_r.
Qed.

Lemma Forall2_tie_eq (ty : series.Type_) (l1 l2 : list Element) :
  ty <> series.Float -> Forall (present ty) l1 -> Forall (present ty) l2 ->
  Forall2 tie l1 l2 -> l1 = l2.
Proof.
  intros Hty H1 H2 H. induction H as [|a b l1 l2 Hab _ IH]; [reflexivity|].
  inversion H1; subst. inversion H2; subst.
  f_equal; [now apply (tie_eq ty) | now apply IH].
Qed.

(** The first loop of [Order] lists the indexes in increasing order. *)
Lemma Order_split_increasing (L : list Element) (i0 : Z) :
  StronglySorted (fun a b => ie_index a < ie_index b) (fst (Order_split L i0)) /\
  StronglySorted Z.lt (snd (Order_split L i0)) /\
  Forall (fun x => i0 <= ie_index x) (fst (Order_split L i0)) /\
  Forall (fun i => i0 <= i) (snd (Order_split L i0)).
Proof.
  revert i0. induction L as [|e L IH]; intros i0; simpl.
  - repeat split; constructor.
  - destruct (IH (i0 + 1)) as (H1 & H2 & H3 & H4).
    destruct (Order_split L (i0 + 1)) as [ie nas]. simpl in H1, H2, H3, H4.
    assert (H3' : Forall (fun x => i0 <= ie_index x) ie)
      by (eapply Forall_impl; [exact H3|]; intros x Hx; simpl in Hx; lia).
    assert (H4' : Forall (fun i => i0 <= i) nas)
      by (eapply Forall_impl; [exact H4|]; intros x Hx; simpl in Hx; lia).
    destruct (Element_IsNA e); simpl.
    + split; [assumption|]. split; [|split; [assumption|]].
      * constructor; [assumption|].
        eapply Forall_impl; [exact H4|]. intros x Hx. simpl in Hx. lia.
      * constructor; [lia | assumption].
    + split; [|split; [assumption|split; [|assumption]]].
      * constructor; [assumption|].
        eapply Forall_impl; [exact H3|]. intros x Hx. simpl in Hx |- *. lia.
      * constructor; [simpl; lia | assumption].
Qed.

Lemma StronglySorted_map {A B} (f : A -> B) (R : B -> B -> Prop) (l : list A) :
  StronglySorted (fun a b => R (f a) (f b)) l -> StronglySorted R (map f l).
Proof.
  induction 1 as [|a l _ IH Ha]; simpl; constructor; [assumption|].
  apply Forall_forall. intros y Hy. apply list_elem_of_In, in_map_iff in Hy.
  destruct Hy as (b & <- & Hb). rewrite Forall_forall in Ha.
  apply Ha. now apply list_elem_of_In.
Qed.

Lemma StronglySorted_impl_Forall {A} (Q : A -> Prop) (R R' : A -> A -> Prop) (l : list A) :
  Forall Q l -> (forall a b, Q a -> Q b -> R a b -> R' a b) ->
  StronglySorted R l -> StronglySorted R' l.
Proof.
  intros HQ Himp Hs. induction Hs as [|a l _ IH Ha]; [constructor|].
  inversion HQ as [|? ? Qa Ql]; subst.
  constructor; [now apply IH|].
  rewrite Forall_forall in Ha, Ql |- *. intros b Hb. apply Himp; auto.
Qed.

(** The indexes that [Order] returns with the order [srt], which is [Less]
    or its reverse, keep the original order of the elements of one rank. *)
Lemma Order_indexes_stable (ty : series.Type_) (L : list Element)
    (srt : indexedElement -> indexedElement -> bool) :
  Forall (fun e => Element_Type e = ty) L ->
  (forall a b, srt a b = Element_Less (ie_element a) (ie_element b)) \/
  (forall a b, srt a b = Element_Less (ie_element b) (ie_element a)) ->
  ties_in_original_order L
    (map ie_index (sort_Stable srt (fst (Order_split L 0))) ++ snd (Order_split L 0)).
Proof.
  intros Hty Hsrt.
  destruct (Order_split_spec L 0) as (H1 & H2 & H3).
  destruct (Order_split_increasing L 0) as (I1 & I2 & _ & _).
  destruct (Order_split L 0) as [ie nas]. simpl in H1, H2, H3, I1, I2 |- *.
  set (Q := fun x : indexedElement =>
              present ty (ie_element x) /\
              0 <= ie_index x /\ L !! Z.to_nat (ie_index x) = Some (ie_element x)).
  assert (HQ : Forall Q ie).
  { pose proof (filter_present ty L Hty) as HP. rewrite <- H1 in HP.
    apply Forall_forall. intros x Hx.
    pose proof (proj1 (Forall_forall _ _) H2 x Hx) as [Hx1 Hx2].
    rewrite Z.sub_0_r in Hx2.
    split; [|now split]. apply (proj1 (Forall_forall _ _) HP).
    apply list_elem_of_In, in_map. now apply list_elem_of_In. }
  assert (Hasym : forall a b, Q a -> Q b -> srt a b = true -> srt b a = false).
  { intros a b [Pa _] [Pb _]. destruct Hsrt as [E|E]; rewrite !E.
    - now apply (Element_Less_asym ty).
    - now apply (Element_Less_asym ty). }
  assert (Hneg : forall a b d, Q a -> Q b -> Q d ->
                   srt a b = false -> srt b d = false -> srt a d = false).
  { intros a b d [Pa _] [Pb _] [Pd _]. destruct Hsrt as [E|E]; rewrite !E.
    - now apply (Element_Less_negtrans ty).
    - intros Hab Hbd. now apply (Element_Less_negtrans ty (ie_element d) (ie_element b)). }
  pose proof (sort_Stable_stable srt Q Hasym Hneg
                (fun a b => ie_index a < ie_index b) ie HQ I1) as Hst.
  assert (HQs : Forall Q (sort_Stable srt ie)) by now rewrite sort_Stable_Permutation.
  unfold ties_in_original_order. apply StronglySorted_app_intro.
  - apply StronglySorted_map.
    eapply (StronglySorted_impl_Forall Q); [exact HQs | | exact Hst].
    intros a b (_ & _ & La) (_ & _ & Lb) [_ Hab] ei ej Hi Hj _ [T1 T2].
    rewrite La in Hi. rewrite Lb in Hj. injection Hi as <-. injection Hj as <-.
    apply Hab. destruct Hsrt as [E|E]; rewrite E; assumption.
  - eapply StronglySorted_impl_Forall with (Q := fun _ => True); [|  | exact I2].
    + apply Forall_forall. intros; exact I.
    + intros i j _ _ Hij ei ej _ _ _ _. exact Hij.
  - intros i j Hi Hj ei ej Li Lj Hna _. exfalso.
    apply list_elem_of_In, in_map_iff in Hi. destruct Hi as (a & <- & Ha).
    apply list_elem_of_In in Ha. rewrite Forall_forall in HQs.
    destruct (HQs a Ha) as ([_ Pa] & _ & La).
    rewrite La in Li. injection Li as <-.
    apply list_elem_of_lookup_1 in Hj. destruct Hj as [k Hk].
    destruct (Forall2_lookup_l _ _ _ _ _ H3 Hk) as (e & He & _ & Le).
    rewrite Z.sub_0_r in Le. rewrite Le in Lj. injection Lj as <-.
    pose proof (filter_missing L) as Hm. rewrite Forall_forall in Hm.
    assert (Element_IsNA e = true) by (apply Hm; eapply list_elem_of_lookup_2; exact He).
    congruence.
Qed.

(** C5, as the code has it. For every Column [c] without error:
    [c.Subset(c.Order(false))] is the non-missing elements sorted upwards by
    [Less] (no element is less than an earlier one) followed by all the
    missing elements in their original order; [c.Subset(c.Order(true))] has
    the same missing tail, and its non-missing prefix is the reverse of the
    upward one up to ties: position by position the two elements tie under
    [Less].  On an integer, text or boolean Column, where elements that tie
    are the same, it is exactly the reverse.  In both directions the sort is
    stable: in the indexes that [Order] returns, of two elements that are
    both missing, or both non-missing and tie, the one of the smaller index
    comes first, so that on a Column of reals +0 and -0 keep their original
    order whatever the direction; and the element at each place of a result
    is the element of [c] at the index that [Order] gives for that place. *)
Theorem Order_then_Subset_sorts (c : Series) :
  Series_wf c ->
  exists ixa ixd ra rd asc desc,
    Series_Order c false = Ok ixa /\ Series_Order c true = Ok ixd /\
    Series_Subset c (v_ints ixa) = Ok ra /\ Series_Subset c (v_ints ixd) = Ok rd /\
    Elements_list (elements ra)
      = asc ++ List.filter Element_IsNA (Elements_list (elements c)) /\
    Elements_list (elements rd)
      = desc ++ List.filter Element_IsNA (Elements_list (elements c)) /\
    asc ≡ₚ List.filter (fun e => negb (Element_IsNA e)) (Elements_list (elements c)) /\
    StronglySorted (fun a b => Element_Less b a = false)
      (asc ++ List.filter Element_IsNA (Elements_list (elements c))) /\
    Forall2 tie desc (rev asc) /\
    (t c <> series.Float -> desc = rev asc) /\
    Forall2 (fun i e => 0 <= i /\ Elements_list (elements c) !! Z.to_nat i = Some e)
      ixa (Elements_list (elements ra)) /\
    Forall2 (fun i e => 0 <= i /\ Elements_list (elements c) !! Z.to_nat i = Some e)
      ixd (Elements_list (elements rd)) /\
    ties_in_original_order (Elements_list (elements c)) ixa /\
    ties_in_original_order (Elements_list (elements c)) ixd.
Proof.
  intros Hwf.
  set (L := Elements_list (elements c)).
  pose proof (Order_indexes_stable (t c) L indexedElements_Less
                (Elements_list_present c Hwf) (or_introl (fun a b => eq_refl))) as Sa.
  pose proof (Order_indexes_stable (t c) L (sort_Reverse indexedElements_Less)
                (Elements_list_present c Hwf) (or_intror (fun a b => eq_refl))) as Sd.
  destruct (Order_split_spec L 0) as (H1 & H2 & H3).
  assert (Hlen : exists n, Series_Len c = Ok n).
  { destruct Hwf as [_ Hw]. unfold Series_Len.
    destruct (t c), (elements c); try contradiction; eexists; reflexivity. }
  destruct Hlen as [n Hn].
  unfold Series_Order. rewrite Hn. simpl. fold L.
  destruct (Order_split L 0) as [ie nas]. simpl in H1, H2, H3.
  set (NM := List.filter (fun e => negb (Element_IsNA e)) L) in *.
  assert (HP : Forall (present (t c)) NM).
  { apply filter_present. now apply Elements_list_present. }
  (* the two sorted prefixes, as lists of elements *)
  assert (Easc : map ie_element (sort_Stable indexedElements_Less ie)
                 = sort_Stable Element_Less NM).
  { unfold indexedElements_Less. now rewrite sort_Stable_map, H1. }
  assert (Edesc : map ie_element (sort_Stable (sort_Reverse indexedElements_Less) ie)
                  = sort_Stable (sort_Reverse Element_Less) NM).
  { unfold indexedElements_Less, sort_Reverse.
    rewrite <- H1.
    apply (sort_Stable_map ie_element (fun x y => Element_Less y x) ie). }
  (* the indexes returned by Order point at these elements *)
  assert (Hidx : forall srt,
            Forall2 (fun i e => 0 <= i /\ L !! Z.to_nat i = Some e)
              (map ie_index (sort_Stable srt ie) ++ nas)
              (map ie_element (sort_Stable srt ie) ++ List.filter Element_IsNA L)).
  { intros srt. apply Forall2_app.
    - apply Forall_map_map_Forall2. rewrite sort_Stable_Permutation.
      eapply Forall_impl; [exact H2|]. intros x [Hx1 Hx2].
      rewrite Z.sub_0_r in Hx2. now split.
    - eapply Forall2_impl; [exact H3|]. intros i e [Hx1 Hx2].
      rewrite Z.sub_0_r in Hx2. now split. }
  destruct (Series_Subset_ints c _ _ Hwf (Hidx indexedElements_Less))
    as (ra & Hra & Era & _).
  destruct (Series_Subset_ints c _ _ Hwf (Hidx (sort_Reverse indexedElements_Less)))
    as (rd & Hrd & Erd & _).
  exists (map ie_index (sort_Stable indexedElements_Less ie) ++ nas),
         (map ie_index (sort_Stable (sort_Reverse indexedElements_Less) ie) ++ nas),
         ra, rd, (sort_Stable Element_Less NM), (sort_Stable (sort_Reverse Element_Less) NM).
  split; [reflexivity|]. split; [reflexivity|].
  split; [assumption|]. split; [assumption|].
  split; [now rewrite Era, Easc|]. split; [now rewrite Erd, Edesc|].
  split; [apply sort_Stable_Permutation|].
  assert (Hup : StronglySorted (fun a b => Element_Less b a = false)
                  (sort_Stable Element_Less NM)).
  { apply (sort_Stable_sorted Element_Less (present (t c))); [| |assumption].
    - apply Element_Less_asym.
    - apply Element_Less_negtrans. }
  assert (Hdown : StronglySorted (fun a b => Element_Less a b = false)
                    (sort_Stable (sort_Reverse Element_Less) NM)).
  { apply (sort_Stable_sorted (sort_Reverse Element_Less) (present (t c))); [| |assumption].
    - intros a b Pa Pb. unfold sort_Reverse. now apply (Element_Less_asym (t c)).
    - intros a b d Pa Pb Pd. unfold sort_Reverse. intros Hab Hbd.
      now apply (Element_Less_negtrans (t c) d b a). }
  assert (Hties : Forall2 tie (sort_Stable (sort_Reverse Element_Less) NM)
                    (rev (sort_Stable Element_Less NM))).
  { apply (sorted_down_Permutation_ties Element_Less (present (t c))).
    - apply Element_Less_asym.
    - apply Element_Less_negtrans.
    - now rewrite sort_Stable_Permutation.
    - rewrite sort_Stable_Permutation. rewrite <- Permutation_rev.
      now rewrite sort_Stable_Permutation.
    - assumption.
    - apply (StronglySorted_rev _ _ Hup). }
  split; [|split; [assumption|split; [|split; [|split; [|split; [exact Sa | exact Sd]]]]]].
  4: { rewrite Erd. apply Hidx. }
  3: { rewrite Era. apply Hidx. }
  - apply StronglySorted_app_intro; [assumption | |].
    + apply missing_sorted, filter_missing.
    + intros a b _ Hb. apply Element_Less_missing_l.
      pose proof (filter_missing L) as Hm. rewrite Forall_forall in Hm. now apply Hm.
  - intros Hty. apply (Forall2_tie_eq (t c)); try assumption.
    + now rewrite sort_Stable_Permutation.
    + rewrite <- Permutation_rev. now rewrite sort_Stable_Permutation.
Qed.

End OrderFacts.

(** * Further properties of the code *)

(** ** Elements: comparisons and copies *)

Section ElementExtras.
Context {ext : Extern}.

Lemma String_eqb_compare (a b : string) :
  String.eqb a b = match String.compare a b with Eq => true | _ => false end.
Proof.
  destruct (String.eqb_spec a b) as [->|Hne].
  - now rewrite String_compare_refl.
  - destruct (String.compare a b) eqn:E; try reflexivity.
    apply String.compare_eq_iff in E. contradiction.
Qed.

(** The six comparisons of two non-missing elements of one kind, read off
    one comparison of the payloads. *)
Lemma Element_comparisons_present (ty : series.Type_) (a b : Element) :
  present ty a -> present ty b ->
  exists c : comparison,
    Element_Less a b = match c with Lt => true | _ => false end /\
    Element_Eq a b = match c with Eq => true | _ => false end /\
    Element_Greater a b = match c with Gt => true | _ => false end /\
    Element_LessEq a b = match c with Gt => false | _ => true end /\
    Element_GreaterEq a b = match c with Lt => false | _ => true end /\
    Element_Neq a b = match c with Eq => false | _ => true end /\
    Element_Less b a = match c with Gt => true | _ => false end /\
    Element_LessEq b a = match c with Lt => false | _ => true end.
Proof.
  intros [Ta Na] [Tb Nb].
  destruct a as [x|x|x|x], b as [y|y|y|y]; simpl in *; try congruence.
  - exists (String.compare (string_e x) (string_e y)).
    unfold stringElement_Less, stringElement_Eq, stringElement_Greater,
      stringElement_LessEq, stringElement_GreaterEq, stringElement_Neq,
      stringElement_cmp.
    cbn [Element_IsNA Element_String]. unfold stringElement_String.
    rewrite Na, Nb. cbn [orb].
    rewrite String_eqb_compare. unfold String.ltb, String.leb.
    rewrite (String.compare_antisym (string_e y) (string_e x)).
    destruct (String.compare (string_e x) (string_e y)); simpl; repeat split; reflexivity.
  - exists (Z.compare (int_e x) (int_e y)).
    unfold intElement_Less, intElement_Eq, intElement_Greater,
      intElement_LessEq, intElement_GreaterEq, intElement_Neq, intElement_cmp.
    cbn [Element_Int]. unfold intElement_Int. rewrite Na, Nb.
    rewrite bool_decide_eq_false_2 by (intros H; now apply H). cbn [orb].
    unfold Z.ltb, Z.leb, Z.gtb, Z.geb, Z.eqb.
    rewrite (Z.compare_antisym (int_e x) (int_e y)).
    destruct (Z.compare_spec (int_e x) (int_e y)) as [E|E|E]; simpl.
    + rewrite E. destruct (int_e y); simpl; rewrite ?Pos.eqb_refl; repeat split; reflexivity.
    + assert (Hne : int_e x <> int_e y) by lia. apply Z.eqb_neq in Hne.
      unfold Z.eqb in Hne. rewrite Hne. repeat split; reflexivity.
    + assert (Hne : int_e x <> int_e y) by lia. apply Z.eqb_neq in Hne.
      unfold Z.eqb in Hne. rewrite Hne. repeat split; reflexivity.
  - apply floatElement_IsNA_false in Na, Nb.
    destruct Na as [Na1 Na2], Nb as [Nb1 Nb2].
    destruct (SFcompare_not_nan _ _ Na2 Nb2) as [c Ec].
    exists c.
    unfold floatElement_Less, floatElement_Eq, floatElement_Greater,
      floatElement_LessEq, floatElement_GreaterEq, floatElement_Neq, floatElement_cmp.
    cbn [Element_Float]. unfold floatElement_Float, floatElement_IsNA.
    rewrite Na1, Na2, Nb1, Nb2. cbn [orb]. rewrite Na2, Nb2.
    unfold f64_lt, f64_eq, f64_gt, f64_le, f64_ge, f64_ne, SFltb, SFleb, SFeqb.
    rewrite Ec, (SFcompare_antisym _ _ _ Ec).
    destruct c; simpl; repeat split; reflexivity.
  - exists (match bool_e x, bool_e y with
            | false, true => Lt | true, false => Gt | _, _ => Eq end).
    unfold boolElement_Less, boolElement_Eq, boolElement_Greater,
      boolElement_LessEq, boolElement_GreaterEq, boolElement_Neq, boolElement_cmp.
    cbn [Element_Bool]. unfold boolElement_Bool. rewrite Na, Nb.
    rewrite bool_decide_eq_false_2 by (intros H; now apply H). cbn [orb].
    destruct (bool_e x), (bool_e y); simpl; repeat split; reflexivity.
Qed.

(** X1. On two non-missing elements of one kind the six comparison methods
    describe one order: exactly one of [a.Less(b)], [a.Eq(b)] and
    [a.Greater(b)] holds, [Greater] and [GreaterEq] are [Less] and [LessEq]
    with the operands exchanged, [Neq] is the negation of [Eq], and
    [LessEq] is [Less] or [Eq]. *)
Theorem comparisons_of_present_elements_agree (ty : series.Type_) (a b : Element) :
  present ty a -> present ty b ->
  (Element_Less a b = true /\ Element_Eq a b = false /\ Element_Greater a b = false \/
   Element_Less a b = false /\ Element_Eq a b = true /\ Element_Greater a b = false \/
   Element_Less a b = false /\ Element_Eq a b = false /\ Element_Greater a b = true) /\
  Element_Greater a b = Element_Less b a /\
  Element_GreaterEq a b = Element_LessEq b a /\
  Element_Neq a b = negb (Element_Eq a b) /\
  Element_LessEq a b = Element_Less a b || Element_Eq a b.
Proof.
  intros Pa Pb.
  destruct (Element_comparisons_present ty a b Pa Pb)
    as (c & -> & -> & -> & -> & -> & -> & -> & ->).
  destruct c; simpl; repeat split; auto.
Qed.

(** X2. [Copy] returns an element that no accessor tells from the original:
    the same kind, the same answer of [IsNA], [String], [Int], [Float],
    [Bool] and [Val]; and the copy of a copy is the copy. *)
Theorem Copy_is_indistinguishable (e : Element) :
  Element_Type (Element_Copy e) = Element_Type e /\
  Element_IsNA (Element_Copy e) = Element_IsNA e /\
  Element_String (Element_Copy e) = Element_String e /\
  Element_Int (Element_Copy e) = Element_Int e /\
  Element_Float (Element_Copy e) = Element_Float e /\
  Element_Bool (Element_Copy e) = Element_Bool e /\
  Element_Val (Element_Copy e) = Element_Val e /\
  Element_Copy (Element_Copy e) = Element_Copy e.
Proof.
  destruct e as [[xe xn]|[xe xn]|[xe xn]|[xe xn]]; simpl.
  - unfold stringElement_Copy, stringElement_String, stringElement_Int,
      stringElement_Float, stringElement_Bool, stringElement_Val, stringElement_IsNA.
    destruct xn; simpl; repeat split; reflexivity.
  - unfold intElement_Copy, intElement_String, intElement_Int,
      intElement_Float, intElement_Bool, intElement_Val, intElement_IsNA.
    destruct xn; simpl; repeat split; reflexivity.
  - unfold floatElement_Copy, floatElement_String, floatElement_Int,
      floatElement_Float, floatElement_Bool, floatElement_Val, floatElement_IsNA.
    destruct xn; simpl; [repeat split; reflexivity|].
    destruct (math_IsNaN xe) eqn:E; simpl; [repeat split; reflexivity|].
    rewrite !E. simpl. rewrite ?E. repeat split; reflexivity.
  - unfold boolElement_Copy, boolElement_String, boolElement_Int,
      boolElement_Float, boolElement_Bool, boolElement_Val, boolElement_IsNA.
    destruct xn; simpl; repeat split; reflexivity.
Qed.

End ElementExtras.

(** ** Series: constructors, indexes, slices, extremes *)

Section SeriesExtras.
Context {ext : Extern}.

Lemma Series_wf_Len (s : Series) :
  Series_wf s -> Series_Len s = Ok (len (Elements_list (elements s))).
Proof.
  intros [_ Hw]. destruct s as [name els ty err]. simpl in *. unfold Series_Len. simpl.
  destruct ty, els; try contradiction; simpl; unfold len; now rewrite length_map.
Qed.

Lemma Elements_Elem_lookup (e : Elements) (i : Z) (x : Element) :
  0 <= i -> Elements_list e !! Z.to_nat i = Some x -> Elements_Elem e i = Ok x.
Proof.
  intros Hi. unfold Elements_Elem, index.
  destruct (i <? 0) eqn:E; [apply Z.ltb_lt in E; lia|].
  destruct e as [|l|l|l|l]; simpl; [discriminate| | | |];
    change (map ?f l) with (f <$> l); rewrite list_lookup_fmap;
    destruct (l !! Z.to_nat i); simpl; intros H; try discriminate;
    injection H as <-; reflexivity.
Qed.

Lemma Elements_Elem_out (e : Elements) (i : Z) :
  i < 0 \/ len (Elements_list e) <= i -> exists msg, Elements_Elem e i = Panic msg.
Proof.
  intros Hi. unfold Elements_Elem, index.
  destruct e as [|l|l|l|l]; simpl; [eexists; reflexivity| | | |];
    simpl in Hi; unfold len in Hi; rewrite length_map in Hi;
    (destruct (i <? 0) eqn:E; [eexists; reflexivity|]);
    apply Z.ltb_ge in E;
    (rewrite (proj2 (lookup_ge_None l (Z.to_nat i))) by lia);
    eexists; reflexivity.
Qed.

(** X3. The typed constructors and the typed accessors are inverse to each
    other: [Ints(l).Int()] is [l] without error, [Bools(l).Bool()] is [l]
    without error, [Floats(l).Float()] is [l], and [Strings(l).Records()] is
    [l] (the text NaN included, which is stored as a missing element and
    printed back as NaN). *)
Theorem constructors_round_trip :
  (forall l : list Z, exists s, Ints (v_ints l) = Ok s /\ Series_Int s = Ok (l, None)) /\
  (forall l : list bool, exists s, Bools (v_bools l) = Ok s /\ Series_Bool s = Ok (l, None)) /\
  (forall l : list float64, exists s, Floats (v_float64s l) = Ok s /\ Series_Float s = Ok l) /\
  (forall l : list string, exists s, Strings (v_strings l) = Ok s /\ Series_Records s = Ok l).
Proof.
  repeat split; intros l; eexists; (split; [reflexivity|]);
    unfold Series_Int, Series_Bool, Series_Float, Series_Records; simpl; f_equal.
  - induction l as [|i l IH]; simpl; [reflexivity|]. now rewrite IH.
  - induction l as [|b l IH]; simpl; [reflexivity|]. now rewrite IH.
  - induction l as [|f l IH]; simpl; [reflexivity|]. rewrite IH. f_equal.
    unfold floatElement_Float, floatElement_IsNA. simpl. now destruct f.
  - induction l as [|x l IH]; simpl; [reflexivity|]. rewrite IH. f_equal.
    unfold stringElement_String, stringElement_IsNA. simpl.
    destruct (String.eqb_spec x "NaN") as [->|_]; reflexivity.
Qed.

Lemma Order_split_Permutation (L : list Element) (i0 : Z) :
  Permutation (map ie_index (fst (Order_split L i0)) ++ snd (Order_split L i0))
              (seqZ i0 (len L)).
Proof.
  revert i0. induction L as [|e L IH]; intros i0; [reflexivity|].
  simpl. specialize (IH (i0 + 1)).
  destruct (Order_split L (i0 + 1)) as [ie nas]. simpl in IH.
  replace (len (e :: L)) with (Z.succ (len L)) by (unfold len; simpl; lia).
  rewrite seqZ_cons by (unfold len; lia).
  replace (Z.pred (Z.succ (len L))) with (len L) by lia.
  replace (Z.succ i0) with (i0 + 1) by lia.
  destruct (Element_IsNA e); simpl.
  - rewrite <- Permutation_middle. now constructor.
  - now constructor.
Qed.

Lemma Series_Order_Permutation (s : Series) (reverse : bool) (n : Z) :
  Series_Len s = Ok n ->
  exists ix, Series_Order s reverse = Ok ix /\ Permutation ix (range 0 n).
Proof.
  intros Hn. unfold Series_Order. rewrite Hn. simpl.
  pose proof (Order_split_Permutation (Elements_list (elements s)) 0) as HP.
  destruct (Order_split (Elements_list (elements s)) 0) as [ie nas]. simpl in HP.
  eexists. split; [reflexivity|].
  unfold Series_Len in Hn. apply Elements_list_length in Hn.
  unfold range. rewrite Z.sub_0_r, <- Hn. rewrite <- HP.
  apply Permutation_app_tail. apply Permutation_map. apply sort_Stable_Permutation.
Qed.

(** X4. [Order], in either direction, returns every index of the Column
    exactly once: a permutation of 0, ..., Len-1. *)
Theorem Order_is_a_permutation (s : Series) (reverse : bool) (n : Z) :
  Series_Len s = Ok n ->
  exists ix, Series_Order s reverse = Ok ix /\ Permutation ix (range 0 n).
Proof. exact (Series_Order_Permutation s reverse n). Qed.

Lemma true_positions_spec (mask : list bool) (L : list Element) (i0 : Z) (pre : list Element) :
  length mask = length L -> i0 = len pre ->
  Forall2 (fun i e => 0 <= i /\ (pre ++ L) !! Z.to_nat i = Some e)
          (true_positions mask i0) (map snd (List.filter fst (zip mask L))).
Proof.
  revert L i0 pre. induction mask as [|b mask IH]; intros [|e L] i0 pre Hl Hi;
    simpl in Hl; try discriminate; [constructor|].
  injection Hl as Hl.
  assert (Hrec : Forall2 (fun i x => 0 <= i /\ (pre ++ e :: L) !! Z.to_nat i = Some x)
                   (true_positions mask (i0 + 1)) (map snd (List.filter fst (zip mask L)))).
  { replace (pre ++ e :: L) with ((pre ++ [e]) ++ L) by now rewrite <- app_assoc.
    apply IH; [assumption|]. unfold len in *. rewrite length_app. simpl. lia. }
  simpl. destruct b; simpl; [|exact Hrec].
  constructor; [|exact Hrec].
  split; [unfold len in Hi; lia|].
  subst i0. unfold len. rewrite Nat2Z.id. now rewrite list_lookup_middle.
Qed.

(** X5. [Subset] with a mask.  When the mask has as many entries as the
    Column, the result holds exactly the elements whose entry is true, in
    their order, under the same name and type; when it has not, the result is
    the receiver, elements unchanged, carrying the error of the dimensions. *)
Theorem Subset_by_mask (s : Series) (mask : list bool) :
  Series_wf s ->
  (length mask = length (Elements_list (elements s)) ->
   exists r,
     Series_Subset s (v_bools mask) = Ok r /\
     Elements_list (elements r)
       = map snd (List.filter fst (zip mask (Elements_list (elements s)))) /\
     Name r = Name s /\ t r = t s /\ Err r = None) /\
  (length mask <> length (Elements_list (elements s)) ->
   Series_Subset s (v_bools mask)
     = Ok (set_Err s (fmt_Errorf "索引错误: 索引维度不匹配"))).
Proof.
  intros Hwf. pose proof (Series_wf_Len s Hwf) as HL. split; intros Hm.
  - destruct (Series_Subset_ints s (true_positions mask 0)
                (map snd (List.filter fst (zip mask (Elements_list (elements s))))) Hwf)
      as (r & Hr & Hrest).
    { apply (true_positions_spec mask _ 0 []); [assumption | reflexivity]. }
    exists r. split; [|exact Hrest].
    rewrite <- Hr. unfold Series_Subset. destruct Hwf as [-> _].
    rewrite HL. cbn [mbind result_bind parseIndexes]. unfold parseIndexes_bools.
    replace (len mask =? len (Elements_list (elements s))) with true; [reflexivity|].
    symmetry. apply Z.eqb_eq. unfold len. now rewrite Hm.
  - unfold Series_Subset. destruct Hwf as [-> _].
    rewrite HL. cbn [mbind result_bind parseIndexes]. unfold parseIndexes_bools.
    replace (len mask =? len (Elements_list (elements s))) with false; [reflexivity|].
    symmetry. apply Z.eqb_neq. unfold len. lia.
Qed.

Lemma mapM_index_out {B} (l : list B) (idx : list Z) :
  Exists (fun i => i < 0 \/ len l <= i) idx ->
  mapM (fun i => index l i) idx = Panic "index out of range".
Proof.
  induction idx as [|i idx IH]; intros H; [inversion H|].
  cbn [mapM].
  destruct (index l i) as [x|msg] eqn:E.
  - inversion H as [? ? Hi|? ? Hrest]; subst.
    + exfalso. unfold index in E. destruct (i <? 0) eqn:E0; [discriminate|].
      apply Z.ltb_ge in E0. unfold len in Hi.
      rewrite (proj2 (lookup_ge_None l (Z.to_nat i))) in E by lia. discriminate.
    + cbn. now rewrite (IH Hrest).
  - cbn. unfold index in E. destruct (i <? 0); [congruence|].
    destruct (l !! Z.to_nat i); congruence.
Qed.

(** X6. [Subset] makes no bounds check on a list of indexes: when one of
    them is negative or not below the length, the call panics with an index
    out of range instead of returning a Column that carries an error. *)
Theorem Subset_out_of_range_panics (s : Series) (idx : list Z) :
  Series_wf s ->
  Exists (fun i => i < 0 \/ len (Elements_list (elements s)) <= i) idx ->
  Series_Subset s (v_ints idx) = Panic "index out of range".
Proof.
  intros Hwf H. pose proof (Series_wf_Len s Hwf) as HL.
  destruct Hwf as [He Hw]. unfold Series_Subset. rewrite He, HL.
  cbn [mbind result_bind parseIndexes].
  destruct s as [name els ty err]. simpl in *.
  destruct ty, els; try contradiction; simpl in H; unfold len in H;
    rewrite length_map in H; rewrite (mapM_index_out _ _ H); reflexivity.
Qed.

End SeriesExtras.

(** ** Series: slices *)

Section SliceExtras.
Context {ext : Extern}.

Lemma Forall2_seqZ_take_drop (L : list Element) (j n : Z) :
  0 <= j -> 0 <= n -> j + n <= len L ->
  Forall2 (fun i e => 0 <= i /\ L !! Z.to_nat i = Some e)
          (seqZ j n) (take (Z.to_nat n) (drop (Z.to_nat j) L)).
Proof.
  intros Hj Hn Hb. unfold len in Hb.
  apply Forall2_same_length_lookup. split.
  - rewrite length_seqZ, length_take, length_drop. lia.
  - intros i x y Hx Hy. apply lookup_seqZ in Hx. destruct Hx as [-> Hi].
    split; [lia|].
    rewrite lookup_take_lt in Hy by lia. rewrite lookup_drop in Hy.
    rewrite <- Hy. f_equal. lia.
Qed.

(** X7. [Slice(j, k)] with [0 <= j <= k < Len] returns the elements at the
    positions [j], ..., [k-1], in order, under the same name and type and
    without error. *)
Theorem Slice_in_range (s : Series) (j k : Z) :
  Series_wf s -> 0 <= j <= k -> k < len (Elements_list (elements s)) ->
  exists r,
    Series_Slice s j k = Ok r /\
    Elements_list (elements r)
      = take (Z.to_nat (k - j)) (drop (Z.to_nat j) (Elements_list (elements s))) /\
    Name r = Name s /\ t r = t s /\ Err r = None.
Proof.
  intros Hwf Hjk Hk.
  destruct (Series_Subset_ints s (range j k)
              (take (Z.to_nat (k - j)) (drop (Z.to_nat j) (Elements_list (elements s)))) Hwf)
    as (r & Hr & Hrest).
  { unfold range. apply Forall2_seqZ_take_drop; lia. }
  exists r. split; [|exact Hrest].
  unfold Series_Slice. rewrite (proj1 Hwf), (Series_wf_Len s Hwf).
  replace ((k <? j) || (j <? 0)) with false
    by (symmetry; apply orb_false_iff; split; apply Z.ltb_ge; lia).
  cbn [mbind result_bind].
  replace (len (Elements_list (elements s)) <=? k) with false
    by (symmetry; apply Z.leb_gt; lia).
  exact Hr.
Qed.

(** X8. [Slice(j, k)] rejects [j > k], [j < 0] and every [k >= Len], the
    bound [k = Len] included, so that no slice reaches the last element: the
    result is then the empty Column of the same name and type carrying the
    error "slice index out of bounds". *)
Theorem Slice_out_of_bounds (s : Series) (j k : Z) :
  Series_wf s ->
  k < j \/ j < 0 \/ len (Elements_list (elements s)) <= k ->
  exists r,
    Series_Slice s j k = Ok r /\
    Err r = Some "slice index out of bounds" /\
    Elements_list (elements r) = [] /\ Name r = Name s /\ t r = t s.
Proof.
  intros Hwf Hb. unfold Series_Slice.
  rewrite (proj1 Hwf), (Series_wf_Len s Hwf).
  assert (Hout : (if (k <? j) || (j <? 0) then Ok true
                  else Ok (len (Elements_list (elements s)) <=? k)) = Ok true).
  { destruct (k <? j) eqn:E1; [reflexivity|]. destruct (j <? 0) eqn:E2; [reflexivity|].
    simpl. f_equal. apply Z.leb_le. apply Z.ltb_ge in E1, E2. lia. }
  destruct ((k <? j) || (j <? 0)); cbn [mbind result_bind];
    [|injection Hout as ->];
    destruct Hwf as [_ Hw]; destruct s as [name els ty err]; simpl in *;
    destruct ty, els; try contradiction; simpl;
    eexists; (split; [reflexivity|]); simpl; repeat split; reflexivity.
Qed.

End SliceExtras.

(** ** Series: the extremes *)

Section FoldBest.
Context {A : Type} (better : A -> A -> bool) (Q : A -> Prop) (p : A -> bool).
Hypothesis better_asym :
  forall a b, Q a -> Q b -> p a = true -> p b = true ->
    better a b = true -> better b a = false.
Hypothesis better_negtrans :
  forall a b c, Q a -> Q b -> Q c -> p a = true -> p b = true -> p c = true ->
    better a b = false -> better b c = false -> better a c = false.
Hypothesis better_outside : forall a b, p a = false -> better a b = false.

(** The element the loop keeps, when it starts from an element of [p]: it is
    one of the elements seen, it is in [p], and none of the elements seen is
    better. *)
Lemma fold_best_spec (rest : list A) (e0 : A) :
  Forall Q (e0 :: rest) -> p e0 = true ->
  let best := fold_left (fun best e => if better e best then e else best) rest e0 in
  best ∈ e0 :: rest /\ p best = true /\
  Forall (fun e => better e best = false) (e0 :: rest).
Proof.
  intros HQ H0.
  assert (Hirr : forall e, Q e -> p e = true -> better e e = false).
  { intros e Qe Pe. destruct (better e e) eqn:Hee; [|reflexivity].
    now rewrite (better_asym e e Qe Qe Pe Pe Hee) in Hee. }
  assert (Hgen : forall seen best,
            Forall Q (seen ++ rest) ->
            p best = true -> best ∈ seen ->
            Forall (fun e => better e best = false) seen ->
            let best' :=
              fold_left (fun best e => if better e best then e else best) rest best in
            best' ∈ seen ++ rest /\ p best' = true /\
            Forall (fun e => better e best' = false) (seen ++ rest)).
  { clear HQ H0. induction rest as [|e rest IH]; intros seen best HQs Hp Hin Hall; simpl.
    - rewrite app_nil_r. auto.
    - replace (seen ++ e :: rest) with ((seen ++ [e]) ++ rest) in *
        by now rewrite <- app_assoc.
      assert (HQ' : Forall Q (seen ++ [e])).
      { apply Forall_app in HQs. tauto. }
      assert (Qe : Q e).
      { rewrite Forall_forall in HQ'. apply HQ'. apply elem_of_app. right. now left. }
      assert (Qb : Q best).
      { rewrite Forall_forall in HQ'. apply HQ'. apply elem_of_app. now left. }
      destruct (better e best) eqn:E.
      + assert (Pe : p e = true).
        { destruct (p e) eqn:Pe; [reflexivity|].
          rewrite (better_outside e best Pe) in E. discriminate. }
        apply IH; [exact HQs | exact Pe | apply elem_of_app; right; now left |].
        apply Forall_app. split.
        * apply Forall_forall. intros x Hx. rewrite Forall_forall in Hall.
          destruct (p x) eqn:Px; [|now apply better_outside].
          assert (Qx : Q x).
          { rewrite Forall_forall in HQ'. apply HQ'. apply elem_of_app. now left. }
          apply (better_negtrans x best e Qx Qb Qe Px Hp Pe); [now apply Hall|].
          now apply better_asym.
        * constructor; [now apply Hirr | constructor].
      + apply IH; [exact HQs | exact Hp | apply elem_of_app; now left |].
        apply Forall_app. split; [exact Hall | now repeat constructor]. }
  specialize (Hgen [e0] e0 HQ H0).
  apply Hgen; [now left|].
  constructor; [apply Hirr; [now inversion HQ | exact H0] | constructor].
Qed.

(** When the loop starts from an element that nothing beats, it keeps it to
    the end. *)
Lemma fold_best_stuck (rest : list A) (e0 : A) :
  (forall e, better e e0 = false) ->
  fold_left (fun best e => if better e best then e else best) rest e0 = e0.
Proof.
  intros H. induction rest as [|e rest IH]; simpl; [reflexivity|]. now rewrite H.
Qed.

End FoldBest.

Section ExtremeExtras.
Context {ext : Extern}.

Lemma foldM_Elem_fold (better : Element -> Element -> bool) (e : Elements)
    (pre rest : list Element) (best : Element) :
  Elements_list e = pre ++ rest ->
  foldM (fun best i =>
           elem ← Elements_Elem e i;
           Ok (if better elem best then elem else best))
        (seqZ (len pre) (len rest)) best
  = Ok (fold_left (fun best x => if better x best then x else best) rest best).
Proof.
  revert pre best. induction rest as [|x rest IH]; intros pre best HL; [reflexivity|].
  replace (len (x :: rest)) with (Z.succ (len rest)) by (unfold len; simpl; lia).
  rewrite seqZ_cons by (unfold len; lia).
  replace (Z.pred (Z.succ (len rest))) with (len rest) by lia.
  cbn [foldM].
  rewrite (Elements_Elem_lookup e (len pre) x).
  - cbn [mbind result_bind].
    replace (Z.succ (len pre)) with (len (pre ++ [x]))
      by (unfold len; rewrite length_app; simpl; lia).
    simpl fold_left. apply IH. now rewrite <- app_assoc.
  - unfold len. lia.
  - rewrite HL. unfold len. rewrite Nat2Z.id. apply list_lookup_middle. reflexivity.
Qed.

Lemma extreme_loop_fold (better : Element -> Element -> bool) (s : Series)
    (e0 : Element) (rest : list Element) :
  Elements_list (elements s) = e0 :: rest ->
  Elements_Len (elements s) = Ok (len (e0 :: rest)) /\
  extreme_loop better s
    = Ok (fold_left (fun best x => if better x best then x else best) rest e0).
Proof.
  intros HL.
  assert (Hlen : Elements_Len (elements s) = Ok (len (e0 :: rest))).
  { rewrite <- HL. destruct (elements s); simpl in *; try discriminate;
      unfold len; now rewrite length_map. }
  split; [exact Hlen|].
  unfold extreme_loop.
  rewrite (Elements_Elem_lookup (elements s) 0 e0) by (rewrite ?HL; simpl; auto; lia).
  rewrite Hlen. cbn [mbind result_bind].
  unfold range.
  replace (len (e0 :: rest) - 1) with (len rest) by (unfold len; simpl; lia).
  apply (foldM_Elem_fold better (elements s) [e0] rest e0 HL).
Qed.

Lemma Element_Greater_missing (a b : Element) :
  Element_IsNA a = true \/ Element_IsNA b = true -> Element_Greater a b = false.
Proof.
  intros H. destruct a as [x|x|x|x]; simpl in H |- *.
  - now apply stringElement_cmp_missing.
  - now apply intElement_cmp_missing.
  - now apply floatElement_cmp_missing.
  - now apply boolElement_cmp_missing.
Qed.

Lemma Element_Greater_present (ty : series.Type_) (a b : Element) :
  present ty a -> present ty b -> Element_Greater a b = Element_Less b a.
Proof.
  intros Pa Pb.
  destruct (Element_comparisons_present ty a b Pa Pb)
    as (c & _ & _ & -> & _ & _ & _ & -> & _).
  reflexivity.
Qed.

(** What the loop of the four extremes keeps. *)
Lemma extreme_loop_spec (s : Series) (e0 : Element) (rest : list Element) :
  Series_wf s -> Elements_list (elements s) = e0 :: rest ->
  (Element_IsNA e0 = false ->
   exists emax emin,
     extreme_loop Element_Greater s = Ok emax /\ extreme_loop Element_Less s = Ok emin /\
     emax ∈ e0 :: rest /\ emin ∈ e0 :: rest /\
     Element_IsNA emax = false /\ Element_IsNA emin = false /\
     Forall (fun e => Element_Greater e emax = false /\ Element_Less e emin = false)
            (e0 :: rest)) /\
  (Element_IsNA e0 = true ->
   extreme_loop Element_Greater s = Ok e0 /\ extreme_loop Element_Less s = Ok e0).
Proof.
  intros Hwf HL.
  destruct (extreme_loop_fold Element_Greater s e0 rest HL) as [_ HG].
  destruct (extreme_loop_fold Element_Less s e0 rest HL) as [_ HLs].
  pose proof (Elements_list_present s Hwf) as HT. rewrite HL in HT.
  split; intros H0.
  - assert (Hp0 : negb (Element_IsNA e0) = true) by now rewrite H0.
    assert (Hpres : forall a, Element_Type a = t s -> negb (Element_IsNA a) = true ->
                      present (t s) a).
    { intros a Ta Na. split; [exact Ta|]. now destruct (Element_IsNA a). }
    destruct (fold_best_spec Element_Greater (fun e => Element_Type e = t s)
                (fun e => negb (Element_IsNA e))) with (rest := rest) (e0 := e0)
      as (Hin1 & Hp1 & Hall1); try assumption.
    { intros a b Qa Qb Pa Pb.
      rewrite (Element_Greater_present (t s) a b), (Element_Greater_present (t s) b a)
        by auto.
      intros H. destruct (Element_Less a b) eqn:E; [|reflexivity].
      rewrite (Element_Less_asym (t s) a b) in H; auto. }
    { intros a b c Qa Qb Qc Pa Pb Pc.
      rewrite (Element_Greater_present (t s) a b), (Element_Greater_present (t s) b c),
        (Element_Greater_present (t s) a c) by auto.
      intros H1 H2. apply (Element_Less_negtrans (t s) c b a); auto. }
    { intros a b Pa. apply Element_Greater_missing. left.
      now destruct (Element_IsNA a). }
    destruct (fold_best_spec Element_Less (fun e => Element_Type e = t s)
                (fun e => negb (Element_IsNA e))) with (rest := rest) (e0 := e0)
      as (Hin2 & Hp2 & Hall2); try assumption.
    { intros a b Qa Qb Pa Pb. apply (Element_Less_asym (t s)); auto. }
    { intros a b c Qa Qb Qc Pa Pb Pc. apply (Element_Less_negtrans (t s)); auto. }
    { intros a b Pa. apply Element_Less_missing. left. now destruct (Element_IsNA a). }
    eexists _, _. split; [exact HG|]. split; [exact HLs|].
    split; [exact Hin1|]. split; [exact Hin2|].
    apply negb_true_iff in Hp1, Hp2. split; [exact Hp1|]. split; [exact Hp2|].
    rewrite Forall_forall in Hall1, Hall2. apply Forall_forall.
    intros e He. split; [now apply Hall1 | now apply Hall2].
  - rewrite HG, HLs. split; f_equal; apply fold_best_stuck; intros e.
    + apply Element_Greater_missing. now right.
    + apply Element_Less_missing. now right.
Qed.

(** X9. [Max] and [Min] of a Column that is not of text and whose first
    element is not missing: each is the [Float] of a non-missing element of
    the Column; no element is [Greater] than the one of [Max], and none is
    [Less] than the one of [Min] (missing elements further on are passed
    over). *)
Theorem Max_Min_of_a_column (s : Series) (e0 : Element) (rest : list Element) :
  Series_wf s -> t s <> series.String ->
  Elements_list (elements s) = e0 :: rest -> Element_IsNA e0 = false ->
  exists emax emin,
    Series_Max s = Ok (Element_Float emax) /\ Series_Min s = Ok (Element_Float emin) /\
    emax ∈ e0 :: rest /\ emin ∈ e0 :: rest /\
    Element_IsNA emax = false /\ Element_IsNA emin = false /\
    Forall (fun e => Element_Greater e emax = false /\ Element_Less e emin = false)
           (e0 :: rest).
Proof.
  intros Hwf Hty HL H0.
  destruct (extreme_loop_spec s e0 rest Hwf HL) as [Hp _].
  destruct (Hp H0) as (emax & emin & HG & HLs & Hrest).
  exists emax, emin.
  destruct (extreme_loop_fold Element_Less s e0 rest HL) as [Hlen _].
  unfold Series_Max, Series_Min. rewrite Hlen. cbn [mbind result_bind].
  replace (len (e0 :: rest) =? 0) with false
    by (symmetry; apply Z.eqb_neq; unfold len; simpl; lia).
  replace (is_String (Series_Type s)) with false
    by (unfold Series_Type; destruct (t s); try reflexivity; contradiction).
  cbn [orb]. rewrite HG, HLs. cbn [mbind result_bind].
  split; [reflexivity|]. split; [reflexivity|]. exact Hrest.
Qed.

(** X10. When the first element of a non-empty Column that is not of text
    is missing, [Max] and [Min] are NaN whatever the other elements: the
    missing element the loop starts from is never replaced. *)
Theorem Max_Min_missing_first_element (s : Series) (e0 : Element) (rest : list Element) :
  Series_wf s -> t s <> series.String ->
  Elements_list (elements s) = e0 :: rest -> Element_IsNA e0 = true ->
  exists m n,
    Series_Max s = Ok m /\ Series_Min s = Ok n /\
    math_IsNaN m = true /\ math_IsNaN n = true.
Proof.
  intros Hwf Hty HL H0.
  destruct (extreme_loop_spec s e0 rest Hwf HL) as [_ Hp].
  destruct (Hp H0) as (HG & HLs).
  destruct (extreme_loop_fold Element_Less s e0 rest HL) as [Hlen _].
  exists (Element_Float e0), (Element_Float e0).
  unfold Series_Max, Series_Min. rewrite Hlen. cbn [mbind result_bind].
  replace (len (e0 :: rest) =? 0) with false
    by (symmetry; apply Z.eqb_neq; unfold len; simpl; lia).
  replace (is_String (Series_Type s)) with false
    by (unfold Series_Type; destruct (t s); try reflexivity; contradiction).
  cbn [orb]. rewrite HG, HLs. cbn [mbind result_bind].
  repeat split; now apply Element_Float_missing.
Qed.

(** X11. [MaxStr] and [MinStr].  On a Column that is not of text, or is
    empty, both are the empty string.  On a Column of text whose first
    element is not missing, each is the [String] of a non-missing element:
    no element is [Greater] than the one of [MaxStr], none is [Less] than the
    one of [MinStr].  On a Column of text whose first element is missing both
    are the text NaN. *)
Theorem MaxStr_MinStr_of_a_column (s : Series) :
  Series_wf s ->
  (t s <> series.String \/ Elements_list (elements s) = [] ->
   Series_MaxStr s = Ok EmptyString /\ Series_MinStr s = Ok EmptyString) /\
  (forall e0 rest,
     t s = series.String -> Elements_list (elements s) = e0 :: rest ->
     Element_IsNA e0 = false ->
     exists emax emin,
       Series_MaxStr s = Ok (Element_String emax) /\
       Series_MinStr s = Ok (Element_String emin) /\
       emax ∈ e0 :: rest /\ emin ∈ e0 :: rest /\
       Element_IsNA emax = false /\ Element_IsNA emin = false /\
       Forall (fun e => Element_Greater e emax = false /\ Element_Less e emin = false)
              (e0 :: rest)) /\
  (forall e0 rest,
     t s = series.String -> Elements_list (elements s) = e0 :: rest ->
     Element_IsNA e0 = true ->
     Series_MaxStr s = Ok "NaN" /\ Series_MinStr s = Ok "NaN").
Proof.
  intros Hwf. pose proof (Series_wf_Len s Hwf) as Hlen. unfold Series_Len in Hlen.
  split; [|split].
  - intros H. unfold Series_MaxStr, Series_MinStr. rewrite Hlen.
    cbn [mbind result_bind].
    destruct H as [H|H].
    + replace (is_String (Series_Type s)) with false
        by (unfold Series_Type; destruct (t s); try reflexivity; contradiction).
      rewrite orb_true_r. split; reflexivity.
    + rewrite H. split; reflexivity.
  - intros e0 rest Hty HL H0.
    destruct (extreme_loop_spec s e0 rest Hwf HL) as [Hp _].
    destruct (Hp H0) as (emax & emin & HG & HLs & Hrest).
    exists emax, emin.
    unfold Series_MaxStr, Series_MinStr. rewrite Hlen, HL. cbn [mbind result_bind].
    replace (len (e0 :: rest) =? 0) with false
      by (symmetry; apply Z.eqb_neq; unfold len; simpl; lia).
    unfold Series_Type. rewrite Hty. cbn [orb negb is_String].
    rewrite HG, HLs. cbn [mbind result_bind].
    split; [reflexivity|]. split; [reflexivity|]. exact Hrest.
  - intros e0 rest Hty HL H0.
    destruct (extreme_loop_spec s e0 rest Hwf HL) as [_ Hp].
    destruct (Hp H0) as (HG & HLs).
    unfold Series_MaxStr, Series_MinStr. rewrite Hlen, HL. cbn [mbind result_bind].
    replace (len (e0 :: rest) =? 0) with false
      by (symmetry; apply Z.eqb_neq; unfold len; simpl; lia).
    unfold Series_Type. rewrite Hty. cbn [orb negb is_String].
    rewrite HG, HLs. cbn [mbind result_bind].
    assert (Hs : Element_String e0 = "NaN").
    { destruct e0 as [x|x|x|x]; simpl in *.
      - unfold stringElement_String. now rewrite H0.
      - unfold intElement_String. now rewrite H0.
      - unfold floatElement_String. now rewrite H0.
      - unfold boolElement_String. now rewrite H0. }
    rewrite Hs. split; reflexivity.
Qed.

End ExtremeExtras.

(** ** Series: concatenation, comparison, assignment, maps *)

Section ConcatExtras.
Context {ext : Extern}.

(** The element that [Set] builds in a fresh slot from an element of the same
    kind prints like it, and is missing when it is, except in a Column of
    text, where it is never missing. *)
Lemma New_elements_same_kind (ty : series.Type_) (L : list Element) :
  Forall (fun e => Element_Type e = ty) L -> ty <> series.unknown ->
  exists els,
    New_elements ty (map v_Element L) = Ok els /\
    length (Elements_list els) = length L /\
    Forall (fun e => Element_Type e = ty) (Elements_list els) /\
    map Element_String (Elements_list els) = map Element_String L /\
    map Element_IsNA (Elements_list els)
      = (if is_String ty then map (fun _ => false) L else map Element_IsNA L) /\
    match ty, els with
    | series.String, stringElements _ => True
    | series.Int, intElements _ => True
    | series.Float, floatElements _ => True
    | series.Bool, boolElements _ => True
    | _, _ => False
    end.
Proof.
  intros HT Hty. destruct ty; try contradiction; simpl;
    eexists; (split; [reflexivity|]); simpl; rewrite !length_map;
    (split; [reflexivity|]).
  - split; [apply Forall_forall; intros e He; apply list_elem_of_In in He;
            rewrite !in_map_iff in He; destruct He as (? & <- & _); reflexivity|].
    induction HT as [|e L He _ IH]; simpl; [auto|].
    destruct IH as (IH1 & IH2 & _). rewrite IH1, IH2.
    destruct e as [x|x|x|x]; try discriminate. simpl.
    unfold stringElement_String, stringElement_IsNA. simpl.
    repeat split; reflexivity.
  - split; [apply Forall_forall; intros e He; apply list_elem_of_In in He;
            rewrite !in_map_iff in He; destruct He as (? & <- & _); reflexivity|].
    induction HT as [|e L He _ IH]; simpl; [auto|].
    destruct IH as (IH1 & IH2 & _). rewrite IH1, IH2.
    destruct e as [x|[xe xn]|x|x]; try discriminate. simpl.
    unfold intElement_Int, intElement_String, intElement_IsNA. simpl.
    destruct xn; simpl; repeat split; reflexivity.
  - split; [apply Forall_forall; intros e He; apply list_elem_of_In in He;
            rewrite !in_map_iff in He; destruct He as (? & <- & _); reflexivity|].
    induction HT as [|e L He _ IH]; simpl; [auto|].
    destruct IH as (IH1 & IH2 & _). rewrite IH1, IH2.
    destruct e as [x|x|[xe xn]|x]; try discriminate. simpl.
    unfold floatElement_Float, floatElement_String, floatElement_IsNA. simpl.
    destruct xn; simpl; [repeat split; reflexivity|].
    destruct (math_IsNaN xe) eqn:E; simpl; rewrite ?E; repeat split; reflexivity.
  - split; [apply Forall_forall; intros e He; apply list_elem_of_In in He;
            rewrite !in_map_iff in He; destruct He as (? & <- & _); reflexivity|].
    induction HT as [|e L He _ IH]; simpl; [auto|].
    destruct IH as (IH1 & IH2 & _). rewrite IH1, IH2.
    destruct e as [x|x|x|[xe xn]]; try discriminate. simpl.
    unfold boolElement_Bool, boolElement_String, boolElement_IsNA. simpl.
    destruct xn; simpl; repeat split; reflexivity.
Qed.

Lemma Series_Copy_wf (s : Series) : Series_wf s -> Series_Copy s = Ok s.
Proof.
  intros [He Hw]. destruct s as [name els ty err]. simpl in *. subst err.
  unfold Series_Copy, Series_Len. simpl.
  destruct ty, els; try contradiction; reflexivity.
Qed.

(** X12. [Concat] of two Columns of one type, neither carrying an error:
    the result has the name and type of the receiver, the elements of the
    receiver followed by as many elements as the argument has, and these
    print like the elements of the argument ([Records] is the concatenation
    of the records).  They are missing where the elements of the argument
    are, except in a Column of text, where all of them arrive non-missing (a
    missing text arrives as the text NaN). *)
Theorem Concat_of_same_type (s x : Series) :
  Series_wf s -> Series_wf x -> t x = t s ->
  exists y tail,
    Series_Concat s x = Ok y /\ Series_wf y /\ Name y = Name s /\ t y = t s /\
    Elements_list (elements y) = Elements_list (elements s) ++ tail /\
    Series_Records y
      = Ok (map Element_String (Elements_list (elements s))
            ++ map Element_String (Elements_list (elements x))) /\
    map Element_IsNA tail
      = (if is_String (t s) then map (fun _ => false) (Elements_list (elements x))
         else map Element_IsNA (Elements_list (elements x))).
Proof.
  intros Hs Hx Ht.
  pose proof (Elements_list_present x Hx) as HT. rewrite Ht in HT.
  assert (Hty : t s <> series.unknown).
  { destruct Hs as [_ Hw]. intros E. rewrite E in Hw. exact Hw. }
  destruct (New_elements_same_kind (t s) _ HT Hty) as (els & Hn & Hl & Hk & Hstr & Hna & Hm).
  pose proof (Series_wf_Len x Hx) as HLx. unfold Series_Len in HLx.
  unfold Series_Concat. rewrite (proj1 Hs), (proj1 Hx), (Series_Copy_wf s Hs).
  cbn [mbind result_bind]. unfold Series_Append. rewrite (proj1 Hs).
  unfold series_New. rewrite HLx. cbn [mbind result_bind]. rewrite Hn.
  cbn [mbind result_bind elements].
  destruct Hs as [He Hw]. destruct s as [name sels ty err].
  cbn [Name elements t Err] in *. subst err.
  destruct ty, sels, els; try contradiction;
    match goal with
    | |- context [set_elements _ (?ctor (?a ++ ?b))] =>
        exists (mk_Series name (ctor (a ++ b)) (t x) None), (Elements_list (ctor b))
    end;
    rewrite Ht;
    (split; [reflexivity|]);
    (split; [split; [reflexivity | exact I]|]);
    (split; [reflexivity|]); (split; [reflexivity|]);
    (split; [apply map_app|]);
    (split; [|exact Hna]);
    unfold Series_Records, Series_Len; cbn [elements Elements_Len mbind result_bind];
    f_equal; rewrite <- Hstr; cbn [Elements_list]; now rewrite !map_app.
Qed.

End ConcatExtras.

Section CompareExtras.
Context {ext : Extern}.

Lemma compare_loop_elementwise (c : Comparator) (m : Element) (L : list Element) :
  elementwise c ->
  compare_loop c (map (fun e => (e, m)) L)
    = (map (fun e => fst (compareElements e m c)) L, None).
Proof.
  intros Hc. induction L as [|e L IH]; simpl; [reflexivity|]. rewrite IH.
  destruct Hc as [->|[->|[->|[->|[->| ->]]]]]; reflexivity.
Qed.

Lemma Bools_of_bools (bools : list bool) :
  Bools (v_bools bools)
    = Ok (mk_Series EmptyString
            (boolElements (map (fun b => mk_boolElement b false) bools))
            series.Bool None).
Proof.
  unfold Bools, series_New. simpl. rewrite map_map. reflexivity.
Qed.

(** X13. [Compare] of a Column without error against a comparand that
    converts to a single element [m].  With one of the six element-wise
    comparators the result is a boolean Column without name and without
    error, as long as the receiver, whose element at every position is
    non-missing and is the answer of the comparison of the receiver's element
    with [m].  With any other comparator text the result is the empty Column
    of the receiver's name and type carrying the error of the unknown
    comparator, but only when the receiver has an element: on an empty
    receiver the unknown comparator goes unnoticed and the result is the
    empty boolean Column without error. *)
Theorem Compare_with_one_value (s comp : Series) (c : Comparator) (v : value) (m : Element) :
  Series_wf s ->
  series_New v (t s) EmptyString = Ok comp ->
  Elements_list (elements comp) = [m] ->
  (elementwise c ->
   Series_Compare s c v
     = Ok (mk_Series EmptyString
             (boolElements
                (map (fun e => mk_boolElement (fst (compareElements e m c)) false)
                     (Elements_list (elements s))))
             series.Bool None)) /\
  (forall txt, c = comparator_unknown txt -> txt ∉ comparator_texts ->
     (Elements_list (elements s) <> [] ->
      exists r,
        Series_Compare s c v = Ok r /\
        Err r = Some ("未知比较器: " +:+ txt) /\
        Elements_list (elements r) = [] /\ Name r = Name s /\ t r = t s) /\
     (Elements_list (elements s) = [] ->
      Series_Compare s c v
        = Ok (mk_Series EmptyString (boolElements []) series.Bool None))).
Proof.
  intros Hs Hcomp Hm. pose proof (Series_wf_Len s Hs) as HL.
  split.
  - intros Hc. unfold Series_Compare. rewrite (proj1 Hs), HL.
    cbn [mbind result_bind].
    assert (Hno : c <> CompFunc /\ c <> In_).
    { destruct Hc as [->|[->|[->|[->|[->| ->]]]]]; split; discriminate. }
    destruct c; try (exfalso; tauto); try (destruct Hc as [?|[?|[?|[?|[?|?]]]]]; discriminate);
      rewrite Hcomp; cbn [mbind result_bind]; rewrite Hm;
      rewrite compare_loop_elementwise by assumption;
      rewrite Bools_of_bools, map_map; reflexivity.
  - intros txt -> _. unfold Series_Compare. rewrite (proj1 Hs), HL.
    cbn [mbind result_bind]. rewrite Hcomp. cbn [mbind result_bind]. rewrite Hm.
    split; intros HE.
    + destruct (Elements_list (elements s)) as [|e L] eqn:EL; [contradiction|].
      simpl. unfold Compare_fail.
      destruct Hs as [He Hw]. destruct s as [name els ty err]. simpl in *.
      destruct ty, els; try contradiction; simpl;
        eexists; (split; [reflexivity|]); simpl; repeat split; reflexivity.
    + rewrite HE. simpl. apply Bools_of_bools.
Qed.

End CompareExtras.

Section SetExtras.
Context {ext : Extern}.




End SetExtras.

Section MapExtras.
Context {ext : Extern}.

Lemma Set_zero_same_kind :
  (forall x : stringElement,
     stringElement_String (stringElement_Set zero_stringElement (v_Element (E_string x)))
       = stringElement_String x) /\
  (forall x : intElement,
     intElement_String (intElement_Set zero_intElement (v_Element (E_int x)))
       = intElement_String x) /\
  (forall x : floatElement,
     floatElement_String (floatElement_Set zero_floatElement (v_Element (E_float x)))
       = floatElement_String x) /\
  (forall x : boolElement,
     boolElement_String (boolElement_Set zero_boolElement (v_Element (E_bool x)))
       = boolElement_String x).
Proof.
  split; [|split; [|split]]; intros [xe xn]; simpl.
  - unfold stringElement_String, stringElement_IsNA. simpl. now destruct xn.
  - unfold intElement_Int, intElement_String, intElement_IsNA. simpl. now destruct xn.
  - unfold floatElement_Float, floatElement_String, floatElement_IsNA. simpl.
    destruct xn; simpl; [reflexivity|].
    destruct (math_IsNaN xe) eqn:E; simpl; rewrite ?E; reflexivity.
  - unfold boolElement_Bool, boolElement_String, boolElement_IsNA. simpl. now destruct xn.
Qed.

(** X15. [Map] returns a Column of the name, the type and the length of the
    receiver that carries no error, also when the receiver carries one.  At
    every position, where [f] returns nil the element is missing, and where
    [f] returns an element of the kind of the Column the element prints like
    it. *)
Theorem Map_applies_f_at_every_position (s : Series) (f : Element -> option Element) :
  Series_typed s ->
  exists r,
    Series_Map s f = Ok r /\ Series_wf r /\ Name r = Name s /\ t r = t s /\
    length (Elements_list (elements r)) = length (Elements_list (elements s)) /\
    forall i e,
      Elements_list (elements s) !! i = Some e ->
      exists e',
        Elements_list (elements r) !! i = Some e' /\
        match f e with
        | None => Element_IsNA e' = true
        | Some x => Element_Type x = t s -> Element_String e' = Element_String x
        end.
Proof.
  intros Hw. destruct s as [name els ty err]. unfold Series_typed in Hw.
  cbn [Name elements t Err] in *.
  destruct Set_zero_same_kind as (Hs1 & Hs2 & Hs3 & Hs4).
  unfold Series_Map, Series_Len, series_New, Series_Type.
  destruct ty, els; try contradiction;
    cbn [elements t Name Elements_Len mbind result_bind New_elements Elements_list];
    eexists; (split; [reflexivity|]);
    (split; [split; [reflexivity | exact I]|]);
    (split; [reflexivity|]); (split; [reflexivity|]);
    cbn [elements Elements_list]; (split; [now rewrite !length_map|]);
    intros i e He;
    change (map ?g ?l) with (g <$> l) in *;
    rewrite list_lookup_fmap in He;
    rewrite !list_lookup_fmap;
    destruct (l !! i) as [y|]; simpl in He; try discriminate;
    injection He as <-; cbn [fmap option_fmap option_map];
    eexists; (split; [reflexivity|]);
    (destruct (f _) as [[x|x|x|x]|]; [| | | |reflexivity]);
    cbn [Element_Type Element_String]; intros Hx; try discriminate; auto.
Qed.

End MapExtras.

(** ** Tables: the constructor and the names *)

Section FrameExtras.
Context {ext : Extern}.

Lemma mapM_Series_Copy_wf (se : list Series) :
  Forall Series_wf se -> mapM Series_Copy se = Ok se.
Proof.
  induction 1 as [|s se Hs _ IH]; simpl; [reflexivity|].
  rewrite (Series_Copy_wf s Hs). simpl. rewrite IH. reflexivity.
Qed.

Lemma checkColumnsDimensions_loop_ok (se : list Series) (i n : Z) :
  Forall (fun c => Series_wf c /\ len (Elements_list (elements c)) = n) se ->
  n <> -1 ->
  checkColumnsDimensions_loop se i n = Ok (n, None).
Proof.
  intros H Hn. revert i. induction H as [|s se [Hs Hl] _ IH]; intros i; simpl; [reflexivity|].
  rewrite (proj1 Hs), (Series_wf_Len s Hs), Hl.
  replace (n =? -1) with false by (symmetry; now apply Z.eqb_neq).
  cbn [mbind result_bind]. rewrite Z.eqb_refl. simpl. apply IH.
Qed.

Lemma checkColumnsDimensions_ok (se : list Series) (n : Z) :
  se <> [] ->
  Forall (fun c => Series_wf c /\ len (Elements_list (elements c)) = n) se ->
  checkColumnsDimensions se = Ok (n, len se, None).
Proof.
  intros Hne H. unfold checkColumnsDimensions.
  destruct se as [|s se]; [contradiction|].
  replace (len (s :: se) =? 0) with false
    by (symmetry; apply Z.eqb_neq; unfold len; simpl; lia).
  inversion H as [|? ? [Hs Hl] Hrest]; subst.
  assert (Hn : len (Elements_list (elements s)) <> -1) by (unfold len; lia).
  cbn [checkColumnsDimensions_loop]. rewrite (proj1 Hs), (Series_wf_Len s Hs).
  change (-1 =? -1) with true. cbn [mbind result_bind]. rewrite Z.eqb_refl. cbn [negb].
  rewrite (checkColumnsDimensions_loop_ok se _ _ Hrest Hn). reflexivity.
Qed.

Lemma set_names_renamed (cols : list Series) (colnames : list string) :
  length colnames = length cols -> set_names cols colnames = Ok (renamed cols colnames).
Proof.
  revert cols. induction colnames as [|n colnames IH]; intros [|c cols] Hl;
    simpl in Hl; try discriminate; [reflexivity|].
  simpl. rewrite IH by lia. reflexivity.
Qed.

Lemma renamed_wf (cols : list Series) (names : list string) (n : Z) :
  length names = length cols ->
  Forall (fun c => Series_wf c /\ len (Elements_list (elements c)) = n) cols ->
  Forall (fun c => Series_wf c /\ len (Elements_list (elements c)) = n) (renamed cols names) /\
  map Name (renamed cols names) = names /\
  map elements (renamed cols names) = map elements cols /\
  map t (renamed cols names) = map t cols /\
  length (renamed cols names) = length cols.
Proof.
  revert cols. induction names as [|x names IH]; intros [|c cols] Hl H;
    simpl in Hl; try discriminate.
  - repeat split; constructor.
  - inversion H as [|? ? Hc Hrest]; subst.
    destruct (IH cols) as (H1 & H2 & H3 & H4 & H5); [lia | assumption |].
    unfold renamed in *. simpl. rewrite H2, H3, H4, H5.
    repeat split; try reflexivity. constructor; [|exact H1]. exact Hc.
Qed.

(** The tail of the constructors on well-formed columns of one length. *)
Lemma checked_frame_ok (cols : list Series) (n : Z) :
  cols <> [] ->
  Forall (fun c => Series_wf c /\ len (Elements_list (elements c)) = n) cols ->
  exists out,
    fixColnames (map Name cols) = Some out /\ fixed_names (map Name cols) out /\
    checked_frame cols = Ok (mk_DataFrame (renamed cols out) (len cols) n None).
Proof.
  intros Hne H. destruct (fixColnames_fixed (map Name cols)) as (out & Ho & Hfix).
  exists out. split; [exact Ho|]. split; [exact Hfix|].
  unfold checked_frame. rewrite (checkColumnsDimensions_ok cols n Hne H).
  cbn [mbind result_bind]. unfold fix_names.
  rewrite DataFrame_Names_columns. cbn [mbind result_bind]. rewrite Ho.
  cbn [columns ncols nrows df_Err].
  rewrite set_names_renamed; [reflexivity|].
  destruct Hfix as (Hlen & _). rewrite Hlen. now rewrite length_map.
Qed.

Lemma dataframe_New_checked (se : list Series) :
  se <> [] -> Forall Series_wf se -> dataframe_New se = checked_frame se.
Proof.
  intros Hne H. unfold dataframe_New, checked_frame.
  destruct se as [|s se]; [contradiction|].
  replace (len (s :: se) =? 0) with false
    by (symmetry; apply Z.eqb_neq; unfold len; simpl; lia).
  rewrite (mapM_Series_Copy_wf _ H). reflexivity.
Qed.

(** What [New] returns on well-formed Columns of one length. *)
Lemma New_frame_of_columns (se : list Series) (n : Z) :
  se <> [] ->
  Forall (fun c => Series_wf c /\ len (Elements_list (elements c)) = n) se ->
  exists df,
    dataframe_New se = Ok df /\ DataFrame_wf df /\
    nrows df = n /\ ncols df = len se /\
    map elements (columns df) = map elements se /\
    map t (columns df) = map t se /\
    fixed_names (map Name se) (map Name (columns df)).
Proof.
  intros Hne H.
  assert (Hwf : Forall Series_wf se)
    by (eapply Forall_impl; [exact H|]; intros c Hc; apply Hc).
  destruct (checked_frame_ok se n Hne H) as (out & Ho & Hfix & Hc).
  assert (Hlen : length out = length se).
  { destruct Hfix as (Hlen & _). rewrite Hlen. now rewrite length_map. }
  destruct (renamed_wf se out n Hlen H) as (H1 & H2 & H3 & H4 & H5).
  eexists. split; [rewrite (dataframe_New_checked se Hne Hwf); exact Hc|].
  cbn [columns ncols nrows df_Err]. rewrite H2, H3, H4.
  split.
  { unfold DataFrame_wf. cbn [columns ncols nrows df_Err].
    split; [reflexivity|]. split; [unfold len; now rewrite H5|].
    split; [|exact H1].
    intros E. apply Hne. apply (f_equal (@length _)) in E. rewrite H5 in E.
    now destruct se. }
  do 4 (split; [reflexivity|]). exact Hfix.
Qed.

(** X16. [New] on at least one Column, all without error and of one length
    [n]: the Table returned carries no error, has [n] rows and as many
    columns as were given, which are the Columns given (same elements and
    types, in order), each well formed, under pairwise different names: the
    names given after the fix-up. *)
Theorem New_builds_a_well_formed_frame (se : list Series) (n : Z) :
  se <> [] ->
  Forall (fun c => Series_wf c /\ len (Elements_list (elements c)) = n) se ->
  exists df,
    dataframe_New se = Ok df /\ DataFrame_wf df /\
    nrows df = n /\ ncols df = len se /\
    map elements (columns df) = map elements se /\
    map t (columns df) = map t se /\
    NoDup (map Name (columns df)) /\
    fixed_names (map Name se) (map Name (columns df)).
Proof.
  intros Hne H.
  destruct (New_frame_of_columns se n Hne H) as (df & H1 & H2 & H3 & H4 & H5 & H6 & H7).
  exists df. do 6 (split; [assumption|]). split; [apply H7 | exact H7].
Qed.

Lemma synth_name_nonempty (n : string) (k : Z) : synth_name n k <> EmptyString.
Proof.
  unfold synth_name, missing_name, dup_name.
  destruct (String.eqb n EmptyString); [discriminate|].
  destruct n; discriminate.
Qed.

Lemma fixed_names_identity (old new : list string) :
  fixed_names old new -> NoDup old -> EmptyString ∉ old -> new = old.
Proof.
  intros (Hlen & _ & Hkeep & _) Hnd Hne. apply list_eq. intros i.
  destruct (old !! i) as [n|] eqn:E.
  - apply Hkeep; [exact E | |].
    + intros ->. apply Hne. eapply list_elem_of_lookup_2. exact E.
    + intros j Hj Hj'. apply Hj. eapply NoDup_lookup; eauto.
  - apply lookup_ge_None in E. apply lookup_ge_None. lia.
Qed.

Lemma fixed_names_nonempty (old new : list string) :
  fixed_names old new -> EmptyString ∉ new.
Proof.
  intros (Hlen & _ & Hkeep & Hsynth & _) Hin.
  apply list_elem_of_lookup_1 in Hin. destruct Hin as [i Hi].
  assert (Hlt : (i < length old)%nat).
  { rewrite <- Hlen. eapply lookup_lt_Some. exact Hi. }
  destruct (lookup_lt_is_Some_2 old i Hlt) as [n Hn].
  assert (Hcase : (n = EmptyString \/ exists j, j <> i /\ old !! j = Some n) \/
                  (n <> EmptyString /\ forall j, j <> i -> old !! j <> Some n)).
  { destruct (decide (n = EmptyString)) as [->|Hne]; [left; now left|].
    destruct (decide (n ∈ take i old ++ drop (S i) old)) as [Hy|Hno].
    - left. right. apply elem_of_app in Hy. destruct Hy as [Hy|Hy].
      + apply list_elem_of_lookup_1 in Hy. destruct Hy as [j Hj].
        pose proof (lookup_lt_Some _ _ _ Hj) as Hjl. rewrite length_take in Hjl.
        exists j. split; [lia|]. rewrite lookup_take_lt in Hj by lia. exact Hj.
      + apply list_elem_of_lookup_1 in Hy. destruct Hy as [j Hj].
        rewrite lookup_drop in Hj. exists (S i + j)%nat. split; [lia | exact Hj].
    - right. split; [exact Hne|]. intros j Hj Hjn. apply Hno. apply elem_of_app.
      destruct (Nat.lt_ge_cases j i) as [Hlt'|Hge].
      + left. apply (list_elem_of_lookup_2 _ j). rewrite lookup_take_lt by lia. exact Hjn.
      + right. apply (list_elem_of_lookup_2 _ (j - S i)).
        rewrite lookup_drop. replace (S i + (j - S i))%nat with j by lia. exact Hjn. }
  destruct Hcase as [Hc|[Hne Huniq]].
  - destruct (Hsynth i n Hn Hc) as (k & _ & Hk).
    rewrite Hi in Hk. injection Hk as Hk. symmetry in Hk.
    now apply synth_name_nonempty in Hk.
  - rewrite (Hkeep i n Hn Hne Huniq) in Hi. injection Hi as Hi. now apply Hne.
Qed.

Lemma fixColnames_identity (colnames : list string) :
  NoDup colnames -> EmptyString ∉ colnames -> fixColnames colnames = Some colnames.
Proof.
  intros Hnd Hne.
  destruct (fixColnames_fixed colnames) as (out & Ho & Hfix).
  rewrite Ho. f_equal. now apply fixed_names_identity.
Qed.

(** X17. The fix-up of the names changes nothing in a list of pairwise
    different, non-empty names, and it is idempotent: applied to its own
    result it returns it unchanged. *)
Theorem fixColnames_is_idempotent :
  (forall colnames : list string,
     NoDup colnames -> EmptyString ∉ colnames -> fixColnames colnames = Some colnames) /\
  (forall colnames out : list string,
     fixColnames colnames = Some out -> fixColnames out = Some out).
Proof.
  split; [exact fixColnames_identity|].
  intros colnames out Ho.
  destruct (fixColnames_fixed colnames) as (out' & Ho' & Hfix).
  assert (out' = out) by congruence. subst out'.
  apply fixColnames_identity; [apply Hfix | now apply (fixed_names_nonempty colnames)].
Qed.

Lemma fixColnames_scan_unnamed (n i : nat) (m : gmap string (list nat)) (miss : list nat) :
  fixColnames_scan (replicate n EmptyString) i m miss = (m, miss ++ seq i n).
Proof.
  revert i miss. induction n as [|n IH]; intros i miss; simpl.
  - now rewrite app_nil_r.
  - rewrite IH. now rewrite <- app_assoc.
Qed.

Lemma missing_name_not_empty (k : Z) : missing_name k <> EmptyString.
Proof. unfold missing_name. discriminate. Qed.

Lemma fixColnames_assign_unnamed (n k : nat) :
  fixColnames_assign missing_name (seq k n)
    ((missing_name <$> seqZ 0 (Z.of_nat k)) ++ replicate n EmptyString) (Z.of_nat k)
  = Some (missing_name <$> seqZ 0 (Z.of_nat (k + n)), Z.of_nat (k + n)).
Proof.
  revert k. induction n as [|n IH]; intros k.
  - simpl. rewrite app_nil_r, Nat.add_0_r. reflexivity.
  - cbn [seq fixColnames_assign free_counter].
    assert (Hfree : findInStringSlice (missing_name (Z.of_nat k))
                      ((missing_name <$> seqZ 0 (Z.of_nat k)) ++ replicate (S n) EmptyString)
                    = -1).
    { apply findInStringSlice_absent. intros Hin. apply elem_of_app in Hin.
      destruct Hin as [Hin|Hin].
      - apply list_elem_of_fmap in Hin. destruct Hin as (j & Hj & Hjin).
        apply missing_name_inj in Hj. subst j. apply elem_of_seqZ in Hjin. lia.
      - apply elem_of_replicate in Hin. destruct Hin as [Hin _].
        now apply missing_name_not_empty in Hin. }
    rewrite Hfree. cbn [Z.eqb Pos.eqb].
    replace (<[k:=missing_name (Z.of_nat k)]>
               ((missing_name <$> seqZ 0 (Z.of_nat k)) ++ replicate (S n) EmptyString))
      with ((missing_name <$> seqZ 0 (Z.of_nat (S k))) ++ replicate n EmptyString).
    + replace (Z.of_nat k + 1) with (Z.of_nat (S k)) by lia.
      replace (k + S n)%nat with (S k + n)%nat by lia. apply IH.
    + replace (Z.of_nat (S k)) with (Z.of_nat k + 1) by lia.
      rewrite seqZ_app by lia. rewrite fmap_app. simpl.
      rewrite <- app_assoc. simpl.
      rewrite insert_app_r_alt by (rewrite length_fmap, length_seqZ; lia).
      rewrite length_fmap, length_seqZ.
      replace (k - Z.to_nat (Z.of_nat k))%nat with 0%nat by lia. reflexivity.
Qed.

Lemma fixColnames_unnamed (n : nat) :
  fixColnames (replicate n EmptyString) = Some (missing_name <$> seqZ 0 (Z.of_nat n)).
Proof.
  unfold fixColnames. rewrite fixColnames_scan_unnamed. cbn [app].
  pose proof (fixColnames_assign_unnamed n 0) as H.
  change (Z.of_nat 0) with 0 in H. change (seqZ 0 0) with (@nil Z) in H.
  change (0 + n)%nat with n in H. cbn [fmap list_fmap app] in H. rewrite H.
  rewrite map_filter_empty, map_to_list_empty. reflexivity.
Qed.

(** X18. Columns given without name are numbered: [New] on Columns whose
    names are all empty calls them X0, X1, ... in order. *)
Theorem unnamed_columns_are_numbered (se : list Series) (n : Z) :
  se <> [] ->
  Forall (fun c => Series_wf c /\ len (Elements_list (elements c)) = n) se ->
  Forall (fun c => Name c = EmptyString) se ->
  exists df,
    dataframe_New se = Ok df /\ df_Err df = None /\
    DataFrame_Names df = Ok (map (fun k => "X" +:+ strconv_Itoa k) (seqZ 0 (len se))).
Proof.
  intros Hne H Hnames.
  assert (Hwf : Forall Series_wf se)
    by (eapply Forall_impl; [exact H|]; intros c Hc; apply Hc).
  destruct (checked_frame_ok se n Hne H) as (out & Ho & Hfix & Hc).
  assert (Hn : map Name se = replicate (length se) EmptyString).
  { clear -Hnames. induction Hnames as [|c se Hc _ IH]; simpl; [reflexivity|].
    now rewrite Hc, IH. }
  rewrite Hn, fixColnames_unnamed in Ho. injection Ho as <-.
  eexists. split; [rewrite (dataframe_New_checked se Hne Hwf); exact Hc|].
  split; [reflexivity|].
  assert (Hlen : length (missing_name <$> seqZ 0 (Z.of_nat (length se))) = length se).
  { rewrite length_fmap, length_seqZ. lia. }
  destruct (renamed_wf se _ n Hlen H) as (_ & H2 & _ & _ & H5).
  replace (len se) with (len (renamed se (missing_name <$> seqZ 0 (Z.of_nat (length se)))))
    at 1 by (unfold len; now rewrite H5).
  rewrite DataFrame_Names_columns, H2. reflexivity.
Qed.

End FrameExtras.

(** ** Tables: rows, columns, bindings *)

Section FrameOpsExtras.
Context {ext : Extern}.

Lemma Series_Subset_typed (c r : Series) (idx : list Z) :
  Series_wf c -> Series_Subset c (v_ints idx) = Ok r -> Series_wf r.
Proof.
  intros [He Hw]. destruct c as [name els ty err]. cbn [Name elements t Err] in *.
  subst err. unfold Series_Subset, Series_Len.
  destruct ty, els; try contradiction;
    cbn [Name elements t Err Elements_Len mbind result_bind parseIndexes];
    match goal with
    | |- context [mapM ?f idx] => destruct (mapM f idx) as [xs|]
    end; cbn; intros H; try discriminate; injection H as <-;
    (split; [reflexivity | exact I]).
Qed.

Lemma in_range_elements (L : list Element) (idx : list Z) :
  Forall (fun i => 0 <= i < len L) idx ->
  exists es, Forall2 (fun i e => 0 <= i /\ L !! Z.to_nat i = Some e) idx es.
Proof.
  induction 1 as [|i idx Hi _ (es & IH)]; [exists []; constructor|].
  destruct (lookup_lt_is_Some_2 L (Z.to_nat i)) as [e He]; [unfold len in Hi; lia|].
  exists (e :: es). constructor; [split; [lia | exact He] | exact IH].
Qed.

(** [Subset] of a Column with indexes that are all in range. *)
Lemma Series_Subset_in_range (c : Series) (idx : list Z) :
  Series_wf c -> Forall (fun i => 0 <= i < len (Elements_list (elements c))) idx ->
  exists r,
    Series_Subset c (v_ints idx) = Ok r /\ Series_wf r /\
    Name r = Name c /\ t r = t c /\
    Forall2 (fun i e => Elements_list (elements c) !! Z.to_nat i = Some e)
            idx (Elements_list (elements r)).
Proof.
  intros Hc Hr. destruct (in_range_elements _ _ Hr) as (es & Hes).
  destruct (Series_Subset_ints c idx es Hc Hes) as (r & Hs & Hl & Hn & Ht & _).
  exists r. split; [exact Hs|]. split; [exact (Series_Subset_typed c r idx Hc Hs)|].
  split; [exact Hn|]. split; [exact Ht|]. rewrite Hl.
  eapply Forall2_impl; [exact Hes|]. intros i e [_ H]. exact H.
Qed.

Lemma fill_columns_exact (cols : list Series) (f : Series -> result Series) :
  fill_columns (len cols) cols f = mapM f cols.
Proof.
  unfold fill_columns, len.
  destruct (Z.of_nat (length cols) <? 0) eqn:E; [apply Z.ltb_lt in E; lia|].
  rewrite Z.ltb_irrefl. rewrite Nat2Z.id, Nat.sub_diag. simpl.
  destruct (mapM f cols); simpl; [now rewrite app_nil_r | reflexivity].
Qed.

Lemma mapM_Forall2 {A B} (f : A -> result B) (R : A -> B -> Prop) (l : list A) :
  Forall (fun x => exists y, f x = Ok y /\ R x y) l ->
  exists ys, mapM f l = Ok ys /\ Forall2 R l ys.
Proof.
  induction 1 as [|x l (y & Hy & Hr) _ (ys & Hys & HR)]; simpl.
  - exists []. split; [reflexivity | constructor].
  - rewrite Hy. simpl. rewrite Hys. simpl. exists (y :: ys).
    split; [reflexivity | now constructor].
Qed.

Lemma DataFrame_Subset_rows (df : DataFrame) (idx : list Z) :
  DataFrame_wf df -> Forall (fun i => 0 <= i < nrows df) idx ->
  exists r,
    DataFrame_Subset df (v_ints idx) = Ok r /\ DataFrame_wf r /\
    nrows r = len idx /\ ncols r = ncols df /\
    map Name (columns r) = map Name (columns df) /\
    map t (columns r) = map t (columns df) /\
    forall k i c, idx !! k = Some i -> cell r k c = cell df (Z.to_nat i) c.
Proof.
  intros (He & Hn & Hne & Hcols) Hidx.
  set (R := fun (c r : Series) =>
              Series_wf r /\ Name r = Name c /\ t r = t c /\
              Forall2 (fun i e => Elements_list (elements c) !! Z.to_nat i = Some e)
                      idx (Elements_list (elements r))).
  destruct (mapM_Forall2 (fun c => Series_Subset c (v_ints idx)) R (columns df))
    as (rs & Hrs & HR).
  { eapply Forall_impl; [exact Hcols|]. intros c [Hc Hl].
    destruct (Series_Subset_in_range c idx Hc) as (r & H1 & H2); [now rewrite Hl|].
    exists r. split; [exact H1 | exact H2]. }
  assert (Hlen : length rs = length (columns df)) by (symmetry; eapply Forall2_length; eauto).
  assert (Hwf : Forall (fun c => Series_wf c /\ len (Elements_list (elements c)) = len idx) rs).
  { apply Forall_forall. intros r Hr.
    apply list_elem_of_lookup_1 in Hr. destruct Hr as [j Hj].
    destruct (Forall2_lookup_r _ _ _ _ _ HR Hj) as (c & _ & Hw & _ & _ & Hf).
    split; [exact Hw|]. unfold len. f_equal. symmetry. eapply Forall2_length. exact Hf. }
  assert (Hrne : rs <> []).
  { intros E. rewrite E in Hlen. simpl in Hlen. destruct (columns df); [now apply Hne | discriminate]. }
  exists (mk_DataFrame rs (len rs) (len idx) None).
  split.
  { unfold DataFrame_Subset. rewrite He, Hn, fill_columns_exact, Hrs.
    cbn [mbind result_bind]. rewrite (checkColumnsDimensions_ok rs (len idx) Hrne Hwf).
    reflexivity. }
  cbn [columns ncols nrows df_Err].
  split; [repeat split; auto|].
  split; [reflexivity|]. split; [rewrite Hn; unfold len; now rewrite Hlen|].
  split.
  { clear -HR. induction HR as [|c r cs rs (_ & Hnm & _) _ IH]; simpl; [reflexivity|].
    now rewrite Hnm, IH. }
  split.
  { clear -HR. induction HR as [|c r cs rs (_ & _ & Ht & _) _ IH]; simpl; [reflexivity|].
    now rewrite Ht, IH. }
  intros k i c Hk. unfold cell. cbn [columns].
  destruct (rs !! c) as [rc|] eqn:Erc.
  - destruct (Forall2_lookup_r _ _ _ _ _ HR Erc) as (dc & Hdc & _ & _ & _ & Hf).
    rewrite Hdc.
    destruct (Forall2_lookup_l _ _ _ _ _ Hf Hk) as (e & He' & Hde).
    now rewrite He', Hde.
  - apply lookup_ge_None in Erc. rewrite Hlen in Erc.
    now rewrite (proj2 (lookup_ge_None _ _) Erc).
Qed.

(** X19. [Subset] of a well-formed Table with row indexes that are all in
    range: the result is a well-formed Table with one row per index and the
    same columns (names and types); its row [k] is the row [idx[k]] of the
    receiver. *)
Theorem Subset_of_rows (df : DataFrame) (idx : list Z) :
  DataFrame_wf df -> Forall (fun i => 0 <= i < nrows df) idx ->
  exists r,
    DataFrame_Subset df (v_ints idx) = Ok r /\ DataFrame_wf r /\
    nrows r = len idx /\ ncols r = ncols df /\
    map Name (columns r) = map Name (columns df) /\
    map t (columns r) = map t (columns df) /\
    forall k i c, idx !! k = Some i -> cell r k c = cell df (Z.to_nat i) c.
Proof. exact (DataFrame_Subset_rows df idx). Qed.

Lemma DataFrame_wf_Names (df : DataFrame) :
  DataFrame_wf df -> DataFrame_Names df = Ok (map Name (columns df)).
Proof.
  intros (_ & Hn & _). destruct df as [cols nc nr e]. cbn [columns ncols] in *. subst nc.
  apply DataFrame_Names_columns.
Qed.

Lemma findInStringSlice_from_first (str : string) (s : list string) (i0 : Z) :
  str ∈ s ->
  exists p : nat,
    findInStringSlice_from str s i0 = i0 + Z.of_nat p /\ s !! p = Some str /\
    forall j x, (j < p)%nat -> s !! j = Some x -> x <> str.
Proof.
  revert i0. induction s as [|e s IH]; intros i0 Hin; [now apply not_elem_of_nil in Hin|].
  simpl. destruct (String.eqb_spec e str) as [->|Hne].
  - exists 0%nat. split; [lia|]. split; [reflexivity|]. intros j x Hj. lia.
  - apply elem_of_cons in Hin. destruct Hin as [->|Hin]; [contradiction|].
    destruct (IH (i0 + 1) Hin) as (p & Hp & Hl & Hfirst).
    exists (S p). split; [lia|]. split; [exact Hl|].
    intros [|j] x Hj Hx; simpl in Hx.
    + injection Hx as <-. exact Hne.
    + apply (Hfirst j x); [lia | exact Hx].
Qed.

(** The column names found one after the other. *)
Lemma select_names_found (xs names : list string) :
  Forall (fun x => x ∈ names) xs ->
  exists ps : list nat,
    select_names xs names = (map Z.of_nat ps, None) /\
    Forall2 (fun x p => names !! p = Some x /\
                        forall j y, (j < p)%nat -> names !! j = Some y -> y <> x) xs ps.
Proof.
  induction 1 as [|x xs Hx _ (ps & Hs & Hf)]; simpl.
  - exists []. split; [reflexivity | constructor].
  - destruct (findInStringSlice_from_first x names 0 Hx) as (p & Hp & Hl & Hfirst).
    unfold findInStringSlice. rewrite Hp.
    replace (0 + Z.of_nat p <? 0) with false by (symmetry; apply Z.ltb_ge; lia).
    rewrite Hs. exists (p :: ps). split; [reflexivity|].
    constructor; [split; assumption | exact Hf].
Qed.

Lemma Select_loop_found (df : DataFrame) (ps : list nat) (cs : list Series) :
  DataFrame_wf df ->
  Forall2 (fun p c => columns df !! p = Some c) ps cs ->
  Select_loop df (map Z.of_nat ps) = Ok (Some cs).
Proof.
  intros (_ & Hn & _ & Hcols) H. induction H as [|p c ps cs Hp _ IH]; [reflexivity|].
  cbn [map Select_loop].
  pose proof (lookup_lt_Some _ _ _ Hp) as Hlt.
  replace ((Z.of_nat p <? 0) || (ncols df <=? Z.of_nat p)) with false
    by (symmetry; apply orb_false_iff; split;
        [apply Z.ltb_ge; lia | apply Z.leb_gt; rewrite Hn; unfold len; lia]).
  unfold index. replace (Z.of_nat p <? 0) with false by (symmetry; apply Z.ltb_ge; lia).
  rewrite Nat2Z.id, Hp. cbn [mbind result_bind].
  rewrite Forall_forall in Hcols.
  rewrite (Series_Copy_wf c) by (apply Hcols; eapply list_elem_of_lookup_2; exact Hp).
  cbn [mbind result_bind]. rewrite IH. reflexivity.
Qed.

Lemma renamed_own_names (cols : list Series) : renamed cols (map Name cols) = cols.
Proof.
  induction cols as [|[n e ty er] cols IH]; [reflexivity|].
  unfold renamed in *. simpl. now rewrite IH.
Qed.

(** X20. [Select] with a list of pairwise different, non-empty names that
    are all names of columns of a well-formed Table: the result is a
    well-formed Table of the same number of rows whose columns are, in the
    order of the list, the columns of the receiver that bear these names
    (for each name the first column that bears it). *)
Theorem Select_by_names (df : DataFrame) (xs : list string) :
  DataFrame_wf df -> xs <> [] -> NoDup xs -> EmptyString ∉ xs ->
  Forall (fun x => x ∈ map Name (columns df)) xs ->
  exists r,
    DataFrame_Select df (v_strings xs) = Ok r /\ DataFrame_wf r /\
    nrows r = nrows df /\ ncols r = len xs /\
    Forall2 (fun x c =>
               Name c = x /\
               exists p, columns df !! p = Some c /\
                 forall j c', (j < p)%nat -> columns df !! j = Some c' -> Name c' <> x)
            xs (columns r).
Proof.
  intros Hdf Hne Hnd Hnempty Hin.
  destruct (select_names_found xs _ Hin) as (ps & Hsel & Hps).
  assert (Hcs : exists cs,
            Forall2 (fun p c => columns df !! p = Some c) ps cs /\
            Forall2 (fun x c =>
                       Name c = x /\
                       exists p, columns df !! p = Some c /\
                         forall j c', (j < p)%nat -> columns df !! j = Some c' -> Name c' <> x)
                    xs cs).
  { clear -Hps. induction Hps as [|x p xs ps [Hp Hfirst] _ (cs & H1 & H2)].
    - exists []. split; constructor.
    - change (map Name (columns df)) with (Name <$> columns df) in Hp.
      rewrite list_lookup_fmap in Hp.
      destruct (columns df !! p) as [c|] eqn:Ec; simpl in Hp; [|discriminate].
      injection Hp as Hp. exists (c :: cs). split; [now constructor|].
      constructor; [|exact H2]. split; [exact Hp|]. exists p. split; [exact Ec|].
      intros j c' Hj Hc'. apply (Hfirst j (Name c') Hj).
      change (map Name (columns df)) with (Name <$> columns df).
      rewrite list_lookup_fmap, Hc'. reflexivity. }
  destruct Hcs as (cs & Hcs & Hspec).
  assert (Hnames : map Name cs = xs).
  { clear -Hspec. induction Hspec as [|x c xs cs [Hn _] _ IH]; simpl; [reflexivity|].
    now rewrite Hn, IH. }
  assert (Hlen : length cs = length xs) by (symmetry; eapply Forall2_length; eauto).
  assert (Hcne : cs <> []).
  { intros E. rewrite E in Hlen. destruct xs; [now apply Hne | discriminate]. }
  assert (Hwf : Forall (fun c => Series_wf c /\ len (Elements_list (elements c)) = nrows df) cs).
  { destruct Hdf as (_ & _ & _ & Hcols). rewrite Forall_forall in Hcols.
    apply Forall_forall. intros c Hc. apply list_elem_of_lookup_1 in Hc.
    destruct Hc as [k Hk].
    destruct (Forall2_lookup_r _ _ _ _ _ Hcs Hk) as (p & _ & Hp).
    apply Hcols. eapply list_elem_of_lookup_2. exact Hp. }
  destruct (checked_frame_ok cs (nrows df) Hcne Hwf) as (out & Ho & Hfix & Hck).
  rewrite Hnames in Ho.
  rewrite (fixColnames_identity xs Hnd Hnempty) in Ho. injection Ho as <-.
  rewrite <- Hnames, renamed_own_names in Hck.
  exists (mk_DataFrame cs (len cs) (nrows df) None).
  split.
  { unfold DataFrame_Select. rewrite (proj1 Hdf), (DataFrame_wf_Names df Hdf).
    cbn [mbind result_bind parseSelectIndexes]. rewrite Hsel.
    rewrite (Select_loop_found df ps cs Hdf Hcs). exact Hck. }
  cbn [columns ncols nrows df_Err].
  split; [repeat split; auto|].
  split; [reflexivity|]. split; [unfold len; now rewrite Hlen|]. exact Hspec.
Qed.

Lemma checkColumnsDimensions_loop_mismatch (cols1 rest : list Series) (c : Series) (i n : Z) :
  Forall (fun c => Series_wf c /\ len (Elements_list (elements c)) = n) cols1 ->
  Series_wf c -> len (Elements_list (elements c)) <> n -> n <> -1 ->
  checkColumnsDimensions_loop (cols1 ++ c :: rest) i n
    = Ok (n, fmt_Errorf "arguments have different dimensions").
Proof.
  intros H Hc Hl Hn. revert i.
  induction H as [|s se [Hs Hsl] _ IH]; intros i; simpl.
  - rewrite (proj1 Hc), (Series_wf_Len c Hc).
    replace (n =? -1) with false by (symmetry; now apply Z.eqb_neq).
    cbn [mbind result_bind].
    replace (n =? len (Elements_list (elements c))) with false
      by (symmetry; apply Z.eqb_neq; congruence).
    reflexivity.
  - rewrite (proj1 Hs), (Series_wf_Len s Hs), Hsl.
    replace (n =? -1) with false by (symmetry; now apply Z.eqb_neq).
    cbn [mbind result_bind]. rewrite Z.eqb_refl. simpl. apply IH.
Qed.

Lemma DataFrame_wf_columns_wf (df : DataFrame) :
  DataFrame_wf df -> Forall Series_wf (columns df).
Proof.
  intros (_ & _ & _ & H). eapply Forall_impl; [exact H|]. intros c Hc. apply Hc.
Qed.

(** X21. [CBind] of two well-formed Tables.  When they have the same number
    of rows the result is a well-formed Table of that many rows whose
    columns are the columns of the receiver followed by the columns of the
    argument (same elements and types), under the names of both after the
    fix-up; when they have not, the result carries the error "arguments have
    different dimensions". *)
Theorem CBind_joins_the_columns (df dfb : DataFrame) :
  DataFrame_wf df -> DataFrame_wf dfb ->
  (nrows dfb = nrows df ->
   exists r,
     DataFrame_CBind df dfb = Ok r /\ DataFrame_wf r /\
     nrows r = nrows df /\ ncols r = ncols df + ncols dfb /\
     map elements (columns r) = map elements (columns df) ++ map elements (columns dfb) /\
     map t (columns r) = map t (columns df) ++ map t (columns dfb) /\
     fixed_names (map Name (columns df) ++ map Name (columns dfb))
                 (map Name (columns r))) /\
  (nrows dfb <> nrows df ->
   DataFrame_CBind df dfb = Ok (DataFrame_err "arguments have different dimensions")).
Proof.
  intros Ha Hb.
  pose proof (DataFrame_wf_columns_wf df Ha) as Hwa.
  pose proof (DataFrame_wf_columns_wf dfb Hb) as Hwb.
  destruct Ha as (Hea & Hna & Hnea & Hca), Hb as (Heb & Hnb & Hneb & Hcb).
  assert (Hne : columns df ++ columns dfb <> []).
  { intros E. apply app_eq_nil in E. now apply Hnea. }
  assert (Hw : Forall Series_wf (columns df ++ columns dfb)) by now apply Forall_app.
  unfold DataFrame_CBind. rewrite Hea, Heb.
  split; intros Hr.
  - assert (Hall : Forall (fun c => Series_wf c /\
                             len (Elements_list (elements c)) = nrows df)
                          (columns df ++ columns dfb)).
    { apply Forall_app. split; [exact Hca|]. now rewrite <- Hr. }
    destruct (New_frame_of_columns (columns df ++ columns dfb) (nrows df) Hne Hall)
      as (r & Hnew & Hrest).
    exists r. split; [exact Hnew|].
    destruct Hrest as (H1 & H2 & H3 & H4 & H5 & H6).
    split; [exact H1|]. split; [exact H2|].
    split; [rewrite H3, Hna, Hnb; unfold len; rewrite length_app; lia|].
    rewrite !map_app in *. auto.
  - rewrite (dataframe_New_checked _ Hne Hw). unfold checked_frame, checkColumnsDimensions.
    replace (len (columns df ++ columns dfb) =? 0) with false
      by (symmetry; apply Z.eqb_neq; unfold len; rewrite length_app;
          destruct (columns df); [contradiction | simpl; lia]).
    destruct (columns df) as [|a cols] eqn:Ea; [contradiction|].
    destruct (columns dfb) as [|b colsb] eqn:Eb; [contradiction|].
    inversion Hca as [|? ? [Hsa Hla] Hca']; subst.
    inversion Hcb as [|? ? [Hsb Hlb] Hcb']; subst.
    cbn [app checkColumnsDimensions_loop].
    rewrite (proj1 Hsa), (Series_wf_Len a Hsa).
    change (-1 =? -1) with true. cbn [mbind result_bind]. rewrite Z.eqb_refl. cbn [negb].
    assert (H1 : len (Elements_list (elements b)) <> len (Elements_list (elements a)))
      by congruence.
    assert (H2 : len (Elements_list (elements a)) <> -1) by (unfold len; lia).
    assert (H3 : Forall (fun c => Series_wf c /\
                           len (Elements_list (elements c))
                           = len (Elements_list (elements a))) cols).
    { eapply Forall_impl; [exact Hca'|]. intros c [Hc Hl]. split; [exact Hc | congruence]. }
    rewrite (checkColumnsDimensions_loop_mismatch cols colsb b (0 + 1) _ H3 Hsb H1 H2).
    reflexivity.
Qed.

Lemma New_elements_ok (ty : series.Type_) (vals : list value) :
  ty <> series.unknown ->
  exists els,
    New_elements ty vals = Ok els /\
    length (Elements_list els) = length vals /\
    match ty, els with
    | series.String, stringElements _ => True
    | series.Int, intElements _ => True
    | series.Float, floatElements _ => True
    | series.Bool, boolElements _ => True
    | _, _ => False
    end.
Proof.
  intros Hty. destruct ty; try contradiction; simpl; eexists;
    (split; [reflexivity|]); simpl; rewrite !length_map; (split; [reflexivity | exact I]).
Qed.

(** [Concat] of two Columns without error, of any types. *)
Lemma Series_Concat_wf (s x : Series) :
  Series_wf s -> Series_wf x ->
  exists y tail,
    Series_Concat s x = Ok y /\ Series_wf y /\ Name y = Name s /\ t y = t s /\
    Elements_list (elements y) = Elements_list (elements s) ++ tail /\
    length tail = length (Elements_list (elements x)).
Proof.
  intros Hs Hx.
  assert (Hty : t s <> series.unknown).
  { destruct Hs as [_ Hw]. intros E. rewrite E in Hw. exact Hw. }
  destruct (New_elements_ok (t s) (map v_Element (Elements_list (elements x))) Hty)
    as (els & Hn & Hl & Hm).
  rewrite length_map in Hl.
  pose proof (Series_wf_Len x Hx) as HLx. unfold Series_Len in HLx.
  unfold Series_Concat. rewrite (proj1 Hs), (proj1 Hx), (Series_Copy_wf s Hs).
  cbn [mbind result_bind]. unfold Series_Append. rewrite (proj1 Hs).
  unfold series_New. rewrite HLx. cbn [mbind result_bind]. rewrite Hn.
  cbn [mbind result_bind elements].
  destruct Hs as [He Hw]. destruct s as [name sels ty err].
  cbn [Name elements t Err] in *. subst err.
  destruct ty, sels, els; try contradiction;
    match goal with
    | |- context [set_elements (mk_Series _ _ ?ty _) (?ctor (?a ++ ?b))] =>
        exists (mk_Series name (ctor (a ++ b)) ty None), (Elements_list (ctor b))
    end;
    (split; [reflexivity|]);
    (split; [split; [reflexivity | exact I]|]);
    (split; [reflexivity|]); (split; [reflexivity|]);
    (split; [apply map_app | exact Hl]).
Qed.

Lemma index_lookup {A} (l : list A) (p : nat) (x : A) :
  l !! p = Some x -> index l (Z.of_nat p) = Ok x.
Proof.
  intros H. unfold index.
  replace (Z.of_nat p <? 0) with false by (symmetry; apply Z.ltb_ge; lia).
  now rewrite Nat2Z.id, H.
Qed.

Lemma RBind_loop_ok (df dfb : DataFrame) (pre rest : list Series) :
  DataFrame_wf df -> DataFrame_wf dfb ->
  columns df = pre ++ rest ->
  Forall (fun x => x ∈ map Name (columns dfb)) (map Name rest) ->
  exists ys,
    RBind_loop df dfb (map Name rest) (len pre) = Ok (inl ys) /\
    Forall2 (fun c y =>
               Series_wf y /\ Name y = Name c /\ t y = t c /\
               exists tail,
                 Elements_list (elements y) = Elements_list (elements c) ++ tail /\
                 len tail = nrows dfb)
            rest ys.
Proof.
  intros Ha Hb. revert pre. induction rest as [|c rest IH]; intros pre Hcols Hin.
  - exists []. split; [reflexivity | constructor].
  - cbn [map RBind_loop]. rewrite (DataFrame_wf_Names dfb Hb). cbn [mbind result_bind].
    inversion Hin as [|? ? Hc Hin']; subst.
    destruct (findInStringSlice_from_first (Name c) _ 0 Hc) as (p & Hp & Hl & _).
    unfold findInStringSlice. rewrite Hp.
    replace (0 + Z.of_nat p =? -1) with false by (symmetry; apply Z.eqb_neq; lia).
    change (len pre) with (Z.of_nat (length pre)).
    rewrite (index_lookup (columns df) (length pre) c)
      by (rewrite Hcols; now apply list_lookup_middle).
    cbn [mbind result_bind].
    change (map Name (columns dfb)) with (Name <$> columns dfb) in Hl.
    rewrite list_lookup_fmap in Hl.
    destruct (columns dfb !! p) as [b|] eqn:Eb; simpl in Hl; [|discriminate].
    replace (0 + Z.of_nat p) with (Z.of_nat p) by lia.
    rewrite (index_lookup _ _ _ Eb). cbn [mbind result_bind].
    assert (Hwc : Series_wf c).
    { pose proof (DataFrame_wf_columns_wf df Ha) as Hw. rewrite Hcols in Hw.
      apply Forall_app in Hw. destruct Hw as [_ Hw]. now inversion Hw. }
    assert (Hwb : Series_wf b /\ len (Elements_list (elements b)) = nrows dfb).
    { destruct Hb as (_ & _ & _ & Hcb). rewrite Forall_forall in Hcb. apply Hcb.
      eapply list_elem_of_lookup_2. exact Eb. }
    destruct (Series_Concat_wf c b Hwc (proj1 Hwb)) as (y & tail & Hy & Hwy & Hny & Hty & Hly & Hlt).
    rewrite Hy. cbn [mbind result_bind]. rewrite (proj1 Hwy).
    destruct (IH (pre ++ [c])) as (ys & Hys & HF).
    { rewrite Hcols. now rewrite <- app_assoc. }
    { exact Hin'. }
    replace (Z.of_nat (length pre) + 1) with (len (pre ++ [c]))
      by (unfold len; rewrite length_app; simpl; lia).
    rewrite Hys. cbn [mbind result_bind].
    exists (y :: ys). split; [reflexivity|].
    constructor; [|exact HF].
    split; [exact Hwy|]. split; [exact Hny|]. split; [exact Hty|].
    exists tail. split; [exact Hly|]. unfold len in *. rewrite Hlt. apply Hwb.
Qed.

(** X22. [RBind] of two well-formed Tables, every column name of the
    receiver being a column name of the argument: the result is a
    well-formed Table with the columns of the receiver (same number, same
    types, names after the fix-up) and as many rows as both Tables have
    together; its first rows are the rows of the receiver. *)
Theorem RBind_appends_the_rows (df dfb : DataFrame) :
  DataFrame_wf df -> DataFrame_wf dfb ->
  Forall (fun x => x ∈ map Name (columns dfb)) (map Name (columns df)) ->
  exists r,
    DataFrame_RBind df dfb = Ok r /\ DataFrame_wf r /\
    nrows r = nrows df + nrows dfb /\ ncols r = ncols df /\
    map t (columns r) = map t (columns df) /\
    fixed_names (map Name (columns df)) (map Name (columns r)) /\
    forall i c, (Z.of_nat i < nrows df) -> cell r i c = cell df i c.
Proof.
  intros Ha Hb Hin.
  destruct (RBind_loop_ok df dfb [] (columns df) Ha Hb eq_refl Hin) as (ys & Hys & HF).
  assert (Hlen : length ys = length (columns df)) by (symmetry; eapply Forall2_length; eauto).
  assert (Hyne : ys <> []).
  { intros E. rewrite E in Hlen. destruct Ha as (_ & _ & Hne & _).
    destruct (columns df); [now apply Hne | discriminate]. }
  assert (Hwf : Forall (fun c => Series_wf c /\
                          len (Elements_list (elements c)) = nrows df + nrows dfb) ys).
  { apply Forall_forall. intros y Hy. apply list_elem_of_lookup_1 in Hy.
    destruct Hy as [j Hj].
    destruct (Forall2_lookup_r _ _ _ _ _ HF Hj) as (c & Hc & Hw & _ & _ & tail & Hl & Ht).
    split; [exact Hw|]. rewrite Hl. unfold len in *. rewrite length_app.
    destruct Ha as (_ & _ & _ & Hca). rewrite Forall_forall in Hca.
    destruct (Hca c) as [_ Hcl]; [eapply list_elem_of_lookup_2; exact Hc|].
    unfold len in Hcl. lia. }
  destruct (New_frame_of_columns ys _ Hyne Hwf) as (r & Hnew & Hr1 & Hr2 & Hr3 & Hr4 & Hr5 & Hr6).
  assert (Hnames : map Name ys = map Name (columns df)).
  { clear -HF. induction HF as [|c y cs ys (_ & Hn & _) _ IH]; simpl; [reflexivity|].
    now rewrite Hn, IH. }
  assert (Htypes : map t ys = map t (columns df)).
  { clear -HF. induction HF as [|c y cs ys (_ & _ & Ht & _) _ IH]; simpl; [reflexivity|].
    now rewrite Ht, IH. }
  exists r. split.
  { unfold DataFrame_RBind. rewrite (proj1 Ha), (proj1 Hb), (DataFrame_wf_Names df Ha).
    cbn [mbind result_bind]. change 0 with (len (@nil Series)). rewrite Hys. exact Hnew. }
  split; [exact Hr1|]. split; [exact Hr2|].
  split; [rewrite Hr3; destruct Ha as (_ & -> & _); unfold len; now rewrite Hlen|].
  split; [congruence|]. split; [now rewrite <- Hnames|].
  intros i c Hi. unfold cell.
  destruct (columns r !! c) as [rc|] eqn:Erc.
  - assert (Hey : exists y, ys !! c = Some y /\ elements rc = elements y).
    { assert (H : (elements <$> columns r) !! c = (elements <$> ys) !! c)
        by (change (elements <$> columns r) with (map elements (columns r)); now rewrite Hr4).
      rewrite !list_lookup_fmap, Erc in H. simpl in H.
      destruct (ys !! c) as [y|]; simpl in H; [|discriminate].
      injection H as H. now exists y. }
    destruct Hey as (y & Hy & Hel). rewrite Hel.
    destruct (Forall2_lookup_r _ _ _ _ _ HF Hy) as (dc & Hdc & _ & _ & _ & tail & Hl & _).
    rewrite Hdc, Hl. apply lookup_app_l.
    destruct Ha as (_ & _ & _ & Hca). rewrite Forall_forall in Hca.
    destruct (Hca dc) as [_ Hcl]; [eapply list_elem_of_lookup_2; exact Hdc|].
    unfold len in Hcl. lia.
  - apply lookup_ge_None in Erc.
    assert (Hlr : length (columns r) = length ys).
    { apply (f_equal (@length _)) in Hr4. now rewrite !length_map in Hr4. }
    rewrite (proj2 (lookup_ge_None (columns df) c)) by lia. reflexivity.
Qed.

Lemma DataFrame_Copy_wf (df : DataFrame) :
  DataFrame_wf df -> NoDup (map Name (columns df)) -> EmptyString ∉ map Name (columns df) ->
  DataFrame_Copy df = Ok (mk_DataFrame (columns df) (len (columns df)) (nrows df) None).
Proof.
  intros Hdf Hnd Hne.
  pose proof (DataFrame_wf_columns_wf df Hdf) as Hw.
  destruct Hdf as (He & Hn & Hcne & Hcols).
  destruct (checked_frame_ok (columns df) (nrows df) Hcne Hcols) as (out & Ho & _ & Hck).
  rewrite (fixColnames_identity _ Hnd Hne) in Ho. injection Ho as <-.
  rewrite renamed_own_names in Hck.
  unfold DataFrame_Copy. rewrite (dataframe_New_checked _ Hcne Hw), Hck, He. reflexivity.
Qed.

Lemma map_rename_insert (l : list string) (p : nat) (a b : string) :
  NoDup l -> l !! p = Some a ->
  map (fun n => if String.eqb n a then b else n) l = <[p := b]> l.
Proof.
  intros Hnd Hp. apply list_eq. intros i.
  change (map ?f l) with (f <$> l). rewrite list_lookup_fmap.
  destruct (decide (i = p)) as [->|Hne].
  - rewrite list_lookup_insert_eq by (eapply lookup_lt_Some; exact Hp).
    rewrite Hp. simpl. now rewrite String.eqb_refl.
  - rewrite list_lookup_insert_ne by congruence.
    destruct (l !! i) as [x|] eqn:E; [|reflexivity]. simpl.
    destruct (String.eqb_spec x a) as [->|_]; [|reflexivity].
    exfalso. apply Hne. eapply NoDup_lookup; eauto.
Qed.

(** X23. [Rename] on a well-formed Table whose names are pairwise different
    and not empty.  When [oldname] is the name of a column, that column, and
    no other, gets the name [newname] exactly as given, the elements of all
    columns being kept; no fix-up follows, so that renaming to a name that
    another column bears leaves two columns of one name.  When [oldname] is
    not the name of a column the result carries the error of the missing
    column. *)
Theorem Rename_writes_the_name_as_given (df : DataFrame) (newname oldname : string) :
  DataFrame_wf df -> NoDup (map Name (columns df)) -> EmptyString ∉ map Name (columns df) ->
  (oldname ∈ map Name (columns df) ->
   exists r,
     DataFrame_Rename df newname oldname = Ok r /\ df_Err r = None /\
     nrows r = nrows df /\ ncols r = ncols df /\
     map Name (columns r)
       = map (fun n => if String.eqb n oldname then newname else n) (map Name (columns df)) /\
     map elements (columns r) = map elements (columns df)) /\
  (oldname ∉ map Name (columns df) ->
   DataFrame_Rename df newname oldname = Ok (DataFrame_err "rename: 无法找到列名")).
Proof.
  intros Hdf Hnd Hne. unfold DataFrame_Rename.
  rewrite (proj1 Hdf), (DataFrame_wf_Names df Hdf). cbn [mbind result_bind].
  split; intros Hin.
  - destruct (findInStringSlice_from_first oldname _ 0 Hin) as (p & Hp & Hl & _).
    unfold findInStringSlice. rewrite Hp.
    replace (0 + Z.of_nat p =? -1) with false by (symmetry; apply Z.eqb_neq; lia).
    rewrite (DataFrame_Copy_wf df Hdf Hnd Hne). cbn [mbind result_bind columns ncols nrows df_Err].
    pose proof Hl as Hl'.
    change (map Name (columns df)) with (Name <$> columns df) in Hl'.
    rewrite list_lookup_fmap in Hl'.
    destruct (columns df !! p) as [c|] eqn:Ec; simpl in Hl'; [|discriminate].
    injection Hl' as Hc.
    replace (0 + Z.of_nat p) with (Z.of_nat p) by lia.
    rewrite (index_lookup _ _ _ Ec). cbn [mbind result_bind].
    eexists. split; [reflexivity|]. cbn [columns ncols nrows df_Err].
    split; [reflexivity|]. split; [reflexivity|].
    split; [symmetry; apply Hdf|]. rewrite Nat2Z.id. split.
    + rewrite (map_rename_insert _ p oldname newname Hnd Hl).
      change (map Name ?l) with (Name <$> l). now rewrite list_fmap_insert.
    + change (map elements ?l) with (elements <$> l). rewrite list_fmap_insert.
      simpl. apply list_insert_id. rewrite list_lookup_fmap, Ec. reflexivity.
  - apply findInStringSlice_absent in Hin. rewrite Hin. reflexivity.
Qed.

(** X24. A Table that carries an error goes unchanged through [Subset],
    [Select], [Drop], [Rename], [CBind], [RBind], [Mutate], [Capply],
    [Filter], [FilterAggregation] and [Arrange], also as the argument of
    [CBind] and [RBind] on a Table without error; [Col] returns a Column
    carrying the same error. *)
Theorem Table_errors_are_sticky (df : DataFrame) (e : string) :
  df_Err df = Some e ->
  (forall i, DataFrame_Subset df i = Ok df) /\
  (forall i, DataFrame_Select df i = Ok df) /\
  (forall i, DataFrame_Drop df i = Ok df) /\
  (forall a b, DataFrame_Rename df a b = Ok df) /\
  (forall dfb, DataFrame_CBind df dfb = Ok df) /\
  (forall dfa, df_Err dfa = None -> DataFrame_CBind dfa df = Ok df) /\
  (forall dfb, DataFrame_RBind df dfb = Ok df) /\
  (forall dfa, df_Err dfa = None -> DataFrame_RBind dfa df = Ok df) /\
  (forall s, DataFrame_Mutate df s = Ok df) /\
  (forall f, DataFrame_Capply df f = Ok df) /\
  (forall filters, DataFrame_Filter df filters = Ok df) /\
  (forall agg filters, DataFrame_FilterAggregation df agg filters = Ok df) /\
  (forall order, DataFrame_Arrange df order = Ok df) /\
  (forall colname, exists s, DataFrame_Col df colname = Ok s /\ Err s = Some e).
Proof.
  intros H.
  unfold DataFrame_Subset, DataFrame_Select, DataFrame_Drop, DataFrame_Rename,
    DataFrame_CBind, DataFrame_RBind, DataFrame_Mutate, DataFrame_Capply,
    DataFrame_Filter, DataFrame_FilterAggregation, DataFrame_Arrange, DataFrame_Col.
  rewrite H.
  do 5 (split; [reflexivity|]). split; [intros dfa ->; reflexivity|].
  split; [reflexivity|]. split; [intros dfa ->; reflexivity|].
  do 5 (split; [reflexivity|]).
  intros colname. eexists. split; reflexivity.
Qed.

End FrameOpsExtras.

(** ** Tables: records and their transposition *)

Section RecordsExtras.
Context {ext : Extern}.

Lemma mapM_seqZ {B} (f : Z -> result B) (g : nat -> B) (m : nat) :
  (forall i, (i < m)%nat -> f (Z.of_nat i) = Ok (g i)) ->
  mapM f (seqZ 0 (Z.of_nat m)) = Ok (map g (seq 0 m)).
Proof.
  intros H.
  assert (Hgen : forall k n,
            (forall i, (k <= i < k + n)%nat -> f (Z.of_nat i) = Ok (g i)) ->
            mapM f (seqZ (Z.of_nat k) (Z.of_nat n)) = Ok (map g (seq k n))).
  { intros k n. revert k. induction n as [|n IH]; intros k Hk; [reflexivity|].
    rewrite Nat2Z.inj_succ, seqZ_cons by lia.
    replace (Z.pred (Z.succ (Z.of_nat n))) with (Z.of_nat n) by lia.
    replace (Z.succ (Z.of_nat k)) with (Z.of_nat (S k)) by lia.
    cbn [mapM seq map]. rewrite Hk by lia. cbn [mbind result_bind].
    rewrite IH by (intros i Hi; apply Hk; lia). reflexivity. }
  apply (Hgen 0%nat m). intros i Hi. apply H. lia.
Qed.

Lemma mapM_index_column (x : list (list string)) (i : nat) :
  Forall (fun row => (i < length row)%nat) x ->
  mapM (fun row => index row (Z.of_nat i)) x
    = Ok (map (fun row => default EmptyString (row !! i)) x).
Proof.
  induction 1 as [|row x Hrow _ IH]; [reflexivity|].
  cbn [mapM map]. destruct (lookup_lt_is_Some_2 row i Hrow) as [v Hv].
  rewrite (index_lookup row i v Hv), Hv. cbn [mbind result_bind]. rewrite IH. reflexivity.
Qed.

Lemma map_lookup_seq (l : list string) (m : nat) :
  length l = m -> map (fun i => default EmptyString (l !! i)) (seq 0 m) = l.
Proof.
  intros <-. apply list_eq. intros i.
  change (map ?f ?k) with (f <$> k). rewrite list_lookup_fmap.
  destruct (l !! i) as [v|] eqn:E.
  - rewrite (lookup_seq_lt 0 (length l) i) by (eapply lookup_lt_Some; exact E).
    simpl. now rewrite E.
  - rewrite lookup_seq_ge; [reflexivity|]. now apply lookup_ge_None.
Qed.

Lemma mapM_index_ok_or_panic (x : list (list string)) (k : nat) :
  (exists col, mapM (fun row => index row (Z.of_nat k)) x = Ok col /\
               Forall (fun row => (S k <= length row)%nat) x) \/
  mapM (fun row => index row (Z.of_nat k)) x = Panic "index out of range".
Proof.
  induction x as [|row x IH]; [left; exists []; split; [reflexivity | constructor]|].
  cbn [mapM]. destruct (row !! k) as [v|] eqn:Ev.
  - rewrite (index_lookup row k v Ev). cbn [mbind result_bind].
    destruct IH as [[col [Ec Hall]]|Ec]; rewrite Ec; [left | right; reflexivity].
    exists (v :: col). split; [reflexivity|]. constructor; [|exact Hall].
    apply lookup_lt_Some in Ev. lia.
  - right. unfold index. destruct (Z.of_nat k <? 0); [reflexivity|].
    rewrite Nat2Z.id, Ev. reflexivity.
Qed.

(** The transposition of a rectangle with [m] fields in every row. *)
Lemma transposeRecords_rectangle (x0 : list string) (x : list (list string)) (m : nat) :
  Forall (fun row => length row = m) (x0 :: x) ->
  transposeRecords (x0 :: x)
    = Ok (map (fun i => map (fun row => default EmptyString (row !! i)) (x0 :: x)) (seq 0 m)).
Proof.
  intros H. unfold transposeRecords, range.
  assert (Hm : len x0 - 0 = Z.of_nat m).
  { inversion H; subst. unfold len. lia. }
  rewrite Hm. apply mapM_seqZ. intros i Hi.
  apply mapM_index_column. eapply Forall_impl; [exact H|]. intros row Hr. simpl in Hr. lia.
Qed.

(** X25. [transposeRecords] on records that all have the same, positive
    number [m] of fields returns [m] records with one field per record
    given, the field [j] of its record [i] being the field [i] of the record
    [j] given; transposing the result gives the records back.  When a record
    has fewer fields than the first one the call panics with an index out of
    range. *)
Theorem transposeRecords_of_a_rectangle (x : list (list string)) :
  (forall m : nat,
     x <> [] -> (0 < m)%nat -> Forall (fun row => length row = m) x ->
     exists y,
       transposeRecords x = Ok y /\ length y = m /\
       Forall (fun col => length col = length x) y /\
       (forall i j row col, x !! j = Some row -> y !! i = Some col -> col !! j = row !! i) /\
       transposeRecords y = Ok x) /\
  (forall x0 rest,
     x = x0 :: rest -> Exists (fun row => (length row < length x0)%nat) rest ->
     transposeRecords x = Panic "index out of range").
Proof.
  split.
  - intros m Hne Hm H. destruct x as [|x0 x]; [contradiction|].
    rewrite (transposeRecords_rectangle x0 x m H).
    remember (x0 :: x) as X eqn:EX. clear EX x0 x.
    set (y := map (fun i => map (fun row => default EmptyString (row !! i)) X) (seq 0 m)).
    exists y.
    assert (Hly : length y = m) by (unfold y; now rewrite length_map, length_seq).
    assert (Hcols : Forall (fun col => length col = length X) y).
    { unfold y. apply Forall_forall. intros col Hc.
      apply list_elem_of_In, in_map_iff in Hc. destruct Hc as (i & <- & _).
      now rewrite length_map. }
    split; [reflexivity|]. split; [exact Hly|]. split; [exact Hcols|]. split.
    + intros i j row col Hj Hi. unfold y in Hi.
      change (map ?f ?k) with (f <$> k) in Hi. rewrite list_lookup_fmap in Hi.
      destruct (seq 0 m !! i) as [i'|] eqn:Ei; cbn [fmap option_fmap option_map] in Hi;
        [|discriminate].
      apply lookup_seq in Ei. destruct Ei as [-> Hilt]. rewrite Nat.add_0_l in Hi.
      injection Hi as <-. change (map ?f ?k) with (f <$> k).
      rewrite list_lookup_fmap, Hj. cbn [fmap option_fmap option_map].
      rewrite Forall_forall in H.
      assert (Hrow : length row = m) by (apply H; eapply list_elem_of_lookup_2; exact Hj).
      destruct (lookup_lt_is_Some_2 row i) as [v Hv]; [lia|]. now rewrite Hv.
    + destruct y as [|y0 y'] eqn:Ey; [simpl in Hly; lia|].
      rewrite (transposeRecords_rectangle y0 y' (length X)) by exact Hcols.
      f_equal. rewrite <- Ey. apply list_eq. intros j.
      change (map ?f ?k) with (f <$> k). rewrite list_lookup_fmap.
      destruct (X !! j) as [row|] eqn:Ej.
      * rewrite (lookup_seq_lt 0 (length X) j) by (eapply lookup_lt_Some; exact Ej).
        simpl. f_equal. unfold y. rewrite <- list_fmap_compose.
        rewrite Forall_forall in H.
        assert (Hrow : length row = m) by (apply H; eapply list_elem_of_lookup_2; exact Ej).
        etransitivity; [|exact (map_lookup_seq row m Hrow)].
        apply list_fmap_ext. intros _ i _. cbn [compose].
        change (map ?f ?k) with (f <$> k).
        rewrite list_lookup_fmap, Ej. reflexivity.
      * rewrite lookup_seq_ge; [reflexivity|]. now apply lookup_ge_None.
  - intros x0 rest -> Hex. unfold transposeRecords, range.
    assert (Hpos : (0 < length x0)%nat).
    { apply Exists_exists in Hex. destruct Hex as (row & _ & Hr). lia. }
    remember (x0 :: rest) as X eqn:EX.
    assert (Hgen : forall (n k : nat),
              Forall (fun row => (k <= length row)%nat) X ->
              Exists (fun row => (length row < k + n)%nat) X ->
              mapM (fun i => mapM (fun row => index row i) X)
                   (seqZ (Z.of_nat k) (Z.of_nat n))
              = Panic "index out of range").
    { induction n as [|n IH]; intros k Hall Hsome.
      - exfalso. apply Exists_exists in Hsome. destruct Hsome as (row & Hin & Hr).
        rewrite Forall_forall in Hall. specialize (Hall row Hin). simpl in Hall. lia.
      - rewrite Nat2Z.inj_succ, seqZ_cons by lia.
        replace (Z.pred (Z.succ (Z.of_nat n))) with (Z.of_nat n) by lia.
        replace (Z.succ (Z.of_nat k)) with (Z.of_nat (S k)) by lia.
        cbn [mapM].
        destruct (mapM_index_ok_or_panic X k) as [[col [Ec Hlen]]|Ec];
          rewrite Ec; cbn [mbind result_bind]; [|reflexivity].
        rewrite IH; [reflexivity | exact Hlen |].
        eapply Exists_impl; [exact Hsome|]. intros row Hr. simpl in Hr. lia. }
    unfold len. rewrite Z.sub_0_r. apply (Hgen (length x0) 0%nat).
    + apply Forall_forall. intros row _. lia.
    + subst X. right. exact Hex.
Qed.

Lemma mapM_Series_Records (cols : list Series) :
  Forall Series_wf cols -> mapM Series_Records cols = Ok (map col_texts cols).
Proof.
  induction 1 as [|c cols Hc _ IH]; [reflexivity|].
  cbn [mapM map]. rewrite IH. unfold Series_Records. rewrite (Series_wf_Len c Hc).
  reflexivity.
Qed.

(** X26. [Records] of a well-formed Table: the names of the columns, then one
    record per row with one field per column, the field being the text of the
    element; a Table without rows gives the names only. *)
Theorem Records_lists_the_rows (df : DataFrame) :
  DataFrame_wf df ->
  (0 < nrows df ->
   exists rows,
     DataFrame_Records df = Ok (map Name (columns df) :: rows) /\
     len rows = nrows df /\
     Forall (fun row => len row = ncols df) rows /\
     forall r c e, cell df r c = Some e ->
       exists row, rows !! r = Some row /\ row !! c = Some (Element_String e)) /\
  (nrows df = 0 -> DataFrame_Records df = Ok [map Name (columns df)]).
Proof.
  intros Hdf. pose proof Hdf as (He & Hn & Hne & Hcols).
  assert (Hwf : Forall Series_wf (columns df))
    by (eapply Forall_impl; [exact Hcols|]; intros c Hc; apply Hc).
  split.
  - intros Hpos.
    assert (Hrect : Forall (fun col => length col = Z.to_nat (nrows df))
                           (map col_texts (columns df))).
    { apply Forall_forall. intros col Hc. apply list_elem_of_In, in_map_iff in Hc.
      destruct Hc as (c & <- & Hc). apply list_elem_of_In in Hc.
      rewrite Forall_forall in Hcols. destruct (Hcols c Hc) as [_ Hl].
      unfold col_texts. rewrite length_map. unfold len in Hl. lia. }
    destruct (columns df) as [|c0 cols] eqn:Ecols; [contradiction|].
    rewrite <- Ecols in *.
    assert (Htr : exists x0 x, map col_texts (columns df) = x0 :: x).
    { rewrite Ecols. cbn [map]. eauto. }
    destruct Htr as (x0 & x & Htr).
    pose proof (transposeRecords_rectangle x0 x (Z.to_nat (nrows df))) as HT.
    rewrite <- Htr in HT. specialize (HT Hrect).
    eexists. split.
    { unfold DataFrame_Records. rewrite (DataFrame_wf_Names df Hdf).
      cbn [mbind result_bind].
      replace ((ncols df =? 0) || (nrows df =? 0)) with false.
      2:{ symmetry. apply orb_false_iff. split; apply Z.eqb_neq; [|lia].
          rewrite Hn, Ecols. unfold len. simpl. lia. }
      rewrite (mapM_Series_Records _ Hwf). cbn [mbind result_bind].
      rewrite HT. reflexivity. }
    split; [unfold len; rewrite length_map, length_seq; lia|].
    split.
    { apply Forall_forall. intros row Hrow. apply list_elem_of_In, in_map_iff in Hrow.
      destruct Hrow as (i & <- & _). unfold len. now rewrite !length_map, Hn. }
    intros r c e Hcell. unfold cell in Hcell.
    destruct (columns df !! c) as [col|] eqn:Ec; [|discriminate].
    assert (Hr : (r < Z.to_nat (nrows df))%nat).
    { apply lookup_lt_Some in Hcell. rewrite Forall_forall in Hcols.
      destruct (Hcols col) as [_ Hl]; [eapply list_elem_of_lookup_2; exact Ec|].
      unfold len in Hl. lia. }
    eexists. split.
    { change (map ?f ?k) with (f <$> k). rewrite list_lookup_fmap.
      rewrite (lookup_seq_lt 0 _ r Hr). reflexivity. }
    cbn [Nat.add]. change (map ?f ?k) with (f <$> k).
    rewrite !list_lookup_fmap, Ec. cbn [fmap option_fmap option_map].
    unfold col_texts. change (map ?f ?k) with (f <$> k).
    rewrite list_lookup_fmap, Hcell. reflexivity.
  - intros H0. unfold DataFrame_Records. rewrite (DataFrame_wf_Names df Hdf).
    cbn [mbind result_bind]. rewrite H0. now rewrite orb_true_r.
Qed.

End RecordsExtras.

(** ** Tables: detecting the types and loading records *)

Section LoadExtras.
Context {ext : Extern}.

(** The type that [findType] detects depends only on which kinds of
    text occur in the column, not on their order or number: String when some
    text is neither blank, a number nor true or false; otherwise Bool when
    true or false occurs; otherwise Float when a number that is not whole
    occurs; otherwise Int when a whole number occurs; and String with an
    error when every text is empty or NaN. *)
Theorem findType_goes_by_precedence (arr : list string) :
  findType arr =
    if has_kind other_text arr then (series.String, None)
    else if has_kind bool_text arr then (series.Bool, None)
    else if has_kind float_text arr then (series.Float, None)
    else if has_kind int_text arr then (series.Int, None)
    else (series.String, fmt_Errorf "无法检测到类型").
Proof.
  unfold findType.
  match goal with
  | |- context [fold_left ?f arr _] => set (step := f)
  end.
  assert (Hfold : forall l hf hi hb hs,
            fold_left step l (hf, hi, hb, hs)
            = (hf || has_kind float_text l, hi || has_kind int_text l,
               hb || has_kind bool_text l, hs || has_kind other_text l)).
  { induction l as [|str l IH]; intros hf hi hb hs.
    - simpl. now rewrite !orb_false_r.
    - cbn [fold_left]. unfold has_kind. cbn [existsb]. fold (has_kind float_text l).
      fold (has_kind int_text l). fold (has_kind bool_text l). fold (has_kind other_text l).
      unfold step at 2. unfold kind_of.
      destruct (String.eqb str EmptyString || String.eqb str "NaN").
      + rewrite IH. reflexivity.
      + destruct (strconv_Atoi str) as [? [?|]].
        * destruct (strconv_ParseFloat str) as [? [?|]].
          -- destruct (String.eqb str "true" || String.eqb str "false");
               rewrite IH; cbn [text_kind_eqb orb]; now rewrite ?orb_true_r, ?orb_false_r.
          -- rewrite IH; cbn [text_kind_eqb orb]; now rewrite ?orb_true_r, ?orb_false_r.
        * rewrite IH; cbn [text_kind_eqb orb]; now rewrite ?orb_true_r, ?orb_false_r. }
  rewrite Hfold. cbn [orb]. reflexivity.
Qed.

(** The tail of the constructors returns a well-formed Table. *)
Lemma checked_frame_wf (cols : list Series) (n : Z) :
  cols <> [] ->
  Forall (fun c => Series_wf c /\ len (Elements_list (elements c)) = n) cols ->
  exists df,
    checked_frame cols = Ok df /\ DataFrame_wf df /\
    nrows df = n /\ ncols df = len cols /\
    map elements (columns df) = map elements cols /\
    map t (columns df) = map t cols /\
    fixed_names (map Name cols) (map Name (columns df)).
Proof.
  intros Hne H.
  destruct (checked_frame_ok cols n Hne H) as (out & Ho & Hfix & Hc).
  assert (Hlen : length out = length cols).
  { destruct Hfix as (Hlen & _). rewrite Hlen. now rewrite length_map. }
  destruct (renamed_wf cols out n Hlen H) as (H1 & H2 & H3 & H4 & H5).
  eexists. split; [exact Hc|].
  cbn [columns ncols nrows df_Err]. rewrite H2, H3, H4.
  split.
  { unfold DataFrame_wf. cbn [columns ncols nrows df_Err].
    split; [reflexivity|]. split; [unfold len; now rewrite H5|].
    split; [|exact H1].
    intros E. apply Hne. apply (f_equal (@length _)) in E. rewrite H5 in E.
    now destruct cols. }
  do 4 (split; [reflexivity|]). exact Hfix.
Qed.

Lemma read_text_code (x : string) :
  (if findInStringSlice x (nanValues default_loadOptions) =? -1 then x else "NaN")
  = read_text x.
Proof.
  unfold read_text. destruct (findInStringSlice x (nanValues default_loadOptions) =? -1) eqn:E.
  - apply Z.eqb_eq, findInStringSlice_absent in E. now rewrite bool_decide_eq_false_2.
  - apply Z.eqb_neq in E. rewrite bool_decide_eq_true_2; [reflexivity|].
    destruct (decide (x ∈ nanValues default_loadOptions)) as [Hin|Hout]; [exact Hin|].
    exfalso. apply E. now apply findInStringSlice_absent.
Qed.

(** The raw column [i] of records that all have a field [i]. *)
Lemma LoadRecords_rawcol (rows : list (list string)) (i : nat) :
  Forall (fun row => (i < length row)%nat) rows ->
  mapM (fun rec => x ← index rec (Z.of_nat i);
                   Ok (if findInStringSlice x (nanValues default_loadOptions) =? -1
                       then x else "NaN")) rows
  = Ok (read_column rows i).
Proof.
  induction 1 as [|row rows Hrow _ IH]; [reflexivity|].
  cbn [mapM]. destruct (lookup_lt_is_Some_2 row i Hrow) as [v Hv].
  rewrite (index_lookup row i v Hv). cbn [mbind result_bind]. rewrite IH.
  cbn [mbind result_bind]. unfold read_column. cbn [map]. rewrite Hv, read_text_code.
  reflexivity.
Qed.

(** Some record has no field [i]: reading the raw column panics. *)
Lemma LoadRecords_rawcol_short (rows : list (list string)) (i : nat) :
  Exists (fun row => (length row <= i)%nat) rows ->
  mapM (fun rec => x ← index rec (Z.of_nat i);
                   Ok (if findInStringSlice x (nanValues default_loadOptions) =? -1
                       then x else "NaN")) rows
  = Panic "index out of range".
Proof.
  induction 1 as [row rows Hrow | row rows _ IH].
  - cbn [mapM]. unfold index. destruct (Z.of_nat i <? 0); [reflexivity|].
    rewrite Nat2Z.id. rewrite (proj2 (lookup_ge_None row i)) by lia. reflexivity.
  - cbn [mapM]. destruct (index row (Z.of_nat i)) as [v|msg] eqn:E.
    + cbn [mbind result_bind]. rewrite IH. reflexivity.
    + cbn [mbind result_bind]. f_equal. unfold index in E.
      destruct (Z.of_nat i <? 0); [now injection E|].
      destruct (row !! Z.to_nat (Z.of_nat i)); [discriminate | now injection E].
Qed.

Lemma findType_known (arr : list string) : fst (findType arr) <> series.unknown.
Proof.
  unfold findType.
  destruct (fold_left _ arr _) as [[[hf hi] hb] hs].
  destruct hs, hb, hf, hi; discriminate.
Qed.

Lemma findType_default (arr : list string) :
  match findType arr with (l, None) => l | _ => series.String end = fst (findType arr).
Proof.
  unfold findType.
  destruct (fold_left _ arr _) as [[[hf hi] hb] hs].
  destruct hs, hb, hf, hi; reflexivity.
Qed.

(** A column made of texts. *)
Lemma series_New_of_texts (texts : list string) (ty : series.Type_) (name : string) :
  ty <> series.unknown ->
  exists s,
    series_New (v_strings texts) ty name = Ok s /\ Series_wf s /\
    Name s = name /\ t s = ty /\
    length (Elements_list (elements s)) = length texts /\
    forall r x, texts !! r = Some x ->
      exists e, Elements_list (elements s) !! r = Some e /\
        (x = "NaN" -> Element_IsNA e = true) /\
        (x <> "NaN" -> Element_Type e = series.String ->
         Element_IsNA e = false /\ Element_String e = x).
Proof.
  intros Hty. unfold series_New, New_elements.
  destruct ty; try contradiction; cbn [mbind result_bind]; eexists;
    (split; [reflexivity|]);
    (split; [split; [reflexivity | exact I]|]);
    (split; [reflexivity|]); (split; [reflexivity|]);
    cbn [elements Elements_list]; rewrite ?length_map;
    (split; [reflexivity|]); intros r x Hx;
    change (map ?f ?k) with (f <$> k); rewrite !list_lookup_fmap, Hx;
    cbn [fmap option_fmap option_map]; eexists; (split; [reflexivity|]).
  - split.
    + intros ->. reflexivity.
    + intros Hn _. cbn [Element_IsNA Element_String stringElement_Set].
      unfold stringElement_String, stringElement_IsNA. cbn [string_nan string_e].
      apply String.eqb_neq in Hn. rewrite Hn. split; reflexivity.
  - split; [intros ->; reflexivity | intros _ H; discriminate H].
  - split; [intros ->; reflexivity | intros _ H; discriminate H].
  - split; [intros ->; reflexivity | intros _ H; discriminate H].
Qed.

(** X27. [LoadRecords] with the default options on a header with at least
    one name and at least one record.  When every record has at least as
    many fields as the header, the Table returned is well formed, has one
    row per record and one column per name of the header (further fields of
    a record are ignored), the names being those of the header after the
    fix-up; the type of a column is the one [findType] returns for its texts
    as they are read (NA, NaN and <nil> read as NaN), which is String when it
    detects none; a field that reads NA, NaN or <nil> gives a missing
    element, and any other field of a String column gives its text.  When some record has
    fewer fields than the header the call panics with an index out of
    range. *)
Theorem LoadRecords_reads_a_header_and_rows (header : list string) (rows : list (list string)) :
  header <> [] -> rows <> [] ->
  (Forall (fun row => (length header <= length row)%nat) rows ->
   exists df,
     LoadRecords (header :: rows) [] = Ok df /\ DataFrame_wf df /\
     nrows df = len rows /\ ncols df = len header /\
     fixed_names header (map Name (columns df)) /\
     (forall c col, columns df !! c = Some col ->
        t col = fst (findType (read_column rows c))) /\
     (forall r c row text,
        rows !! r = Some row -> row !! c = Some text -> (c < length header)%nat ->
        exists e, cell df r c = Some e /\
          (text ∈ nanValues default_loadOptions -> Element_IsNA e = true) /\
          (text ∉ nanValues default_loadOptions -> Element_Type e = series.String ->
           Element_IsNA e = false /\ Element_String e = text))) /\
  (Exists (fun row => (length row < length header)%nat) rows ->
   LoadRecords (header :: rows) [] = Panic "index out of range").
Proof.
  intros Hh Hr.
  assert (Hlen1 : (len (header :: rows) <=? 1) = false).
  { apply Z.leb_gt. unfold len. destruct rows; [contradiction|]. simpl. lia. }
  set (col_of := fun '((i, colname) : Z * string) =>
         rawcol ← mapM (fun rec => x ← index rec i;
                          Ok (if findInStringSlice x (nanValues default_loadOptions) =? -1
                              then x else "NaN")) rows;
         series_New (v_strings rawcol)
           (match findType rawcol with (l, None) => l | _ => series.String end) colname).
  assert (Hshape : LoadRecords (header :: rows) []
                   = (columns ← mapM col_of (zip (seqZ 0 (len header)) header);
                      checked_frame columns)).
  { unfold LoadRecords. cbn [fold_left]. cbn [hasHeader default_loadOptions andb].
    rewrite Hlen1. cbn [names detectTypes defaultType types].
    unfold col_of, checked_frame.
    f_equal. }
  rewrite Hshape. clear Hshape.
  assert (Hco_short : forall (i : nat) nm,
            Exists (fun row : list string => (length row <= i)%nat) rows ->
            col_of (Z.of_nat i, nm) = Panic "index out of range").
  { intros i nm Hshort. unfold col_of.
    rewrite (LoadRecords_rawcol_short rows i Hshort). reflexivity. }
  assert (Hco_ok : forall (i : nat) nm,
            Forall (fun row : list string => (i < length row)%nat) rows ->
            col_of (Z.of_nat i, nm)
            = series_New (v_strings (read_column rows i))
                (fst (findType (read_column rows i))) nm).
  { intros i nm Hlong. unfold col_of. rewrite (LoadRecords_rawcol rows i Hlong).
    cbn [mbind result_bind]. now rewrite findType_default. }
  split.
  - intros Hall.
    set (R := fun (p : Z * string) (col : Series) =>
           Series_wf col /\ Name col = snd p /\
           len (Elements_list (elements col)) = len rows /\
           t col = fst (findType (read_column rows (Z.to_nat (fst p)))) /\
           forall r x, read_column rows (Z.to_nat (fst p)) !! r = Some x ->
             exists e, Elements_list (elements col) !! r = Some e /\
               (x = "NaN" -> Element_IsNA e = true) /\
               (x <> "NaN" -> Element_Type e = series.String ->
                Element_IsNA e = false /\ Element_String e = x)).
    assert (Hz : forall c p, zip (seqZ 0 (len header)) header !! c = Some p ->
                   fst p = Z.of_nat c /\ header !! c = Some (snd p)).
    { intros c [i nm] Hp. apply lookup_zip_with_Some in Hp.
      destruct Hp as (i' & nm' & Hp & Hi & Hn). injection Hp as <- <-.
      apply lookup_seqZ in Hi. simpl. split; [lia | exact Hn]. }
    destruct (mapM_Forall2 col_of R (zip (seqZ 0 (len header)) header)) as (cols & Hm & HF).
    { apply Forall_lookup_2. intros c [i nm] Hp.
      destruct (Hz c _ Hp) as [Hi Hn]. simpl in Hi, Hn. subst i.
      assert (Hc : (c < length header)%nat) by (eapply lookup_lt_Some; exact Hn).
      rewrite Hco_ok
        by (eapply Forall_impl; [exact Hall|]; intros row Hrow; simpl in Hrow; lia).
      destruct (series_New_of_texts (read_column rows c) (fst (findType (read_column rows c))) nm
                  (findType_known _)) as (s & Hs & Hwf & Hnm & Hty & Hl & Hcells).
      exists s. split; [exact Hs|]. unfold R. cbn [fst snd]. rewrite Nat2Z.id.
      split; [exact Hwf|]. split; [exact Hnm|].
      split; [unfold len; rewrite Hl; unfold read_column; now rewrite length_map|].
      split; [exact Hty | exact Hcells]. }
    rewrite Hm. cbn [mbind result_bind].
    assert (Hlz : length (zip (seqZ 0 (len header)) header) = length header).
    { rewrite length_zip_with, length_seqZ. unfold len. lia. }
    assert (Hlc : length cols = length header).
    { rewrite <- Hlz. symmetry. eapply Forall2_length; exact HF. }
    assert (Hne : cols <> []).
    { intros ->. simpl in Hlc. destruct header; [contradiction | discriminate]. }
    assert (Hcols : Forall (fun c => Series_wf c /\ len (Elements_list (elements c)) = len rows)
                           cols).
    { apply Forall_lookup_2. intros c col Hc.
      destruct (Forall2_lookup_r _ _ _ _ _ HF Hc) as (p & Hp & HR).
      destruct HR as (H1 & _ & H3 & _). split; assumption. }
    assert (Hnames : map Name cols = header).
    { apply list_eq. intros c. change (map ?f ?k) with (f <$> k). rewrite list_lookup_fmap.
      destruct (cols !! c) as [col|] eqn:Hc.
      - destruct (Forall2_lookup_r _ _ _ _ _ HF Hc) as (p & Hp & HR).
        destruct (Hz c p Hp) as [_ Hn]. destruct HR as (_ & H2 & _).
        simpl. rewrite H2. now rewrite Hn.
      - simpl. symmetry. apply lookup_ge_None. apply lookup_ge_None in Hc. lia. }
    destruct (checked_frame_wf cols (len rows) Hne Hcols)
      as (df & Hdf & Hwf & Hnr & Hnc & Hel & Hty & Hfix).
    exists df. split; [exact Hdf|]. split; [exact Hwf|]. split; [exact Hnr|].
    split; [rewrite Hnc; unfold len; now rewrite Hlc|].
    split; [now rewrite <- Hnames|].
    split.
    + intros c col Hc.
      assert (Ht : map t (columns df) !! c = Some (t col)).
      { change (map ?f ?k) with (f <$> k). now rewrite list_lookup_fmap, Hc. }
      rewrite Hty in Ht. change (map ?f ?k) with (f <$> k) in Ht.
      rewrite list_lookup_fmap in Ht.
      destruct (cols !! c) as [col'|] eqn:Hc'; [|discriminate]. simpl in Ht.
      injection Ht as Ht. rewrite <- Ht.
      destruct (Forall2_lookup_r _ _ _ _ _ HF Hc') as (p & Hp & HR).
      destruct (Hz c p Hp) as [Hi _]. destruct HR as (_ & _ & _ & H4 & _).
      rewrite H4, Hi, Nat2Z.id. reflexivity.
    + intros r c row text Hrow Htext Hc.
      destruct (lookup_lt_is_Some_2 cols c) as [col' Hc']; [lia|].
      destruct (Forall2_lookup_r _ _ _ _ _ HF Hc') as (p & Hp & HR).
      destruct (Hz c p Hp) as [Hi _]. destruct HR as (_ & _ & _ & _ & H5).
      rewrite Hi, Nat2Z.id in H5.
      assert (Hx : read_column rows c !! r = Some (read_text text)).
      { unfold read_column. change (map ?f ?k) with (f <$> k).
        rewrite list_lookup_fmap, Hrow. simpl. now rewrite Htext. }
      destruct (H5 r _ Hx) as (e & He & Hna & Hstr).
      assert (Hcell : cell df r c = Some e).
      { unfold cell.
        assert (Hel' : map elements (columns df) !! c = Some (elements col')).
        { rewrite Hel. change (map ?f ?k) with (f <$> k). now rewrite list_lookup_fmap, Hc'. }
        change (map ?f ?k) with (f <$> k) in Hel'. rewrite list_lookup_fmap in Hel'.
        destruct (columns df !! c) as [col|]; [|discriminate]. simpl in Hel'.
        injection Hel' as ->. exact He. }
      exists e. split; [exact Hcell|]. unfold read_text in Hna, Hstr. split.
      * intros Hin. apply Hna. now rewrite bool_decide_eq_true_2.
      * intros Hout Hs. rewrite bool_decide_eq_false_2 in Hstr by exact Hout.
        apply Hstr; [|exact Hs]. intros ->. apply Hout.
        cbn [nanValues default_loadOptions]. right. left.
  - intros Hex.
    (* the first field that some record lacks *)
    assert (Hgen : forall (hs : list string) (k : nat),
              Forall (fun row => (k <= length row)%nat) rows ->
              Exists (fun row => (length row < k + length hs)%nat) rows ->
              mapM col_of (zip (seqZ (Z.of_nat k) (len hs)) hs) = Panic "index out of range").
    { induction hs as [|h hs IH]; intros k Hall Hsome.
      - exfalso. apply Exists_exists in Hsome. destruct Hsome as (row & Hin & Hrow).
        rewrite Forall_forall in Hall. specialize (Hall row Hin). simpl in Hall, Hrow. lia.
      - unfold len. cbn [length]. rewrite Nat2Z.inj_succ, seqZ_cons by lia.
        replace (Z.pred (Z.succ (Z.of_nat (length hs)))) with (len hs) by (unfold len; lia).
        replace (Z.succ (Z.of_nat k)) with (Z.of_nat (S k)) by lia.
        cbn [zip zip_with mapM].
        destruct (decide (Exists (fun row : list string => (length row <= k)%nat) rows))
          as [Hshort|Hlong].
        + rewrite (Hco_short k h Hshort). reflexivity.
        + apply not_Exists_Forall in Hlong; [|apply _].
          rewrite Hco_ok
            by (eapply Forall_impl; [exact Hlong|]; intros row Hrow; simpl in Hrow; lia).
          destruct (series_New_of_texts (read_column rows k)
                      (fst (findType (read_column rows k))) h (findType_known _))
            as (s & Hs & _).
          rewrite Hs. cbn [mbind result_bind].
          rewrite IH; [reflexivity | |].
          * eapply Forall_impl; [exact Hlong|]. intros row Hrow. simpl in Hrow. lia.
          * eapply Exists_impl; [exact Hsome|]. intros row Hrow. simpl in Hrow. simpl. lia. }
    change (seqZ 0) with (seqZ (Z.of_nat 0)).
    rewrite (Hgen header 0%nat); [reflexivity | |].
    + apply Forall_forall. intros row _. lia.
    + exact Hex.
Qed.

End LoadExtras.

(** ** Tables: the cross join *)

Section CrossJoinExtras.
Context {ext : Extern}.

(** A loop over all the indexes of a slice visits its elements in order. *)
Lemma mapM_index_all {A B} (f : A -> result B) (l : list A) :
  mapM (fun k => x ← index l k; f x) (seqZ 0 (len l)) = mapM f l.
Proof.
  assert (Hgen : forall (pre l : list A),
            mapM (fun k => x ← index (pre ++ l) k; f x) (seqZ (len pre) (len l)) = mapM f l).
  { intros pre l0. revert pre. induction l0 as [|a l0 IH]; intros pre; [reflexivity|].
    change (len (a :: l0)) with (Z.of_nat (S (length l0))).
    change (len pre) with (Z.of_nat (length pre)).
    rewrite Nat2Z.inj_succ, seqZ_cons by lia.
    replace (Z.pred (Z.succ (Z.of_nat (length l0)))) with (len l0) by (unfold len; lia).
    cbn [mapM].
    rewrite (index_lookup (pre ++ a :: l0) (length pre) a) by apply list_lookup_middle, eq_refl.
    cbn [mbind result_bind].
    replace (Z.succ (Z.of_nat (length pre))) with (len (pre ++ [a]))
      by (unfold len; rewrite length_app; simpl; lia).
    specialize (IH (pre ++ [a])). rewrite <- app_assoc in IH. cbn [app] in IH.
    rewrite IH. reflexivity. }
  apply (Hgen [] l).
Qed.

Lemma seqZ_of_nat (n : nat) : seqZ 0 (Z.of_nat n) = map Z.of_nat (seq 0 n).
Proof.
  unfold seqZ. rewrite Nat2Z.id. apply list_fmap_ext. intros _ i _. lia.
Qed.

(** The row [i] of well-formed columns of [n] elements. *)
Lemma row_elems_all (cols : list Series) (n : Z) (i : nat) :
  Forall (fun c => Series_wf c /\ len (Elements_list (elements c)) = n) cols ->
  Z.of_nat i < n ->
  exists es,
    row_elems cols (range 0 (len cols)) (Z.of_nat i) = Ok (map v_Element es) /\
    Forall2 (fun c e => Elements_list (elements c) !! i = Some e /\ Element_Type e = t c)
            cols es.
Proof.
  intros H Hi. unfold row_elems, range. rewrite Z.sub_0_r, mapM_index_all.
  induction H as [|c cols [Hwf Hlen] _ IH].
  - exists []. split; [reflexivity | constructor].
  - destruct IH as (es & Hes & HF).
    destruct (lookup_lt_is_Some_2 (Elements_list (elements c)) i) as [e He];
      [unfold len in Hlen; lia|].
    exists (e :: es). cbn [mapM map]. rewrite Hes. unfold Series_Elem.
    rewrite (Elements_Elem_lookup (elements c) (Z.of_nat i) e)
      by (try lia; now rewrite Nat2Z.id).
    cbn [mbind result_bind].
    split; [reflexivity|]. constructor; [|exact HF]. split; [exact He|].
    pose proof (Elements_list_present c Hwf) as Hty. rewrite Forall_forall in Hty.
    apply Hty. eapply list_elem_of_lookup_2. exact He.
Qed.

(** The empty columns that a join starts from. *)
Lemma empty_columns_all (cols : list Series) (left : bool) :
  Forall Series_wf cols ->
  exists es,
    empty_columns cols (range 0 (len cols)) = Ok es /\
    cross_columns (map (fun c => (c, left)) cols) [] es.
Proof.
  intros H. unfold empty_columns, range. rewrite Z.sub_0_r, mapM_index_all.
  induction H as [|c cols Hwf _ IH].
  - exists []. split; [reflexivity | constructor].
  - destruct IH as (es & Hes & HF). cbn [mapM map]. rewrite Hes.
    destruct Hwf as [He Hw]. unfold Series_Empty, series_New.
    destruct c as [name els ty err]. cbn [t Name] in *.
    destruct ty, els; try contradiction; cbn [New_elements map mbind result_bind];
      eexists; (split; [reflexivity|]); (constructor; [|exact HF]);
      (split; [split; [reflexivity | exact I]|]); repeat split.
Qed.

(** Appending an element of the type of the column. *)
Lemma Series_Append_element (c : Series) (e : Element) :
  Series_wf c -> Element_Type e = t c ->
  exists c',
    Series_Append c (v_Element e) = Ok c' /\ Series_wf c' /\
    t c' = t c /\ Name c' = Name c /\
    col_texts c' = col_texts c ++ [Element_String e].
Proof.
  intros [He Hw] Ht. destruct c as [name els ty err]. cbn [t Name Err elements] in *.
  subst err ty. unfold Series_Append, series_New, col_texts.
  cbn [Err t Name elements].
  destruct e as [x|x|x|x], els; try contradiction;
    cbn [Element_Type New_elements map mbind result_bind elements set_elements];
    eexists; (split; [reflexivity|]); (split; [split; [reflexivity | exact I]|]);
    (split; [reflexivity|]); (split; [reflexivity|]);
    cbn [elements Elements_list set_elements]; rewrite !map_app;
    cbn [map Element_String]; do 2 f_equal; apply Set_zero_same_kind.
Qed.

(** Appending the row of a pair to the columns of a cross join. *)
Lemma append_row_pair (srcs : list (Series * bool)) (ps : list (nat * nat))
    (cols : list Series) (es : list Element) (p : nat * nat) :
  cross_columns srcs ps cols ->
  Forall2 (fun src e => Element_Type e = t (fst src) /\ Element_String e = pair_text src p)
          srcs es ->
  exists cols',
    append_row cols (map v_Element es) = Ok cols' /\ cross_columns srcs (ps ++ [p]) cols'.
Proof.
  intros H. revert es. induction H as [|src c srcs cols (Hwf & Ht & Hn & Htx) _ IH];
    intros es Hes; inversion Hes as [|? e ? es' [He1 He2] Hes']; subst.
  - exists []. split; [reflexivity | constructor].
  - destruct (IH es' Hes') as (cols' & Hc & Hinv).
    destruct (Series_Append_element c e Hwf) as (c' & Ha & Hwf' & Ht' & Hn' & Htx');
      [congruence|].
    exists (c' :: cols'). cbn [map append_row]. rewrite Ha. cbn [mbind result_bind].
    rewrite Hc. cbn [mbind result_bind]. split; [reflexivity|].
    constructor; [|exact Hinv].
    split; [exact Hwf'|]. split; [congruence|]. split; [congruence|].
    rewrite Htx', Htx, map_app, He2. reflexivity.
Qed.

Lemma DataFrame_wf_nrows (df : DataFrame) : DataFrame_wf df -> 0 <= nrows df.
Proof.
  intros (_ & _ & Hne & Hc). destruct (columns df) as [|c cols]; [contradiction|].
  inversion Hc as [|? ? [_ Hl] _]; subst. rewrite <- Hl. unfold len. lia.
Qed.

Lemma row_elems_source (df : DataFrame) (left : bool) (i j : nat) :
  DataFrame_wf df -> Z.of_nat (if left then i else j) < nrows df ->
  exists es,
    row_elems (columns df) (range 0 (ncols df)) (Z.of_nat (if left then i else j))
      = Ok (map v_Element es) /\
    Forall2 (fun src e => Element_Type e = t (fst src) /\
                          Element_String e = pair_text src (i, j))
            (map (fun c => (c, left)) (columns df)) es.
Proof.
  intros (_ & Hn & _ & Hc) Hi. rewrite Hn.
  destruct (row_elems_all (columns df) (nrows df) _ Hc Hi) as (es & Hes & HF).
  exists es. split; [exact Hes|]. apply Forall2_fmap_l.
  eapply Forall2_impl; [exact HF|]. intros c e [He Ht]. cbn [compose fst].
  split; [exact Ht|]. unfold pair_text. cbn [fst snd]. now rewrite He.
Qed.

(** The inner loop: the left row [i] with the right rows [js]. *)
Lemma CrossJoin_inner (df b : DataFrame) (i : nat) (js : list nat) :
  DataFrame_wf df -> DataFrame_wf b -> Z.of_nat i < nrows df ->
  Forall (fun j => Z.of_nat j < nrows b) js ->
  forall ps cols,
    cross_columns (cross_sources df b) ps cols ->
    exists cols',
      foldM (fun newCols j =>
               ra ← row_elems (columns df) (range 0 (ncols df)) (Z.of_nat i);
               rb ← row_elems (columns b) (range 0 (ncols b)) j;
               append_row newCols (ra ++ rb))
            (map Z.of_nat js) cols = Ok cols' /\
      cross_columns (cross_sources df b) (ps ++ map (pair i) js) cols'.
Proof.
  intros Hdf Hb Hi Hjs.
  set (body := fun (newCols : list Series) (j : Z) =>
         ra ← row_elems (columns df) (range 0 (ncols df)) (Z.of_nat i);
         rb ← row_elems (columns b) (range 0 (ncols b)) j;
         append_row newCols (ra ++ rb)).
  induction Hjs as [|j js Hj _ IH]; intros ps cols Hinv.
  - exists cols. split; [reflexivity|]. cbn [map]. now rewrite app_nil_r.
  - destruct (row_elems_source df true i j Hdf Hi) as (esa & Ha & HFa).
    destruct (row_elems_source b false i j Hb Hj) as (esb & Hrb & HFb).
    destruct (append_row_pair (cross_sources df b) ps cols (esa ++ esb) (i, j) Hinv)
      as (cols1 & H1 & Hinv1); [apply Forall2_app; assumption|].
    destruct (IH (ps ++ [(i, j)]) cols1 Hinv1) as (cols' & H' & Hinv').
    assert (Hstep : body cols (Z.of_nat j) = Ok cols1).
    { unfold body. rewrite Ha. cbn [mbind result_bind]. rewrite Hrb.
      cbn [mbind result_bind]. rewrite <- map_app. exact H1. }
    exists cols'. cbn [map foldM]. rewrite Hstep. cbn [mbind result_bind].
    split; [exact H'|].
    rewrite <- app_assoc in Hinv'. exact Hinv'.
Qed.

(** The outer loop: the left rows [is_] with every right row. *)
Lemma CrossJoin_outer (df b : DataFrame) (is_ : list nat) :
  DataFrame_wf df -> DataFrame_wf b ->
  Forall (fun i => Z.of_nat i < nrows df) is_ ->
  forall ps cols,
    cross_columns (cross_sources df b) ps cols ->
    exists cols',
      foldM (fun newCols i =>
               foldM (fun newCols j =>
                        ra ← row_elems (columns df) (range 0 (ncols df)) i;
                        rb ← row_elems (columns b) (range 0 (ncols b)) j;
                        append_row newCols (ra ++ rb))
                     (range 0 (nrows b)) newCols)
            (map Z.of_nat is_) cols = Ok cols' /\
      cross_columns (cross_sources df b)
        (ps ++ flat_map (fun i => map (pair i) (seq 0 (Z.to_nat (nrows b)))) is_) cols'.
Proof.
  intros Hdf Hb His.
  assert (Hrange : range 0 (nrows b) = map Z.of_nat (seq 0 (Z.to_nat (nrows b)))).
  { unfold range. rewrite Z.sub_0_r, <- seqZ_of_nat.
    rewrite Z2Nat.id by now apply DataFrame_wf_nrows. reflexivity. }
  rewrite Hrange.
  assert (Hjs : Forall (fun j => Z.of_nat j < nrows b) (seq 0 (Z.to_nat (nrows b)))).
  { apply Forall_forall. intros j Hj. apply list_elem_of_In, in_seq in Hj. lia. }
  induction His as [|i is_ Hi _ IH]; intros ps cols Hinv.
  - exists cols. split; [reflexivity|]. cbn [flat_map]. now rewrite app_nil_r.
  - destruct (CrossJoin_inner df b i _ Hdf Hb Hi Hjs ps cols Hinv) as (cols1 & H1 & Hinv1).
    destruct (IH _ cols1 Hinv1) as (cols' & H' & Hinv').
    exists cols'. cbn [map foldM]. rewrite H1. cbn [mbind result_bind].
    split; [exact H'|]. cbn [flat_map]. rewrite app_assoc. exact Hinv'.
Qed.

Lemma map_lookup_all {A B} (f : A -> B) (d : B) (L : list A) :
  map (fun i => match L !! i with Some e => f e | None => d end) (seq 0 (length L))
  = map f L.
Proof.
  induction L as [|a L IH]; [reflexivity|].
  cbn [length seq map]. f_equal. rewrite <- seq_shift, map_map. exact IH.
Qed.

Lemma pair_text_left (c : Series) (nb : nat) (is_ : list nat) :
  map (pair_text (c, true)) (flat_map (fun i => map (pair i) (seq 0 nb)) is_)
  = flat_map (replicate nb) (map (fun i => pair_text (c, true) (i, 0%nat)) is_).
Proof.
  induction is_ as [|i is_ IH]; [reflexivity|].
  cbn [flat_map map]. rewrite map_app, IH. f_equal.
  rewrite map_map.
  rewrite (map_ext _ (fun _ => pair_text (c, true) (i, 0%nat))) by reflexivity.
  now rewrite map_const_replicate, length_seq.
Qed.

Lemma pair_text_right (c : Series) (is_ : list nat) :
  map (pair_text (c, false))
      (flat_map (fun i => map (pair i) (seq 0 (length (Elements_list (elements c))))) is_)
  = concat (replicate (length is_) (col_texts c)).
Proof.
  induction is_ as [|i is_ IH]; [reflexivity|].
  cbn [flat_map length replicate concat]. rewrite map_app, IH. f_equal.
  rewrite map_map. unfold pair_text. cbn [fst snd]. apply map_lookup_all.
Qed.

Lemma cross_columns_maps (srcs : list (Series * bool)) (ps : list (nat * nat))
    (cols : list Series) :
  cross_columns srcs ps cols ->
  Forall Series_wf cols /\
  map t cols = map (fun src => t (fst src)) srcs /\
  map Name cols = map (fun src => Name (fst src)) srcs /\
  map col_texts cols = map (fun src => map (pair_text src) ps) srcs.
Proof.
  induction 1 as [|src c srcs cols (Hwf & Ht & Hn & Htx) _ (IH1 & IH2 & IH3 & IH4)].
  - repeat split; constructor.
  - cbn [map]. rewrite Ht, Hn, Htx, IH2, IH3, IH4.
    split; [constructor; assumption|]. repeat split.
Qed.

Lemma length_cross_pairs (na nb : nat) : length (cross_pairs na nb) = (na * nb)%nat.
Proof.
  assert (Hgen : forall l : list nat,
            length (flat_map (fun i => map (pair i) (seq 0 nb)) l) = (length l * nb)%nat).
  { induction l as [|i l IH]; [reflexivity|].
    cbn [flat_map length]. rewrite length_app, length_map, length_seq, IH. lia. }
  unfold cross_pairs. now rewrite Hgen, length_seq.
Qed.

(** X28. [CrossJoin] of two well-formed Tables returns a well-formed Table
    with the columns of the left Table followed by those of the right one
    (same types, the names after the fix-up) and one row for every pair of a
    left row and a right row, the pairs of one left row being consecutive:
    a left column has the text of each of its elements repeated as many times
    as the right Table has rows, and a right column has its texts as a whole
    repeated as many times as the left Table has rows. *)
Theorem CrossJoin_pairs_every_row (df b : DataFrame) :
  DataFrame_wf df -> DataFrame_wf b ->
  exists r,
    DataFrame_CrossJoin df b = Ok r /\ DataFrame_wf r /\
    nrows r = nrows df * nrows b /\ ncols r = ncols df + ncols b /\
    map t (columns r) = map t (columns df) ++ map t (columns b) /\
    fixed_names (map Name (columns df) ++ map Name (columns b)) (map Name (columns r)) /\
    map col_texts (columns r)
      = map (fun c => flat_map (replicate (Z.to_nat (nrows b))) (col_texts c)) (columns df)
        ++ map (fun c => concat (replicate (Z.to_nat (nrows df)) (col_texts c))) (columns b).
Proof.
  intros Hdf Hb.
  pose proof Hdf as (_ & Hna & Hnea & Hca). pose proof Hb as (_ & Hnb & Hneb & Hcb).
  pose proof (DataFrame_wf_nrows df Hdf) as Hra.
  pose proof (DataFrame_wf_nrows b Hb) as Hrb.
  destruct (empty_columns_all (columns df) true (DataFrame_wf_columns_wf df Hdf))
    as (a & Ha & Hinva).
  destruct (empty_columns_all (columns b) false (DataFrame_wf_columns_wf b Hb))
    as (c & Hc & Hinvc).
  assert (Hinv0 : cross_columns (cross_sources df b) [] (a ++ c))
    by (apply Forall2_app; assumption).
  assert (His : Forall (fun i => Z.of_nat i < nrows df) (seq 0 (Z.to_nat (nrows df)))).
  { apply Forall_forall. intros i Hi. apply list_elem_of_In, in_seq in Hi. lia. }
  destruct (CrossJoin_outer df b _ Hdf Hb His [] (a ++ c) Hinv0) as (newCols & Hloop & Hinv).
  cbn [app] in Hinv. fold (cross_pairs (Z.to_nat (nrows df)) (Z.to_nat (nrows b))) in Hinv.
  set (ps := cross_pairs (Z.to_nat (nrows df)) (Z.to_nat (nrows b))) in *.
  destruct (cross_columns_maps _ _ _ Hinv) as (Hwf & Hts & Hns & Htx).
  assert (Hlen : Forall (fun col => Series_wf col /\
                           len (Elements_list (elements col)) = nrows df * nrows b) newCols).
  { apply Forall_lookup_2. intros k col Hk. split.
    - rewrite Forall_forall in Hwf. apply Hwf. eapply list_elem_of_lookup_2. exact Hk.
    - destruct (Forall2_lookup_r _ _ _ _ _ Hinv Hk) as (src & _ & _ & _ & _ & Hcol).
      apply (f_equal (@length _)) in Hcol. unfold col_texts in Hcol.
      rewrite !length_map in Hcol. unfold len. rewrite Hcol. unfold ps.
      rewrite length_cross_pairs. lia. }
  assert (Hne : newCols <> []).
  { intros ->. apply Forall2_length in Hinv. unfold cross_sources in Hinv.
    rewrite length_app, !length_map in Hinv. destruct (columns df); [contradiction|].
    simpl in Hinv. lia. }
  destruct (New_frame_of_columns newCols _ Hne Hlen)
    as (r & Hr & Hwfr & Hnr & Hncr & Hel & Hty & Hfix).
  exists r. split.
  { unfold DataFrame_CrossJoin. rewrite Hna, Hnb, Ha. cbn [mbind result_bind].
    rewrite Hc. cbn [mbind result_bind].
    assert (Hrange : range 0 (nrows df) = map Z.of_nat (seq 0 (Z.to_nat (nrows df)))).
    { unfold range. rewrite Z.sub_0_r, <- seqZ_of_nat. now rewrite Z2Nat.id. }
    rewrite Hrange. rewrite <- Hna, <- Hnb, Hloop. cbn [mbind result_bind]. exact Hr. }
  split; [exact Hwfr|]. split; [exact Hnr|].
  split.
  { rewrite Hncr, Hna, Hnb. apply Forall2_length in Hinv. unfold cross_sources in Hinv.
    rewrite length_app, !length_map in Hinv. unfold len. lia. }
  split.
  { rewrite Hty, Hts. unfold cross_sources. rewrite map_app, !map_map. reflexivity. }
  split.
  { rewrite Hns in Hfix. unfold cross_sources in Hfix.
    rewrite map_app, !map_map in Hfix. exact Hfix. }
  assert (Htexts : map col_texts (columns r) = map col_texts newCols).
  { unfold col_texts.
    rewrite <- (map_map elements (fun e => map Element_String (Elements_list e))), Hel.
    now rewrite map_map. }
  rewrite Htexts, Htx. unfold cross_sources. rewrite map_app, !map_map. f_equal.
  - apply map_ext_in. intros col Hin. apply list_elem_of_In in Hin.
    rewrite Forall_forall in Hca. destruct (Hca col Hin) as [_ Hl].
    unfold ps, cross_pairs. rewrite pair_text_left. f_equal.
    replace (Z.to_nat (nrows df)) with (length (Elements_list (elements col)))
      by (unfold len in Hl; lia).
    unfold pair_text. cbn [fst snd]. apply map_lookup_all.
  - apply map_ext_in. intros col Hin. apply list_elem_of_In in Hin.
    rewrite Forall_forall in Hcb. destruct (Hcb col Hin) as [_ Hl].
    unfold ps, cross_pairs.
    replace (Z.to_nat (nrows b)) with (length (Elements_list (elements col)))
      by (unfold len in Hl; lia).
    rewrite pair_text_right, length_seq. reflexivity.
Qed.

End CrossJoinExtras.

(** ** Tables: filtering the rows *)

Section FilterExtras.
Context {ext : Extern}.

(** [Compare] with an element-wise comparator against a single element. *)
Lemma Series_Compare_elementwise (s comp : Series) (c : Comparator) (v : value) (m : Element) :
  Series_wf s ->
  series_New v (t s) EmptyString = Ok comp ->
  Elements_list (elements comp) = [m] ->
  elementwise c ->
  Series_Compare s c v
    = Ok (mk_Series EmptyString
            (boolElements
               (map (fun e => mk_boolElement (fst (compareElements e m c)) false)
                    (Elements_list (elements s))))
            series.Bool None).
Proof.
  intros Hs Hcomp Hm Hc. pose proof (Series_wf_Len s Hs) as HL.
  unfold Series_Compare. rewrite (proj1 Hs), HL. cbn [mbind result_bind].
  assert (Hno : c <> CompFunc /\ c <> In_).
  { destruct Hc as [->|[->|[->|[->|[->| ->]]]]]; split; discriminate. }
  destruct c; try (exfalso; tauto); try (destruct Hc as [?|[?|[?|[?|[?|?]]]]]; discriminate);
    rewrite Hcomp; cbn [mbind result_bind]; rewrite Hm;
    rewrite compare_loop_elementwise by assumption;
    rewrite Bools_of_bools, map_map; reflexivity.
Qed.

Lemma Series_Bool_of_bools (name : string) (bools : list bool) (ty : series.Type_)
    (err : error) :
  Series_Bool (mk_Series name (boolElements (map (fun b => mk_boolElement b false) bools))
                 ty err)
  = Ok (bools, None).
Proof.
  unfold Series_Bool. simpl. f_equal.
  induction bools as [|b l IH]; simpl; [reflexivity|]. now rewrite IH.
Qed.

(** [Subset] of a Column by a mask of its length. *)
Lemma Series_Subset_mask (s : Series) (mask : list bool) :
  Series_wf s -> length mask = length (Elements_list (elements s)) ->
  exists r,
    Series_Subset s (v_bools mask) = Ok r /\ Series_wf r /\
    Name r = Name s /\ t r = t s /\
    Elements_list (elements r)
      = map snd (List.filter fst (zip mask (Elements_list (elements s)))).
Proof.
  intros Hwf Hm. pose proof (Series_wf_Len s Hwf) as HL.
  destruct (Series_Subset_ints s (true_positions mask 0)
              (map snd (List.filter fst (zip mask (Elements_list (elements s))))) Hwf)
    as (r & Hr & Hel & Hn & Ht & He).
  { apply (true_positions_spec mask _ 0 []); [assumption | reflexivity]. }
  exists r. split.
  { rewrite <- Hr. unfold Series_Subset. destruct Hwf as [-> _].
    rewrite HL. cbn [mbind result_bind parseIndexes]. unfold parseIndexes_bools.
    replace (len mask =? len (Elements_list (elements s))) with true; [reflexivity|].
    symmetry. apply Z.eqb_eq. unfold len. now rewrite Hm. }
  split; [exact (Series_Subset_typed s r _ Hwf Hr)|].
  split; [exact Hn|]. split; [exact Ht | exact Hel].
Qed.

Lemma length_filter_mask {A} (mask : list bool) (L : list A) :
  length mask = length L ->
  length (List.filter fst (zip mask L)) = length (List.filter id mask).
Proof.
  revert L. induction mask as [|b mask IH]; intros [|x L] H; simpl in H; try discriminate;
    [reflexivity|].
  cbn [zip zip_with List.filter fst id]. destruct b; cbn [length]; rewrite IH by lia;
    reflexivity.
Qed.

(** [Subset] of a Table by a mask with one entry per row. *)
Lemma DataFrame_Subset_mask (df : DataFrame) (mask : list bool) :
  DataFrame_wf df -> len mask = nrows df ->
  exists r,
    DataFrame_Subset df (v_bools mask) = Ok r /\ DataFrame_wf r /\
    nrows r = len (List.filter id mask) /\ ncols r = ncols df /\
    Forall2 (fun c rc =>
               Name rc = Name c /\ t rc = t c /\
               Elements_list (elements rc)
                 = map snd (List.filter fst (zip mask (Elements_list (elements c)))))
            (columns df) (columns r).
Proof.
  intros (He & Hn & Hne & Hcols) Hmask.
  set (R := fun (c r : Series) =>
              Series_wf r /\ Name r = Name c /\ t r = t c /\
              Elements_list (elements r)
                = map snd (List.filter fst (zip mask (Elements_list (elements c))))).
  destruct (mapM_Forall2 (fun c => Series_Subset c (v_bools mask)) R (columns df))
    as (rs & Hrs & HR).
  { eapply Forall_impl; [exact Hcols|]. intros c [Hc Hl].
    apply Series_Subset_mask; [exact Hc|]. unfold len in *. lia. }
  assert (Hlen : length rs = length (columns df)) by (symmetry; eapply Forall2_length; eauto).
  assert (Hwf : Forall (fun c => Series_wf c /\
                          len (Elements_list (elements c)) = len (List.filter id mask)) rs).
  { apply Forall_forall. intros r Hr.
    apply list_elem_of_lookup_1 in Hr. destruct Hr as [j Hj].
    destruct (Forall2_lookup_r _ _ _ _ _ HR Hj) as (c & Hc & Hw & _ & _ & Hf).
    split; [exact Hw|]. rewrite Hf. unfold len. rewrite length_map. f_equal.
    apply length_filter_mask. rewrite Forall_forall in Hcols.
    destruct (Hcols c) as [_ Hl]; [eapply list_elem_of_lookup_2; exact Hc|].
    unfold len in *. lia. }
  assert (Hrne : rs <> []).
  { intros E. rewrite E in Hlen. simpl in Hlen.
    destruct (columns df); [now apply Hne | discriminate]. }
  exists (mk_DataFrame rs (len rs) (len (List.filter id mask)) None).
  split.
  { unfold DataFrame_Subset. rewrite He, Hn, fill_columns_exact, Hrs.
    cbn [mbind result_bind]. rewrite (checkColumnsDimensions_ok rs _ Hrne Hwf).
    reflexivity. }
  cbn [columns ncols nrows df_Err].
  split; [repeat split; auto|].
  split; [reflexivity|]. split; [rewrite Hn; unfold len; now rewrite Hlen|].
  eapply Forall2_impl; [exact HR|]. intros c r (_ & H1 & H2 & H3). auto.
Qed.

(** X29. [Filter] with one filter, on a column given by a name that is not
    empty, with one of the six element-wise comparators and a comparand that
    converts to a single element [m] of the type of the column.  When the
    name is that of a column (the first one of that name is taken), the
    Table returned is well formed and has the columns of the receiver, under
    their names and types, each with exactly the elements of the rows whose
    element in the named column compares true with [m], in order.  When no
    column has the name, the Table returned carries an error. *)
Theorem Filter_keeps_the_rows_that_compare (df : DataFrame) (i : Z) (name : string)
    (c : Comparator) (v : value) :
  DataFrame_wf df -> name <> EmptyString ->
  (forall (p : nat) (col comp : Series) (m : Element),
     columns df !! p = Some col -> Name col = name ->
     (forall j c', (j < p)%nat -> columns df !! j = Some c' -> Name c' <> name) ->
     elementwise c ->
     series_New v (t col) EmptyString = Ok comp ->
     Elements_list (elements comp) = [m] ->
     exists r,
       DataFrame_Filter df [mk_F i name c v] = Ok r /\ DataFrame_wf r /\
       ncols r = ncols df /\
       Forall2 (fun c0 rc =>
                  Name rc = Name c0 /\ t rc = t c0 /\
                  Elements_list (elements rc)
                    = map snd
                        (List.filter fst
                           (zip (map (fun e => fst (compareElements e m c))
                                     (Elements_list (elements col)))
                                (Elements_list (elements c0)))))
               (columns df) (columns r)) /\
  (name ∉ map Name (columns df) ->
   DataFrame_Filter df [mk_F i name c v] = Ok (DataFrame_err "filter: 无法找到列名")).
Proof.
  intros Hdf Hname.
  pose proof Hdf as (He & Hn & Hne & Hcols).
  assert (Hnm : String.eqb name EmptyString = false) by now apply String.eqb_neq.
  split.
  - intros p col comp m Hp Hcol Hfirst Hc Hcomp Hm.
    set (mask := map (fun e => fst (compareElements e m c)) (Elements_list (elements col))).
    assert (Hin : name ∈ map Name (columns df)).
    { apply list_elem_of_In, in_map_iff. exists col. split; [exact Hcol|].
      apply list_elem_of_In. eapply list_elem_of_lookup_2. exact Hp. }
    destruct (findInStringSlice_from_first name _ 0 Hin) as (p' & Hfind & Hp' & Hfirst').
    assert (Hpp : p' = p).
    { change (map ?f ?k) with (f <$> k) in Hp', Hfirst'.
      rewrite list_lookup_fmap in Hp'.
      destruct (columns df !! p') as [c'|] eqn:Ec'; [|discriminate]. simpl in Hp'.
      injection Hp' as Hp'.
      destruct (lt_eq_lt_dec p' p) as [[Hlt|Heq]|Hgt]; [|exact Heq|].
      - exfalso. exact (Hfirst p' c' Hlt Ec' Hp').
      - exfalso. apply (Hfirst' p name Hgt); [|reflexivity].
        rewrite list_lookup_fmap, Hp. simpl. now rewrite Hcol. }
    subst p'.
    assert (Hwfcol : Series_wf col /\ len (Elements_list (elements col)) = nrows df).
    { rewrite Forall_forall in Hcols. apply Hcols. eapply list_elem_of_lookup_2. exact Hp. }
    destruct (DataFrame_Subset_mask df mask Hdf) as (r & Hr & Hwfr & _ & Hnc & HF).
    { unfold mask, len. rewrite length_map. apply Hwfcol. }
    exists r. split; [|split; [exact Hwfr | split; [exact Hnc | exact HF]]].
    unfold DataFrame_Filter, DataFrame_FilterAggregation. rewrite He.
    cbn [Filter_compare Colname Colidx F_Comparator Comparando]. rewrite Hnm.
    rewrite (DataFrame_wf_Names df Hdf). cbn [mbind result_bind].
    unfold findInStringSlice. rewrite Hfind, Z.add_0_l.
    replace (Z.of_nat p <? 0) with false by (symmetry; apply Z.ltb_ge; lia).
    rewrite (index_lookup _ p col Hp). cbn [mbind result_bind].
    rewrite (Series_Compare_elementwise col comp c v m (proj1 Hwfcol) Hcomp Hm Hc).
    cbn [mbind result_bind Err].
    replace (map (fun e => mk_boolElement (fst (compareElements e m c)) false)
                 (Elements_list (elements col)))
      with (map (fun b => mk_boolElement b false) mask)
      by (unfold mask; now rewrite map_map).
    rewrite Series_Bool_of_bools. cbn [mbind result_bind Filter_fold].
    exact Hr.
  - intros Hout.
    unfold DataFrame_Filter, DataFrame_FilterAggregation. rewrite He.
    cbn [Filter_compare Colname Colidx F_Comparator Comparando]. rewrite Hnm.
    rewrite (DataFrame_wf_Names df Hdf). cbn [mbind result_bind].
    rewrite (proj2 (findInStringSlice_absent name _) Hout). reflexivity.
Qed.

End FilterExtras.

(** ** Tables: sorting the rows by one column *)

Section ArrangeExtras.
Context {ext : Extern}.

(** [Subset] with all the indexes in order gives the elements back. *)
Lemma Series_Subset_all (c : Series) :
  Series_wf c ->
  exists r,
    Series_Subset c (v_ints (range 0 (len (Elements_list (elements c))))) = Ok r /\
    Series_wf r /\ Elements_list (elements r) = Elements_list (elements c).
Proof.
  intros Hwf.
  destruct (Series_Subset_ints c (range 0 (len (Elements_list (elements c))))
              (Elements_list (elements c)) Hwf) as (r & Hr & Hel & _).
  { unfold range. rewrite Z.sub_0_r.
    pose proof (Forall2_seqZ_take_drop (Elements_list (elements c)) 0
                  (len (Elements_list (elements c)))) as H.
    unfold len in H. rewrite Nat2Z.id in H. change (Z.to_nat 0) with 0%nat in H.
    rewrite drop_0, firstn_all in H. apply H; lia. }
  exists r. split; [exact Hr|]. split; [exact (Series_Subset_typed c r _ Hwf Hr) | exact Hel].
Qed.

(** [Order] reads the elements only. *)
Lemma Series_Order_elements (r c : Series) (reverse : bool) :
  Series_wf r -> Series_wf c ->
  Elements_list (elements r) = Elements_list (elements c) ->
  Series_Order r reverse = Series_Order c reverse.
Proof.
  intros Hr Hc He. unfold Series_Order.
  rewrite (Series_wf_Len r Hr), (Series_wf_Len c Hc), He. reflexivity.
Qed.

(** Reading the indexes [ix] through the identity gives [ix]. *)
Lemma mapM_index_identity (n : Z) (ix : list Z) :
  Forall (fun i => 0 <= i < n) ix -> mapM (index (range 0 n)) ix = Ok ix.
Proof.
  induction 1 as [|i ix Hi _ IH]; [reflexivity|].
  cbn [mapM]. rewrite IH. unfold index, range.
  replace (i <? 0) with false by (symmetry; apply Z.ltb_ge; lia).
  rewrite Z.sub_0_r.
  rewrite (proj2 (lookup_seqZ 0 n (Z.to_nat i) i)) by lia. reflexivity.
Qed.

(** X30. [Arrange] by one column, given by the name of a column of a
    well-formed Table (the first one of that name is taken): the result is
    the [Subset] of the Table by the indexes that [Order] returns for that
    column in the direction asked for.  These indexes are a permutation of
    the row numbers, so the Table returned is well formed, has the same
    columns and as many rows, and its row [k] is the row [ix[k]] of the
    receiver.  When no column has the name, or no order is given, the Table
    returned carries an error. *)
Theorem Arrange_by_one_column (df : DataFrame) (o : Order) :
  DataFrame_wf df ->
  (forall (p : nat) (col : Series),
     columns df !! p = Some col -> Name col = Order_Colname o ->
     (forall j c', (j < p)%nat -> columns df !! j = Some c' -> Name c' <> Order_Colname o) ->
     exists ix r,
       Series_Order col (Reverse o) = Ok ix /\ Permutation ix (range 0 (nrows df)) /\
       DataFrame_Arrange df [o] = Ok r /\ DataFrame_Subset df (v_ints ix) = Ok r /\
       DataFrame_wf r /\ nrows r = nrows df /\ ncols r = ncols df /\
       map Name (columns r) = map Name (columns df) /\
       map t (columns r) = map t (columns df) /\
       forall k i c, ix !! k = Some i -> cell r k c = cell df (Z.to_nat i) c) /\
  (Order_Colname o ∉ map Name (columns df) ->
   DataFrame_Arrange df [o]
     = Ok (DataFrame_err ("colname " +:+ Order_Colname o +:+ " 不存在"))) /\
  DataFrame_Arrange df [] = Ok (DataFrame_err "rename: 无参数").
Proof.
  intros Hdf. pose proof Hdf as (He & Hn & Hne & Hcols).
  pose proof (DataFrame_wf_nrows df Hdf) as Hnr.
  split; [|split].
  - intros p col Hp Hcol Hfirst.
    assert (Hwfcol : Series_wf col /\ len (Elements_list (elements col)) = nrows df).
    { rewrite Forall_forall in Hcols. apply Hcols. eapply list_elem_of_lookup_2. exact Hp. }
    destruct Hwfcol as [Hwc Hlc].
    destruct (Series_Order_Permutation col (Reverse o) (nrows df)) as (ix & Hix & Hperm).
    { rewrite (Series_wf_Len col Hwc). now rewrite Hlc. }
    assert (Hrange : Forall (fun i => 0 <= i < nrows df) ix).
    { apply Forall_forall. intros i Hi. rewrite Hperm in Hi. unfold range in Hi.
      apply list_elem_of_lookup_1 in Hi. destruct Hi as [k Hk].
      apply lookup_seqZ in Hk. lia. }
    destruct (DataFrame_Subset_rows df ix Hdf Hrange)
      as (r & Hr & Hwfr & H1 & H2 & H3 & H4 & H5).
    exists ix, r. split; [exact Hix|]. split; [exact Hperm|].
    split; [|split; [exact Hr|]].
    2:{ split; [exact Hwfr|]. split.
        - rewrite H1. unfold len. rewrite (Permutation_length Hperm).
          unfold range. rewrite length_seqZ. lia.
        - split; [exact H2|]. split; [exact H3|]. split; [exact H4 | exact H5]. }
    assert (Hin : Order_Colname o ∈ map Name (columns df)).
    { apply list_elem_of_In, in_map_iff. exists col. split; [exact Hcol|].
      apply list_elem_of_In. eapply list_elem_of_lookup_2. exact Hp. }
    destruct (findInStringSlice_from_first (Order_Colname o) _ 0 Hin)
      as (p' & Hfind & Hp' & Hfirst').
    assert (Hpp : p' = p).
    { change (map ?f ?k) with (f <$> k) in Hp', Hfirst'.
      rewrite list_lookup_fmap in Hp'.
      destruct (columns df !! p') as [c'|] eqn:Ec'; [|discriminate]. simpl in Hp'.
      injection Hp' as Hp'.
      destruct (lt_eq_lt_dec p' p) as [[Hlt|Heq]|Hgt]; [|exact Heq|].
      - exfalso. exact (Hfirst p' c' Hlt Ec' Hp').
      - exfalso. apply (Hfirst' p (Order_Colname o) Hgt); [|reflexivity].
        rewrite list_lookup_fmap, Hp. simpl. now rewrite Hcol. }
    subst p'.
    assert (Hidx : DataFrame_colIndex df (Order_Colname o) = Ok (Z.of_nat p)).
    { unfold DataFrame_colIndex. rewrite (DataFrame_wf_Names df Hdf).
      cbn [mbind result_bind]. unfold findInStringSlice. rewrite Hfind. reflexivity. }
    destruct (Series_Subset_all col Hwc) as (nxt & Hnxt & Hwn & Heln).
    rewrite Hlc in Hnxt.
    unfold DataFrame_Arrange. rewrite He.
    change (len [o] =? 0) with false. cbn [Arrange_check]. rewrite Hidx.
    cbn [mbind result_bind].
    replace (Z.of_nat p =? -1) with false by (symmetry; apply Z.eqb_neq; lia).
    replace (nrows df <? 0) with false by (symmetry; apply Z.ltb_ge; lia).
    cbn [rev app foldM]. rewrite Hidx. cbn [mbind result_bind].
    rewrite (index_lookup _ p col Hp). cbn [mbind result_bind].
    rewrite Hnxt. cbn [mbind result_bind].
    rewrite (Series_Order_elements nxt col (Reverse o) Hwn Hwc Heln), Hix.
    cbn [mbind result_bind]. rewrite (mapM_index_identity _ ix Hrange).
    cbn [mbind result_bind fst]. exact Hr.
  - intros Hout. unfold DataFrame_Arrange. rewrite He.
    change (len [o] =? 0) with false. cbn [Arrange_check].
    unfold DataFrame_colIndex. rewrite (DataFrame_wf_Names df Hdf).
    cbn [mbind result_bind].
    rewrite (proj2 (findInStringSlice_absent (Order_Colname o) _) Hout). reflexivity.
  - unfold DataFrame_Arrange. rewrite He. reflexivity.
Qed.

End ArrangeExtras.

(** ** Tables: the left join *)

Section LeftJoinFacts.
Context {ext : Extern}.

(** Appending nil, or an element of the type of the column. *)
Lemma Series_Append_value (c : Series) (v : value) (oe : option Element) :
  Series_wf c ->
  (v = v_nil /\ oe = None) \/
  (exists e, v = v_Element e /\ oe = Some e /\ Element_Type e = t c) ->
  exists c' e',
    Series_Append c v = Ok c' /\ Series_wf c' /\ t c' = t c /\ Name c' = Name c /\
    Elements_list (elements c') = Elements_list (elements c) ++ [e'] /\
    stands_for oe e'.
Proof.
  intros [He Hw] Hv. destruct c as [name els ty err]. cbn [t Name Err elements] in *.
  subst err. unfold Series_Append, series_New. cbn [Err t Name elements].
  destruct Hv as [[-> ->] | (e & -> & -> & Ht)].
  - destruct ty, els; try contradiction;
      cbn [New_elements map mbind result_bind elements set_elements];
      eexists; eexists; (split; [reflexivity|]);
      (split; [split; [reflexivity | exact I]|]);
      (split; [reflexivity|]); (split; [reflexivity|]);
      cbn [elements Elements_list set_elements]; rewrite map_app;
      (split; [reflexivity|]); reflexivity.
  - subst ty.
    destruct e as [x|x|x|x], els; try contradiction;
      cbn [Element_Type New_elements map mbind result_bind elements set_elements];
      eexists; eexists; (split; [reflexivity|]);
      (split; [split; [reflexivity | exact I]|]);
      (split; [reflexivity|]); (split; [reflexivity|]);
      cbn [elements Elements_list set_elements]; rewrite map_app;
      (split; [reflexivity|]); cbn [stands_for Element_String];
      apply Set_zero_same_kind.
Qed.

(** Appending the row [p] to the columns of a join. *)
Lemma append_row_join (srcs : list (Series * bool)) (ps : list (nat * option nat))
    (cols : list Series) (vs : list value) (p : nat * option nat) :
  join_columns srcs ps cols ->
  Forall2 (fun src v => join_value src p v) srcs vs ->
  exists cols',
    append_row cols vs = Ok cols' /\ join_columns srcs (ps ++ [p]) cols'.
Proof.
  intros H. revert vs. induction H as [|src c srcs cols (Hwf & Ht & Hn & Hel) _ IH];
    intros vs Hvs; inversion Hvs as [|? v ? vs' Hv Hvs']; subst.
  - exists []. split; [reflexivity | constructor].
  - destruct (IH vs' Hvs') as (cols' & Hc & Hinv).
    destruct (Series_Append_value c v (join_cell src p) Hwf) as (c' & e' & Ha & Hwf' & Ht' & Hn' & Hel' & Hs).
    { destruct Hv as [[-> E] | (e & -> & E & Hty)]; [left; now split | right].
      exists e. repeat split; congruence. }
    exists (c' :: cols'). cbn [append_row]. rewrite Ha. cbn [mbind result_bind].
    rewrite Hc. cbn [mbind result_bind]. split; [reflexivity|].
    constructor; [|exact Hinv].
    split; [exact Hwf'|]. split; [congruence|]. split; [congruence|].
    rewrite Hel'. apply Forall2_app; [exact Hel|]. constructor; [exact Hs | constructor].
Qed.

(** Positions in range name columns. *)
Lemma columns_at_exists (cols : list Series) (ks : list Z) :
  Forall (fun k => 0 <= k < len cols) ks -> exists cs, columns_at cols ks cs.
Proof.
  induction 1 as [|k ks Hk _ (cs & IH)]; [exists []; constructor|].
  destruct (lookup_lt_is_Some_2 cols (Z.to_nat k)) as [c Hc]; [unfold len in Hk; lia|].
  exists (c :: cs). constructor; [split; [lia | exact Hc] | exact IH].
Qed.

Lemma columns_at_Forall (Q : Series -> Prop) (cols : list Series) (ks : list Z)
    (cs : list Series) :
  Forall Q cols -> columns_at cols ks cs -> Forall Q cs.
Proof.
  intros HQ H. induction H as [|k c ks cs [_ Hc] _ IH]; constructor; [|exact IH].
  rewrite Forall_forall in HQ. apply HQ. eapply list_elem_of_lookup_2. exact Hc.
Qed.

Lemma index_at (cols : list Series) (k : Z) (c : Series) :
  0 <= k -> cols !! Z.to_nat k = Some c -> index cols k = Ok c.
Proof.
  intros Hk Hc. rewrite <- (Z2Nat.id k) by exact Hk. now apply index_lookup.
Qed.

(** The empty columns a join starts from, for the columns at [ks]. *)
Lemma empty_columns_at (cols : list Series) (ks : list Z) (cs : list Series) (left : bool) :
  Forall Series_wf cols -> columns_at cols ks cs ->
  exists es,
    empty_columns cols ks = Ok es /\
    join_columns (map (fun c => (c, left)) cs) [] es.
Proof.
  intros Hwf H. unfold empty_columns.
  induction H as [|k c ks cs [Hk Hc] Hrest (es & Hes & HF)].
  - exists []. split; [reflexivity | constructor].
  - cbn [mapM map]. rewrite (index_at cols k c Hk Hc). cbn [mbind result_bind].
    rewrite Hes.
    assert (Hwc : Series_wf c).
    { rewrite Forall_forall in Hwf. apply Hwf. eapply list_elem_of_lookup_2. exact Hc. }
    destruct Hwc as [He Hw]. unfold Series_Empty, series_New.
    destruct c as [name els ty err]. cbn [t Name] in *.
    destruct ty, els; try contradiction; cbn [New_elements map mbind result_bind];
      eexists; (split; [reflexivity|]); (constructor; [|exact HF]);
      (split; [split; [reflexivity | exact I]|]);
      (split; [reflexivity|]); (split; [reflexivity|]); constructor.
Qed.

(** The values of row [i] in the columns at [ks]. *)
Lemma row_elems_at (cols : list Series) (n : Z) (ks : list Z) (cs : list Series) (i : nat) :
  Forall (fun c => Series_wf c /\ len (Elements_list (elements c)) = n) cols ->
  columns_at cols ks cs -> Z.of_nat i < n ->
  exists es,
    row_elems cols ks (Z.of_nat i) = Ok (map v_Element es) /\
    Forall2 (fun c e => Elements_list (elements c) !! i = Some e /\ Element_Type e = t c)
            cs es.
Proof.
  intros Hcols H Hi. unfold row_elems.
  induction H as [|k c ks cs [Hk Hc] Hrest (es & Hes & HF)].
  - exists []. split; [reflexivity | constructor].
  - assert (Hwc : Series_wf c /\ len (Elements_list (elements c)) = n).
    { rewrite Forall_forall in Hcols. apply Hcols. eapply list_elem_of_lookup_2. exact Hc. }
    destruct Hwc as [Hwf Hlen].
    destruct (lookup_lt_is_Some_2 (Elements_list (elements c)) i) as [e He];
      [unfold len in Hlen; lia|].
    exists (e :: es). cbn [mapM map]. rewrite Hes.
    rewrite (index_at cols k c Hk Hc). cbn [mbind result_bind]. unfold Series_Elem.
    rewrite (Elements_Elem_lookup (elements c) (Z.of_nat i) e)
      by (try lia; now rewrite Nat2Z.id).
    cbn [mbind result_bind].
    split; [reflexivity|]. constructor; [|exact HF]. split; [exact He|].
    pose proof (Elements_list_present c Hwf) as Hty. rewrite Forall_forall in Hty.
    apply Hty. eapply list_elem_of_lookup_2. exact He.
Qed.

(** The values of a row, as the values a join appends for its sources. *)
Lemma row_values_left (cs : list Series) (es : list Element) (i : nat) (oj : option nat) :
  Forall2 (fun c e => Elements_list (elements c) !! i = Some e /\ Element_Type e = t c)
          cs es ->
  Forall2 (fun src v => join_value src (i, oj) v)
          (map (fun c => (c, true)) cs) (map v_Element es).
Proof.
  induction 1 as [|c e cs es [He Ht] _ IH]; cbn [map]; constructor; [|exact IH].
  right. exists e. repeat split; assumption.
Qed.

Lemma row_values_right (cs : list Series) (es : list Element) (i j : nat) :
  Forall2 (fun c e => Elements_list (elements c) !! j = Some e /\ Element_Type e = t c)
          cs es ->
  Forall2 (fun src v => join_value src (i, Some j) v)
          (map (fun c => (c, false)) cs) (map v_Element es).
Proof.
  induction 1 as [|c e cs es [He Ht] _ IH]; cbn [map]; constructor; [|exact IH].
  right. exists e. repeat split; assumption.
Qed.

Lemma row_values_padded {A} (cs : list Series) (ks : list A) (i : nat) :
  length ks = length cs ->
  Forall2 (fun src v => join_value src (i, None) v)
          (map (fun c => (c, false)) cs) (map (fun _ => v_nil) ks).
Proof.
  revert ks. induction cs as [|c cs IH]; intros [|k ks] H; simpl in H; try discriminate;
    cbn [map]; constructor; [|apply IH; lia].
  left. split; reflexivity.
Qed.

(** The key test of the code is [key_match]. *)
Lemma join_match_key_match (df b : DataFrame) (iKeysA iKeysB : list Z) (i j : nat) :
  DataFrame_wf df -> DataFrame_wf b ->
  Forall (fun k => 0 <= k < len (columns df)) iKeysA ->
  Forall (fun k => 0 <= k < len (columns b)) iKeysB ->
  Z.of_nat i < nrows df -> Z.of_nat j < nrows b ->
  join_match (columns df) (columns b) iKeysA iKeysB (Z.of_nat i) (Z.of_nat j)
    = Ok (key_match df b iKeysA iKeysB i j).
Proof.
  intros (_ & _ & _ & Hca) (_ & _ & _ & Hcb) HA HB Hi Hj.
  unfold join_match, key_match.
  set (body := fun (m : bool) '((ka, kb) : Z * Z) =>
         ca ← index (columns df) ka;
         aElem ← Series_Elem ca (Z.of_nat i);
         cb ← index (columns b) kb;
         bElem ← Series_Elem cb (Z.of_nat j);
         Ok (m && Element_Eq aElem bElem)).
  set (test := fun '((ka, kb) : Z * Z) =>
         match cell df i (Z.to_nat ka), cell b j (Z.to_nat kb) with
         | Some x, Some y => Element_Eq x y
         | _, _ => false
         end).
  assert (Hgen : forall m0,
            foldM body (zip iKeysA iKeysB) m0
            = Ok (m0 && forallb test (zip iKeysA iKeysB))).
  { revert iKeysB HB. induction HA as [|ka iKeysA Hka _ IH]; intros iKeysB HB m0.
    - cbn. now rewrite andb_true_r.
    - destruct HB as [|kb iKeysB Hkb HB]; [cbn; now rewrite andb_true_r|].
      cbn [zip zip_with foldM forallb].
      destruct (lookup_lt_is_Some_2 (columns df) (Z.to_nat ka)) as [ca Eca];
        [unfold len in Hka; lia|].
      destruct (lookup_lt_is_Some_2 (columns b) (Z.to_nat kb)) as [cb Ecb];
        [unfold len in Hkb; lia|].
      pose proof (proj1 (Forall_forall _ _) Hca ca (list_elem_of_lookup_2 _ _ _ Eca))
        as [Hwa Hla].
      pose proof (proj1 (Forall_forall _ _) Hcb cb (list_elem_of_lookup_2 _ _ _ Ecb))
        as [Hwb Hlb].
      destruct (lookup_lt_is_Some_2 (Elements_list (elements ca)) i) as [x Ex];
        [unfold len in Hla; lia|].
      destruct (lookup_lt_is_Some_2 (Elements_list (elements cb)) j) as [y Ey];
        [unfold len in Hlb; lia|].
      assert (Hstep : body m0 (ka, kb) = Ok (m0 && Element_Eq x y)).
      { unfold body, Series_Elem.
        rewrite (index_at _ ka ca) by (lia || exact Eca). cbn [mbind result_bind].
        rewrite (Elements_Elem_lookup (elements ca) (Z.of_nat i) x)
          by (try lia; now rewrite Nat2Z.id).
        cbn [mbind result_bind].
        rewrite (index_at _ kb cb) by (lia || exact Ecb). cbn [mbind result_bind].
        rewrite (Elements_Elem_lookup (elements cb) (Z.of_nat j) y)
          by (try lia; now rewrite Nat2Z.id).
        reflexivity. }
      assert (Htest : test (ka, kb) = Element_Eq x y).
      { unfold test, cell. now rewrite Eca, Ecb, Ex, Ey. }
      rewrite Hstep. cbn [mbind result_bind]. rewrite (IH iKeysB HB), Htest.
      now rewrite andb_assoc. }
  rewrite Hgen. reflexivity.
Qed.

Lemma existsb_filter_nil {A} (f : A -> bool) (l : list A) :
  existsb f l = false <-> List.filter f l = [].
Proof.
  induction l as [|x l IH]; simpl; [tauto|].
  destruct (f x); simpl; [split; discriminate | exact IH].
Qed.

Section LeftJoinLoop.
Variables (df b : DataFrame) (iKeysA iKeysB : list Z) (csK csA csB : list Series).
Hypothesis Hdf : DataFrame_wf df.
Hypothesis Hb : DataFrame_wf b.
Hypothesis HA : Forall (fun k => 0 <= k < len (columns df)) iKeysA.
Hypothesis HB : Forall (fun k => 0 <= k < len (columns b)) iKeysB.
Hypothesis HcK : columns_at (columns df) iKeysA csK.
Hypothesis HcA : columns_at (columns df) (not_keys (ncols df) iKeysA) csA.
Hypothesis HcB : columns_at (columns b) (not_keys (ncols b) iKeysB) csB.

Lemma matched_row_values (i j : nat) :
  Z.of_nat i < nrows df -> Z.of_nat j < nrows b ->
  exists vs,
    matched_row df b iKeysA iKeysB (Z.of_nat i) (Z.of_nat j) = Ok vs /\
    Forall2 (fun src v => join_value src (i, Some j) v) (join_sources csK csA csB) vs.
Proof.
  intros Hi Hj. pose proof Hdf as (_ & _ & _ & Hca). pose proof Hb as (_ & _ & _ & Hcb).
  destruct (row_elems_at _ _ _ _ i Hca HcK Hi) as (ek & Ek & Fk).
  destruct (row_elems_at _ _ _ _ i Hca HcA Hi) as (ea & Ea & Fa).
  destruct (row_elems_at _ _ _ _ j Hcb HcB Hj) as (eb & Eb & Fb).
  exists (map v_Element (ek ++ ea) ++ map v_Element eb). split.
  - unfold matched_row. rewrite Ek. cbn [mbind result_bind]. rewrite Ea.
    cbn [mbind result_bind]. rewrite Eb. cbn [mbind result_bind].
    now rewrite map_app, app_assoc.
  - unfold join_sources. apply Forall2_app.
    + apply row_values_left. now apply Forall2_app.
    + now apply row_values_right.
Qed.

Lemma left_padded_row_values (i : nat) :
  Z.of_nat i < nrows df ->
  exists vs,
    left_padded_row df b iKeysA iKeysB (Z.of_nat i) = Ok vs /\
    Forall2 (fun src v => join_value src (i, None) v) (join_sources csK csA csB) vs.
Proof.
  intros Hi. pose proof Hdf as (_ & _ & _ & Hca).
  destruct (row_elems_at _ _ _ _ i Hca HcK Hi) as (ek & Ek & Fk).
  destruct (row_elems_at _ _ _ _ i Hca HcA Hi) as (ea & Ea & Fa).
  exists (map v_Element (ek ++ ea)
          ++ map (fun _ => v_nil) (not_keys (ncols b) iKeysB)). split.
  - unfold left_padded_row. rewrite Ek. cbn [mbind result_bind]. rewrite Ea.
    cbn [mbind result_bind]. now rewrite map_app, app_assoc.
  - unfold join_sources. apply Forall2_app.
    + apply row_values_left. now apply Forall2_app.
    + apply row_values_padded. eapply Forall2_length. exact HcB.
Qed.

(** The inner loop over the right rows [js] for the left row [i]. *)
Lemma match_right_rows_join (i : nat) (js : list nat) :
  Z.of_nat i < nrows df -> Forall (fun j => Z.of_nat j < nrows b) js ->
  forall ps cols m0,
    join_columns (join_sources csK csA csB) ps cols ->
    exists cols',
      foldM (fun '(newCols, matched) j =>
               m ← join_match (columns df) (columns b) iKeysA iKeysB (Z.of_nat i) j;
               if (m : bool) then
                 row ← matched_row df b iKeysA iKeysB (Z.of_nat i) j;
                 newCols' ← append_row newCols row;
                 Ok (newCols', true)
               else Ok (newCols, matched))
            (map Z.of_nat js) (cols, m0)
        = Ok (cols', m0 || existsb (key_match df b iKeysA iKeysB i) js) /\
      join_columns (join_sources csK csA csB)
        (ps ++ map (fun j => (i, Some j)) (List.filter (key_match df b iKeysA iKeysB i) js))
        cols'.
Proof.
  intros Hi Hjs.
  set (body := fun '((newCols, matched) : list Series * bool) (j : Z) =>
         m ← join_match (columns df) (columns b) iKeysA iKeysB (Z.of_nat i) j;
         if (m : bool) then
           row ← matched_row df b iKeysA iKeysB (Z.of_nat i) j;
           newCols' ← append_row newCols row;
           Ok (newCols', true)
         else Ok (newCols, matched)).
  induction Hjs as [|j js Hj _ IH]; intros ps cols m0 Hinv.
  - exists cols. cbn. rewrite orb_false_r, app_nil_r. now split.
  - cbn [map foldM existsb List.filter].
    pose proof (join_match_key_match df b iKeysA iKeysB i j Hdf Hb HA HB Hi Hj) as Hm.
    destruct (key_match df b iKeysA iKeysB i j) eqn:Ekm.
    + destruct (matched_row_values i j Hi Hj) as (vs & Hvs & HF).
      destruct (append_row_join _ ps cols vs (i, Some j) Hinv HF) as (cols1 & H1 & Hinv1).
      assert (Hstep : body (cols, m0) (Z.of_nat j) = Ok (cols1, true)).
      { unfold body. rewrite Hm. cbn [mbind result_bind]. rewrite Hvs.
        cbn [mbind result_bind]. rewrite H1. reflexivity. }
      destruct (IH (ps ++ [(i, Some j)]) cols1 true Hinv1) as (cols' & H' & Hinv').
      exists cols'. rewrite Hstep. cbn [mbind result_bind]. rewrite H'.
      cbn [orb map]. rewrite orb_true_r. split; [reflexivity|].
      rewrite <- app_assoc in Hinv'. exact Hinv'.
    + assert (Hstep : body (cols, m0) (Z.of_nat j) = Ok (cols, m0)).
      { unfold body. rewrite Hm. reflexivity. }
      destruct (IH ps cols m0 Hinv) as (cols' & H' & Hinv').
      exists cols'. rewrite Hstep. cbn [mbind result_bind orb]. split; assumption.
Qed.

(** The body of the loop of [LeftJoin] for the left row [i]. *)
Lemma LeftJoin_row_join (i : nat) :
  Z.of_nat i < nrows df ->
  forall ps cols,
    join_columns (join_sources csK csA csB) ps cols ->
    exists cols',
      LeftJoin_row df b iKeysA iKeysB cols (Z.of_nat i) = Ok cols' /\
      join_columns (join_sources csK csA csB)
        (ps ++ left_row_block (key_match df b iKeysA iKeysB) (Z.to_nat (nrows b)) i) cols'.
Proof.
  intros Hi ps cols Hinv.
  assert (Hrange : range 0 (nrows b) = map Z.of_nat (seq 0 (Z.to_nat (nrows b)))).
  { unfold range. rewrite Z.sub_0_r, <- seqZ_of_nat.
    rewrite Z2Nat.id by now apply DataFrame_wf_nrows. reflexivity. }
  assert (Hjs : Forall (fun j => Z.of_nat j < nrows b) (seq 0 (Z.to_nat (nrows b)))).
  { apply Forall_forall. intros j Hj. apply list_elem_of_In, in_seq in Hj. lia. }
  destruct (match_right_rows_join i _ Hi Hjs ps cols false Hinv) as (cols1 & H1 & Hinv1).
  unfold LeftJoin_row, match_right_rows. rewrite Hrange, H1. cbn [mbind result_bind orb].
  unfold left_row_block.
  destruct (existsb (key_match df b iKeysA iKeysB i) (seq 0 (Z.to_nat (nrows b)))) eqn:Ex.
  - exists cols1. split; [reflexivity|].
    destruct (List.filter (key_match df b iKeysA iKeysB i) (seq 0 (Z.to_nat (nrows b))))
      as [|j0 js0] eqn:Ef; [|exact Hinv1].
    apply existsb_filter_nil in Ef. congruence.
  - apply existsb_filter_nil in Ex. rewrite Ex in Hinv1 |- *.
    cbn [map] in Hinv1. rewrite app_nil_r in Hinv1.
    destruct (left_padded_row_values i Hi) as (vs & Hvs & HF).
    destruct (append_row_join _ ps cols1 vs (i, None) Hinv1 HF) as (cols' & H' & Hinv').
    exists cols'. rewrite Hvs. cbn [mbind result_bind]. split; assumption.
Qed.

(** The loop of [LeftJoin] over the left rows [is_]. *)
Lemma LeftJoin_loop_join (is_ : list nat) :
  Forall (fun i => Z.of_nat i < nrows df) is_ ->
  forall ps cols,
    join_columns (join_sources csK csA csB) ps cols ->
    exists cols',
      foldM (LeftJoin_row df b iKeysA iKeysB) (map Z.of_nat is_) cols = Ok cols' /\
      join_columns (join_sources csK csA csB)
        (ps ++ flat_map (left_row_block (key_match df b iKeysA iKeysB) (Z.to_nat (nrows b)))
                        is_)
        cols'.
Proof.
  induction 1 as [|i is_ Hi _ IH]; intros ps cols Hinv.
  - exists cols. cbn. rewrite app_nil_r. now split.
  - destruct (LeftJoin_row_join i Hi ps cols Hinv) as (cols1 & H1 & Hinv1).
    destruct (IH _ cols1 Hinv1) as (cols' & H' & Hinv').
    exists cols'. cbn [map foldM flat_map]. rewrite H1. cbn [mbind result_bind].
    split; [exact H'|]. rewrite app_assoc. exact Hinv'.
Qed.

(** The columns the join starts from. *)
Lemma join_newCols_join :
  exists cols,
    join_newCols df b iKeysA iKeysB = Ok cols /\
    join_columns (join_sources csK csA csB) [] cols.
Proof.
  pose proof (DataFrame_wf_columns_wf df Hdf) as Hwa.
  pose proof (DataFrame_wf_columns_wf b Hb) as Hwb.
  destruct (empty_columns_at _ _ _ true Hwa HcK) as (ek & Ek & Fk).
  destruct (empty_columns_at _ _ _ true Hwa HcA) as (ea & Ea & Fa).
  destruct (empty_columns_at _ _ _ false Hwb HcB) as (eb & Eb & Fb).
  exists ((ek ++ ea) ++ eb). split.
  - unfold join_newCols. rewrite Ek. cbn [mbind result_bind]. rewrite Ea.
    cbn [mbind result_bind]. rewrite Eb. cbn [mbind result_bind]. now rewrite app_assoc.
  - unfold join_sources, join_columns. rewrite map_app.
    apply Forall2_app; [apply Forall2_app|]; assumption.
Qed.

End LeftJoinLoop.

(** The key loop, when every key names a column of both Tables. *)
Lemma findInStringSlice_found (key : string) (names : list string) :
  key ∈ names ->
  0 <= findInStringSlice key names < len names.
Proof.
  intros Hin. destruct (findInStringSlice_from_first key names 0 Hin) as (p & Hp & Hl & _).
  unfold findInStringSlice. rewrite Hp. apply lookup_lt_Some in Hl. unfold len. lia.
Qed.

Lemma join_keys_found (df b : DataFrame) (keys : list string) :
  DataFrame_wf df -> DataFrame_wf b ->
  Forall (fun k => k ∈ map Name (columns df) /\ k ∈ map Name (columns b)) keys ->
  join_keys df b keys
    = Ok (key_positions (map Name (columns df)) keys,
          key_positions (map Name (columns b)) keys, []).
Proof.
  intros Hdf Hb Hk. unfold join_keys.
  set (body := fun '((iKeysA, iKeysB, errorArr) : list Z * list Z * list string)
                   (key : string) =>
         i ← DataFrame_colIndex df key;
         let errorArr :=
           if i <? 0 then errorArr ++ ["在左侧 DataFrame 中找不到键 " +:+ quote key]
           else errorArr in
         j ← DataFrame_colIndex b key;
         let errorArr :=
           if j <? 0 then errorArr ++ ["在右侧 DataFrame 中找不到键 " +:+ quote key]
           else errorArr in
         Ok (iKeysA ++ [i], iKeysB ++ [j], errorArr)).
  assert (Hgen : forall a0 b0 e0,
            foldM body keys (a0, b0, e0)
            = Ok (a0 ++ key_positions (map Name (columns df)) keys,
                  b0 ++ key_positions (map Name (columns b)) keys, e0)).
  { induction Hk as [|key keys [Ha Hbk] _ IH]; intros a0 b0 e0.
    - cbn. now rewrite !app_nil_r.
    - cbn [foldM key_positions map].
      assert (Hstep : body (a0, b0, e0) key
                      = Ok (a0 ++ [findInStringSlice key (map Name (columns df))],
                            b0 ++ [findInStringSlice key (map Name (columns b))], e0)).
      { unfold body, DataFrame_colIndex.
        rewrite (DataFrame_wf_Names df Hdf), (DataFrame_wf_Names b Hb).
        cbn [mbind result_bind].
        pose proof (findInStringSlice_found key _ Ha) as Ra.
        pose proof (findInStringSlice_found key _ Hbk) as Rb.
        replace (findInStringSlice key (map Name (columns df)) <? 0) with false
          by (symmetry; apply Z.ltb_ge; lia).
        replace (findInStringSlice key (map Name (columns b)) <? 0) with false
          by (symmetry; apply Z.ltb_ge; lia).
        reflexivity. }
      rewrite Hstep. cbn [mbind result_bind]. rewrite IH.
      unfold key_positions. now rewrite <- !app_assoc. }
  apply (Hgen [] [] []).
Qed.

Lemma key_positions_in_range (cols : list Series) (keys : list string) :
  Forall (fun k => k ∈ map Name cols) keys ->
  Forall (fun k => 0 <= k < len cols) (key_positions (map Name cols) keys).
Proof.
  intros H. unfold key_positions. apply Forall_forall. intros p Hp.
  apply list_elem_of_In, in_map_iff in Hp. destruct Hp as (key & <- & Hkey).
  apply list_elem_of_In in Hkey. rewrite Forall_forall in H.
  pose proof (findInStringSlice_found key _ (H key Hkey)) as R.
  unfold len in *. rewrite length_map in R. exact R.
Qed.

Lemma not_keys_in_range (n : Z) (iKeys : list Z) :
  Forall (fun k => 0 <= k < n) (not_keys n iKeys).
Proof.
  unfold not_keys, range. apply Forall_forall. intros k Hk.
  apply list_elem_of_In, filter_In in Hk. destruct Hk as [Hk _].
  apply list_elem_of_In, list_elem_of_lookup_1 in Hk. destruct Hk as [p Hp].
  apply lookup_seqZ in Hp. lia.
Qed.

(** The rows of a left join: where they come from. *)
Lemma left_row_block_spec (m : nat -> nat -> bool) (nb i i' : nat) (oj : option nat) :
  (i', oj) ∈ left_row_block m nb i ->
  i' = i /\
  match oj with
  | Some j => (j < nb)%nat /\ m i j = true
  | None => forall j, (j < nb)%nat -> m i j = false
  end.
Proof.
  unfold left_row_block. intros H.
  destruct (List.filter (m i) (seq 0 nb)) as [|j0 js] eqn:Ef.
  - apply list_elem_of_singleton in H. injection H as -> ->. split; [reflexivity|].
    intros j Hj. destruct (m i j) eqn:E; [|reflexivity]. exfalso.
    assert (Hin : In j (List.filter (m i) (seq 0 nb)))
      by (apply filter_In; split; [apply in_seq; lia | exact E]).
    rewrite Ef in Hin. exact Hin.
  - rewrite <- Ef in H. apply list_elem_of_In, in_map_iff in H.
    destruct H as (j & Hj & Hin). injection Hj as -> <-. split; [reflexivity|].
    apply filter_In in Hin. destruct Hin as [Hin Hm]. apply in_seq in Hin.
    split; [lia | exact Hm].
Qed.

Lemma left_join_rows_spec (m : nat -> nat -> bool) (na nb k i : nat) (oj : option nat) :
  left_join_rows m na nb !! k = Some (i, oj) ->
  (i < na)%nat /\
  match oj with
  | Some j => (j < nb)%nat /\ m i j = true
  | None => forall j, (j < nb)%nat -> m i j = false
  end.
Proof.
  intros H. apply list_elem_of_lookup_2, list_elem_of_In in H.
  unfold left_join_rows in H. apply in_flat_map in H. destruct H as (i0 & Hi0 & Hin).
  apply list_elem_of_In, left_row_block_spec in Hin. destruct Hin as [-> Hoj].
  apply in_seq in Hi0. split; [lia | exact Hoj].
Qed.

(** A left row without a match gives exactly one row, the padded one. *)
Lemma left_join_rows_unmatched (m : nat -> nat -> bool) (na nb i : nat) :
  (i < na)%nat -> (forall j, (j < nb)%nat -> m i j = false) ->
  exists k,
    left_join_rows m na nb !! k = Some (i, None) /\
    forall k' oj, left_join_rows m na nb !! k' = Some (i, oj) -> k' = k.
Proof.
  intros Hi Hno. unfold left_join_rows.
  assert (Hblock : left_row_block m nb i = [(i, None)]).
  { unfold left_row_block. rewrite filter_none; [reflexivity|].
    apply Forall_forall. intros j Hj. apply list_elem_of_In, in_seq in Hj.
    apply Hno. lia. }
  assert (Hfirst : forall l x oj,
            (x, oj) ∈ flat_map (left_row_block m nb) l -> x ∈ l).
  { intros l x oj H. apply list_elem_of_In, in_flat_map in H.
    destruct H as (i0 & Hi0 & Hin).
    apply list_elem_of_In, left_row_block_spec in Hin. destruct Hin as [-> _].
    now apply list_elem_of_In. }
  assert (Hsplit : seq 0 na = seq 0 i ++ i :: seq (S i) (na - S i)).
  { replace na with (i + S (na - S i))%nat at 1 by lia.
    rewrite seq_app. reflexivity. }
  rewrite Hsplit, flat_map_app. cbn [flat_map]. rewrite Hblock. cbn [app].
  set (pre := flat_map (left_row_block m nb) (seq 0 i)).
  set (post := flat_map (left_row_block m nb) (seq (S i) (na - S i))).
  exists (length pre). split; [now rewrite list_lookup_middle|].
  intros k' oj Hk'.
  destruct (lt_eq_lt_dec k' (length pre)) as [[Hlt|Heq]|Hgt]; [|exact Heq|]; exfalso.
  - rewrite lookup_app_l in Hk' by exact Hlt.
    apply list_elem_of_lookup_2, Hfirst, list_elem_of_In, in_seq in Hk'. lia.
  - rewrite lookup_app_r in Hk' by lia.
    destruct (k' - length pre)%nat as [|q] eqn:Eq; [lia|]. cbn in Hk'.
    apply list_elem_of_lookup_2, Hfirst, list_elem_of_In, in_seq in Hk'. lia.
Qed.

(** The cells of a Table made of the columns of a join. *)
Lemma join_columns_cell (srcs : list (Series * bool)) (ps : list (nat * option nat))
    (cols : list Series) (r : DataFrame) :
  join_columns srcs ps cols ->
  map elements (columns r) = map elements cols ->
  forall k p c src,
    ps !! k = Some p -> srcs !! c = Some src ->
    exists e', cell r k c = Some e' /\ stands_for (join_cell src p) e'.
Proof.
  intros Hinv Hel k p c src Hk Hc.
  destruct (Forall2_lookup_l _ _ _ _ _ Hinv Hc) as (col & Hcol & _ & _ & _ & HF).
  destruct (Forall2_lookup_l _ _ _ _ _ HF Hk) as (e' & He' & Hs).
  exists e'. split; [|exact Hs]. unfold cell.
  assert (Hl : map elements (columns r) !! c = Some (elements col)).
  { rewrite Hel. change (map ?f ?l) with (f <$> l). now rewrite list_lookup_fmap, Hcol. }
  change (map ?f ?l) with (f <$> l) in Hl. rewrite list_lookup_fmap in Hl.
  destruct (columns r !! c) as [col'|]; [|discriminate]. cbn in Hl.
  injection Hl as ->. exact He'.
Qed.

(** C6. [LeftJoin] on Tables [df] and [b] whose columns include every key
    returns a Table [r] with one row for each entry of [left_join_rows], in
    that order: for each left row [i] in turn, one row for every right row
    [j] whose keys are [Eq] to those of [i], and exactly one row when there
    is none.  In the row for [(i, oj)] the key columns and the other left
    columns hold the text of the elements of left row [i]; the right non-key
    columns hold the text of the elements of right row [j] when [oj] is
    [Some j], and a missing element when the row is padded.  So a left row
    with no match gives exactly one row of the result, with every right
    non-key column missing.  On the frames {id:[1,2], v:[a,b]} and
    {id:[2,3], w:[x,y]} joined on id, [InnerJoin] gives the one row
    (2, b, x), [LeftJoin] the two rows (1, a, missing) and (2, b, x), and
    [OuterJoin] these two and the row (3, missing, y). *)
Theorem LeftJoin_pads_unmatched_rows :
  (forall (df b : DataFrame) (keys : list string),
     DataFrame_wf df -> DataFrame_wf b -> keys <> [] ->
     Forall (fun k => k ∈ map Name (columns df) /\ k ∈ map Name (columns b)) keys ->
     let iKeysA := key_positions (map Name (columns df)) keys in
     let iKeysB := key_positions (map Name (columns b)) keys in
     let lcols := iKeysA ++ not_keys (ncols df) iKeysA in
     let rcols := not_keys (ncols b) iKeysB in
     let out := left_join_rows (key_match df b iKeysA iKeysB)
                               (Z.to_nat (nrows df)) (Z.to_nat (nrows b)) in
     exists r,
       DataFrame_LeftJoin df b keys = Ok r /\ DataFrame_wf r /\
       nrows r = len out /\ ncols r = len lcols + len rcols /\
       (forall k i oj, out !! k = Some (i, oj) ->
          (forall c sc, lcols !! c = Some sc ->
             exists e e',
               cell df i (Z.to_nat sc) = Some e /\ cell r k c = Some e' /\
               Element_String e' = Element_String e) /\
          (forall c sc, rcols !! c = Some sc ->
             exists e',
               cell r k (length lcols + c) = Some e' /\
               match oj with
               | None => Element_IsNA e' = true
               | Some j =>
                   exists e, cell b j (Z.to_nat sc) = Some e /\
                             Element_String e' = Element_String e
               end)) /\
       (forall i, (i < Z.to_nat (nrows df))%nat ->
          (forall j, (j < Z.to_nat (nrows b))%nat ->
             key_match df b iKeysA iKeysB i j = false) ->
          exists k, out !! k = Some (i, None) /\
                    forall k' oj, out !! k' = Some (i, oj) -> k' = k)) /\
  (exists L R inner left outer,
     dataframe_New scenario_left = Ok L /\ dataframe_New scenario_right = Ok R /\
     DataFrame_InnerJoin L R ["id"] = Ok inner /\
     DataFrame_LeftJoin L R ["id"] = Ok left /\
     DataFrame_OuterJoin L R ["id"] = Ok outer /\
     df_Err inner = None /\ nrows inner = 1 /\
     map Name (columns inner) = ["id"; "v"; "w"] /\
     map elements (columns inner) =
       [intElements [mk_intElement 2 false];
        stringElements [mk_stringElement "b" false];
        stringElements [mk_stringElement "x" false]] /\
     df_Err left = None /\ nrows left = 2 /\
     map Name (columns left) = ["id"; "v"; "w"] /\
     map elements (columns left) =
       [intElements [mk_intElement 1 false; mk_intElement 2 false];
        stringElements [mk_stringElement "a" false; mk_stringElement "b" false];
        stringElements [mk_stringElement EmptyString true; mk_stringElement "x" false]] /\
     df_Err outer = None /\ nrows outer = 3 /\
     map Name (columns outer) = ["id"; "v"; "w"] /\
     map elements (columns outer) =
       [intElements [mk_intElement 1 false; mk_intElement 2 false; mk_intElement 3 false];
        stringElements [mk_stringElement "a" false; mk_stringElement "b" false;
                        mk_stringElement EmptyString true];
        stringElements [mk_stringElement EmptyString true; mk_stringElement "x" false;
                        mk_stringElement "y" false]]).
Proof.
  split.
  - intros df b keys Hdf Hb Hne Hk iKeysA iKeysB lcols rcols out.
    assert (HA : Forall (fun k => 0 <= k < len (columns df)) iKeysA).
    { apply key_positions_in_range. eapply Forall_impl; [exact Hk|].
      intros k Hx. apply Hx. }
    assert (HB : Forall (fun k => 0 <= k < len (columns b)) iKeysB).
    { apply key_positions_in_range. eapply Forall_impl; [exact Hk|].
      intros k Hx. apply Hx. }
    assert (HnA : Forall (fun k => 0 <= k < len (columns df)) (not_keys (ncols df) iKeysA)).
    { destruct Hdf as (_ & <- & _). apply not_keys_in_range. }
    assert (HnB : Forall (fun k => 0 <= k < len (columns b)) (not_keys (ncols b) iKeysB)).
    { destruct Hb as (_ & <- & _). apply not_keys_in_range. }
    destruct (columns_at_exists _ _ HA) as [csK HcK].
    destruct (columns_at_exists _ _ HnA) as [csA HcA].
    destruct (columns_at_exists _ _ HnB) as [csB HcB].
    destruct (join_newCols_join df b iKeysA iKeysB csK csA csB Hdf Hb HcK HcA HcB)
      as (cols0 & Hnew & Hinv0).
    pose proof (DataFrame_wf_nrows df Hdf) as Hna.
    pose proof (DataFrame_wf_nrows b Hb) as Hnb.
    assert (Hrange : range 0 (nrows df) = map Z.of_nat (seq 0 (Z.to_nat (nrows df)))).
    { unfold range. rewrite Z.sub_0_r, <- seqZ_of_nat. now rewrite Z2Nat.id. }
    assert (Hrows : Forall (fun i => Z.of_nat i < nrows df) (seq 0 (Z.to_nat (nrows df)))).
    { apply Forall_forall. intros i Hi. apply list_elem_of_In, in_seq in Hi. lia. }
    destruct (LeftJoin_loop_join df b iKeysA iKeysB csK csA csB Hdf Hb HA HB HcK HcA HcB
                _ Hrows [] cols0 Hinv0) as (cols1 & Hloop & Hinv1).
    cbn [app] in Hinv1.
    change (flat_map _ _) with out in Hinv1.
    set (srcs := join_sources csK csA csB) in *.
    pose proof (Forall2_length _ _ _ HcK) as LK.
    pose proof (Forall2_length _ _ _ HcA) as LA.
    pose proof (Forall2_length _ _ _ HcB) as LB.
    assert (Lsrcs : length srcs = (length lcols + length rcols)%nat).
    { unfold srcs, join_sources, lcols, rcols.
      rewrite !length_app, !length_map, !length_app. lia. }
    assert (Hall1 : Forall (fun c => Series_wf c /\
                                     len (Elements_list (elements c)) = len out) cols1).
    { apply Forall_forall. intros c Hc. apply list_elem_of_lookup_1 in Hc.
      destruct Hc as [p Hp].
      destruct (Forall2_lookup_r _ _ _ _ _ Hinv1 Hp) as (src & _ & Hw & _ & _ & HF).
      split; [exact Hw|]. unfold len. f_equal. symmetry.
      exact (Forall2_length _ _ _ HF). }
    assert (Hne1 : cols1 <> []).
    { intros ->. apply Forall2_length in Hinv1. cbn in Hinv1.
      rewrite Lsrcs in Hinv1. unfold lcols, iKeysA, key_positions in Hinv1.
      rewrite length_app, length_map in Hinv1. destruct keys; [contradiction|].
      cbn in Hinv1. lia. }
    destruct (New_frame_of_columns cols1 (len out) Hne1 Hall1)
      as (r & Hr & Hwf & Hnr & Hnc & Hel & _).
    exists r. split.
    { unfold DataFrame_LeftJoin, join_setup.
      replace (len keys =? 0) with false
        by (symmetry; apply Z.eqb_neq; unfold len; destruct keys; [contradiction|]; cbn; lia).
      rewrite (join_keys_found df b keys Hdf Hb Hk). cbn [mbind result_bind].
      change (len [] =? 0) with true. cbn [negb].
      fold iKeysA iKeysB. rewrite Hnew. cbn [mbind result_bind].
      rewrite Hrange, Hloop. cbn [mbind result_bind]. exact Hr. }
    split; [exact Hwf|]. split; [exact Hnr|].
    split.
    { rewrite Hnc. unfold len. rewrite <- (Forall2_length _ _ _ Hinv1), Lsrcs. lia. }
    split.
    + intros k i oj Hk'.
      destruct (left_join_rows_spec _ _ _ _ _ _ Hk') as [Hi Hoj].
      split.
      * intros c sc Hc.
        assert (Hcl : columns_at (columns df) lcols (csK ++ csA))
          by (apply Forall2_app; assumption).
        destruct (Forall2_lookup_l _ _ _ _ _ Hcl Hc) as (col & Hcol & Hsc & Hdfc).
        assert (Hsrc : srcs !! c = Some (col, true)).
        { unfold srcs, join_sources. rewrite lookup_app_l.
          - change (map ?f ?l) with (f <$> l). now rewrite list_lookup_fmap, Hcol.
          - rewrite length_map. eapply lookup_lt_Some. exact Hcol. }
        destruct (join_columns_cell srcs out cols1 r Hinv1 Hel k (i, oj) c _ Hk' Hsrc)
          as (e' & He' & Hs).
        assert (Hlen : len (Elements_list (elements col)) = nrows df).
        { destruct Hdf as (_ & _ & _ & Hcols). rewrite Forall_forall in Hcols.
          apply (Hcols col). eapply list_elem_of_lookup_2. exact Hdfc. }
        destruct (lookup_lt_is_Some_2 (Elements_list (elements col)) i) as [e He];
          [unfold len in Hlen; lia|].
        exists e, e'. split; [unfold cell; now rewrite Hdfc|].
        split; [exact He'|].
        unfold join_cell in Hs. cbn [fst snd] in Hs. rewrite He in Hs. exact Hs.
      * intros c sc Hc.
        destruct (Forall2_lookup_l _ _ _ _ _ HcB Hc) as (col & Hcol & Hsc & Hbc).
        assert (Hsrc : srcs !! (length lcols + c)%nat = Some (col, false)).
        { unfold srcs, join_sources. rewrite lookup_app_r.
          - rewrite length_map.
            replace (length lcols + c - length (csK ++ csA))%nat with c
              by (unfold lcols; rewrite !length_app; lia).
            change (map ?f ?l) with (f <$> l). now rewrite list_lookup_fmap, Hcol.
          - rewrite length_map. unfold lcols. rewrite !length_app. lia. }
        destruct (join_columns_cell srcs out cols1 r Hinv1 Hel k (i, oj) _ _ Hk' Hsrc)
          as (e' & He' & Hs).
        exists e'. split; [exact He'|].
        unfold join_cell in Hs. cbn [fst snd] in Hs.
        destruct oj as [j|]; [|exact Hs].
        assert (Hlen : len (Elements_list (elements col)) = nrows b).
        { destruct Hb as (_ & _ & _ & Hcols). rewrite Forall_forall in Hcols.
          apply (Hcols col). eapply list_elem_of_lookup_2. exact Hbc. }
        destruct (lookup_lt_is_Some_2 (Elements_list (elements col)) j) as [e He];
          [unfold len in Hlen; lia|].
        exists e. split; [unfold cell; now rewrite Hbc|].
        rewrite He in Hs. exact Hs.
    + intros i Hi Hno. apply left_join_rows_unmatched; assumption.
  - do 5 eexists.
    split; [vm_compute; reflexivity|].
    split; [vm_compute; reflexivity|].
    split; [vm_compute; reflexivity|].
    split; [vm_compute; reflexivity|].
    split; [vm_compute; reflexivity|].
    repeat split; reflexivity.
Qed.

End LeftJoinFacts.

(** * Closed instances *)

(** C2 at an integer element tagged missing compared with the text x. *)
Lemma comparisons_with_missing_are_false_witness :
  (Element_IsNA (E_int (mk_intElement 0 true)) = true \/
   Element_IsNA (E_string (mk_stringElement "x" false)) = true) /\
  (Element_Eq (ext := extern_instance)
     (E_int (mk_intElement 0 true)) (E_string (mk_stringElement "x" false)) = false /\
   Element_Neq (ext := extern_instance)
     (E_int (mk_intElement 0 true)) (E_string (mk_stringElement "x" false)) = false /\
   Element_Less (ext := extern_instance)
     (E_int (mk_intElement 0 true)) (E_string (mk_stringElement "x" false)) = false /\
   Element_LessEq (ext := extern_instance)
     (E_int (mk_intElement 0 true)) (E_string (mk_stringElement "x" false)) = false /\
   Element_Greater (ext := extern_instance)
     (E_int (mk_intElement 0 true)) (E_string (mk_stringElement "x" false)) = false /\
   Element_GreaterEq (ext := extern_instance)
     (E_int (mk_intElement 0 true)) (E_string (mk_stringElement "x" false)) = false).
Proof.
  split; [left; reflexivity|].
  apply (comparisons_with_missing_are_false (ext := extern_instance)).
  left; reflexivity.
Defined.

(** C3 with the parser of integer literals for [strconv.ParseFloat]. *)
Lemma Mean_StdDev_of_numeric_text_witness :
  (ParseFloat_intlit "1" = (f64_of_int 1, None) /\
   ParseFloat_intlit "2" = (f64_of_int 2, None)) /\
  (exists s m sd,
     Strings (ext := extern_instance) (v_strings ["1"; "2"]) = Ok s /\
     t s = series.String /\
     Series_Mean (ext := extern_instance) s = Ok m /\
     m = f64_div (f64_of_int 3) (f64_of_int 2) /\
     math_IsNaN m = false /\
     Series_StdDev (ext := extern_instance) s = Ok sd /\ math_IsNaN sd = false).
Proof.
  split; [split; reflexivity|].
  apply (Mean_StdDev_of_numeric_text (ext := extern_instance)); reflexivity.
Defined.

(** C4 as stated fails on a real element: the payload NaN without the tag is
    reported missing. *)
Lemma untagged_NaN_is_reported_missing :
  float_nan (mk_floatElement math_NaN false) = false /\
  float_e (mk_floatElement math_NaN false) = math_NaN /\
  Element_IsNA (E_float (mk_floatElement math_NaN false)) <> false.
Proof. repeat split. discriminate. Qed.

(** C6 at the Tables of the scenario, joined on id: the left row id 1
    matches no right row. *)
Lemma LeftJoin_pads_unmatched_rows_witness :
  let df := sample_left in
  let b := sample_right in
  let keys := ["id"] in
  (DataFrame_wf df /\ DataFrame_wf b /\ keys <> [] /\
   Forall (fun k => k ∈ map Name (columns df) /\ k ∈ map Name (columns b)) keys) /\
  let iKeysA := key_positions (map Name (columns df)) keys in
  let iKeysB := key_positions (map Name (columns b)) keys in
  let lcols := iKeysA ++ not_keys (ncols df) iKeysA in
  let rcols := not_keys (ncols b) iKeysB in
  let out := left_join_rows (key_match (H := extern_instance) df b iKeysA iKeysB)
                            (Z.to_nat (nrows df)) (Z.to_nat (nrows b)) in
  out = [(0%nat, None); (1%nat, Some 0%nat)] /\
  exists r,
    DataFrame_LeftJoin (ext := extern_instance) df b keys = Ok r /\ DataFrame_wf r /\
    nrows r = len out /\ ncols r = len lcols + len rcols /\
    (forall k i oj, out !! k = Some (i, oj) ->
       (forall c sc, lcols !! c = Some sc ->
          exists e e',
            cell df i (Z.to_nat sc) = Some e /\ cell r k c = Some e' /\
            Element_String (ext := extern_instance) e'
            = Element_String (ext := extern_instance) e) /\
       (forall c sc, rcols !! c = Some sc ->
          exists e',
            cell r k (length lcols + c) = Some e' /\
            match oj with
            | None => Element_IsNA e' = true
            | Some j =>
                exists e, cell b j (Z.to_nat sc) = Some e /\
                          Element_String (ext := extern_instance) e'
                          = Element_String (ext := extern_instance) e
            end)) /\
    (forall i, (i < Z.to_nat (nrows df))%nat ->
       (forall j, (j < Z.to_nat (nrows b))%nat ->
          key_match (H := extern_instance) df b iKeysA iKeysB i j = false) ->
       exists k, out !! k = Some (i, None) /\
                 forall k' oj, out !! k' = Some (i, oj) -> k' = k).
Proof.
  intros df b keys.
  assert (h1 : DataFrame_wf df) by (repeat split; try discriminate; repeat constructor).
  assert (h2 : DataFrame_wf b) by (repeat split; try discriminate; repeat constructor).
  assert (h3 : keys <> []) by discriminate.
  assert (h4 : Forall (fun k => k ∈ map Name (columns df) /\ k ∈ map Name (columns b)) keys)
    by (repeat constructor).
  split; [exact (conj h1 (conj h2 (conj h3 h4)))|].
  intros iKeysA iKeysB lcols rcols out.
  split; [reflexivity|].
  exact (proj1 (LeftJoin_pads_unmatched_rows (ext := extern_instance)) df b keys h1 h2 h3 h4).
Defined.

(** C10 at the Table {id, v} and the names x, x. *)
Lemma SetNames_keeps_duplicates_witness :
  (len (columns (mk_DataFrame scenario_left 2 2 None)) = ncols (mk_DataFrame scenario_left 2 2 None) /\
   DataFrame_SetNames (mk_DataFrame scenario_left 2 2 None) ["x"; "x"]
     = Ok (mk_DataFrame (map (fun c => set_Name c "x") scenario_left) 2 2 None, None)) /\
  map Name (columns (mk_DataFrame (map (fun c => set_Name c "x") scenario_left) 2 2 None))
    = ["x"; "x"].
Proof.
  split; [split; reflexivity|].
  apply (proj1 SetNames_keeps_duplicates (mk_DataFrame scenario_left 2 2 None));
    reflexivity.
Defined.

(** C5 as stated fails on the real Column [+0, -0]: the two zeros tie, the
    stable sort leaves them in place in both directions ([Order] returns the
    indexes 0, 1 both times), and the descending Column is the ascending one,
    [+0, -0], not its reverse. *)
Lemma Order_reverse_keeps_the_order_of_ties :
  exists c ra rd,
    Floats (ext := extern_instance) (v_float64s [S754_zero false; S754_zero true]) = Ok c /\
    Series_Order (ext := extern_instance) c false = Ok [0; 1] /\
    Series_Order (ext := extern_instance) c true = Ok [0; 1] /\
    Series_Subset c (v_ints [0; 1]) = Ok ra /\
    Series_Subset c (v_ints [0; 1]) = Ok rd /\
    Series_IsNaN ra = Ok [false; false] /\
    Elements_list (elements ra)
      = [E_float (mk_floatElement (S754_zero false) false);
         E_float (mk_floatElement (S754_zero true) false)] /\
    Elements_list (elements rd) = Elements_list (elements ra) /\
    Elements_list (elements rd) <> rev (Elements_list (elements ra)).
Proof.
  do 3 eexists.
  split; [vm_compute; reflexivity|].
  split; [vm_compute; reflexivity|].
  split; [vm_compute; reflexivity|].
  split; [vm_compute; reflexivity|].
  split; [vm_compute; reflexivity|].
  split; [vm_compute; reflexivity|].
  split; [vm_compute; reflexivity|].
  split; [vm_compute; reflexivity|].
  vm_compute. discriminate.
Qed.

(** C5 at the integer Column [3, missing, 1, 2]. *)
Lemma Order_then_Subset_sorts_witness :
  let c := mk_Series "n"
             (intElements [mk_intElement 3 false; mk_intElement 0 true;
                           mk_intElement 1 false; mk_intElement 2 false])
             series.Int None in
  Series_wf c /\
  (exists ixa ixd ra rd asc desc,
     Series_Order (ext := extern_instance) c false = Ok ixa /\
     Series_Order (ext := extern_instance) c true = Ok ixd /\
     Series_Subset c (v_ints ixa) = Ok ra /\ Series_Subset c (v_ints ixd) = Ok rd /\
     Elements_list (elements ra)
       = asc ++ List.filter Element_IsNA (Elements_list (elements c)) /\
     Elements_list (elements rd)
       = desc ++ List.filter Element_IsNA (Elements_list (elements c)) /\
     asc ≡ₚ List.filter (fun e => negb (Element_IsNA e)) (Elements_list (elements c)) /\
     StronglySorted (fun a b => Element_Less (ext := extern_instance) b a = false)
       (asc ++ List.filter Element_IsNA (Elements_list (elements c))) /\
     Forall2 (tie (H := extern_instance)) desc (rev asc) /\
     (t c <> series.Float -> desc = rev asc) /\
     Forall2 (fun i e => 0 <= i /\ Elements_list (elements c) !! Z.to_nat i = Some e)
       ixa (Elements_list (elements ra)) /\
     Forall2 (fun i e => 0 <= i /\ Elements_list (elements c) !! Z.to_nat i = Some e)
       ixd (Elements_list (elements rd)) /\
     ties_in_original_order (H := extern_instance) (Elements_list (elements c)) ixa /\
     ties_in_original_order (H := extern_instance) (Elements_list (elements c)) ixd).
Proof.
  intros c.
  assert (h0 : Series_wf c) by (split; [reflexivity | exact I]).
  exact (conj h0 (Order_then_Subset_sorts (ext := extern_instance) c h0)).
Defined.


(** * Closed instances of the further properties *)

#[local] Existing Instance extern_instance.

(** A concrete Column, or Table, is well formed by computation. *)
Ltac column_wf := split; [reflexivity | exact I].
Ltac frame_wf :=
  split; [reflexivity | split; [reflexivity | split; [discriminate | repeat constructor]]].
Ltac not_in_names :=
  repeat (apply not_elem_of_cons; split; [discriminate|]); apply not_elem_of_nil.

(** X1 at the integers 1 and 2. *)
Lemma comparisons_of_present_elements_agree_witness :
  let ty := series.Int in
  let a := E_int (mk_intElement 1 false) in
  let b := E_int (mk_intElement 2 false) in
  ((present ty a) /\
   (present ty b)) /\
  ((Element_Less a b = true /\ Element_Eq a b = false /\ Element_Greater a b = false \/
   Element_Less a b = false /\ Element_Eq a b = true /\ Element_Greater a b = false \/
   Element_Less a b = false /\ Element_Eq a b = false /\ Element_Greater a b = true) /\
  Element_Greater a b = Element_Less b a /\
  Element_GreaterEq a b = Element_LessEq b a /\
  Element_Neq a b = negb (Element_Eq a b) /\
  Element_LessEq a b = Element_Less a b || Element_Eq a b).
Proof.
  intros ty a b.
  assert (h0 : present ty a) by (split; reflexivity).
  assert (h1 : present ty b) by (split; reflexivity).
  exact (conj (conj h0 h1) (comparisons_of_present_elements_agree ty a b h0 h1)).
Defined.

(** X4 at the integers 2, 1, 3 in ascending order. *)
Lemma Order_is_a_permutation_witness :
  let s := sample_ints in
  let reverse := false in
  let n := 3 in
  (Series_Len s = Ok n) /\
  (exists ix, Series_Order s reverse = Ok ix /\ Permutation ix (range 0 n)).
Proof.
  intros s reverse n.
  assert (h0 : Series_Len s = Ok n) by reflexivity.
  exact (conj h0 (Order_is_a_permutation s reverse n h0)).
Defined.

(** X5 at the integers 2, 1, 3 and a mask of three entries. *)
Lemma Subset_by_mask_witness :
  let s := sample_ints in
  let mask := [true; false; true] in
  (Series_wf s) /\
  ((length mask = length (Elements_list (elements s)) ->
   exists r,
     Series_Subset s (v_bools mask) = Ok r /\
     Elements_list (elements r)
       = map snd (List.filter fst (zip mask (Elements_list (elements s)))) /\
     Name r = Name s /\ t r = t s /\ Err r = None) /\
  (length mask <> length (Elements_list (elements s)) ->
   Series_Subset s (v_bools mask)
     = Ok (set_Err s (fmt_Errorf "索引错误: 索引维度不匹配")))) /\
  (length mask = length (Elements_list (elements s))) /\
  (exists r,
     Series_Subset s (v_bools mask) = Ok r /\
     Elements_list (elements r)
       = map snd (List.filter fst (zip mask (Elements_list (elements s)))) /\
     Name r = Name s /\ t r = t s /\ Err r = None).
Proof.
  intros s mask.
  assert (h0 : Series_wf s) by column_wf.
  assert (g0 : length mask = length (Elements_list (elements s))) by reflexivity.
  exact (conj h0 (conj (Subset_by_mask s mask h0)
           (conj g0 (proj1 (Subset_by_mask s mask h0) g0)))).
Defined.

(** X6 at the integers 2, 1, 3 and the index 5. *)
Lemma Subset_out_of_range_panics_witness :
  let s := sample_ints in
  let idx := [5] in
  ((Series_wf s) /\
   (Exists (fun i => i < 0 \/ len (Elements_list (elements s)) <= i) idx)) /\
  (Series_Subset s (v_ints idx) = Panic "index out of range").
Proof.
  intros s idx.
  assert (h0 : Series_wf s) by column_wf.
  assert (h1 : Exists (fun i => i < 0 \/ len (Elements_list (elements s)) <= i) idx)
    by (apply Exists_cons_hd; right; unfold len; simpl; lia).
  exact (conj (conj h0 h1) (Subset_out_of_range_panics s idx h0 h1)).
Defined.

(** X7 at the integers 2, 1, 3 and the bounds 0 and 2. *)
Lemma Slice_in_range_witness :
  let s := sample_ints in
  let j := 0 in
  let k := 2 in
  ((Series_wf s) /\
   (0 <= j <= k) /\
   (k < len (Elements_list (elements s)))) /\
  (exists r,
    Series_Slice s j k = Ok r /\
    Elements_list (elements r)
      = take (Z.to_nat (k - j)) (drop (Z.to_nat j) (Elements_list (elements s))) /\
    Name r = Name s /\ t r = t s /\ Err r = None).
Proof.
  intros s j k.
  assert (h0 : Series_wf s) by column_wf.
  assert (h1 : 0 <= j <= k) by lia.
  assert (h2 : k < len (Elements_list (elements s))) by (unfold len; simpl; lia).
  exact (conj (conj h0 (conj h1 h2)) (Slice_in_range s j k h0 h1 h2)).
Defined.

(** X8 at the integers 2, 1, 3 and the bounds 0 and 3. *)
Lemma Slice_out_of_bounds_witness :
  let s := sample_ints in
  let j := 0 in
  let k := 3 in
  ((Series_wf s) /\
   (k < j \/ j < 0 \/ len (Elements_list (elements s)) <= k)) /\
  (exists r,
    Series_Slice s j k = Ok r /\
    Err r = Some "slice index out of bounds" /\
    Elements_list (elements r) = [] /\ Name r = Name s /\ t r = t s).
Proof.
  intros s j k.
  assert (h0 : Series_wf s) by column_wf.
  assert (h1 : k < j \/ j < 0 \/ len (Elements_list (elements s)) <= k)
    by (right; right; unfold len; simpl; lia).
  exact (conj (conj h0 h1) (Slice_out_of_bounds s j k h0 h1)).
Defined.

(** X9 at the integers 2, 1, 3. *)
Lemma Max_Min_of_a_column_witness :
  let s := sample_ints in
  let e0 := E_int (mk_intElement 2 false) in
  let rest := [E_int (mk_intElement 1 false); E_int (mk_intElement 3 false)] in
  ((Series_wf s) /\
   (t s <> series.String) /\
   (Elements_list (elements s) = e0 :: rest) /\
   (Element_IsNA e0 = false)) /\
  (exists emax emin,
    Series_Max s = Ok (Element_Float emax) /\ Series_Min s = Ok (Element_Float emin) /\
    emax ∈ e0 :: rest /\ emin ∈ e0 :: rest /\
    Element_IsNA emax = false /\ Element_IsNA emin = false /\
    Forall (fun e => Element_Greater e emax = false /\ Element_Less e emin = false)
           (e0 :: rest)).
Proof.
  intros s e0 rest.
  assert (h0 : Series_wf s) by column_wf.
  assert (h1 : t s <> series.String) by discriminate.
  assert (h2 : Elements_list (elements s) = e0 :: rest) by reflexivity.
  assert (h3 : Element_IsNA e0 = false) by reflexivity.
  exact (conj (conj h0 (conj h1 (conj h2 h3))) (Max_Min_of_a_column s e0 rest h0 h1 h2 h3)).
Defined.

(** X10 at a missing integer followed by 1. *)
Lemma Max_Min_missing_first_element_witness :
  let s := sample_missing_first in
  let e0 := E_int (mk_intElement 0 true) in
  let rest := [E_int (mk_intElement 1 false)] in
  ((Series_wf s) /\
   (t s <> series.String) /\
   (Elements_list (elements s) = e0 :: rest) /\
   (Element_IsNA e0 = true)) /\
  (exists m n,
    Series_Max s = Ok m /\ Series_Min s = Ok n /\
    math_IsNaN m = true /\ math_IsNaN n = true).
Proof.
  intros s e0 rest.
  assert (h0 : Series_wf s) by column_wf.
  assert (h1 : t s <> series.String) by discriminate.
  assert (h2 : Elements_list (elements s) = e0 :: rest) by reflexivity.
  assert (h3 : Element_IsNA e0 = true) by reflexivity.
  exact (conj (conj h0 (conj h1 (conj h2 h3)))
           (Max_Min_missing_first_element s e0 rest h0 h1 h2 h3)).
Defined.

(** X11 at the texts b, a. *)
Lemma MaxStr_MinStr_of_a_column_witness :
  let s := sample_texts in
  (Series_wf s) /\
  ((t s <> series.String \/ Elements_list (elements s) = [] ->
   Series_MaxStr s = Ok EmptyString /\ Series_MinStr s = Ok EmptyString) /\
  (forall e0 rest,
     t s = series.String -> Elements_list (elements s) = e0 :: rest ->
     Element_IsNA e0 = false ->
     exists emax emin,
       Series_MaxStr s = Ok (Element_String emax) /\
       Series_MinStr s = Ok (Element_String emin) /\
       emax ∈ e0 :: rest /\ emin ∈ e0 :: rest /\
       Element_IsNA emax = false /\ Element_IsNA emin = false /\
       Forall (fun e => Element_Greater e emax = false /\ Element_Less e emin = false)
              (e0 :: rest)) /\
  (forall e0 rest,
     t s = series.String -> Elements_list (elements s) = e0 :: rest ->
     Element_IsNA e0 = true ->
     Series_MaxStr s = Ok "NaN" /\ Series_MinStr s = Ok "NaN")).
Proof.
  intros s.
  assert (h0 : Series_wf s) by column_wf.
  exact (conj h0 (MaxStr_MinStr_of_a_column s h0)).
Defined.

(** X12 at the integers 2, 1, 3 and a missing integer followed by 1. *)
Lemma Concat_of_same_type_witness :
  let s := sample_ints in
  let x := sample_missing_first in
  ((Series_wf s) /\
   (Series_wf x) /\
   (t x = t s)) /\
  (exists y tail,
    Series_Concat s x = Ok y /\ Series_wf y /\ Name y = Name s /\ t y = t s /\
    Elements_list (elements y) = Elements_list (elements s) ++ tail /\
    Series_Records y
      = Ok (map Element_String (Elements_list (elements s))
            ++ map Element_String (Elements_list (elements x))) /\
    map Element_IsNA tail
      = (if is_String (t s) then map (fun _ => false) (Elements_list (elements x))
         else map Element_IsNA (Elements_list (elements x)))).
Proof.
  intros s x.
  assert (h0 : Series_wf s) by column_wf.
  assert (h1 : Series_wf x) by column_wf.
  assert (h2 : t x = t s) by reflexivity.
  exact (conj (conj h0 (conj h1 h2)) (Concat_of_same_type s x h0 h1 h2)).
Defined.

(** X13 at the integers 2, 1, 3 compared with the integer 1. *)
Lemma Compare_with_one_value_witness :
  let s := sample_ints in
  let comp := mk_Series EmptyString (intElements [mk_intElement 1 false]) series.Int None in
  let c := Eq_ in
  let v := v_int 1 in
  let m := E_int (mk_intElement 1 false) in
  ((Series_wf s) /\
   (series_New v (t s) EmptyString = Ok comp) /\
   (Elements_list (elements comp) = [m])) /\
  ((elementwise c ->
   Series_Compare s c v
     = Ok (mk_Series EmptyString
             (boolElements
                (map (fun e => mk_boolElement (fst (compareElements e m c)) false)
                     (Elements_list (elements s))))
             series.Bool None)) /\
  (forall txt, c = comparator_unknown txt -> txt ∉ comparator_texts ->
     (Elements_list (elements s) <> [] ->
      exists r,
        Series_Compare s c v = Ok r /\
        Err r = Some ("未知比较器: " +:+ txt) /\
        Elements_list (elements r) = [] /\ Name r = Name s /\ t r = t s) /\
     (Elements_list (elements s) = [] ->
      Series_Compare s c v
        = Ok (mk_Series EmptyString (boolElements []) series.Bool None)))) /\
  (elementwise c) /\
  (Series_Compare s c v
     = Ok (mk_Series EmptyString
             (boolElements
                (map (fun e => mk_boolElement (fst (compareElements e m c)) false)
                     (Elements_list (elements s))))
             series.Bool None)).
Proof.
  intros s comp c v m.
  assert (h0 : Series_wf s) by column_wf.
  assert (h1 : series_New v (t s) EmptyString = Ok comp) by reflexivity.
  assert (h2 : Elements_list (elements comp) = [m]) by reflexivity.
  assert (g0 : elementwise c) by (left; reflexivity).
  exact (conj (conj h0 (conj h1 h2)) (conj (Compare_with_one_value s comp c v m h0 h1 h2)
           (conj g0 (proj1 (Compare_with_one_value s comp c v m h0 h1 h2) g0)))).
Defined.


(** X15 at the integers 2, 1, 3 and the identity. *)
Lemma Map_applies_f_at_every_position_witness :
  let s := sample_ints in
  let f := fun e : Element => Some e in
  (Series_typed s) /\
  (exists r,
    Series_Map s f = Ok r /\ Series_wf r /\ Name r = Name s /\ t r = t s /\
    length (Elements_list (elements r)) = length (Elements_list (elements s)) /\
    forall i e,
      Elements_list (elements s) !! i = Some e ->
      exists e',
        Elements_list (elements r) !! i = Some e' /\
        match f e with
        | None => Element_IsNA e' = true
        | Some x => Element_Type x = t s -> Element_String e' = Element_String x
        end).
Proof.
  intros s f.
  assert (h0 : Series_typed s) by exact I.
  exact (conj h0 (Map_applies_f_at_every_position s f h0)).
Defined.

(** X16 at the columns id and v of two elements. *)
Lemma New_builds_a_well_formed_frame_witness :
  let se := scenario_left in
  let n := 2 in
  ((se <> []) /\
   (Forall (fun c => Series_wf c /\ len (Elements_list (elements c)) = n) se)) /\
  (exists df,
    dataframe_New se = Ok df /\ DataFrame_wf df /\
    nrows df = n /\ ncols df = len se /\
    map elements (columns df) = map elements se /\
    map t (columns df) = map t se /\
    NoDup (map Name (columns df)) /\
    fixed_names (map Name se) (map Name (columns df))).
Proof.
  intros se n.
  assert (h0 : se <> []) by discriminate.
  assert (h1 : Forall (fun c => Series_wf c /\ len (Elements_list (elements c)) = n) se)
    by (repeat constructor).
  exact (conj (conj h0 h1) (New_builds_a_well_formed_frame se n h0 h1)).
Defined.

(** X18 at two columns without name. *)
Lemma unnamed_columns_are_numbered_witness :
  let se := sample_unnamed in
  let n := 1 in
  ((se <> []) /\
   (Forall (fun c => Series_wf c /\ len (Elements_list (elements c)) = n) se) /\
   (Forall (fun c => Name c = EmptyString) se)) /\
  (exists df,
    dataframe_New se = Ok df /\ df_Err df = None /\
    DataFrame_Names df = Ok (map (fun k => "X" +:+ strconv_Itoa k) (seqZ 0 (len se)))).
Proof.
  intros se n.
  assert (h0 : se <> []) by discriminate.
  assert (h1 : Forall (fun c => Series_wf c /\ len (Elements_list (elements c)) = n) se)
    by (repeat constructor).
  assert (h2 : Forall (fun c => Name c = EmptyString) se) by (repeat constructor).
  exact (conj (conj h0 (conj h1 h2)) (unnamed_columns_are_numbered se n h0 h1 h2)).
Defined.

(** X19 at the Table {id, v} and the rows 1, 0. *)
Lemma Subset_of_rows_witness :
  let df := sample_left in
  let idx := [1; 0] in
  ((DataFrame_wf df) /\
   (Forall (fun i => 0 <= i < nrows df) idx)) /\
  (exists r,
    DataFrame_Subset df (v_ints idx) = Ok r /\ DataFrame_wf r /\
    nrows r = len idx /\ ncols r = ncols df /\
    map Name (columns r) = map Name (columns df) /\
    map t (columns r) = map t (columns df) /\
    forall k i c, idx !! k = Some i -> cell r k c = cell df (Z.to_nat i) c).
Proof.
  intros df idx.
  assert (h0 : DataFrame_wf df) by frame_wf.
  assert (h1 : Forall (fun i => 0 <= i < nrows df) idx)
    by (repeat (constructor; [simpl; lia|]); constructor).
  exact (conj (conj h0 h1) (Subset_of_rows df idx h0 h1)).
Defined.

(** X20 at the Table {id, v} and the name v. *)
Lemma Select_by_names_witness :
  let df := sample_left in
  let xs := ["v"] in
  ((DataFrame_wf df) /\
   (xs <> []) /\
   (NoDup xs) /\
   (EmptyString ∉ xs) /\
   (Forall (fun x => x ∈ map Name (columns df)) xs)) /\
  (exists r,
    DataFrame_Select df (v_strings xs) = Ok r /\ DataFrame_wf r /\
    nrows r = nrows df /\ ncols r = len xs /\
    Forall2 (fun x c =>
               Name c = x /\
               exists p, columns df !! p = Some c /\
                 forall j c', (j < p)%nat -> columns df !! j = Some c' -> Name c' <> x)
            xs (columns r)).
Proof.
  intros df xs.
  assert (h0 : DataFrame_wf df) by frame_wf.
  assert (h1 : xs <> []) by discriminate.
  assert (h2 : NoDup xs) by (apply NoDup_singleton).
  assert (h3 : EmptyString ∉ xs) by not_in_names.
  assert (h4 : Forall (fun x => x ∈ map Name (columns df)) xs) by (repeat constructor).
  exact (conj (conj h0 (conj h1 (conj h2 (conj h3 h4)))) (Select_by_names df xs h0 h1 h2 h3 h4)).
Defined.

(** X21 at the Tables {id, v} and {id, w}. *)
Lemma CBind_joins_the_columns_witness :
  let df := sample_left in
  let dfb := sample_right in
  ((DataFrame_wf df) /\
   (DataFrame_wf dfb)) /\
  ((nrows dfb = nrows df ->
   exists r,
     DataFrame_CBind df dfb = Ok r /\ DataFrame_wf r /\
     nrows r = nrows df /\ ncols r = ncols df + ncols dfb /\
     map elements (columns r) = map elements (columns df) ++ map elements (columns dfb) /\
     map t (columns r) = map t (columns df) ++ map t (columns dfb) /\
     fixed_names (map Name (columns df) ++ map Name (columns dfb))
                 (map Name (columns r))) /\
  (nrows dfb <> nrows df ->
   DataFrame_CBind df dfb = Ok (DataFrame_err "arguments have different dimensions"))) /\
  (nrows dfb = nrows df) /\
  (exists r,
     DataFrame_CBind df dfb = Ok r /\ DataFrame_wf r /\
     nrows r = nrows df /\ ncols r = ncols df + ncols dfb /\
     map elements (columns r) = map elements (columns df) ++ map elements (columns dfb) /\
     map t (columns r) = map t (columns df) ++ map t (columns dfb) /\
     fixed_names (map Name (columns df) ++ map Name (columns dfb))
                 (map Name (columns r))).
Proof.
  intros df dfb.
  assert (h0 : DataFrame_wf df) by frame_wf.
  assert (h1 : DataFrame_wf dfb) by frame_wf.
  assert (g0 : nrows dfb = nrows df) by reflexivity.
  exact (conj (conj h0 h1) (conj (CBind_joins_the_columns df dfb h0 h1)
           (conj g0 (proj1 (CBind_joins_the_columns df dfb h0 h1) g0)))).
Defined.

(** X22 at the Table {id, v} and itself. *)
Lemma RBind_appends_the_rows_witness :
  let df := sample_left in
  let dfb := sample_left in
  ((DataFrame_wf df) /\
   (DataFrame_wf dfb) /\
   (Forall (fun x => x ∈ map Name (columns dfb)) (map Name (columns df)))) /\
  (exists r,
    DataFrame_RBind df dfb = Ok r /\ DataFrame_wf r /\
    nrows r = nrows df + nrows dfb /\ ncols r = ncols df /\
    map t (columns r) = map t (columns df) /\
    fixed_names (map Name (columns df)) (map Name (columns r)) /\
    forall i c, (Z.of_nat i < nrows df) -> cell r i c = cell df i c).
Proof.
  intros df dfb.
  assert (h0 : DataFrame_wf df) by frame_wf.
  assert (h1 : DataFrame_wf dfb) by frame_wf.
  assert (h2 : Forall (fun x => x ∈ map Name (columns dfb)) (map Name (columns df)))
    by (repeat constructor).
  exact (conj (conj h0 (conj h1 h2)) (RBind_appends_the_rows df dfb h0 h1 h2)).
Defined.

(** X23 at the Table {id, v}, where v becomes w. *)
Lemma Rename_writes_the_name_as_given_witness :
  let df := sample_left in
  let newname := "w" in
  let oldname := "v" in
  ((DataFrame_wf df) /\
   (NoDup (map Name (columns df))) /\
   (EmptyString ∉ map Name (columns df))) /\
  ((oldname ∈ map Name (columns df) ->
   exists r,
     DataFrame_Rename df newname oldname = Ok r /\ df_Err r = None /\
     nrows r = nrows df /\ ncols r = ncols df /\
     map Name (columns r)
       = map (fun n => if String.eqb n oldname then newname else n) (map Name (columns df)) /\
     map elements (columns r) = map elements (columns df)) /\
  (oldname ∉ map Name (columns df) ->
   DataFrame_Rename df newname oldname = Ok (DataFrame_err "rename: 无法找到列名"))) /\
  (oldname ∈ map Name (columns df)) /\
  (exists r,
     DataFrame_Rename df newname oldname = Ok r /\ df_Err r = None /\
     nrows r = nrows df /\ ncols r = ncols df /\
     map Name (columns r)
       = map (fun n => if String.eqb n oldname then newname else n) (map Name (columns df)) /\
     map elements (columns r) = map elements (columns df)).
Proof.
  intros df newname oldname.
  assert (h0 : DataFrame_wf df) by frame_wf.
  assert (h1 : NoDup (map Name (columns df)))
    by (apply NoDup_cons; split; [not_in_names | apply NoDup_singleton]).
  assert (h2 : EmptyString ∉ map Name (columns df)) by not_in_names.
  assert (g0 : oldname ∈ map Name (columns df)) by (right; left).
  exact (conj (conj h0 (conj h1 h2))
           (conj (Rename_writes_the_name_as_given df newname oldname h0 h1 h2)
           (conj g0 (proj1 (Rename_writes_the_name_as_given df newname oldname h0 h1 h2) g0)))).
Defined.

(** X24 at a Table that carries an error. *)
Lemma Table_errors_are_sticky_witness :
  let df := sample_failed in
  let e := "failed" in
  (df_Err df = Some e) /\
  ((forall i, DataFrame_Subset df i = Ok df) /\
  (forall i, DataFrame_Select df i = Ok df) /\
  (forall i, DataFrame_Drop df i = Ok df) /\
  (forall a b, DataFrame_Rename df a b = Ok df) /\
  (forall dfb, DataFrame_CBind df dfb = Ok df) /\
  (forall dfa, df_Err dfa = None -> DataFrame_CBind dfa df = Ok df) /\
  (forall dfb, DataFrame_RBind df dfb = Ok df) /\
  (forall dfa, df_Err dfa = None -> DataFrame_RBind dfa df = Ok df) /\
  (forall s, DataFrame_Mutate df s = Ok df) /\
  (forall f, DataFrame_Capply df f = Ok df) /\
  (forall filters, DataFrame_Filter df filters = Ok df) /\
  (forall agg filters, DataFrame_FilterAggregation df agg filters = Ok df) /\
  (forall order, DataFrame_Arrange df order = Ok df) /\
  (forall colname, exists s, DataFrame_Col df colname = Ok s /\ Err s = Some e)).
Proof.
  intros df e.
  assert (h0 : df_Err df = Some e) by reflexivity.
  exact (conj h0 (Table_errors_are_sticky df e h0)).
Defined.

(** X25 at two records of two fields. *)
Lemma transposeRecords_of_a_rectangle_witness :
  let x := [["a"; "b"]; ["c"; "d"]] in
  let m := 2%nat in
  ((x <> []) /\
   ((0 < m)%nat) /\
   (Forall (fun row => length row = m) x)) /\
  (exists y,
       transposeRecords x = Ok y /\ length y = m /\
       Forall (fun col => length col = length x) y /\
       (forall i j row col, x !! j = Some row -> y !! i = Some col -> col !! j = row !! i) /\
       transposeRecords y = Ok x).
Proof.
  intros x m.
  assert (g0 : x <> []) by discriminate.
  assert (g1 : (0 < m)%nat) by lia.
  assert (g2 : Forall (fun row => length row = m) x) by (repeat constructor).
  exact (conj (conj g0 (conj g1 g2)) (proj1 (transposeRecords_of_a_rectangle x) m g0 g1 g2)).
Defined.

(** X26 at the Table {id, v}. *)
Lemma Records_lists_the_rows_witness :
  let df := sample_left in
  (DataFrame_wf df) /\
  ((0 < nrows df ->
   exists rows,
     DataFrame_Records df = Ok (map Name (columns df) :: rows) /\
     len rows = nrows df /\
     Forall (fun row => len row = ncols df) rows /\
     forall r c e, cell df r c = Some e ->
       exists row, rows !! r = Some row /\ row !! c = Some (Element_String e)) /\
  (nrows df = 0 -> DataFrame_Records df = Ok [map Name (columns df)])) /\
  (0 < nrows df) /\
  (exists rows,
     DataFrame_Records df = Ok (map Name (columns df) :: rows) /\
     len rows = nrows df /\
     Forall (fun row => len row = ncols df) rows /\
     forall r c e, cell df r c = Some e ->
       exists row, rows !! r = Some row /\ row !! c = Some (Element_String e)).
Proof.
  intros df.
  assert (h0 : DataFrame_wf df) by frame_wf.
  assert (g0 : 0 < nrows df) by (simpl; lia).
  exact (conj h0 (conj (Records_lists_the_rows df h0)
           (conj g0 (proj1 (Records_lists_the_rows df h0) g0)))).
Defined.

(** X27 at the header a and the record 1. *)
Lemma LoadRecords_reads_a_header_and_rows_witness :
  let header := ["a"] in
  let rows := [["1"]] in
  ((header <> []) /\
   (rows <> [])) /\
  ((Forall (fun row => (length header <= length row)%nat) rows ->
   exists df,
     LoadRecords (header :: rows) [] = Ok df /\ DataFrame_wf df /\
     nrows df = len rows /\ ncols df = len header /\
     fixed_names header (map Name (columns df)) /\
     (forall c col, columns df !! c = Some col ->
        t col = fst (findType (read_column rows c))) /\
     (forall r c row text,
        rows !! r = Some row -> row !! c = Some text -> (c < length header)%nat ->
        exists e, cell df r c = Some e /\
          (text ∈ nanValues default_loadOptions -> Element_IsNA e = true) /\
          (text ∉ nanValues default_loadOptions -> Element_Type e = series.String ->
           Element_IsNA e = false /\ Element_String e = text))) /\
  (Exists (fun row => (length row < length header)%nat) rows ->
   LoadRecords (header :: rows) [] = Panic "index out of range")) /\
  (Forall (fun row => (length header <= length row)%nat) rows) /\
  (exists df,
     LoadRecords (header :: rows) [] = Ok df /\ DataFrame_wf df /\
     nrows df = len rows /\ ncols df = len header /\
     fixed_names header (map Name (columns df)) /\
     (forall c col, columns df !! c = Some col ->
        t col = fst (findType (read_column rows c))) /\
     (forall r c row text,
        rows !! r = Some row -> row !! c = Some text -> (c < length header)%nat ->
        exists e, cell df r c = Some e /\
          (text ∈ nanValues default_loadOptions -> Element_IsNA e = true) /\
          (text ∉ nanValues default_loadOptions -> Element_Type e = series.String ->
           Element_IsNA e = false /\ Element_String e = text))).
Proof.
  intros header rows.
  assert (h0 : header <> []) by discriminate.
  assert (h1 : rows <> []) by discriminate.
  assert (g0 : Forall (fun row => (length header <= length row)%nat) rows)
    by (repeat constructor).
  exact (conj (conj h0 h1) (conj (LoadRecords_reads_a_header_and_rows header rows h0 h1)
           (conj g0 (proj1 (LoadRecords_reads_a_header_and_rows header rows h0 h1) g0)))).
Defined.

(** X28 at the Tables {id, v} and {id, w}. *)
Lemma CrossJoin_pairs_every_row_witness :
  let df := sample_left in
  let b := sample_right in
  ((DataFrame_wf df) /\
   (DataFrame_wf b)) /\
  (exists r,
    DataFrame_CrossJoin df b = Ok r /\ DataFrame_wf r /\
    nrows r = nrows df * nrows b /\ ncols r = ncols df + ncols b /\
    map t (columns r) = map t (columns df) ++ map t (columns b) /\
    fixed_names (map Name (columns df) ++ map Name (columns b)) (map Name (columns r)) /\
    map col_texts (columns r)
      = map (fun c => flat_map (replicate (Z.to_nat (nrows b))) (col_texts c)) (columns df)
        ++ map (fun c => concat (replicate (Z.to_nat (nrows df)) (col_texts c))) (columns b)).
Proof.
  intros df b.
  assert (h0 : DataFrame_wf df) by frame_wf.
  assert (h1 : DataFrame_wf b) by frame_wf.
  exact (conj (conj h0 h1) (CrossJoin_pairs_every_row df b h0 h1)).
Defined.

(** X29 at the Table {id, v} and the filter id == 1. *)
Lemma Filter_keeps_the_rows_that_compare_witness :
  let df := sample_left in
  let i := 0 in
  let name := "id" in
  let c := Eq_ in
  let v := v_int 1 in
  let p := 0%nat in
  let col := sample_id in
  let comp := mk_Series EmptyString (intElements [mk_intElement 1 false]) series.Int None in
  let m := E_int (mk_intElement 1 false) in
  ((DataFrame_wf df) /\
   (name <> EmptyString)) /\
  ((forall (p : nat) (col comp : Series) (m : Element),
     columns df !! p = Some col -> Name col = name ->
     (forall j c', (j < p)%nat -> columns df !! j = Some c' -> Name c' <> name) ->
     elementwise c ->
     series_New v (t col) EmptyString = Ok comp ->
     Elements_list (elements comp) = [m] ->
     exists r,
       DataFrame_Filter df [mk_F i name c v] = Ok r /\ DataFrame_wf r /\
       ncols r = ncols df /\
       Forall2 (fun c0 rc =>
                  Name rc = Name c0 /\ t rc = t c0 /\
                  Elements_list (elements rc)
                    = map snd
                        (List.filter fst
                           (zip (map (fun e => fst (compareElements e m c))
                                     (Elements_list (elements col)))
                                (Elements_list (elements c0)))))
               (columns df) (columns r)) /\
  (name ∉ map Name (columns df) ->
   DataFrame_Filter df [mk_F i name c v] = Ok (DataFrame_err "filter: 无法找到列名"))) /\
  ((columns df !! p = Some col) /\
   (Name col = name) /\
   ((forall j c', (j < p)%nat -> columns df !! j = Some c' -> Name c' <> name)) /\
   (elementwise c) /\
   (series_New v (t col) EmptyString = Ok comp) /\
   (Elements_list (elements comp) = [m])) /\
  (exists r,
       DataFrame_Filter df [mk_F i name c v] = Ok r /\ DataFrame_wf r /\
       ncols r = ncols df /\
       Forall2 (fun c0 rc =>
                  Name rc = Name c0 /\ t rc = t c0 /\
                  Elements_list (elements rc)
                    = map snd
                        (List.filter fst
                           (zip (map (fun e => fst (compareElements e m c))
                                     (Elements_list (elements col)))
                                (Elements_list (elements c0)))))
               (columns df) (columns r)).
Proof.
  intros df i name c v p col comp m.
  assert (h0 : DataFrame_wf df) by frame_wf.
  assert (h1 : name <> EmptyString) by discriminate.
  assert (g0 : columns df !! p = Some col) by reflexivity.
  assert (g1 : Name col = name) by reflexivity.
  assert (g2 : (forall j c', (j < p)%nat -> columns df !! j = Some c' -> Name c' <> name))
    by (intros j c' Hj; lia).
  assert (g3 : elementwise c) by (left; reflexivity).
  assert (g4 : series_New v (t col) EmptyString = Ok comp) by reflexivity.
  assert (g5 : Elements_list (elements comp) = [m]) by reflexivity.
  exact (conj (conj h0 h1) (conj (Filter_keeps_the_rows_that_compare df i name c v h0 h1)
           (conj (conj g0 (conj g1 (conj g2 (conj g3 (conj g4 g5))))) (proj1 (Filter_keeps_the_rows_that_compare df i name c v h0 h1) p col comp m g0 g1 g2 g3 g4 g5)))).
Defined.

(** X30 at the Table {id, v} and the order by id. *)
Lemma Arrange_by_one_column_witness :
  let df := sample_left in
  let o := mk_Order "id" false in
  let p := 0%nat in
  let col := sample_id in
  (DataFrame_wf df) /\
  ((forall (p : nat) (col : Series),
     columns df !! p = Some col -> Name col = Order_Colname o ->
     (forall j c', (j < p)%nat -> columns df !! j = Some c' -> Name c' <> Order_Colname o) ->
     exists ix r,
       Series_Order col (Reverse o) = Ok ix /\ Permutation ix (range 0 (nrows df)) /\
       DataFrame_Arrange df [o] = Ok r /\ DataFrame_Subset df (v_ints ix) = Ok r /\
       DataFrame_wf r /\ nrows r = nrows df /\ ncols r = ncols df /\
       map Name (columns r) = map Name (columns df) /\
       map t (columns r) = map t (columns df) /\
       forall k i c, ix !! k = Some i -> cell r k c = cell df (Z.to_nat i) c) /\
  (Order_Colname o ∉ map Name (columns df) ->
   DataFrame_Arrange df [o]
     = Ok (DataFrame_err ("colname " +:+ Order_Colname o +:+ " 不存在"))) /\
  DataFrame_Arrange df [] = Ok (DataFrame_err "rename: 无参数")) /\
  ((columns df !! p = Some col) /\
   (Name col = Order_Colname o) /\
   ((forall j c', (j < p)%nat -> columns df !! j = Some c' -> Name c' <> Order_Colname o))) /\
  (exists ix r,
       Series_Order col (Reverse o) = Ok ix /\ Permutation ix (range 0 (nrows df)) /\
       DataFrame_Arrange df [o] = Ok r /\ DataFrame_Subset df (v_ints ix) = Ok r /\
       DataFrame_wf r /\ nrows r = nrows df /\ ncols r = ncols df /\
       map Name (columns r) = map Name (columns df) /\
       map t (columns r) = map t (columns df) /\
       forall k i c, ix !! k = Some i -> cell r k c = cell df (Z.to_nat i) c).
Proof.
  intros df o p col.
  assert (h0 : DataFrame_wf df) by frame_wf.
  assert (g0 : columns df !! p = Some col) by reflexivity.
  assert (g1 : Name col = Order_Colname o) by reflexivity.
  assert (g2 : (forall j c', (j < p)%nat -> columns df !! j = Some c' -> Name c' <> Order_Colname o))
    by (intros j c' Hj; lia).
  exact (conj h0 (conj (Arrange_by_one_column df o h0)
           (conj (conj g0 (conj g1 g2)) (proj1 (Arrange_by_one_column df o h0) p col g0 g1 g2)))).
Defined.
